(* ===== verification/_CoqProject ===== *)
-Q . S2P
Prelude.v
Machine.v
Str.v
Volume.v
DirEntry.v
Names.v
DirSpec.v
Path.v
Stability.v
FileOps.v
FileOpsSpec.v
WriteSpec.v
CreateSpec.v
FsModel.v
FsAbs.v
FsFrame.v
FsRefine.v
FsWrite.v
FsSim.v
FsCheck.v
Vga.v
Shell.v
ShellSpec.v
Alloc.v
Bump.v
LinkedList.v
LinkedMem.v
FixedBlock.v
FixedMem.v
DList.v
Rings.v
Slab.v
SlabRep.v
SlabSpec.v
Memory.v
Heap.v
Interrupts.v
Atomic.v
Tables.v
Kernel.v
Harness.v
Sample.v
Witness.v
WitnessFs.v
WitnessAlloc.v
WitnessKernel.v
