(* ===== verification/Prelude.v ===== *)
(** * A verification library for the FAT32 kernel

    The program is a small x86_64 kernel in Rust (sources under [src/src]) that
    mounts a FAT32 image held in memory, offers a shell on it and prints to the
    VGA text buffer; its heap is served by one of four allocators.

    ** The program and the files that model it

    - [Prelude]: tactics, hint databases, lists indexed by [Z].
    - [Machine]: the Rust fragment: [outcome] (a value, a panic, or a loop that
      did not end), [result] and the operator [?] as the [method] monad,
      fixed-width arithmetic under a build [Profile] (overflow panics or wraps),
      bounds-checked slices, little-endian conversions.
    - [Str]: what the code uses of strings: splitting, searching, UTF-8, UTF-16,
      upper-casing (Unicode case mapping beyond ASCII is the class
      [UnicodeCase]).
    - [Volume] ([file_system.rs]: [Fat32FileSystem], [new], [read_sector],
      [read_cluster], [read_fat_entry], [write_fat_entry]): the disk image as a
      byte list, the geometry invariant [volume fs n] ([n] data clusters), and
      the views [cluster_data] and [fat_get] that all later files reason with.
    - [DirEntry] (the second half of [file_system.rs]): short and long directory
      entries and [list_directory_entries].  [DirSpec] is its specification: a
      directory as a list of [record]s, their on-disk layout and meaning.
    - [Names]: [format_to_8_3].  [Path]: [parse_path], [find_parent_cluster],
      [read_file]; cluster chains and the directory [tree].  [Stability]: the
      preorder [extends] under which existing paths keep their meaning.
    - [FileOps]: the mutating operations [allocate_cluster],
      [write_directory_entry], [init_directory_cluster], [create_file], [mkdir],
      [update_file_size], [write_file]; [FileOpsSpec], [WriteSpec] and
      [CreateSpec] are their correctness.
    - [FsModel]: the abstract file system that callers see: directories as lists
      of links, files as byte strings, a count of free clusters; [astep] gives
      the replies and effects of each operation, [allowed] what it asks of its
      caller (a new name is printable and goes into a directory, a cluster is
      free, the parent of a file to write is not spelled with a trailing dot).
      [FsAbs]: the representation invariant [well_formed] (a tree of plain
      directories and chains that own their clusters) and the abstraction
      function.  [FsFrame], [FsRefine], [FsWrite]: the simulation, operation by
      operation.  [FsSim]: the refinement and isolation theorems.  [FsCheck]: a
      decision procedure for [well_formed].
    - [Vga] ([vga_buffer.rs]): the writer and its grid.
    - [Shell] ([file_system/interface.rs]): sessions over a [World] that holds
      the file system behind its lock and the console.  [ShellSpec]: the abstract
      shell over [FsModel], which any number of sessions refine.
    - [Alloc] ([allocator.rs]): [align_up], layouts, and the contract of
      [GlobalAlloc] as the classes [AllocatorSafe] (what is answered is right)
      and [AllocatorSpec] (everything is answered) with client theorems, for
      clients that also write to their blocks ([uses]); the lock [Locked], which
      keeps both contracts.  [Bump], [LinkedList], [FixedBlock]
      ([allocator/*.rs]) are instances of both, the slab allocator of the first.
    - [LinkedMem], [FixedMem]: the linked-list and the fixed-size-block
      allocator again, with their nodes in the free memory and every link
      followed and written as in the code; they refine [LinkedList] and
      [FixedBlock].
    - [DList], [Slab] ([allocator/slab.rs]): the slab allocator over a typed
      memory, and its doubly linked lists pointer by pointer.  [Rings]: the
      family of lists that the caches keep.  [SlabRep]: size classes and the
      invariant that relates the memory to a map of the pages of the heap.
      [SlabSpec]: the operations keep it, hence the contract.
    - [Memory] ([memory.rs], [init_heap] of [allocator.rs]): frame allocators,
      the active page table and the mapping of the heap.  [Heap]: what clients
      of the global allocator get in physical memory.
    - [Interrupts] ([interrupts.rs], [_print] of [vga_buffer.rs] and of
      [serial.rs], the panic handler of [main.rs]): handlers and critical
      sections as instructions of a machine with an interrupt flag and four
      locks.  [Atomic]: the order and integrity of what it prints.
    - [Tables] ([gdt.rs], [IDT] of [interrupts.rs], [init] of [lib.rs]): the
      tables and the order in which the processor is told about them.
    - [Kernel] ([main.rs]): the boot over all of the above, the copy of the image
      to the heap included, and the script as calls of the file system.
    - [Harness] ([lib.rs], [serial.rs], the tests of [vga_buffer.rs] and of
      [interrupts.rs]): the test kernel, the test runner, its report and its
      exit codes.
    - [Sample], [Witness], [WitnessFs], [WitnessAlloc], [WitnessKernel]: concrete
      images, screen, heaps, memory map and tables on which the hypotheses of
      the properties are shown to hold, and a complete boot.

    The shell calls the file system and the console; the file system is one
    byte array that every operation reads and overwrites in place, so each
    mutating operation is a function from state to state and an [Err] keeps
    what was written before it.

    ** What is proved

    - Volume: mounting recovers the BIOS parameter block; FAT entries round-trip
      and keep their reserved bits.
    - Directories: listing refines the records; 8.3 names round-trip.
    - Paths: resolution composes, never panics on a closed tree and stays in it;
      creations and writes leave every existing path with its meaning and
      extend the tree as they should.
    - Files: creating, writing and reading back yields what was written; the
      effect of each operation on every cluster and FAT entry is stated; the
      failing branches are stated with what they leave behind: clusters that leak,
      and data that a write to a file with a long name stores before it fails.
    - Refinement: a client that respects the abstract specification can run any
      sequence of creations and writes; replies and everything it can read
      afterwards are those of the abstract file system.  Writes and creations
      are isolated: no other path reads differently.
    - Shell: the sessions that share a file system refine an abstract shell:
      replies, moves, text on the console, the free lock and the file system
      after any allowed commands in any interleaving.
    - Console: the grid shows the last 25 rows of an unbounded scrollback.
    - Allocators: live blocks are aligned, inside the heap and disjoint after
      any sequence of requests; every live block can be freed, and what a free
      makes available again is stated.  The free lists that live in free memory
      survive whatever clients write to their blocks, and no walk over them fails
      or runs for ever.  For the slab
      allocator this holds for sizes up to 8, powers of two up to 2048 and
      alignments up to 8 ([regular_iff]), and for large blocks; its own data is
      disjoint from the blocks.  Every other size breaks it, and a theorem shows
      how ([slab_irregular_overlap]).
    - Memory: each usable frame is handed out once; every address of the heap is
      mapped, each page to a frame of its own.  Composed with the lock and the slab allocator:
      no two live blocks share a byte of physical memory.
    - Boot: [init] is safe (no fault, interrupts on only when every table is in
      place, a double fault has its own stack); an image that does not fit the
      heap stops the boot, and with any other it ends as the script does on the
      mounted file system, with the text of the script on the console.
    - Interrupts: printing cannot deadlock with the handlers and always ends;
      messages are never torn; a page fault is reported unless it strikes while
      the console is locked.
    - Harness: the exit code says whether every test returned, and the tests of
      the library pass on every console.

    ** Bounds and fuel

    Loops over slices and ranges recurse on the list or on the number of
    iterations left.  The loop of [read_file] can run for ever: [read_chain]
    has fuel, [Diverge] means it was used up.  A chain on a volume of [n]
    clusters has at most [n] links ([fat_chain_length]), so [n] is enough, and
    on a cyclic chain no fuel is ([read_file_cycle]).  The walk of
    [mem_find_region] over the nodes in memory has fuel for one more step than
    there are nodes, and [linked_mem_clients] says that it always ends.  A call
    on a lock that is held is [Diverge]: nothing would release it.

    ** Not modelled

    The programming of the UART, of the interrupt controllers and of the
    emulator's exit port happens in other crates: the model has what is written
    to them. [lazy_static] initialisation and the mapping of the VGA buffer are
    hardware. No handler allocates, so an allocator call is one step of the
    model, with its lock taken and released. A nested exception other than a
    breakpoint of the program is modelled from the state it strikes in
    ([raise]), not as a step of every run. The integration tests under [tests]
    are not modelled. The copy of the image is the only request of the kernel to
    its heap that is modelled; the other data it keeps there (the handle that
    sessions share, names, fragments, buffers) are values of the model: the
    allocators are verified against their clients' requests, not below the file
    system. The fallback
    heap of [FixedBlock], [VirtAddr::new], the memory map, the page tables, the
    descriptor tables and the keyboard decoder belong to other crates and are
    parameters, with the documented behaviour that is relied on as a class. *)

From Corelib Require Export ssreflect.
From stdpp Require Export base tactics numbers option list strings gmap.
From Stdlib Require Export ZArith Lia.

#[export] Set Default Goal Selector "!".
Open Scope Z_scope.

(** ** Automation *)

(** [len]: rewriting with the lengths of list operations, closed by [lia]. *)
Create Rewrite HintDb len.

(** [fat]: the resolution database of the development; the components add the
    lemmas that discharge each other's side conditions. *)
Create HintDb fat discriminated.

(** Case analysis on the boolean comparison at the head of the goal or of a
    hypothesis, turning it into the proposition it decides. *)
Ltac case_test :=
  match goal with
  | |- context [if (?a <=? ?b)%Z then _ else _] => destruct (Z.leb_spec a b)
  | |- context [if (?a <? ?b)%Z then _ else _] => destruct (Z.ltb_spec a b)
  | |- context [if (?a =? ?b)%Z then _ else _] => destruct (Z.eqb_spec a b)
  | H : context [if (?a <=? ?b)%Z then _ else _] |- _ => destruct (Z.leb_spec a b)
  | H : context [if (?a <? ?b)%Z then _ else _] |- _ => destruct (Z.ltb_spec a b)
  | H : context [if (?a =? ?b)%Z then _ else _] |- _ => destruct (Z.eqb_spec a b)
  end.

(** ** Lists indexed by [Z]

    The program indexes byte arrays with machine integers, so positions are
    [Z]; every lemma below asks for the bounds it needs as linear facts. *)

Definition zlen {A} (l : list A) : Z := Z.of_nat (length l).

(** Linear arithmetic that sees through [zlen]. *)
Ltac zlia := first [lia | unfold zlen in *; lia].

Ltac len := autorewrite with len in *; try zlia.

(** Resolve a boolean comparison whose truth value [lia] knows. *)
Ltac ztrue :=
  repeat match goal with
  | |- context [(?a <=? ?b)%Z] =>
      first [ rw (proj2 (Z.leb_le a b)); [zlia|]
            | rw (proj2 (Z.leb_gt a b)); [zlia|] ]
  | |- context [(?a <? ?b)%Z] =>
      first [ rw (proj2 (Z.ltb_lt a b)); [zlia|]
            | rw (proj2 (Z.ltb_ge a b)); [zlia|] ]
  | |- context [(?a =? ?b)%Z] =>
      first [ rw (proj2 (Z.eqb_eq a b)); [zlia|]
            | rw (proj2 (Z.eqb_neq a b)); [zlia|] ]
  end; cbn [andb orb negb].

(** [sub i n l]: the [n] elements of [l] from position [i], the value of the
    Rust slice [&l[i..i + n]] when it is in bounds. *)
Definition sub {A} (i n : Z) (l : list A) : list A :=
  take (Z.to_nat n) (drop (Z.to_nat i) l).

(** [splice i s l]: [l] with the elements from position [i] on overwritten by
    [s], the effect of [l[i..i + s.len()].copy_from_slice(s)]. *)
Definition splice {A} (i : Z) (s l : list A) : list A :=
  take (Z.to_nat i) l ++ s ++ drop (Z.to_nat i + length s) l.

(** [chunks_exact n l]: the consecutive [n]-element blocks of [l], the
    remainder that does not fill a block left out. *)
Definition chunks_exact {A} (n : Z) (l : list A) : list (list A) :=
  (λ k, sub (k * n) n l) <$> seqZ 0 (zlen l / n).

Lemma zlen_nonneg {A} (l : list A) : 0 <= zlen l.
Proof. rw /zlen. lia. Qed.

Lemma zlen_nil {A} : zlen (@nil A) = 0.
Proof. done. Qed.

Lemma zlen_cons {A} (x : A) l : zlen (x :: l) = 1 + zlen l.
Proof. rw /zlen /=. lia. Qed.

Lemma zlen_app {A} (l k : list A) : zlen (l ++ k) = zlen l + zlen k.
Proof. rw /zlen length_app. lia. Qed.

Lemma zlen_fmap {A B} (f : A → B) l : zlen (f <$> l) = zlen l.
Proof. by rw /zlen length_fmap. Qed.

Lemma zlen_replicate {A} n (x : A) : zlen (replicate n x) = Z.of_nat n.
Proof. by rw /zlen length_replicate. Qed.

Lemma zlen_take {A} n (l : list A) : zlen (take n l) = Z.min (Z.of_nat n) (zlen l).
Proof. rw /zlen length_take. lia. Qed.

Lemma zlen_drop {A} n (l : list A) : zlen (drop n l) = Z.max 0 (zlen l - Z.of_nat n).
Proof. rw /zlen length_drop. lia. Qed.

Lemma zlen_0 {A} (l : list A) : zlen l = 0 → l = [].
Proof. case: l => //. Qed.

Lemma zlen_S {A} (l : list A) k :
  zlen l = Z.of_nat (S k) → ∃ x l', l = x :: l' ∧ zlen l' = Z.of_nat k.
Proof. case: l => [|x l'] //. rw zlen_cons => ?. exists x, l'. split; [done|lia]. Qed.

Lemma to_nat_zlen {A} (l : list A) : Z.to_nat (zlen l) = length l.
Proof. rw /zlen. lia. Qed.

Lemma of_nat_length {A} (l : list A) : Z.of_nat (length l) = zlen l.
Proof. done. Qed.

#[export] Hint Rewrite @zlen_nil @zlen_cons @zlen_app @zlen_fmap @zlen_replicate
  @zlen_take @zlen_drop @to_nat_zlen : len.

Lemma zlen_sub {A} i n (l : list A) :
  0 <= i → 0 <= n → i + n <= zlen l → zlen (sub i n l) = n.
Proof. rw /sub /zlen length_take length_drop. lia. Qed.

Lemma length_sub {A} i n (l : list A) :
  0 <= i → 0 <= n → i + n <= zlen l → length (sub i n l) = Z.to_nat n.
Proof. rw /sub /zlen length_take length_drop. lia. Qed.

Lemma zlen_splice {A} i (s l : list A) :
  0 <= i → i + zlen s <= zlen l → zlen (splice i s l) = zlen l.
Proof. rw /splice /zlen !length_app length_take length_drop. lia. Qed.

#[export] Hint Rewrite @zlen_sub @zlen_splice using zlia : len.

Lemma lookup_sub {A} i n (l : list A) (k : nat) :
  0 <= i → Z.of_nat k < n → sub i n l !! k = l !! (Z.to_nat i + k)%nat.
Proof. move=> ??. rw /sub lookup_take_lt ?lookup_drop //. lia. Qed.

Lemma lookup_splice_in {A} i (s l : list A) (k : nat) :
  0 <= i → i + zlen s <= zlen l → i <= Z.of_nat k < i + zlen s →
  splice i s l !! k = s !! (k - Z.to_nat i)%nat.
Proof.
  rw /splice /zlen => ???.
  rw lookup_app_r length_take; [lia|].
  rw lookup_app_l; [lia|]. f_equal. lia.
Qed.

Lemma lookup_splice_out {A} i (s l : list A) (k : nat) :
  0 <= i → i + zlen s <= zlen l →
  Z.of_nat k < i ∨ i + zlen s <= Z.of_nat k →
  splice i s l !! k = l !! k.
Proof.
  rw /splice /zlen => ?? [?|?].
  - rw lookup_app_l ?length_take; [lia|]. rw lookup_take_lt //. lia.
  - rw lookup_app_r length_take; [lia|].
    rw lookup_app_r; [lia|]. rw lookup_drop. f_equal. lia.
Qed.

(** Two lists of the same length that agree at every position are equal. *)
Lemma list_eq_lookup {A} (l k : list A) :
  length l = length k →
  (∀ i, (i < length l)%nat → l !! i = k !! i) → l = k.
Proof.
  move=> Hlen H. apply list_eq => i.
  destruct (decide (i < length l)%nat); [by apply H|].
  rw !lookup_ge_None_2 //; lia.
Qed.

Lemma sub_splice_same {A} i (s l : list A) :
  0 <= i → i + zlen s <= zlen l → sub i (zlen s) (splice i s l) = s.
Proof.
  move=> ??. apply list_eq_lookup.
  - rw length_sub ?zlen_splice; len.
  - move=> k. rw length_sub ?zlen_splice; [len..|]. move=> ?.
    rw lookup_sub; [len..|]. rw lookup_splice_in; [len..|].
    f_equal. lia.
Qed.

Lemma sub_splice_disjoint {A} i j n (s l : list A) :
  0 <= i → i + zlen s <= zlen l → 0 <= j → 0 <= n → j + n <= zlen l →
  j + n <= i ∨ i + zlen s <= j →
  sub j n (splice i s l) = sub j n l.
Proof.
  move=> ??????. apply list_eq_lookup.
  - rw !length_sub ?zlen_splice; lia.
  - move=> k. rw length_sub ?zlen_splice; [lia..|]. move=> ?.
    rw !lookup_sub; [lia..|]. rw lookup_splice_out //; lia.
Qed.

Lemma sub_splice_within {A} i k n (s l : list A) :
  0 <= i → 0 <= k → k + zlen s <= n → i + n <= zlen l →
  sub i n (splice (i + k) s l) = splice k s (sub i n l).
Proof.
  move=> ????. have ? := zlen_nonneg s. apply list_eq_lookup.
  - apply Nat2Z.inj. rw !of_nat_length zlen_sub ?zlen_splice ?zlen_sub; lia.
  - move=> p. rw length_sub ?zlen_splice; [lia..|]. move=> ?.
    rw lookup_sub; [lia..|].
    destruct (decide (k <= Z.of_nat p < k + zlen s)).
    + rw !lookup_splice_in ?zlen_sub; [lia..|]. f_equal. lia.
    + rw !lookup_splice_out ?zlen_sub; [lia..|]. by rw lookup_sub; [lia..|].
Qed.

Lemma sub_sub {A} i j m n (l : list A) :
  0 <= i → 0 <= j → j + m <= n → sub j m (sub i n l) = sub (i + j) m l.
Proof.
  move=> ???. rw /sub.
  rw skipn_firstn_comm firstn_firstn drop_drop.
  f_equal; [lia|f_equal; lia].
Qed.

Lemma sub_app {A} i m n (l : list A) :
  0 <= i → 0 <= m → 0 <= n → sub i m l ++ sub (i + m) n l = sub i (m + n) l.
Proof.
  move=> ???. rw /sub (Z2Nat.inj_add m n); [lia..|].
  rw -(take_take_drop (drop (Z.to_nat i) l)) drop_drop.
  repeat f_equal. lia.
Qed.

Lemma sub_all {A} (l : list A) : sub 0 (zlen l) l = l.
Proof. rw /sub drop_0 take_ge //; len. Qed.

Lemma sub_app_l {A} n (l k : list A) : n = zlen l → sub 0 n (l ++ k) = l.
Proof. move=> ->. rw /sub drop_0 to_nat_zlen take_app_length //. Qed.

Lemma sub_app_r {A} i n (l k : list A) :
  zlen l <= i → sub i n (l ++ k) = sub (i - zlen l) n k.
Proof.
  rw /zlen => ?. rw /sub drop_app_ge; [lia|]. do 2 f_equal. lia.
Qed.

Lemma splice_app_l {A} i (s l k : list A) :
  0 <= i → i + zlen s <= zlen l → splice i s (l ++ k) = splice i s l ++ k.
Proof.
  rw /splice /zlen => ??. rw take_app_le; [lia|]. rw drop_app_le; [lia|].
  by rw -!app_assoc.
Qed.

Lemma splice_app_r {A} i (s l k : list A) :
  zlen l <= i → splice i s (l ++ k) = l ++ splice (i - zlen l) s k.
Proof.
  rw /splice /zlen => ?. rw take_app_ge; [lia|]. rw drop_app_ge; [lia|].
  rw -app_assoc. repeat f_equal; lia.
Qed.

(** Overwriting a field laid out between [pre] and [post]. *)
Lemma splice_middle {A} i (s pre old post : list A) :
  i = zlen pre → zlen old = zlen s → splice i s (pre ++ old ++ post) = pre ++ s ++ post.
Proof.
  move=> -> E. rw splice_app_r; [lia|]. rw Z.sub_diag splice_app_l; [lia..|].
  do 2 f_equal. rw /splice /= drop_ge; [zlia|]. apply app_nil_r.
Qed.

(** Overwriting a whole list. *)
Lemma splice_all {A} (s l : list A) : zlen s = zlen l → splice 0 s l = s.
Proof. move=> E. rw /splice /= drop_ge; [zlia|]. apply app_nil_r. Qed.

Lemma insert_middle {A} i (x y : A) pre post :
  i = zlen pre → <[Z.to_nat i := x]> (pre ++ y :: post) = pre ++ x :: post.
Proof. move=> ->. rw to_nat_zlen insert_app_r_alt // Nat.sub_diag //. Qed.

Lemma Forall_sub {A} (P : A → Prop) i n l : Forall P l → Forall P (sub i n l).
Proof. move=> ?. by apply Forall_take, Forall_drop. Qed.

Lemma Forall_splice {A} (P : A → Prop) i s l :
  Forall P s → Forall P l → Forall P (splice i s l).
Proof.
  move=> ??. apply Forall_app; split; [by apply Forall_take|].
  apply Forall_app; split; [done|by apply Forall_drop].
Qed.

#[export] Hint Resolve Forall_sub Forall_splice : fat.

(** ** Bit fields *)

Lemma lor_shiftl_add k hi lo :
  0 <= k → 0 <= lo < 2 ^ k → Z.lor (Z.shiftl hi k) lo = hi * 2 ^ k + lo.
Proof.
  move=> Hk Hlo. rw -Z.shiftl_mul_pow2 //.
  have E : Z.land (Z.shiftl hi k) lo = 0.
  { apply Z.bits_inj' => i ?. rw Z.land_spec Z.bits_0.
    destruct (decide (i < k)).
    - by rw Z.shiftl_spec_low.
    - rw -(Z.mod_small lo (2 ^ k)) // (Z.mod_pow2_bits_high lo k i); [lia|].
      apply andb_false_r. }
  by rw Z.add_nocarry_lxor // Z.lxor_lor.
Qed.

(** Splitting a 32-bit value into two halves and joining them is the identity. *)
Lemma halves_join z : 0 <= z < 2 ^ 32 →
  Z.lor (Z.shiftl (Z.shiftr z 16) 16) (Z.land z 0xFFFF) = z.
Proof.
  move=> ?. rw (Z.land_ones z 16 ltac:(lia)).
  rw lor_shiftl_add //; [by apply Z.mod_pos_bound|].
  rw Z.shiftr_div_pow2 //. have := Z.div_mod z (2 ^ 16). lia.
Qed.

Lemma shiftr16_bounds z : 0 <= z < 2 ^ 32 → 0 <= Z.shiftr z 16 < 2 ^ 16.
Proof.
  move=> ?. rw Z.shiftr_div_pow2 //.
  split; [by apply Z.div_pos; lia|by apply Z.div_lt_upper_bound; lia].
Qed.

Lemma land_ffff_bounds z : 0 <= Z.land z 0xFFFF < 2 ^ 16.
Proof. rw (Z.land_ones z 16 ltac:(lia)). by apply Z.mod_pos_bound. Qed.

(** ** Blocks *)

Lemma chunks_exact_nil {A} n : chunks_exact n (@nil A) = [].
Proof. rw /chunks_exact zlen_nil. by case: n. Qed.

Lemma chunks_exact_app {A} n (e l : list A) :
  0 < n → zlen e = n → chunks_exact n (e ++ l) = e :: chunks_exact n l.
Proof.
  move=> Hn He. rw /chunks_exact zlen_app He.
  have -> : (n + zlen l) / n = Z.succ (zlen l / n).
  { rw -{1}(Z.mul_1_l n) Z.div_add_l; lia. }
  have ? : 0 <= zlen l / n by apply Z.div_pos; [apply zlen_nonneg|lia].
  rw seqZ_cons; [lia|]. cbn [fmap list_fmap]. rw Z.mul_0_l sub_app_l //. f_equal.
  rw Z.pred_succ. change (Z.succ 0) with 1. rw -(fmap_add_seqZ 1 0) -list_fmap_compose.
  apply list_fmap_ext => i k /lookup_seqZ [-> ?] /=.
  rw sub_app_r; rw He; [nia|]. f_equal. lia.
Qed.

Lemma chunks_exact_concat {A} n (es : list (list A)) :
  0 < n → Forall (λ e, zlen e = n) es → chunks_exact n (concat es) = es.
Proof.
  move=> Hn. elim=> [|e es' He _ IH] /=; [apply chunks_exact_nil|].
  by rw chunks_exact_app // IH.
Qed.

Lemma length_chunks_exact {A} n (l : list A) : length (chunks_exact n l) = Z.to_nat (zlen l / n).
Proof. rw /chunks_exact length_fmap length_seqZ //. Qed.

Lemma lookup_chunks_exact {A} n (l : list A) (k : nat) :
  Z.of_nat k < zlen l / n → chunks_exact n l !! k = Some (sub (Z.of_nat k * n) n l).
Proof.
  move=> ?. rw /chunks_exact list_lookup_fmap lookup_seqZ_lt; [lia|]. done.
Qed.

Lemma lookup_chunks_exact_Some {A} n (l : list A) (k : nat) e :
  0 < n → chunks_exact n l !! k = Some e →
  e = sub (Z.of_nat k * n) n l ∧ (Z.of_nat k + 1) * n <= zlen l.
Proof.
  move=> Hn Hk. have := lookup_lt_Some _ _ _ Hk. rw length_chunks_exact => ?.
  have ? : Z.of_nat k < zlen l / n by lia.
  rw lookup_chunks_exact // in Hk. move: Hk => [<-]. split; [done|].
  have ? := Z.mul_div_le (zlen l) n. nia.
Qed.

(** Overwriting one block. *)
Lemma chunks_exact_splice {A} n (l e : list A) (k : nat) :
  0 < n → zlen e = n → Z.of_nat k < zlen l / n →
  chunks_exact n (splice (Z.of_nat k * n) e l) = <[k := e]> (chunks_exact n l).
Proof.
  move=> Hn He Hk. have ? := Z.mul_div_le (zlen l) n.
  have Hl : zlen (splice (Z.of_nat k * n) e l) = zlen l by apply zlen_splice; nia.
  apply list_eq_lookup.
  { by rw length_insert !length_chunks_exact Hl. }
  move=> j. rw length_chunks_exact Hl => ?.
  rw lookup_chunks_exact ?Hl; [lia|]. destruct (decide (j = k)) as [->|].
  - rw list_lookup_insert_eq; [rw length_chunks_exact; lia|].
    f_equal. rw -He. apply sub_splice_same; nia.
  - rw list_lookup_insert_ne // lookup_chunks_exact; [lia|]. f_equal.
    apply sub_splice_disjoint; nia.
Qed.
