(* ===== verification/Machine.v ===== *)
(** * The Rust machine: panics, results, fixed-width integers and slices

    The fragment of Rust that the kernel is written in: computations that may
    panic or run for ever, [Result] values and the [?] operator, unsigned
    integers of a given width with the overflow behaviour of the build profile,
    bounds-checked slices, and the little-endian conversions of the standard
    library. *)

From S2P Require Import Prelude.

(** ** Outcomes of a computation *)

(** Why a computation panicked.  [InvalidPointer] is not a panic of the program:
    it stands for the use of a pointer to no object, which Rust leaves undefined. *)
Inductive panic :=
  | InvalidPointer
  | ArithmeticOverflow
  | DivisionByZero
  | IndexOutOfBounds
  | SliceLengthMismatch
  | UnwrapFailed
  | AssertionFailed
  | Explicit (msg : string).

(** [Diverge] stands for a loop that has not ended within the fuel given. *)
Inductive outcome (A : Type) :=
  | Done (a : A)
  | Panic (p : panic)
  | Diverge.
Arguments Done {A} a.
Arguments Panic {A} p.
Arguments Diverge {A}.

#[export] Instance panic_eq_dec : EqDecision panic.
Proof. solve_decision. Defined.

#[export] Instance outcome_eq_dec `{EqDecision A} : EqDecision (outcome A).
Proof. solve_decision. Defined.

#[export] Instance outcome_ret : MRet outcome := @Done.

#[export] Instance outcome_bind : MBind outcome := λ A B k c,
  match c with
  | Done a => k a
  | Panic p => Panic p
  | Diverge => Diverge
  end.

Lemma bind_Done {A B} (a : A) (k : A → outcome B) : (Done a ≫= k) = k a.
Proof. done. Qed.

Lemma bind_Done_inv {A B} (c : outcome A) (k : A → outcome B) b :
  c ≫= k = Done b ↔ ∃ a, c = Done a ∧ k a = Done b.
Proof. destruct c; split; [naive_solver|by move=> [? [[->] ?]]|done|by move=> [? [? ?]]|done|by move=> [? [? ?]]]. Qed.

Lemma bind_assoc {A B C} (c : outcome A) (k : A → outcome B) (h : B → outcome C) :
  (c ≫= k) ≫= h = c ≫= (λ a, k a ≫= h).
Proof. by destruct c. Qed.

Create Rewrite HintDb run.
#[export] Hint Rewrite @bind_Done : run.

(** ** [Result] and operations on a mutable receiver *)

(** Rust strings are UTF-8 byte sequences; a byte is a [Z] in [0, 256). *)
Abbreviation str := (list Z).

(** The bytes of a literal. *)
Definition lit (s : string) : str :=
  (λ c, Z.of_N (Ascii.N_of_ascii c)) <$> String.list_ascii_of_string s.

Inductive result (A E : Type) :=
  | Ok (a : A)
  | Err (e : E).
Arguments Ok {A E} a.
Arguments Err {A E} e.

#[export] Instance result_eq_dec `{EqDecision A, EqDecision E} : EqDecision (result A E).
Proof. solve_decision. Defined.

Definition ok_or {A E} (o : option A) (e : E) : result A E :=
  match o with Some a => Ok a | None => Err e end.

(** A method [fn f(&mut self, ..) -> Result<A, String>]: the receiver keeps the
    changes made before an [Err] is returned. *)
Definition method (S A : Type) : Type := S → outcome (S * result A str).

#[export] Instance method_ret {S} : MRet (method S) := λ A a s, Done (s, Ok a).

(** Sequencing a call with [?]: an [Err] returns early and keeps the state. *)
#[export] Instance method_bind {S} : MBind (method S) := λ A B k c s,
  match c s with
  | Done (s', Ok a) => k a s'
  | Done (s', Err e) => Done (s', Err e)
  | Panic p => Panic p
  | Diverge => Diverge
  end.

(** A call that only reads the receiver and may panic. *)
Definition reads {S A} (f : S → outcome A) : method S A := λ s, a ← f s; Done (s, Ok a).

(** A call that overwrites the receiver and may panic. *)
Definition updates {S} (f : S → outcome S) : method S unit := λ s, s' ← f s; Done (s', Ok tt).

(** [r?] on a value of type [Result]. *)
Definition question {S A} (r : result A str) : method S A := λ s, Done (s, r).

Lemma method_bind_ok {S A B} (c : method S A) (k : A → method S B) s s' a :
  c s = Done (s', Ok a) → (c ≫= k) s = k a s'.
Proof. by rw /mbind /method_bind => ->. Qed.

Lemma method_bind_err {S A B} (c : method S A) (k : A → method S B) s s' e :
  c s = Done (s', Err e) → (c ≫= k) s = Done (s', Err e).
Proof. by rw /mbind /method_bind => ->. Qed.

Lemma method_bind_panic {S A B} (c : method S A) (k : A → method S B) s p :
  c s = Panic p → (c ≫= k) s = Panic p.
Proof. by rw /mbind /method_bind => ->. Qed.

Lemma method_bind_diverge {S A B} (c : method S A) (k : A → method S B) s :
  c s = Diverge → (c ≫= k) s = Diverge.
Proof. by rw /mbind /method_bind => ->. Qed.

Lemma reads_Done {S A} (f : S → outcome A) s a : f s = Done a → reads f s = Done (s, Ok a).
Proof. by rw /reads => ->. Qed.

Lemma updates_Done {S} (f : S → outcome S) s s' :
  f s = Done s' → updates f s = Done (s', Ok tt).
Proof. by rw /updates => ->. Qed.

(** What a finished call guarantees about the receiver, whatever it returned. *)
Definition preserves {S A} (P : S → Prop) (c : method S A) : Prop :=
  ∀ s s' r, P s → c s = Done (s', r) → P s'.

Section preserves.
Context {S : Type} (P : S → Prop).

Lemma preserves_ret {A} (a : A) : preserves P (mret a).
Proof. move=> s s' r ? [<- _] //. Qed.

Lemma preserves_question {A} (r : result A str) : preserves P (question r).
Proof. move=> s s' r' ? [<- _] //. Qed.

Lemma preserves_reads {A} (f : S → outcome A) : preserves P (reads f).
Proof. move=> s s' r ?. rw /reads. by case: (f s) => //= a [<- _]. Qed.

Lemma preserves_updates (f : S → outcome S) :
  (∀ s s', P s → f s = Done s' → P s') → preserves P (updates f).
Proof. move=> H s s' r ?. rw /updates. case E: (f s) => //= -[<- _]. by eauto. Qed.

Lemma preserves_bind {A B} (c : method S A) (k : A → method S B) :
  preserves P c → (∀ a, preserves P (k a)) → preserves P (c ≫= k).
Proof.
  move=> Hc Hk s s' r Hs. rw /mbind /method_bind.
  case E: (c s) => [[s1 [a|e]]|p|] //=.
  - move=> ?. eapply Hk; [|done]. by eapply Hc.
  - move=> [<- _]. by eapply Hc.
Qed.
End preserves.

#[export] Hint Resolve preserves_ret preserves_question preserves_reads
  preserves_updates preserves_bind : fat.

(** ** Spin locks *)

(** [spin::Mutex]: a flag and the protected value. *)
Record Mutex (A : Type) := mkMutex { held : bool; inner : A }.
Arguments mkMutex {A} held inner.
Arguments held {A} m.
Arguments inner {A} m.

(** [m.lock()] for the length of one body: the lock spins while another guard is
    alive, and the guard is dropped when the body returns. *)
Definition with_lock {A B} (body : A → outcome (A * B)) (m : Mutex A) : outcome (Mutex A * B) :=
  if held m then Diverge
  else
    r ← body (inner m);
    Done (mkMutex false r.1, r.2).

Lemma with_lock_free {A B} (body : A → outcome (A * B)) m a b :
  held m = false → body (inner m) = Done (a, b) → with_lock body m = Done (mkMutex false a, b).
Proof. by rw /with_lock => -> ->. Qed.

Lemma with_lock_Done {A B} (body : A → outcome (A * B)) m m' b :
  with_lock body m = Done (m', b) → held m = false ∧ held m' = false ∧ body (inner m) = Done (inner m', b).
Proof.
  rw /with_lock. case: (held m) => //. case: (body _) => [[a x]|p|] //=. by move=> [<- ->].
Qed.

(** ** Unsigned integers *)

(** The build profile: with [overflow_checks] (the default of the dev and test
    profiles) an overflowing operation panics, without it (release) it wraps. *)
Class Profile := overflow_checks : bool.

Definition in_width (w z : Z) : bool := (0 <=? z) && (z <? 2 ^ w).

(** The value of an arithmetic operation whose mathematical result is [z]. *)
Definition arith `{Profile} (w z : Z) : outcome Z :=
  if in_width w z then Done z
  else if overflow_checks then Panic ArithmeticOverflow
  else Done (z mod 2 ^ w).

Abbreviation u32_add a b := (arith 32 (a + b)).
Abbreviation u32_sub a b := (arith 32 (a - b)).
Abbreviation u32_mul a b := (arith 32 (a * b)).
Abbreviation usize_add a b := (arith 64 (a + b)).
Abbreviation usize_sub a b := (arith 64 (a - b)).
Abbreviation usize_mul a b := (arith 64 (a * b)).

(** Division and remainder, at any unsigned width. *)
Definition u_div (a b : Z) : outcome Z := if b =? 0 then Panic DivisionByZero else Done (a / b).
Definition u_rem (a b : Z) : outcome Z := if b =? 0 then Panic DivisionByZero else Done (a mod b).

(** [as u16], [as u32]: truncation. *)
Definition as_u16 (z : Z) : Z := z mod 2 ^ 16.
Definition as_u32 (z : Z) : Z := z mod 2 ^ 32.

Lemma arith_ok `{Profile} w z : 0 <= z < 2 ^ w → arith w z = Done z.
Proof. rw /arith /in_width => ?. by ztrue. Qed.

Lemma arith_panic (w z : Z) : ¬ 0 <= z < 2 ^ w → @arith true w z = Panic ArithmeticOverflow.
Proof.
  rw /arith /in_width => ?.
  destruct (Z.leb_spec 0 z), (Z.ltb_spec z (2 ^ w)); naive_solver lia.
Qed.

Lemma arith_wrap (w z : Z) : 0 <= w → @arith false w z = Done (z mod 2 ^ w).
Proof.
  rw /arith /in_width => ?.
  destruct (Z.leb_spec 0 z), (Z.ltb_spec z (2 ^ w)); simpl; try done.
  by rw Z.mod_small.
Qed.

Lemma u_div_ok a b : b ≠ 0 → u_div a b = Done (a / b).
Proof. rw /u_div => ?. by ztrue. Qed.

Lemma u_rem_ok a b : b ≠ 0 → u_rem a b = Done (a mod b).
Proof. rw /u_rem => ?. by ztrue. Qed.

(** ** Slices *)

(** [d[i]] *)
Definition index {A} (d : list A) (i : Z) : outcome A :=
  if (0 <=? i) && (i <? zlen d) then
    match d !! Z.to_nat i with Some x => Done x | None => Panic IndexOutOfBounds end
  else Panic IndexOutOfBounds.

(** [&d[lo..hi]] *)
Definition slice {A} (d : list A) (lo hi : Z) : outcome (list A) :=
  if (0 <=? lo) && (lo <=? hi) && (hi <=? zlen d) then Done (sub lo (hi - lo) d)
  else Panic IndexOutOfBounds.

(** [d[lo..hi].copy_from_slice(src)] *)
Definition copy_into {A} (d : list A) (lo hi : Z) (src : list A) : outcome (list A) :=
  if (0 <=? lo) && (lo <=? hi) && (hi <=? zlen d) then
    if zlen src =? hi - lo then Done (splice lo src d) else Panic SliceLengthMismatch
  else Panic IndexOutOfBounds.

(** [d[i] = x] *)
Definition set_index {A} (d : list A) (i : Z) (x : A) : outcome (list A) :=
  if (0 <=? i) && (i <? zlen d) then Done (<[Z.to_nat i := x]> d) else Panic IndexOutOfBounds.

(** [v.truncate(n)] *)
Definition truncate {A} (n : Z) (v : list A) : list A :=
  if n <? zlen v then take (Z.to_nat n) v else v.

Lemma truncate_take {A} n (v : list A) : truncate n v = take (Z.to_nat n) v.
Proof. rw /truncate. case_test => //. rw take_ge //. zlia. Qed.

Lemma index_ok {A} (d : list A) i x :
  0 <= i → d !! Z.to_nat i = Some x → index d i = Done x.
Proof.
  move=> ? E. have ? := lookup_lt_Some _ _ _ E. rw /index. ztrue. by rw E.
Qed.

Lemma index_Done {A} (d : list A) i : 0 <= i < zlen d → ∃ x, d !! Z.to_nat i = Some x ∧ index d i = Done x.
Proof.
  move=> ?. destruct (lookup_lt_is_Some_2 d (Z.to_nat i)) as [x E]; [len|].
  exists x. split; [done|]. by apply index_ok; [lia|].
Qed.

Lemma slice_ok {A} (d : list A) lo hi :
  0 <= lo → lo <= hi → hi <= zlen d → slice d lo hi = Done (sub lo (hi - lo) d).
Proof. move=> ???. rw /slice. by ztrue. Qed.

Lemma copy_into_ok {A} (d : list A) lo hi src :
  0 <= lo → hi <= zlen d → zlen src = hi - lo → copy_into d lo hi src = Done (splice lo src d).
Proof. move=> ?? E. have ? := zlen_nonneg src. rw /copy_into. by ztrue. Qed.

Lemma copy_into_inv {A} (d d' : list A) lo hi src :
  copy_into d lo hi src = Done d' →
  0 <= lo ∧ lo + zlen src <= zlen d ∧ zlen src = hi - lo ∧ d' = splice lo src d.
Proof.
  rw /copy_into.
  destruct (Z.leb_spec 0 lo), (Z.leb_spec lo hi), (Z.leb_spec hi (zlen d)) => //=.
  case_test => // -[<-]. naive_solver lia.
Qed.

(** ** Bytes and little-endian integers *)

Abbreviation is_byte b := (0 <= b < 256).
Abbreviation bytes l := (Forall (λ b, is_byte b) l).

(** [uN::from_le_bytes] *)
Fixpoint from_le (l : list Z) : Z :=
  match l with
  | [] => 0
  | b :: l => b + 256 * from_le l
  end.

(** [uN::to_le_bytes], [n] bytes. *)
Fixpoint to_le (n : nat) (z : Z) : list Z :=
  match n with
  | O => []
  | S n => z mod 256 :: to_le n (z / 256)
  end.

Abbreviation u16_to_le := (to_le 2).
Abbreviation u32_to_le := (to_le 4).

Lemma zlen_to_le n z : zlen (to_le n z) = Z.of_nat n.
Proof. elim: n z => [|n IH] z //=. rw zlen_cons IH. lia. Qed.

#[export] Hint Rewrite zlen_to_le : len.

Lemma bytes_to_le n z : bytes (to_le n z).
Proof. elim: n z => [|n IH] z /=; constructor; [apply Z.mod_pos_bound; lia|done]. Qed.

#[export] Hint Resolve bytes_to_le : fat.

Lemma from_le_bound l : bytes l → 0 <= from_le l < 256 ^ zlen l.
Proof.
  elim: l => [|b l IH] /=; [done|]. move=> /Forall_cons [? /IH ?].
  rw zlen_cons Z.pow_add_r; [lia|apply zlen_nonneg|]. lia.
Qed.

Lemma from_to_le n z : 0 <= z < 256 ^ Z.of_nat n → from_le (to_le n z) = z.
Proof.
  elim: n z => [|n IH] z; [simpl; lia|].
  rw Nat2Z.inj_succ Z.pow_succ_r; [lia|]. move=> ?.
  cbn [to_le from_le]. rw IH; [|have := Z.div_mod z 256; lia].
  split; [apply Z.div_pos; lia|apply Z.div_lt_upper_bound; lia].
Qed.

Lemma to_from_le l : bytes l → to_le (length l) (from_le l) = l.
Proof.
  elim: l => [|b l IH] //= /Forall_cons [? ?].
  rw (Z.mul_comm 256) Z.mod_add ?Z.div_add //; [lia..|].
  rw Z.mod_small; [lia|]. rw Z.div_small; [lia|]. by rw Z.add_0_l IH.
Qed.
