(* ===== verification/Str.v ===== *)
(** * Rust strings

    The operations of [str] and [String] that the file system uses: UTF-8
    validation and decoding, UTF-16 decoding, upper-casing, splitting on a
    separator and searching from the right.  A string is its list of UTF-8
    bytes; separators are ASCII, so byte positions are character boundaries. *)

From S2P Require Import Prelude Machine.

(** ** Splitting and searching *)

(** [s.split(sep)] for an ASCII separator, collected. *)
Fixpoint split_on (sep : Z) (s : str) : list str :=
  match s with
  | [] => [[]]
  | b :: s' =>
      if b =? sep then [] :: split_on sep s'
      else match split_on sep s' with
           | p :: ps => (b :: p) :: ps
           | [] => [[b]]
           end
  end.

(** [s.rfind(c)]: the byte position of the last occurrence of [c]. *)
Fixpoint rfind (c : Z) (s : str) : option Z :=
  match s with
  | [] => None
  | b :: s' =>
      match rfind c s' with
      | Some i => Some (1 + i)
      | None => if b =? c then Some 0 else None
      end
  end.

(** [s.starts_with(prefix)] *)
Fixpoint starts_with (prefix s : str) : bool :=
  match prefix, s with
  | [], _ => true
  | _, [] => false
  | p :: prefix', b :: s' => (p =? b) && starts_with prefix' s'
  end.

Definition is_empty {A} (l : list A) : bool :=
  match l with [] => true | _ => false end.

Abbreviation slash := 47.
Abbreviation dot := 46.

(** Gluing pieces back with the separator. *)
Fixpoint join (sep : Z) (ps : list str) : str :=
  match ps with
  | [] => []
  | [p] => p
  | p :: ps' => p ++ sep :: join sep ps'
  end.

Lemma split_on_ne sep s : split_on sep s ≠ [].
Proof.
  case: s => [|b s] //=. case_test; [done|]. by case: (split_on sep s).
Qed.

Lemma split_on_cons sep b s :
  b ≠ sep → ∃ p ps, split_on sep s = p :: ps ∧ split_on sep (b :: s) = (b :: p) :: ps.
Proof.
  move=> ? /=. ztrue. have := split_on_ne sep s.
  case: (split_on sep s) => [//|p ps] _. by exists p, ps.
Qed.

Lemma join_split sep s : join sep (split_on sep s) = s.
Proof.
  elim: s => [|b s IH] //. destruct (decide (b = sep)) as [->|Hne].
  - simpl. ztrue. have := split_on_ne sep s.
    case: (split_on sep s) IH => [//|p ps] IH _. by rw -IH.
  - destruct (split_on_cons sep b s Hne) as (p & ps & E & ->).
    rw E in IH. rw -IH. by case: ps {E IH}.
Qed.

Lemma split_on_no_sep sep s : Forall (λ p, sep ∉ p) (split_on sep s).
Proof.
  elim: s => [|b s IH] /=; [repeat constructor; set_solver|].
  case_test; [constructor; [set_solver|done]|].
  case: (split_on sep s) IH => [|p ps] IH.
  - constructor; [set_solver|constructor].
  - inversion_clear IH. constructor; [set_solver|done].
Qed.

Lemma split_on_Forall (P : Z → Prop) sep s : Forall P s → Forall (Forall P) (split_on sep s).
Proof.
  elim=> [|b s' ?? IH] /=; [by repeat constructor|]. case_test; [by constructor|].
  case: (split_on sep s') IH => [|p ps] IH; [by repeat constructor|].
  apply Forall_cons in IH as [??]. by repeat constructor.
Qed.

Lemma split_on_none sep s : sep ∉ s → split_on sep s = [s].
Proof.
  elim: s => [|b s IH] //= Hn. have ? : b ≠ sep by set_solver.
  ztrue. rw IH //. set_solver.
Qed.

Lemma split_on_app sep s t :
  sep ∉ s → split_on sep (s ++ sep :: t) = s :: split_on sep t.
Proof.
  elim: s => [|b s IH] /= Hn; [by ztrue|].
  have ? : b ≠ sep by set_solver. ztrue. rw IH //. set_solver.
Qed.

Lemma split_on_snoc sep s t : split_on sep (s ++ sep :: t) = split_on sep s ++ split_on sep t.
Proof.
  elim: s => [|b s IH] /=; [by ztrue|]. rw IH. case_test; [done|].
  have := split_on_ne sep s. by case: (split_on sep s).
Qed.

Lemma rfind_None c s : rfind c s = None ↔ c ∉ s.
Proof.
  elim: s => [|b s IH] /=; [split; [set_solver|done]|].
  destruct (rfind c s) as [i|].
  - split; [done|]. move=> H. exfalso.
    have ? : c ∉ s by set_solver. naive_solver.
  - case_test; subst; [split; [done|set_solver]|].
    split; [|done]. move=> _. have ? : c ∉ s by apply IH. set_solver.
Qed.

Lemma rfind_app c s t : c ∉ t → rfind c (s ++ c :: t) = Some (zlen s).
Proof.
  move=> Ht. elim: s => [|b s IH] /=.
  - apply rfind_None in Ht. rw Ht. by ztrue.
  - rw IH. f_equal. by rw zlen_cons.
Qed.

(** ** UTF-8 *)

Definition between (lo hi b : Z) : bool := (lo <=? b) && (b <=? hi).
Definition is_cont (b : Z) : bool := between 0x80 0xBF b.

(** The second byte of a three-byte and of a four-byte sequence. *)
Definition second3 (b0 b1 : Z) : bool :=
  ((b0 =? 0xE0) && between 0xA0 0xBF b1)
  || (between 0xE1 0xEC b0 && is_cont b1)
  || ((b0 =? 0xED) && between 0x80 0x9F b1)
  || (between 0xEE 0xEF b0 && is_cont b1).

Definition second4 (b0 b1 : Z) : bool :=
  ((b0 =? 0xF0) && between 0x90 0xBF b1)
  || (between 0xF1 0xF3 b0 && is_cont b1)
  || ((b0 =? 0xF4) && between 0x80 0x8F b1).

(** The scalar values of a byte sequence, or [None] when it is not UTF-8. *)
Fixpoint utf8_decode (l : list Z) : option (list Z) :=
  match l with
  | [] => Some []
  | b0 :: l0 =>
      if b0 <? 0x80 then cons b0 <$> utf8_decode l0
      else match l0 with
      | [] => None
      | b1 :: l1 =>
          if between 0xC2 0xDF b0 then
            if is_cont b1 then cons ((b0 - 0xC0) * 64 + (b1 - 0x80)) <$> utf8_decode l1
            else None
          else match l1 with
          | [] => None
          | b2 :: l2 =>
              if second3 b0 b1 then
                if is_cont b2 then
                  cons ((b0 - 0xE0) * 4096 + (b1 - 0x80) * 64 + (b2 - 0x80)) <$> utf8_decode l2
                else None
              else match l2 with
              | [] => None
              | b3 :: l3 =>
                  if second4 b0 b1 && is_cont b2 && is_cont b3 then
                    cons ((b0 - 0xF0) * 262144 + (b1 - 0x80) * 4096
                          + (b2 - 0x80) * 64 + (b3 - 0x80)) <$> utf8_decode l3
                  else None
              end
          end
      end
  end.

(** [str::from_utf8], [String::from_utf8]. *)
Definition from_utf8 (l : list Z) : option str :=
  match utf8_decode l with Some _ => Some l | None => None end.

(** [char::encode_utf8] *)
Definition encode_char (c : Z) : str :=
  if c <? 0x80 then [c]
  else if c <? 0x800 then [0xC0 + c / 64; 0x80 + c mod 64]
  else if c <? 0x10000 then [0xE0 + c / 4096; 0x80 + (c / 64) mod 64; 0x80 + c mod 64]
  else [0xF0 + c / 262144; 0x80 + (c / 4096) mod 64; 0x80 + (c / 64) mod 64; 0x80 + c mod 64].

Definition utf8_encode (cs : list Z) : str := cs ≫= encode_char.

(** Unicode scalar values. *)
Definition is_scalar (c : Z) : Prop := 0 <= c < 0xD800 ∨ 0xE000 <= c < 0x110000.

(** ** UTF-16 *)

Fixpoint utf16_decode (l : list Z) : option (list Z) :=
  match l with
  | [] => Some []
  | u :: l0 =>
      if between 0xD800 0xDFFF u then
        if u <? 0xDC00 then
          match l0 with
          | [] => None
          | v :: l1 =>
              if between 0xDC00 0xDFFF v then
                cons (0x10000 + (u - 0xD800) * 0x400 + (v - 0xDC00)) <$> utf16_decode l1
              else None
          end
        else None
      else cons u <$> utf16_decode l0
  end.

(** [String::from_utf16(..).ok()] *)
Definition from_utf16 (l : list Z) : option str := utf8_encode <$> utf16_decode l.

(** ** Upper case *)

(** The case table of the Unicode data files for the scalar values above ASCII
    (a character may map to several). *)
Class UnicodeCase := unicode_upper : Z → list Z.

Definition ascii_upper (c : Z) : Z := if between 97 122 c then c - 32 else c.

Definition char_upper `{UnicodeCase} (c : Z) : list Z :=
  if c <? 0x80 then [ascii_upper c] else unicode_upper c.

(** [str::to_uppercase] *)
Definition to_uppercase `{UnicodeCase} (s : str) : str :=
  utf8_encode (default [] (utf8_decode s) ≫= char_upper).

(** ** Facts *)

Ltac unfold_ranges := unfold second3, second4, is_cont, between in *.

(** Decide every comparison of the goal, dropping the impossible branches. *)
Ltac solve_ranges :=
  unfold_ranges;
  repeat (match goal with
  | |- context [(?a <=? ?b)%Z] => destruct (Z.leb_spec a b)
  | |- context [(?a <? ?b)%Z] => destruct (Z.ltb_spec a b)
  | |- context [(?a =? ?b)%Z] => destruct (Z.eqb_spec a b)
  end; try (exfalso; lia)); reflexivity.

Lemma ascii_decode s : Forall (λ b, 0 <= b < 128) s → utf8_decode s = Some s.
Proof. elim: s => [|b s IH] // /Forall_cons [? /IH E] /=. ztrue. by rw E. Qed.

Lemma ascii_encode s : Forall (λ b, 0 <= b < 128) s → utf8_encode s = s.
Proof.
  elim: s => [|b s IH] // /Forall_cons [? /IH E].
  rw /utf8_encode bind_cons -/(utf8_encode s) E /encode_char. by ztrue.
Qed.

Lemma ascii_upper_ascii b : 0 <= b < 128 → 0 <= ascii_upper b < 128.
Proof. rw /ascii_upper /between. destruct (Z.leb_spec 97 b), (Z.leb_spec b 122) => /=; lia. Qed.

Lemma to_uppercase_ascii `{UnicodeCase} s :
  Forall (λ b, 0 <= b < 128) s → to_uppercase s = ascii_upper <$> s.
Proof.
  move=> Hs. rw /to_uppercase ascii_decode //=.
  have -> : s ≫= char_upper = ascii_upper <$> s.
  { elim: Hs => [|b l ? _ IH] //. rw bind_cons IH /char_upper. by ztrue. }
  apply ascii_encode, Forall_fmap. by eapply Forall_impl; [|apply ascii_upper_ascii].
Qed.

Lemma utf8_encode_app cs ds : utf8_encode (cs ++ ds) = utf8_encode cs ++ utf8_encode ds.
Proof. apply bind_app. Qed.

Section utf.
#[local] Ltac Zify.zify_post_hook ::= Z.to_euclidean_division_equations.

Lemma utf8_decode_char c s :
  is_scalar c → utf8_decode (encode_char c ++ s) = cons c <$> utf8_decode s.
Proof.
  rw /is_scalar /encode_char => Hc.
  destruct (Z.ltb_spec c 0x80); [cbn; by ztrue|].
  destruct (Z.ltb_spec c 0x800).
  { cbn [app utf8_decode]. unfold_ranges. ztrue. do 2 f_equal. lia. }
  destruct (Z.ltb_spec c 0x10000); cbn [app utf8_decode].
  - have -> : (0xE0 + c / 4096 <? 128) = false by solve_ranges.
    have -> : between 194 223 (0xE0 + c / 4096) = false by solve_ranges.
    have -> : second3 (0xE0 + c / 4096) (0x80 + (c / 64) mod 64) = true by solve_ranges.
    have -> : is_cont (0x80 + c mod 64) = true by solve_ranges.
    do 2 f_equal. lia.
  - have -> : (0xF0 + c / 262144 <? 128) = false by solve_ranges.
    have -> : between 194 223 (0xF0 + c / 262144) = false by solve_ranges.
    have -> : second3 (0xF0 + c / 262144) (0x80 + (c / 4096) mod 64) = false by solve_ranges.
    have -> : second4 (0xF0 + c / 262144) (0x80 + (c / 4096) mod 64) = true by solve_ranges.
    have -> : is_cont (0x80 + (c / 64) mod 64) = true by solve_ranges.
    have -> : is_cont (0x80 + c mod 64) = true by solve_ranges.
    cbn [andb]. do 2 f_equal. lia.
Qed.

Lemma utf16_decode_scalar l cs :
  Forall (λ u, 0 <= u < 2 ^ 16) l → utf16_decode l = Some cs → Forall is_scalar cs.
Proof.
  remember (length l) as n eqn:Hn. move: l cs Hn.
  induction n as [n IH] using lt_wf_ind => -[|u l] cs Hn Hl.
  { move=> [<-]. constructor. }
  inversion_clear Hl as [|?? Hu Hl']. cbn [utf16_decode]. unfold between.
  destruct (Z.leb_spec 0xD800 u), (Z.leb_spec u 0xDFFF), (Z.ltb_spec u 0xDC00);
    cbn [andb]; try done.
  all: try (move=> /fmap_Some [ds [E ->]]; constructor;
    [rw /is_scalar; lia|refine (IH (length l) _ l ds eq_refl Hl' E); simpl in *; lia]).
  case: l Hl' Hn => [//|v l] Hl' Hn. inversion_clear Hl' as [|?? Hv Hl''].
  destruct (Z.leb_spec 0xDC00 v), (Z.leb_spec v 0xDFFF) => //=.
  move=> /fmap_Some [ds [E ->]]. constructor; [rw /is_scalar; lia|].
  refine (IH (length l) _ l ds eq_refl Hl'' E). simpl in *; lia.
Qed.
End utf.

Lemma utf8_decode_encode cs : Forall is_scalar cs → utf8_decode (utf8_encode cs) = Some cs.
Proof.
  elim: cs => [|c cs IH] // /Forall_cons [? /IH E].
  rw /utf8_encode bind_cons -/(utf8_encode cs) utf8_decode_char // E //.
Qed.

(** A decoded UTF-16 name is a well-formed Rust string. *)
Lemma from_utf16_valid l s :
  Forall (λ u, 0 <= u < 2 ^ 16) l → from_utf16 l = Some s → from_utf8 s = Some s.
Proof.
  move=> Hl /fmap_Some [cs [E ->]]. rw /from_utf8 utf8_decode_encode //.
  by eapply utf16_decode_scalar.
Qed.

(** Decoding yields scalar values. *)
Lemma utf8_decode_scalar s cs : bytes s → utf8_decode s = Some cs → Forall is_scalar cs.
Proof.
  remember (length s) as n eqn:Hn. move: s cs Hn.
  induction n as [n IH] using lt_wf_ind => -[|b0 s] cs Hn Hs; [by move=> [<-]|].
  apply Forall_cons in Hs as [H0 Hs]. cbn [utf8_decode].
  assert (step : ∀ c l cs', (length l < n)%nat → bytes l → is_scalar c →
    cons c <$> utf8_decode l = Some cs' → Forall is_scalar cs').
  { move=> c l cs' Hl Hb Hc /fmap_Some [k [E ->]]. constructor; [done|].
    exact (IH (length l) Hl l k eq_refl Hb E). }
  case E0: (b0 <? 0x80); [apply step; [simpl in *; lia|done|rw /is_scalar; lia]|].
  destruct s as [|b1 s]; [done|]. apply Forall_cons in Hs as [H1 Hs].
  case E1: (between 0xC2 0xDF b0).
  { case E2: (is_cont b1) => //. apply step; [simpl in *; lia|done|].
    rw /is_scalar. unfold_ranges. lia. }
  destruct s as [|b2 s]; [done|]. apply Forall_cons in Hs as [H2 Hs].
  case E2: (second3 b0 b1).
  { case E3: (is_cont b2) => //. apply step; [simpl in *; lia|done|].
    rw /is_scalar. unfold_ranges. lia. }
  destruct s as [|b3 s]; [done|]. apply Forall_cons in Hs as [H3 Hs].
  case E3: (_ && _ && _) => //. apply step; [simpl in *; lia|done|].
  rw /is_scalar. unfold_ranges. lia.
Qed.

Lemma bytes_encode_char c : is_scalar c → bytes (encode_char c).
Proof.
  rw /is_scalar /encode_char => Hc.
  have M : ∀ x, 0 <= x mod 64 < 64 by move=> x; apply Z.mod_pos_bound.
  have D : ∀ k, 0 < k → 0 <= c / k by move=> k ?; apply Z.div_pos; lia.
  have U : ∀ k m, 0 < k → c < k * m → c / k < m by move=> k m ??; apply Z.div_lt_upper_bound.
  have := (M c, M (c / 64), M (c / 4096)). move=> [[??]?].
  repeat case_test; repeat constructor; try lia.
  all: first [have ? := D 64 ltac:(lia); have ? := U 64 32 ltac:(lia) ltac:(lia); lia
    | have ? := D 4096 ltac:(lia); have ? := U 4096 16 ltac:(lia) ltac:(lia); lia
    | have ? := D 262144 ltac:(lia); have ? := U 262144 5 ltac:(lia) ltac:(lia); lia].
Qed.

(** What the Unicode tables guarantee: a character maps to characters. *)
Class UnicodeCaseOk `{UnicodeCase} : Prop :=
  unicode_upper_scalar c : is_scalar c → Forall is_scalar (unicode_upper c).

Lemma bytes_to_uppercase `{UnicodeCaseOk} s : bytes s → bytes (to_uppercase s).
Proof.
  move=> Hs. rw /to_uppercase. apply Forall_bind.
  have Hc : Forall is_scalar (default [] (utf8_decode s)).
  { case E: (utf8_decode s) => [cs|] /=; [by eapply utf8_decode_scalar|constructor]. }
  eapply Forall_impl; [|apply bytes_encode_char]. apply Forall_bind.
  eapply Forall_impl; [exact Hc|]. move=> c Hs' /=. rw /char_upper. case_test.
  - constructor; [|constructor]. move: Hs'. rw /is_scalar.
    have := ascii_upper_ascii c. lia.
  - by apply unicode_upper_scalar.
Qed.
