(* ===== verification/Volume.v ===== *)
(** * The mounted volume: boot sector, sectors, clusters and the FAT

    Models the state [Fat32FileSystem] of [src/src/file_system.rs] and its
    lowest layer: parsing the boot sector ([new]), reading sectors and clusters,
    reading and writing entries of the file allocation table.  The geometry
    under which these address the bytes they mean to is [volume]; the layer's
    contract towards its clients is given by the pure views [cluster_data] and
    [fat_get] of the disk and by the updates [fat_put] and [data_put]. *)

From S2P Require Import Prelude Machine Str.

(** ** State *)

Record Fat32FileSystem := mkFat32FileSystem {
  disk : list Z;
  bytes_per_sector : Z;
  sectors_per_cluster : Z;
  fat_sector : Z;
  data_sector : Z;
  root_cluster : Z;
}.

Definition set_disk (d : list Z) (fs : Fat32FileSystem) : Fat32FileSystem :=
  mkFat32FileSystem d (bytes_per_sector fs) (sectors_per_cluster fs)
    (fat_sector fs) (data_sector fs) (root_cluster fs).

#[export] Instance Fat32FileSystem_eq_dec : EqDecision Fat32FileSystem.
Proof. solve_decision. Defined.

(** Offsets of the boot sector fields. *)
Inductive BootOffsets := BytsPerSec | SecPerClus | RsvdSecCnt | NumFATs | FATSz32 | RootClus.

Definition boot_offset (o : BootOffsets) : Z :=
  match o with
  | BytsPerSec => 11
  | SecPerClus => 13
  | RsvdSecCnt => 14
  | NumFATs => 16
  | FATSz32 => 36
  | RootClus => 44
  end.

(** ** Operations *)

Section operations.
Context `{Profile}.

Definition boot_read_u16 (d : list Z) (off : BootOffsets) : outcome Z :=
  let o := boot_offset off in
  hi ← usize_add o 2;
  s ← slice d o hi;
  Done (from_le s).

Definition boot_read_u32 (d : list Z) (off : BootOffsets) : outcome Z :=
  let o := boot_offset off in
  hi ← usize_add o 4;
  s ← slice d o hi;
  Done (from_le s).

Definition new (d : list Z) : outcome Fat32FileSystem :=
  bytes_per_sector ← boot_read_u16 d BytsPerSec;
  sectors_per_cluster ← index d (boot_offset SecPerClus);
  reserved_sectors_count ← boot_read_u16 d RsvdSecCnt;
  num_fats ← index d (boot_offset NumFATs);
  sectors_per_fat ← boot_read_u32 d FATSz32;
  root_cluster ← boot_read_u32 d RootClus;
  let fat_sector := reserved_sectors_count in
  fats ← u32_mul num_fats sectors_per_fat;
  data_sector ← u32_add reserved_sectors_count fats;
  Done (mkFat32FileSystem d bytes_per_sector sectors_per_cluster
          fat_sector data_sector root_cluster).

Definition read_sector (fs : Fat32FileSystem) (address : Z) : outcome (list Z) :=
  offset ← u32_mul address (bytes_per_sector fs);
  let size := bytes_per_sector fs in
  fin ← usize_add offset size;
  if zlen (disk fs) <? fin then Panic (Explicit "Error reading outbound")
  else slice (disk fs) offset fin.

(** The loop [for i in 0..sectors_per_cluster], with [k] iterations to go. *)
Fixpoint read_sectors (fs : Fat32FileSystem) (start_address i : Z) (k : nat)
    (data : list Z) : outcome (list Z) :=
  match k with
  | O => Done data
  | S k =>
      a ← u32_add start_address i;
      sector_data ← read_sector fs a;
      read_sectors fs start_address (i + 1) k (data ++ sector_data)
  end.

(** The first sector of a cluster, computed alike by every caller. *)
Definition first_sector (fs : Fat32FileSystem) (cluster_id : Z) : outcome Z :=
  n ← u32_sub cluster_id 2;
  s ← u32_mul n (sectors_per_cluster fs);
  u32_add (data_sector fs) s.

Definition read_cluster (fs : Fat32FileSystem) (cluster_id : Z) : outcome (list Z) :=
  start_address ← first_sector fs cluster_id;
  read_sectors fs start_address 0 (Z.to_nat (sectors_per_cluster fs)) [].

Definition read_fat_entry (fs : Fat32FileSystem) (cluster_id : Z) : outcome Z :=
  fat_offset ← u32_mul cluster_id 4;
  q ← u_div fat_offset (bytes_per_sector fs);
  fat_sector ← u32_add (fat_sector fs) q;
  fat_index ← u_rem fat_offset (bytes_per_sector fs);
  sector ← read_sector fs fat_sector;
  hi ← usize_add fat_index 4;
  entry ← slice sector fat_index hi;
  Done (Z.land (from_le entry) 0x0FFFFFFF).

Definition write_fat_entry (cluster_id value : Z) (fs : Fat32FileSystem) : outcome Fat32FileSystem :=
  fat_offset ← u32_mul cluster_id 4;
  q ← u_div fat_offset (bytes_per_sector fs);
  sector_num ← u32_add (fat_sector fs) q;
  offset_in_sector ← u_rem fat_offset (bytes_per_sector fs);
  base ← u32_mul sector_num (bytes_per_sector fs);
  global_offset ← usize_add base offset_in_sector;
  hi ← usize_add global_offset 4;
  current ← slice (disk fs) global_offset hi;
  let current_value := from_le current in
  let new_value := Z.lor (Z.land current_value 0xF0000000) (Z.land value 0x0FFFFFFF) in
  d ← copy_into (disk fs) global_offset hi (u32_to_le new_value);
  Done (set_disk d fs).
End operations.

(** ** Geometry *)

(** [volume fs n]: the image holds [n] data clusters, numbered from 2, after a
    FAT with an entry for each; sectors have a size that FAT allows, and every
    byte offset fits the [u32] the code computes it in. *)
Record volume (fs : Fat32FileSystem) (n : Z) : Prop := mkVolume {
  vol_bps : 512 <= bytes_per_sector fs <= 4096;
  vol_bps32 : bytes_per_sector fs mod 32 = 0;
  vol_spc : 1 <= sectors_per_cluster fs < 256;
  vol_fat : 0 <= fat_sector fs;
  vol_fat_room : fat_sector fs * bytes_per_sector fs + 4 * (n + 2)
                 <= data_sector fs * bytes_per_sector fs;
  vol_data_room : (data_sector fs + n * sectors_per_cluster fs) * bytes_per_sector fs
                  <= zlen (disk fs);
  vol_size : zlen (disk fs) < 2 ^ 32;
  vol_root : 2 <= root_cluster fs < n + 2;
  vol_bytes : bytes (disk fs);
}.

(** The decision procedure for [volume]. *)
Definition volumeb (fs : Fat32FileSystem) (n : Z) : bool :=
  let bps := bytes_per_sector fs in
  (512 <=? bps) && (bps <=? 4096) && (bps mod 32 =? 0)
  && (1 <=? sectors_per_cluster fs) && (sectors_per_cluster fs <? 256)
  && (0 <=? fat_sector fs)
  && (fat_sector fs * bps + 4 * (n + 2) <=? data_sector fs * bps)
  && ((data_sector fs + n * sectors_per_cluster fs) * bps <=? zlen (disk fs))
  && (zlen (disk fs) <? 2 ^ 32)
  && (2 <=? root_cluster fs) && (root_cluster fs <? n + 2)
  && forallb (λ b, (0 <=? b) && (b <? 256)) (disk fs).

Lemma volumeb_sound fs n : volumeb fs n = true → volume fs n.
Proof.
  rw /volumeb !andb_true_iff !Z.leb_le !Z.ltb_lt !Z.eqb_eq forallb_forall.
  move=> H. split; try lia. apply Forall_forall => b Hb.
  destruct H as [_ H]. specialize (H b). rw list_elem_of_In in Hb. specialize (H Hb). lia.
Qed.

Definition cluster_size (fs : Fat32FileSystem) : Z :=
  sectors_per_cluster fs * bytes_per_sector fs.
Definition cluster_off (fs : Fat32FileSystem) (c : Z) : Z :=
  (data_sector fs + (c - 2) * sectors_per_cluster fs) * bytes_per_sector fs.
Definition fat_off (fs : Fat32FileSystem) (c : Z) : Z :=
  fat_sector fs * bytes_per_sector fs + 4 * c.

(** The views of the disk. *)
Definition cluster_data (fs : Fat32FileSystem) (c : Z) : list Z :=
  sub (cluster_off fs c) (cluster_size fs) (disk fs).
Definition fat_raw (fs : Fat32FileSystem) (c : Z) : Z := from_le (sub (fat_off fs c) 4 (disk fs)).
Definition fat_get (fs : Fat32FileSystem) (c : Z) : Z := Z.land (fat_raw fs c) 0x0FFFFFFF.

(** The updates of the disk. *)
Definition fat_put (c value : Z) (fs : Fat32FileSystem) : Fat32FileSystem :=
  let v := Z.lor (Z.land (fat_raw fs c) 0xF0000000) (Z.land value 0x0FFFFFFF) in
  set_disk (splice (fat_off fs c) (u32_to_le v) (disk fs)) fs.
Definition data_put (c k : Z) (src : list Z) (fs : Fat32FileSystem) : Fat32FileSystem :=
  set_disk (splice (cluster_off fs c + k) src (disk fs)) fs.

(** Writes leave the geometry alone. *)
Lemma fat_off_set_disk d fs c : fat_off (set_disk d fs) c = fat_off fs c.
Proof. done. Qed.
Lemma cluster_off_set_disk d fs c : cluster_off (set_disk d fs) c = cluster_off fs c.
Proof. done. Qed.
Lemma cluster_size_set_disk d fs : cluster_size (set_disk d fs) = cluster_size fs.
Proof. done. Qed.

(** ** Correctness of the layer *)

Section correctness.
Context `{Profile}.
Implicit Types (fs : Fat32FileSystem) (n c d : Z).

Lemma read_sector_ok fs a :
  0 <= a → 0 <= bytes_per_sector fs < 2 ^ 16 → zlen (disk fs) < 2 ^ 32 →
  (a + 1) * bytes_per_sector fs <= zlen (disk fs) →
  read_sector fs a = Done (sub (a * bytes_per_sector fs) (bytes_per_sector fs) (disk fs)).
Proof.
  move=> ????. rw /read_sector !arith_ok; [lia..|]. rw !bind_Done.
  rw !arith_ok; [lia|]. rw bind_Done. ztrue. rw slice_ok; [lia..|].
  do 2 f_equal. lia.
Qed.

Lemma read_sector_outbound fs a :
  0 <= a * bytes_per_sector fs < 2 ^ 32 → 0 <= bytes_per_sector fs < 2 ^ 32 →
  zlen (disk fs) < (a + 1) * bytes_per_sector fs →
  read_sector fs a = Panic (Explicit "Error reading outbound").
Proof.
  move=> ???. rw /read_sector arith_ok; [lia|]. rw !bind_Done.
  rw arith_ok; [lia|]. rw bind_Done. by ztrue.
Qed.

Lemma read_sectors_ok fs start k i acc :
  0 <= start → 0 <= i → 0 < bytes_per_sector fs < 2 ^ 16 → zlen (disk fs) < 2 ^ 32 →
  (start + i + Z.of_nat k) * bytes_per_sector fs <= zlen (disk fs) →
  read_sectors fs start i k acc =
    Done (acc ++ sub ((start + i) * bytes_per_sector fs)
                     (Z.of_nat k * bytes_per_sector fs) (disk fs)).
Proof.
  elim: k i acc => [|k IH] i acc ?????.
  { by rw Z.mul_0_l /sub take_0 app_nil_r. }
  cbn [read_sectors]. rw arith_ok; [nia|]. rw bind_Done.
  rw read_sector_ok; [nia..|]. rw bind_Done IH; [nia..|].
  rw -app_assoc. do 2 f_equal.
  have -> : (start + (i + 1)) * bytes_per_sector fs =
            (start + i) * bytes_per_sector fs + bytes_per_sector fs by lia.
  rw sub_app; [nia..|]. f_equal. lia.
Qed.

Section volume.
Context (fs : Fat32FileSystem) (n : Z) (V : volume fs n).

#[local] Ltac vol := destruct V; unfold cluster_off, cluster_size, fat_off in *.

(** The arithmetic core of the geometry, on which the bounds below rest. *)
Lemma volume_sectors :
  0 < n ∧ 0 <= data_sector fs
  ∧ 0 <= data_sector fs + n * sectors_per_cluster fs
  ∧ (data_sector fs + n * sectors_per_cluster fs) * 32 <= zlen (disk fs).
Proof.
  vol. have ? : 0 <= data_sector fs by nia.
  have ? : 0 <= n * sectors_per_cluster fs by nia.
  set S := data_sector fs + _ in vol_data_room0 *.
  have ? : 0 <= S * (bytes_per_sector fs - 32) by apply Z.mul_nonneg_nonneg; lia.
  repeat split; lia.
Qed.

Lemma cluster_sectors c : 2 <= c < n + 2 →
  0 <= (c - 2) * sectors_per_cluster fs
  ∧ (c - 2) * sectors_per_cluster fs + sectors_per_cluster fs <= n * sectors_per_cluster fs.
Proof. vol => ?. nia. Qed.

Lemma first_sector_ok c : 2 <= c < n + 2 →
  first_sector fs c = Done (data_sector fs + (c - 2) * sectors_per_cluster fs).
Proof.
  move=> Hc. have ? := volume_sectors. have ? := cluster_sectors c Hc.
  destruct V. rw /first_sector arith_ok; [nia|].
  rw bind_Done arith_ok; [lia|]. rw bind_Done arith_ok //. lia.
Qed.

Lemma cluster_off_bounds c : 2 <= c < n + 2 →
  data_sector fs * bytes_per_sector fs <= cluster_off fs c
  ∧ cluster_off fs c + cluster_size fs <= zlen (disk fs).
Proof.
  move=> Hc. have ? := volume_sectors. have ? := cluster_sectors c Hc. vol. nia.
Qed.

Lemma cluster_size_bounds : 512 <= cluster_size fs < 2 ^ 24.
Proof. vol. nia. Qed.

Lemma cluster_size_mod32 : cluster_size fs mod 32 = 0.
Proof. vol. rw Z.mul_mod // vol_bps33 Z.mul_0_r //. Qed.

Lemma fat_off_bounds c : 0 <= c < n + 2 →
  0 <= fat_off fs c ∧ fat_off fs c + 4 <= data_sector fs * bytes_per_sector fs.
Proof. vol => ?. nia. Qed.

Lemma data_in_disk : 0 <= data_sector fs * bytes_per_sector fs <= zlen (disk fs).
Proof. have ? := volume_sectors. vol. nia. Qed.

(** Where an entry of the FAT lies: the sector and the index in it that the
    code computes address [fat_off], and the entry does not straddle. *)
Lemma fat_split c : 0 <= c < n + 2 →
  let q := c * 4 / bytes_per_sector fs in
  let r := c * 4 mod bytes_per_sector fs in
  0 <= q ∧ 0 <= r ∧ r + 4 <= bytes_per_sector fs
  ∧ (fat_sector fs + q) * bytes_per_sector fs + r = fat_off fs c
  ∧ fat_sector fs + q + 1 <= data_sector fs
  ∧ (fat_sector fs + q + 1) * bytes_per_sector fs <= data_sector fs * bytes_per_sector fs.
Proof.
  move=> Hc q r. have Hd := volume_sectors. vol.
  have E : c * 4 = bytes_per_sector fs * q + r by apply Z.div_mod; lia.
  have Hr : 0 <= r < bytes_per_sector fs by apply Z.mod_pos_bound; lia.
  have Hq : 0 <= q by apply Z.div_pos; lia.
  have [m Em] : ∃ m, bytes_per_sector fs = 32 * m.
  { exists (bytes_per_sector fs / 32). by apply Z_div_exact_full_2. }
  have ? : r + 4 <= bytes_per_sector fs.
  { have : r mod 4 = 0.
    { have -> : r = c * 4 + (- (8 * m * q)) * 4 by nia.
      by rw Z.mod_add // Z.mod_mul. }
    move=> /(Z_div_exact_full_2 r 4 ltac:(lia)) Er. lia. }
  have ? : fat_sector fs + q + 1 <= data_sector fs.
  { apply Z.nlt_ge => ?.
    have ? : data_sector fs * bytes_per_sector fs
             <= (fat_sector fs + q) * bytes_per_sector fs
      by apply Z.mul_le_mono_nonneg_r; lia.
    lia. }
  repeat split; [done|lia|done|lia|done|]. apply Z.mul_le_mono_nonneg_r; lia.
Qed.

(** Reading a cluster sector by sector gives the contiguous slice of the
    disk it occupies. *)
Lemma read_cluster_ok c : 2 <= c < n + 2 → read_cluster fs c = Done (cluster_data fs c).
Proof.
  move=> Hc. have ? := volume_sectors. have ? := cluster_sectors c Hc.
  rw /read_cluster first_sector_ok // bind_Done.
  have Hb := cluster_off_bounds c Hc. vol.
  rw read_sectors_ok; [lia|lia|lia|lia| |].
  - rw Z.add_0_r Z2Nat.id; [lia|]. rw Z.mul_add_distr_r. lia.
  - rw app_nil_l Z.add_0_r Z2Nat.id; [lia|]. done.
Qed.

Lemma read_fat_entry_ok c : 0 <= c < n + 2 → read_fat_entry fs c = Done (fat_get fs c).
Proof.
  move=> Hc. have [? [? [? [E [? ?]]]]] := fat_split c Hc.
  have ? := volume_sectors. have ? := fat_off_bounds c Hc. have ? := data_in_disk.
  rw /read_fat_entry. vol.
  rw arith_ok; [lia|]. rw bind_Done u_div_ok; [lia|].
  rw bind_Done arith_ok; [lia|]. rw bind_Done u_rem_ok; [lia|].
  rw bind_Done read_sector_ok; [lia..|].
  rw bind_Done arith_ok; [lia|]. rw bind_Done slice_ok; [lia..|rw zlen_sub; lia|].
  rw bind_Done /fat_get /fat_raw /fat_off. do 3 f_equal.
  rw sub_sub; [lia..|]. f_equal; lia.
Qed.

Lemma write_fat_entry_ok c value : 0 <= c < n + 2 →
  write_fat_entry c value fs = Done (fat_put c value fs).
Proof.
  move=> Hc. have [? [? [? [E [? ?]]]]] := fat_split c Hc.
  have ? := volume_sectors. have ? := fat_off_bounds c Hc. have ? := data_in_disk.
  rw /write_fat_entry. vol.
  rw arith_ok; [lia|]. rw bind_Done u_div_ok; [lia|].
  rw bind_Done arith_ok; [lia|]. rw bind_Done u_rem_ok; [lia|].
  rw bind_Done arith_ok; [lia|]. rw bind_Done arith_ok; [lia|].
  rw bind_Done arith_ok; [lia|]. rw bind_Done E slice_ok; [lia..|].
  rw bind_Done copy_into_ok; [lia|lia|rw zlen_to_le; lia|].
  rw bind_Done /fat_put /fat_raw /fat_off. do 2 f_equal.
  by have -> : fat_sector fs * bytes_per_sector fs + 4 * c + 4
    - (fat_sector fs * bytes_per_sector fs + 4 * c) = 4 by lia.
Qed.

(** The geometry survives every write of bytes that keeps the size. *)
Lemma volume_set_disk (d' : list Z) : zlen d' = zlen (disk fs) → bytes d' → volume (set_disk d' fs) n.
Proof. vol => E ?. split; simpl; rw ?E //. Qed.

Lemma volume_fat_put c value : 0 <= c < n + 2 → volume (fat_put c value fs) n.
Proof.
  move=> Hc. have ? := fat_off_bounds c Hc. have ? := data_in_disk.
  apply volume_set_disk; [apply zlen_splice; len|]. destruct V. auto with fat.
Qed.

Lemma volume_data_put c k src : 2 <= c < n + 2 → 0 <= k → k + zlen src <= cluster_size fs →
  bytes src → volume (data_put c k src fs) n.
Proof.
  move=> Hc ???. have ? := cluster_off_bounds c Hc. have ? := data_in_disk.
  apply volume_set_disk; [apply zlen_splice; len|]. destruct V. auto with fat.
Qed.

(** *** Reading back an entry of the FAT *)

Lemma fat_raw_bounds c : 0 <= c < n + 2 → 0 <= fat_raw fs c < 2 ^ 32.
Proof.
  move=> Hc. have ? := fat_off_bounds c Hc. have ? := data_in_disk. vol.
  have := from_le_bound (sub (fat_off fs c) 4 (disk fs)) (Forall_sub _ _ _ _ vol_bytes0).
  rw zlen_sub; vol; [lia..|done].
Qed.

Lemma fat_get_bounds c : 0 <= fat_get fs c < 2 ^ 28.
Proof.
  rw /fat_get (Z.land_ones _ 28 ltac:(lia)). by apply Z.mod_pos_bound.
Qed.

Lemma fat_raw_put_same c value : 0 <= c < n + 2 →
  fat_raw (fat_put c value fs) c =
    Z.lor (Z.land (fat_raw fs c) 0xF0000000) (Z.land value 0x0FFFFFFF).
Proof.
  move=> Hc. have ? := fat_off_bounds c Hc. have ? := data_in_disk.
  have Hr := fat_raw_bounds c Hc.
  rw {1}/fat_raw /fat_put fat_off_set_disk /=.
  set w := Z.lor _ _. have -> : 4 = zlen (u32_to_le w) by rw zlen_to_le.
  rw sub_splice_same; [lia|rw zlen_to_le; lia|]. apply from_to_le.
  change (256 ^ Z.of_nat 4) with (2 ^ 32). split.
  - apply Z.lor_nonneg; split; apply Z.land_nonneg; lia.
  - have Hw : w = w mod 2 ^ 32; [|rw Hw; by apply Z.mod_pos_bound].
    rw -Z.land_ones // /w Z.land_lor_distr_l -!Z.land_assoc //.
Qed.

Lemma fat_get_put_same c value : 0 <= c < n + 2 →
  fat_get (fat_put c value fs) c = Z.land value 0x0FFFFFFF.
Proof.
  move=> Hc. rw /fat_get fat_raw_put_same // Z.land_lor_distr_l -!Z.land_assoc.
  by change (Z.land 0xF0000000 0x0FFFFFFF) with 0; rw Z.land_0_r.
Qed.

Lemma fat_raw_put_other c d value : 0 <= c < n + 2 → 0 <= d < n + 2 → c ≠ d →
  fat_raw (fat_put c value fs) d = fat_raw fs d.
Proof.
  move=> Hc Hd ?. have ? := fat_off_bounds c Hc. have ? := fat_off_bounds d Hd.
  have ? := data_in_disk. rw /fat_raw /fat_put fat_off_set_disk /=.
  rw sub_splice_disjoint //; unfold fat_off in *; len.
Qed.

Lemma fat_get_put_other c d value : 0 <= c < n + 2 → 0 <= d < n + 2 → c ≠ d →
  fat_get (fat_put c value fs) d = fat_get fs d.
Proof. move=> ???. by rw /fat_get fat_raw_put_other. Qed.

Lemma cluster_data_fat_put c d value : 0 <= c < n + 2 → 2 <= d < n + 2 →
  cluster_data (fat_put c value fs) d = cluster_data fs d.
Proof.
  move=> Hc Hd. have ? := fat_off_bounds c Hc. have ? := cluster_off_bounds d Hd.
  have ? := data_in_disk. have ? := cluster_size_bounds.
  rw /cluster_data /fat_put cluster_off_set_disk cluster_size_set_disk /=.
  rw sub_splice_disjoint //; len.
Qed.

(** *** Reading back a cluster *)

Lemma zlen_cluster_data c : 2 <= c < n + 2 → zlen (cluster_data fs c) = cluster_size fs.
Proof.
  move=> Hc. have ? := cluster_off_bounds c Hc. have ? := data_in_disk.
  have ? := cluster_size_bounds. rw /cluster_data zlen_sub; lia.
Qed.

Lemma bytes_cluster_data c : bytes (cluster_data fs c).
Proof. destruct V. by apply Forall_sub. Qed.

Lemma cluster_data_put_same c k src : 2 <= c < n + 2 → 0 <= k →
  k + zlen src <= cluster_size fs →
  cluster_data (data_put c k src fs) c = splice k src (cluster_data fs c).
Proof.
  move=> Hc ??. have ? := cluster_off_bounds c Hc. have ? := data_in_disk.
  rw /cluster_data /data_put cluster_off_set_disk cluster_size_set_disk /=.
  by rw sub_splice_within; [lia..|].
Qed.

Lemma cluster_data_put_other c d k src : 2 <= c < n + 2 → 2 <= d < n + 2 → c ≠ d → 0 <= k →
  k + zlen src <= cluster_size fs →
  cluster_data (data_put c k src fs) d = cluster_data fs d.
Proof.
  move=> Hc Hd ???. have ? := cluster_off_bounds c Hc. have ? := cluster_off_bounds d Hd.
  have ? := data_in_disk. have ? := cluster_size_bounds.
  have Hs : cluster_off fs d = cluster_off fs c + (d - c) * cluster_size fs
    by rw /cluster_off /cluster_size; lia.
  rw /cluster_data /data_put cluster_off_set_disk cluster_size_set_disk /=.
  rw sub_splice_disjoint; [lia..| |done]. nia.
Qed.

Lemma fat_get_data_put c d k src : 0 <= c < n + 2 → 2 <= d < n + 2 → 0 <= k →
  k + zlen src <= cluster_size fs →
  fat_get (data_put d k src fs) c = fat_get fs c.
Proof.
  move=> Hc Hd ??. have ? := fat_off_bounds c Hc. have ? := cluster_off_bounds d Hd.
  have ? := data_in_disk. have ? := cluster_size_bounds.
  rw /fat_get /fat_raw /data_put fat_off_set_disk /=.
  rw sub_splice_disjoint //; lia.
Qed.
End volume.
End correctness.

#[export] Hint Resolve volume_fat_put volume_data_put : fat.

Section fat_theorem.
Context `{Profile}.

(** C28: Setting a FAT entry and reading it back yields its 28 bits; the four
    reserved bits of the entry, every other entry and every data cluster keep
    their values, and the image is still a volume of [n] clusters. *)
Theorem write_fat_entry_roundtrip fs n c value :
  volume fs n → 0 <= c < n + 2 →
  ∃ fs', write_fat_entry c value fs = Done fs'
    ∧ read_fat_entry fs' c = Done (Z.land value 0x0FFFFFFF)
    ∧ Z.land (fat_raw fs' c) 0xF0000000 = Z.land (fat_raw fs c) 0xF0000000
    ∧ (∀ d, 0 <= d < n + 2 → d ≠ c → read_fat_entry fs' d = read_fat_entry fs d)
    ∧ (∀ d, 2 <= d < n + 2 → read_cluster fs' d = read_cluster fs d)
    ∧ volume fs' n.
Proof.
  move=> V Hc. have V' := volume_fat_put fs n V c value Hc. exists (fat_put c value fs).
  split; [by apply write_fat_entry_ok with n|].
  split; [by rw (read_fat_entry_ok _ n V') // (fat_get_put_same fs n V)|]. split.
  { rw (fat_raw_put_same fs n V) // Z.land_lor_distr_l -!Z.land_assoc.
    by change (Z.land 0x0FFFFFFF 0xF0000000) with 0; rw Z.land_0_r Z.lor_0_r. }
  split; [|split; [|done]] => d ? *.
  - rw !(read_fat_entry_ok _ n) // (fat_get_put_other fs n V) //.
  - by rw !(read_cluster_ok _ n) // (cluster_data_fat_put fs n V).
Qed.
End fat_theorem.

(** ** Mounting *)

(** The BIOS parameter block, with the bytes the mount code does not read. *)
Record bpb := mkBpb {
  bpb_jump : list Z;
  bpb_bytes_per_sector : Z;
  bpb_sectors_per_cluster : Z;
  bpb_reserved_sectors : Z;
  bpb_num_fats : Z;
  bpb_fat16 : list Z;
  bpb_sectors_per_fat : Z;
  bpb_ext : list Z;
  bpb_root_cluster : Z;
}.

(** The first 48 bytes of a formatted image. *)
Definition boot_sector (b : bpb) : list Z :=
  bpb_jump b ++ u16_to_le (bpb_bytes_per_sector b) ++ [bpb_sectors_per_cluster b]
  ++ u16_to_le (bpb_reserved_sectors b) ++ [bpb_num_fats b]
  ++ bpb_fat16 b ++ u32_to_le (bpb_sectors_per_fat b)
  ++ bpb_ext b ++ u32_to_le (bpb_root_cluster b).

(** The file system a formatted image mounts to. *)
Definition mounted (b : bpb) (d : list Z) : Fat32FileSystem :=
  mkFat32FileSystem d (bpb_bytes_per_sector b) (bpb_sectors_per_cluster b)
    (bpb_reserved_sectors b)
    (bpb_reserved_sectors b + bpb_num_fats b * bpb_sectors_per_fat b) (bpb_root_cluster b).

Record bpb_ok (b : bpb) : Prop := {
  bpb_jump_len : zlen (bpb_jump b) = 11;
  bpb_bps_range : 0 <= bpb_bytes_per_sector b < 2 ^ 16;
  bpb_spc_range : is_byte (bpb_sectors_per_cluster b);
  bpb_rsvd_range : 0 <= bpb_reserved_sectors b < 2 ^ 16;
  bpb_nf_range : is_byte (bpb_num_fats b);
  bpb_fat16_len : zlen (bpb_fat16 b) = 19;
  bpb_spf_range : 0 <= bpb_sectors_per_fat b < 2 ^ 32;
  bpb_ext_len : zlen (bpb_ext b) = 4;
  bpb_root_range : 0 <= bpb_root_cluster b < 2 ^ 32;
  bpb_data_range : bpb_reserved_sectors b + bpb_num_fats b * bpb_sectors_per_fat b < 2 ^ 32;
}.

Section mount.
Context `{Profile}.

(** Reading a field that is laid out after [pre]. *)
Lemma field_le d o k z pre post :
  d = pre ++ to_le k z ++ post → zlen pre = o → 0 <= z < 256 ^ Z.of_nat k →
  from_le (sub o (Z.of_nat k) d) = z.
Proof.
  move=> -> <- ?. rw sub_app_r; [lia|]. rw Z.sub_diag sub_app_l; [by rw zlen_to_le|].
  by apply from_to_le.
Qed.

Lemma field_byte (d : list Z) o z pre post :
  d = pre ++ z :: post → zlen pre = o → index d o = Done z.
Proof.
  move=> -> <-. apply index_ok; [apply zlen_nonneg|].
  rw to_nat_zlen. by apply list_lookup_middle.
Qed.

Lemma boot_read_u16_eq d off :
  boot_read_u16 d off =
    if boot_offset off + 2 <=? zlen d then Done (from_le (sub (boot_offset off) 2 d))
    else Panic IndexOutOfBounds.
Proof.
  have ? : 0 <= boot_offset off <= 44 by case: off => /=.
  rw /boot_read_u16 arith_ok; [lia|]. rw bind_Done /slice. ztrue.
  case_test => //=. do 3 f_equal. lia.
Qed.

Lemma boot_read_u32_eq d off :
  boot_read_u32 d off =
    if boot_offset off + 4 <=? zlen d then Done (from_le (sub (boot_offset off) 4 d))
    else Panic IndexOutOfBounds.
Proof.
  have ? : 0 <= boot_offset off <= 44 by case: off => /=.
  rw /boot_read_u32 arith_ok; [lia|]. rw bind_Done /slice. ztrue.
  case_test => //=. do 3 f_equal. lia.
Qed.

(** C27: Mounting a formatted image recovers every field of its BIOS parameter
    block, whatever follows it, and places the data area after the reserved
    sectors and all copies of the FAT. *)
Theorem new_formatted b rest : bpb_ok b →
  new (boot_sector b ++ rest) = Done (mounted b (boot_sector b ++ rest)).
Proof.
  move=> [????????? Hd]. set d := boot_sector b ++ rest.
  have Hlen : 48 <= zlen d by rw /d /boot_sector; len.
  have E : d = boot_sector b ++ rest by []. rw /boot_sector -!app_assoc in E.
  pose p13 := bpb_jump b ++ u16_to_le (bpb_bytes_per_sector b).
  pose p14 := p13 ++ [bpb_sectors_per_cluster b].
  pose p16 := p14 ++ u16_to_le (bpb_reserved_sectors b).
  pose p36 := p16 ++ [bpb_num_fats b] ++ bpb_fat16 b.
  pose p44 := p36 ++ u32_to_le (bpb_sectors_per_fat b) ++ bpb_ext b.
  have E11 : from_le (sub 11 2 d) = bpb_bytes_per_sector b by eapply (field_le d 11 2).
  have E13 : index d 13 = Done (bpb_sectors_per_cluster b).
  { eapply (field_byte d 13 _ p13); [by rw E /p13 -!app_assoc|rw /p13; len]. }
  have E14 : from_le (sub 14 2 d) = bpb_reserved_sectors b.
  { eapply (field_le d 14 2 _ p14); [by rw E /p14 /p13 -!app_assoc|rw /p14 /p13; len|done]. }
  have E16 : index d 16 = Done (bpb_num_fats b).
  { eapply (field_byte d 16 _ p16);
      [by rw E /p16 /p14 /p13 -!app_assoc|rw /p16 /p14 /p13; len]. }
  have E36 : from_le (sub 36 4 d) = bpb_sectors_per_fat b.
  { eapply (field_le d 36 4 _ p36);
      [by rw E /p36 /p16 /p14 /p13 -!app_assoc|rw /p36 /p16 /p14 /p13; len|done]. }
  have E44 : from_le (sub 44 4 d) = bpb_root_cluster b.
  { eapply (field_le d 44 4 _ p44);
      [by rw E /p44 /p36 /p16 /p14 /p13 -!app_assoc|rw /p44 /p36 /p16 /p14 /p13; len|done]. }
  rw /new !boot_read_u16_eq !boot_read_u32_eq. cbn [boot_offset]. ztrue.
  rw E11 E13 E14 E16 E36 E44 !bind_Done.
  rw arith_ok; [nia|]. rw bind_Done arith_ok; [nia|]. done.
Qed.

(** An image too short for the boot sector is refused with a panic. *)
Lemma new_short d : zlen d < 48 → new d = Panic IndexOutOfBounds.
Proof.
  move=> ?. rw /new !boot_read_u16_eq !boot_read_u32_eq /index. cbn [boot_offset].
  ztrue. repeat (case_test || case_match); rw ?bind_Done //=.
Qed.
End mount.
