(* ===== verification/DirEntry.v ===== *)
(** * Directory entries: short names, long names and directory listings

    Models the entry formats of [src/src/file_system.rs]: the 32-byte short
    entries ([FatDir]), the long-name entries ([LongFileName]) with their
    checksum, the reconstruction of long names and the scan of a directory
    cluster ([list_directory_entries]). *)

From S2P Require Import Prelude Machine Str Volume.

(** ** Data *)

Record FatDir := mkFatDir {
  fd_name : list Z;
  fd_attr : Z;
  first_cluster_high : Z;
  first_cluster_low : Z;
  fd_size : Z;
}.

Inductive DirOffsets := DirName | DirAttr | FstClusHI | FstClusLO | FileSize.

Definition dir_offset (o : DirOffsets) : Z :=
  match o with
  | DirName => 0
  | DirAttr => 11
  | FstClusHI => 20
  | FstClusLO => 26
  | FileSize => 28
  end.

Record LongFileName := mkLongFileName {
  seq_num : Z;
  name_1 : list Z;
  lfn_attr : Z;
  l_type : Z;
  chksum : Z;
  name_2 : list Z;
  reserved_fch : Z;
  name_3 : list Z;
}.

Inductive LfnOffsets := LfnOrd | LfnName1 | LfnAttr | LfnLType | LfnChkSum | LfnName2 | ReservedFCH | LfnName3.

Definition lfn_offset (o : LfnOffsets) : Z :=
  match o with
  | LfnOrd => 0
  | LfnName1 => 1
  | LfnAttr => 11
  | LfnLType => 12
  | LfnChkSum => 13
  | LfnName2 => 14
  | ReservedFCH => 26
  | LfnName3 => 28
  end.

Record FileInfo := mkFileInfo {
  fi_name : str;
  is_directory : bool;
  fi_size : Z;
  start_cluster : Z;
}.

#[export] Instance FatDir_eq_dec : EqDecision FatDir.
Proof. solve_decision. Defined.
#[export] Instance LongFileName_eq_dec : EqDecision LongFileName.
Proof. solve_decision. Defined.
#[export] Instance FileInfo_eq_dec : EqDecision FileInfo.
Proof. solve_decision. Defined.

(** Fragments collected before the short entry: sequence number and UTF-16 units. *)
Abbreviation LfnFragments := (list (Z * list Z)).

Definition ENTRY_SIZE : Z := 32.
Definition ATTR_LFN : Z := 0x0F.
Definition ATTR_DIRECTORY : Z := 0x10.

(** ** Operations *)

(** [data[o..o + n].try_into().unwrap()] *)
Definition field (data : list Z) (o n : Z) : outcome (list Z) := slice data o (o + n).

Definition dir_read_u16 (data : list Z) (off : DirOffsets) : outcome Z :=
  s ← field data (dir_offset off) 2; Done (from_le s).

Definition dir_read_u32 (data : list Z) (off : DirOffsets) : outcome Z :=
  s ← field data (dir_offset off) 4; Done (from_le s).

Definition FatDir_new (data : list Z) : outcome FatDir :=
  name ← field data (dir_offset DirName) 11;
  attr ← index data (dir_offset DirAttr);
  high ← dir_read_u16 data FstClusHI;
  low ← dir_read_u16 data FstClusLO;
  size ← dir_read_u32 data FileSize;
  Done (mkFatDir name attr high low size).

Definition LongFileName_new (data : list Z) : outcome LongFileName :=
  seq_num ← index data (lfn_offset LfnOrd);
  attr ← index data (lfn_offset LfnAttr);
  l_type ← index data (lfn_offset LfnLType);
  chksum ← index data (lfn_offset LfnChkSum);
  name_1 ← field data (lfn_offset LfnName1) 10;
  name_2 ← field data (lfn_offset LfnName2) 12;
  name_3 ← field data (lfn_offset LfnName3) 4;
  fch ← field data (lfn_offset ReservedFCH) 2;
  Done (mkLongFileName seq_num name_1 attr l_type chksum name_2 (from_le fch) name_3).

(** One step of the checksum loop, on [u8] values. *)
Definition checksum_step (sum b : Z) : Z :=
  let carry := Z.shiftl (Z.land sum 1) 7 in
  ((Z.shiftr sum 1 + carry) mod 256 + b) mod 256.

Definition lfn_checksum (short_name : list Z) : Z := foldl checksum_step 0 short_name.

(** The loop [while end > 0 && part[end - 1] == b' ' { end -= 1 }]. *)
Fixpoint trim_end (part : list Z) (fin : nat) : nat :=
  match fin with
  | O => O
  | S fin' => if bool_decide (part !! fin' = Some 32) then trim_end part fin' else fin
  end.

(** [str::from_utf8(&part[..end]).unwrap_or("").to_string()] after trimming. *)
Definition part_to_string (part : list Z) : str :=
  default [] (from_utf8 (take (trim_end part (length part)) part)).

Definition short_name_to_string (name11 : list Z) : str :=
  let name_str := part_to_string (sub 0 8 name11) in
  let ext_str := part_to_string (sub 8 3 name11) in
  if is_empty ext_str then name_str else name_str ++ dot :: ext_str.

Definition byte_to_u16_vec (fragment : list Z) : list Z := from_le <$> chunks_exact 2 fragment.

(** The loop over [lfn_fragments.iter_mut()]: the updated fragments, or [None]
    when no fragment has that sequence number. *)
Fixpoint replace_fragment (seq : Z) (data : list Z) (frags : LfnFragments) : option LfnFragments :=
  match frags with
  | [] => None
  | (s, f) :: frags' =>
      if s =? seq then Some ((s, data) :: frags')
      else cons (s, f) <$> replace_fragment seq data frags'
  end.

Definition process_lfn_entry (entry_chunk : list Z) (lfn_fragments : LfnFragments)
    (expected_checksum : option Z) : outcome (LfnFragments * option Z) :=
  lfn_entry ← LongFileName_new entry_chunk;
  let seq := Z.land (seq_num lfn_entry) 0x1F in
  let is_last := negb (Z.land (seq_num lfn_entry) 0x40 =? 0) in
  let frags := if is_last then [] else lfn_fragments in
  let expected := if is_last then Some (chksum lfn_entry) else expected_checksum in
  let fragment_data := byte_to_u16_vec (name_1 lfn_entry) ++ byte_to_u16_vec (name_2 lfn_entry)
                       ++ byte_to_u16_vec (name_3 lfn_entry) in
  match replace_fragment seq fragment_data frags with
  | Some frags' => Done (frags', expected)
  | None => Done (frags ++ [(seq, fragment_data)], expected)
  end.

(** [frags.sort_by(|a, b| a.0.cmp(&b.0))], a stable sort. *)
Fixpoint insert_fragment (f : Z * list Z) (frags : LfnFragments) : LfnFragments :=
  match frags with
  | [] => [f]
  | g :: frags' => if f.1 <=? g.1 then f :: frags else g :: insert_fragment f frags'
  end.

Definition sort_fragments (frags : LfnFragments) : LfnFragments := foldr insert_fragment [] frags.

(** The inner loop over the units of a fragment: padding is skipped and the
    terminator ends the fragment. *)
Fixpoint fragment_chars (frag : list Z) : list Z :=
  match frag with
  | [] => []
  | ch :: frag' =>
      if ch =? 0x0000 then []
      else if ch =? 0xFFFF then fragment_chars frag'
      else ch :: fragment_chars frag'
  end.

Definition assemble_lfn (lfn_fragments : LfnFragments) : option str :=
  if is_empty lfn_fragments then None
  else from_utf16 (sort_fragments lfn_fragments ≫= λ f, fragment_chars f.2).

(** The [FileInfo] of a short entry, and the fragments left for the caller. *)
Definition process_data_entry (entry_chunk : list Z) (lfn_fragments : LfnFragments)
    (expected_checksum : option Z) (attr_directory_mask : Z)
    : outcome (option FileInfo * LfnFragments) :=
  dir_entry ← FatDir_new entry_chunk;
  if negb (Z.land (fd_attr dir_entry) 0x08 =? 0) then Done (None, lfn_fragments)
  else
    let start_cluster :=
      Z.lor (Z.shiftl (first_cluster_high dir_entry) 16) (first_cluster_low dir_entry) in
    let is_directory := negb (Z.land (fd_attr dir_entry) attr_directory_mask =? 0) in
    let size := fd_size dir_entry in
    let '(name_to_use, frags) :=
      if is_empty lfn_fragments then (None, lfn_fragments)
      else
        let computed := lfn_checksum (fd_name dir_entry) in
        match expected_checksum with
        | Some expected =>
            if expected =? computed then (assemble_lfn lfn_fragments, lfn_fragments) else (None, [])
        | None => (None, [])
        end in
    let name := match name_to_use with
                | Some n => n
                | None => short_name_to_string (fd_name dir_entry)
                end in
    Done (Some (mkFileInfo name is_directory size start_cluster), frags).

(** The loop over the entries of a directory cluster. *)
Fixpoint scan_entries (chunks : list (list Z)) (lfn_fragments : LfnFragments)
    (expected_checksum : option Z) (results : list FileInfo) : outcome (list FileInfo) :=
  match chunks with
  | [] => Done results
  | entry_chunk :: chunks' =>
      first_byte ← index entry_chunk 0;
      attributes ← index entry_chunk 11;
      if first_byte =? 0x00 then Done results
      else if first_byte =? 0xE5 then scan_entries chunks' [] None results
      else if attributes =? ATTR_LFN then
        st ← process_lfn_entry entry_chunk lfn_fragments expected_checksum;
        scan_entries chunks' st.1 st.2 results
      else
        r ← process_data_entry entry_chunk lfn_fragments expected_checksum ATTR_DIRECTORY;
        scan_entries chunks' [] None (results ++ option_list r.1)
  end.

Definition list_directory_entries `{Profile} (fs : Fat32FileSystem) (cluster_id : Z)
    : outcome (list FileInfo) :=
  cluster_data ← read_cluster fs cluster_id;
  scan_entries (chunks_exact ENTRY_SIZE cluster_data) [] None [].

Definition list_files_names (files : list FileInfo) : list str := fi_name <$> files.

(** ** Entries of the right size are parsed without panicking *)

Definition byte_at (e : list Z) (i : Z) : Z := default 0 (e !! Z.to_nat i).

Definition fat_dir (e : list Z) : FatDir :=
  mkFatDir (sub 0 11 e) (byte_at e 11) (from_le (sub 20 2 e)) (from_le (sub 26 2 e))
    (from_le (sub 28 4 e)).

Definition long_entry (e : list Z) : LongFileName :=
  mkLongFileName (byte_at e 0) (sub 1 10 e) (byte_at e 11) (byte_at e 12) (byte_at e 13)
    (sub 14 12 e) (from_le (sub 26 2 e)) (sub 28 4 e).

Lemma index_byte_at e i : 0 <= i < zlen e → index e i = Done (byte_at e i).
Proof. move=> /index_Done [x [E ->]]. by rw /byte_at E. Qed.

Lemma byte_at_app_r l k i : zlen l <= i → byte_at (l ++ k) i = byte_at k (i - zlen l).
Proof.
  rw /byte_at /zlen => ?. rw lookup_app_r; [lia|]. do 2 f_equal. lia.
Qed.

Lemma byte_at_app_l l k i : 0 <= i < zlen l → byte_at (l ++ k) i = byte_at l i.
Proof. rw /byte_at /zlen => ?. rw lookup_app_l //. lia. Qed.

Lemma field_ok data o n :
  0 <= o → 0 <= n → o + n <= zlen data → field data o n = Done (sub o n data).
Proof. move=> ???. rw /field slice_ok; [lia..|]. do 2 f_equal. lia. Qed.

Lemma FatDir_new_ok e : zlen e = 32 → FatDir_new e = Done (fat_dir e).
Proof.
  move=> E. rw /FatDir_new /dir_read_u16 /dir_read_u32. cbn [dir_offset].
  by rw !field_ok ?E // index_byte_at ?E.
Qed.

Lemma LongFileName_new_ok e : zlen e = 32 → LongFileName_new e = Done (long_entry e).
Proof.
  move=> E. rw /LongFileName_new. cbn [lfn_offset].
  by rw !field_ok ?E // !index_byte_at ?E.
Qed.

Lemma chunks_exact_zlen n (l : list Z) :
  0 < n → Forall (λ e, zlen e = n) (chunks_exact n l).
Proof.
  move=> ?. apply Forall_fmap, Forall_forall => k /elem_of_seqZ ?.
  have ? := Z.mul_div_le (zlen l) n. rw /= zlen_sub; nia.
Qed.

Lemma chunks_exact_bytes n l : bytes l → Forall (λ e, bytes e) (chunks_exact n l).
Proof. move=> ?. apply Forall_fmap, Forall_forall => k _ /=. by apply Forall_sub. Qed.

(** ** Typing of the scan *)

(** The Rust types of a [FileInfo]: a string is valid UTF-8, the integers are [u32]. *)
Definition FileInfo_typed (f : FileInfo) : Prop :=
  from_utf8 (fi_name f) = Some (fi_name f)
  ∧ 0 <= fi_size f < 2 ^ 32 ∧ 0 <= start_cluster f < 2 ^ 32.

Definition fragments_typed (frags : LfnFragments) : Prop :=
  Forall (λ f, Forall (λ u, 0 <= u < 2 ^ 16) f.2) frags.

Lemma utf8_decode_app s t cs ds :
  utf8_decode s = Some cs → utf8_decode t = Some ds → utf8_decode (s ++ t) = Some (cs ++ ds).
Proof.
  remember (length s) as n eqn:Hn. move: s cs Hn.
  induction n as [n IH] using lt_wf_ind => -[|b0 s] cs Hn Hs Ht; [by injection Hs as <-|].
  move: Hs. cbn [utf8_decode app].
  assert (step : ∀ c l cs', (length l < n)%nat → cons c <$> utf8_decode l = Some cs' →
    cons c <$> utf8_decode (l ++ t) = Some (cs' ++ ds)).
  { move=> c l cs' Hl /fmap_Some [k [E ->]]. by rw (IH (length l) Hl l k eq_refl E Ht). }
  case_match; [apply step; simpl in *; lia|].
  destruct s as [|b1 s]; [done|]. cbn [app].
  case_match; [case_match; [apply step; simpl in *; lia|done]|].
  destruct s as [|b2 s]; [done|]. cbn [app].
  case_match; [case_match; [apply step; simpl in *; lia|done]|].
  destruct s as [|b3 s]; [done|]. cbn [app].
  case_match; [apply step; simpl in *; lia|done].
Qed.

Lemma from_utf8_app s t :
  from_utf8 s = Some s → from_utf8 t = Some t → from_utf8 (s ++ t) = Some (s ++ t).
Proof.
  rw /from_utf8. case Es: (utf8_decode s) => // _. case Et: (utf8_decode t) => // _.
  by rw (utf8_decode_app _ _ _ _ Es Et).
Qed.

Lemma part_to_string_valid p : from_utf8 (part_to_string p) = Some (part_to_string p).
Proof.
  rw /part_to_string. set t := take _ p. rw /from_utf8.
  case E: (utf8_decode t) => [cs|] //=. by rw E.
Qed.

Lemma short_name_valid name11 :
  from_utf8 (short_name_to_string name11) = Some (short_name_to_string name11).
Proof.
  rw /short_name_to_string. case: (is_empty _); [apply part_to_string_valid|].
  apply from_utf8_app; [apply part_to_string_valid|].
  by apply (from_utf8_app [dot]); [|apply part_to_string_valid].
Qed.

Lemma byte_to_u16_vec_typed l : bytes l → Forall (λ u, 0 <= u < 2 ^ 16) (byte_to_u16_vec l).
Proof.
  move=> Hl. apply Forall_fmap. have Hz := chunks_exact_zlen 2 l ltac:(lia).
  have Hb := chunks_exact_bytes 2 l Hl.
  eapply Forall_impl; [apply Forall_and; split; [exact Hz|exact Hb]|]. move=> e [E He].
  have := from_le_bound e He. by rw E.
Qed.

Lemma replace_fragment_typed seq data frags frags' :
  Forall (λ u, 0 <= u < 2 ^ 16) data → fragments_typed frags →
  replace_fragment seq data frags = Some frags' → fragments_typed frags'.
Proof.
  move=> Hd. elim: frags frags' => [|[s f] frags IH] frags' //= /Forall_cons [? ?].
  case_test; [move=> [<-]; by constructor|].
  move=> /fmap_Some [k [E ->]]. constructor; [done|by apply IH].
Qed.

Lemma fragment_chars_typed l :
  Forall (λ u, 0 <= u < 2 ^ 16) l → Forall (λ u, 0 <= u < 2 ^ 16) (fragment_chars l).
Proof. elim=> [|u k ?? IH] /=; [done|]. repeat case_test; auto. Qed.

Lemma insert_fragment_perm f frags : insert_fragment f frags ≡ₚ f :: frags.
Proof.
  elim: frags => [|g frags IH] //=. case_test; [done|]. rw IH. apply Permutation_swap.
Qed.

Lemma sort_fragments_perm frags : sort_fragments frags ≡ₚ frags.
Proof. elim: frags => [|f frags IH] //=. by rw insert_fragment_perm IH. Qed.

Lemma assemble_lfn_valid frags s :
  fragments_typed frags → assemble_lfn frags = Some s → from_utf8 s = Some s.
Proof.
  move=> Hf. rw /assemble_lfn. case: (is_empty frags) => //. apply from_utf16_valid.
  apply Forall_bind. rw sort_fragments_perm.
  by eapply Forall_impl; [|move=> f; apply fragment_chars_typed].
Qed.

Lemma process_lfn_entry_total e frags ck :
  zlen e = 32 → bytes e → fragments_typed frags →
  ∃ st, process_lfn_entry e frags ck = Done st ∧ fragments_typed st.1.
Proof.
  move=> He Hb Hf. rw /process_lfn_entry LongFileName_new_ok // bind_Done /=.
  set frags0 := if negb _ then [] else frags.
  have Hf0 : fragments_typed frags0 by rw /frags0; case: (negb _); [constructor|].
  set data := byte_to_u16_vec _ ++ _. have Hd : Forall (λ u, 0 <= u < 2 ^ 16) data.
  { rw /data !Forall_app. repeat split; by apply byte_to_u16_vec_typed, Forall_sub. }
  case E: (replace_fragment _ data frags0) => [frags'|]; eexists; split; try done.
  - by eapply replace_fragment_typed.
  - apply Forall_app; split; [done|by constructor].
Qed.

Lemma from_le_u16 e i : bytes e → 0 <= i → i + 2 <= zlen e → 0 <= from_le (sub i 2 e) < 2 ^ 16.
Proof.
  move=> He ??. have := from_le_bound (sub i 2 e) (Forall_sub _ _ _ _ He).
  by rw zlen_sub.
Qed.

Lemma from_le_u32 e i : bytes e → 0 <= i → i + 4 <= zlen e → 0 <= from_le (sub i 4 e) < 2 ^ 32.
Proof.
  move=> He ??. have := from_le_bound (sub i 4 e) (Forall_sub _ _ _ _ He).
  by rw zlen_sub.
Qed.

Lemma process_data_entry_total e frags ck mask :
  zlen e = 32 → bytes e → fragments_typed frags →
  ∃ r, process_data_entry e frags ck mask = Done r
       ∧ Forall FileInfo_typed (option_list r.1).
Proof.
  move=> He Hb Hf. rw /process_data_entry FatDir_new_ok // bind_Done.
  case: (negb _); [eexists; split; [done|constructor]|].
  have Hhi : 0 <= first_cluster_high (fat_dir e) < 2 ^ 16 by apply (from_le_u16 e 20); rw ?He.
  have Hlo : 0 <= first_cluster_low (fat_dir e) < 2 ^ 16 by apply (from_le_u16 e 26); rw ?He.
  have Hsz : 0 <= fd_size (fat_dir e) < 2 ^ 32 by apply (from_le_u32 e 28); rw ?He.
  set q := if is_empty frags then _ else _.
  have Hq : ∀ s, q.1 = Some s → from_utf8 s = Some s.
  { rw /q => s. repeat case_match => //=. by apply assemble_lfn_valid. }
  case: q Hq => [name frags'] /= Hq. eexists; split; [done|].
  constructor; [|constructor]. split; [|split; [done|]]; simpl.
  - case: name Hq => [s|_]; [by apply|apply short_name_valid].
  - move: Hhi Hlo => /= ??. rw lor_shiftl_add //. lia.
Qed.

Lemma scan_entries_total chunks frags ck acc :
  Forall (λ e, zlen e = 32) chunks → Forall (λ e, bytes e) chunks →
  fragments_typed frags → Forall FileInfo_typed acc →
  ∃ l, scan_entries chunks frags ck acc = Done l ∧ Forall FileInfo_typed l.
Proof.
  elim: chunks frags ck acc => [|e chunks IH] frags ck acc; [by eexists|].
  move=> /Forall_cons [He ?] /Forall_cons [Hb ?] Hf Ha. cbn [scan_entries].
  rw !index_byte_at ?He // !bind_Done.
  case_test; [by eexists|]. case_test; [by apply IH; [..|constructor|]|].
  case_test.
  - destruct (process_lfn_entry_total e frags ck) as [[f c] [-> ?]]; [done..|].
    rw bind_Done. by apply IH.
  - destruct (process_data_entry_total e frags ck ATTR_DIRECTORY) as [r [-> ?]]; [done..|].
    rw bind_Done. apply IH; [done..|constructor|]. by apply Forall_app.
Qed.

Section listing.
Context `{Profile}.

Lemma listing_total fs n c :
  volume fs n → 2 <= c < n + 2 →
  ∃ l, list_directory_entries fs c = Done l ∧ Forall FileInfo_typed l.
Proof.
  move=> V Hc. rw /list_directory_entries (read_cluster_ok fs n V c Hc) bind_Done.
  apply scan_entries_total; [by apply chunks_exact_zlen| |constructor|constructor].
  by apply chunks_exact_bytes, bytes_cluster_data with n.
Qed.

(** C31: On a volume of [n] clusters, listing any of them as a directory
    finishes without panicking, and every [FileInfo] it returns is well
    typed: the name is valid UTF-8, the size and the cluster are [u32]. *)
Theorem list_directory_entries_total fs n c :
  volume fs n → 2 <= c < n + 2 →
  ∃ l, list_directory_entries fs c = Done l ∧ Forall FileInfo_typed l.
Proof. apply listing_total. Qed.
End listing.
