(* ===== verification/Names.v ===== *)
(** * Short names (8.3)

    Models [format_to_8_3] of [src/src/file_system.rs] and relates it to its
    reader [short_name_to_string]: which names survive being written to and
    read from a directory entry. *)

From S2P Require Import Prelude Machine Str Volume DirEntry.

(** ** The operation *)

Definition format_to_8_3 `{UnicodeCase} (name : str) : outcome (result (list Z) str) :=
  let res := replicate 11 32 in
  match split_on dot name with
  | [] => Done (Err (lit "Invalid name"))
  | part0 :: rest =>
      if is_empty part0 then Done (Err (lit "Invalid name"))
      else
        let name_bytes := to_uppercase part0 in
        let name_len := Z.min (zlen name_bytes) 8 in
        src ← slice name_bytes 0 name_len;
        res ← copy_into res 0 name_len src;
        match rest with
        | [] => Done (Ok res)
        | part1 :: _ =>
            let ext_bytes := to_uppercase part1 in
            let ext_len := Z.min (zlen ext_bytes) 3 in
            src ← slice ext_bytes 0 ext_len;
            res ← copy_into res 8 (8 + ext_len) src;
            Done (Ok res)
        end
  end.

(** ** Specification *)

(** [pad k l]: the first [k] bytes of [l], completed with spaces. *)
Definition pad (k : nat) (l : list Z) : list Z :=
  take k l ++ replicate (k - length l) 32.

(** The eleven bytes of a short name. *)
Definition sfn_bytes (base ext : list Z) : list Z := pad 8 base ++ pad 3 ext.

(** The text of a short name. *)
Definition sfn_text (base ext : str) : str :=
  if is_empty ext then base else base ++ dot :: ext.

(** The characters of the names considered below: printable ASCII, neither a
    separator nor a space. *)
Definition sfn_char (b : Z) : Prop := 33 <= b < 127 ∧ b ≠ dot ∧ b ≠ slash.

Record sfn_parts (base ext : str) : Prop := {
  sfn_base_len : 0 < zlen base <= 8;
  sfn_ext_len : zlen ext <= 3;
  sfn_base_chars : Forall sfn_char base;
  sfn_ext_chars : Forall sfn_char ext;
}.

(** No ASCII letter is in lower case. *)
Definition no_lower (s : str) : Prop := Forall (λ b, ascii_upper b = b) s.

(** The name an entry gets when [name] is formatted, as a pure function. *)
Definition format_parts `{UnicodeCase} (name : str) : option (list Z * list Z) :=
  match split_on dot name with
  | [] | [] :: _ => None
  | base :: rest => Some (to_uppercase base, default [] (to_uppercase <$> head rest))
  end.

(** ** Facts *)

Lemma length_pad k l : length (pad k l) = k.
Proof. rw /pad length_app length_take length_replicate. lia. Qed.

Lemma zlen_pad k l : zlen (pad k l) = Z.of_nat k.
Proof. by rw /zlen length_pad. Qed.

#[export] Hint Rewrite zlen_pad : len.

Lemma zlen_sfn_bytes base ext : zlen (sfn_bytes base ext) = 11.
Proof. rw /sfn_bytes. len. Qed.

Lemma pad_nil k : pad k [] = replicate k 32.
Proof. by rw /pad take_nil Nat.sub_0_r. Qed.

Lemma bytes_pad k l : bytes l → bytes (pad k l).
Proof. move=> ?. apply Forall_app; split; [by apply Forall_take|by apply Forall_replicate]. Qed.

(** Overwriting the beginning of a blank field. *)
Lemma splice_pad k l :
  splice 0 (take k l) (replicate k 32) = pad k l.
Proof.
  rw /splice /pad /= length_take drop_replicate. do 2 f_equal. lia.
Qed.

(** [&l[..min(l.len(), k)]] *)
Lemma sub_min k (l : list Z) : sub 0 (Z.min (zlen l) (Z.of_nat k) - 0) l = take k l.
Proof.
  rw /sub drop_0 Z.sub_0_r. destruct (decide (zlen l <= Z.of_nat k)).
  - rw !take_ge //; len.
  - f_equal. lia.
Qed.

Lemma format_to_8_3_eq `{UnicodeCase} name :
  format_to_8_3 name =
    Done match format_parts name with
         | None => Err (lit "Invalid name")
         | Some (base, ext) => Ok (sfn_bytes base ext)
         end.
Proof.
  rw /format_to_8_3 /format_parts. case: (split_on dot name) => [//|[|b p] rest].
  { done. }
  cbn [is_empty]. set nb := to_uppercase _. have ? := zlen_nonneg nb.
  rw slice_ok; [lia..|]. rw bind_Done (sub_min 8).
  rw copy_into_ok; [lia|len|len|]. rw bind_Done (replicate_add 8 3) splice_app_l; [lia|len|].
  rw splice_pad. case: rest => [|q rest] /=; [by rw /sfn_bytes pad_nil|].
  set eb := to_uppercase _. have ? := zlen_nonneg eb.
  rw slice_ok; [lia..|]. rw bind_Done (sub_min 3).
  rw copy_into_ok; [lia|len|len|]. rw bind_Done splice_app_r; [len|].
  by rw zlen_pad Z.sub_diag (splice_pad 3).
Qed.

Lemma trim_end_pad k l :
  (length l <= k)%nat → Forall (λ b, b ≠ 32) l → trim_end (pad k l) (length (pad k l)) = length l.
Proof.
  rw length_pad /pad => Hk Hl. rw take_ge //.
  assert (∀ j, (j <= k - length l)%nat →
    trim_end (l ++ replicate (k - length l) 32) (length l + j) = length l) as G.
  { elim=> [|j IH] ?.
    - rw Nat.add_0_r. destruct l as [|b l'] eqn:E using rev_ind; [done|].
      rw length_app /= Nat.add_1_r /=. rw bool_decide_eq_false_2 //.
      rw lookup_app_l; [rw length_app /=; lia|]. rw list_lookup_middle //.
      apply Forall_app in Hl as [_ Hl]. by inversion_clear Hl; naive_solver.
    - rw Nat.add_succ_r /=. rw bool_decide_eq_true_2; [|apply IH; lia].
      rw lookup_app_r; [lia|]. apply lookup_replicate; lia. }
  have := G (k - length l)%nat ltac:(lia).
  by have -> : (length l + (k - length l) = k)%nat by lia.
Qed.

Lemma sfn_char_ascii b : sfn_char b → 0 <= b < 128.
Proof. rw /sfn_char. lia. Qed.

Lemma part_to_string_pad k l :
  (length l <= k)%nat → Forall sfn_char l → part_to_string (pad k l) = l.
Proof.
  move=> Hk Hl. rw /part_to_string trim_end_pad //.
  { eapply Forall_impl; [done|]. rw /sfn_char => b ?. lia. }
  have -> : take (length l) (pad k l) = l by rw /pad (take_ge l) // take_app_length.
  rw /from_utf8 ascii_decode //.
  eapply Forall_impl; [done|apply sfn_char_ascii].
Qed.

Lemma sub_sfn_base base ext : sub 0 8 (sfn_bytes base ext) = pad 8 base.
Proof. apply sub_app_l. by rw zlen_pad. Qed.

Lemma sub_sfn_ext base ext : sub 8 3 (sfn_bytes base ext) = pad 3 ext.
Proof.
  rw /sfn_bytes sub_app_r; rw zlen_pad; [done|].
  have := sub_all (pad 3 ext). by rw zlen_pad.
Qed.

Lemma short_name_to_string_sfn base ext :
  sfn_parts base ext → short_name_to_string (sfn_bytes base ext) = sfn_text base ext.
Proof.
  move=> [????]. rw /short_name_to_string sub_sfn_base sub_sfn_ext.
  rw !part_to_string_pad //; len.
Qed.

Lemma sfn_chars_no_dot l : Forall sfn_char l → dot ∉ l.
Proof. rw Forall_forall => Hl /Hl. rw /sfn_char. lia. Qed.

Lemma format_parts_sfn `{UnicodeCase} base ext :
  sfn_parts base ext →
  format_parts (sfn_text base ext) = Some (ascii_upper <$> base, ascii_upper <$> ext).
Proof.
  move=> [Hl _ Hb He]. rw /format_parts /sfn_text.
  have Hu : ∀ l, Forall sfn_char l → to_uppercase l = ascii_upper <$> l.
  { move=> l ?. apply to_uppercase_ascii. eapply Forall_impl; [done|apply sfn_char_ascii]. }
  have Hd := sfn_chars_no_dot _ Hb.
  case E: ext => [|e ext']; cbn [is_empty].
  - rw split_on_none //. case: base Hl Hb {Hd} => [|b base'] Hl Hb; [rw zlen_nil in Hl; lia|].
    by rw Hu.
  - rw split_on_app // split_on_none; [by rw -E; apply sfn_chars_no_dot|].
    rw -E. case: base Hl Hb {Hd} => [|b base'] Hl Hb; [rw zlen_nil in Hl; lia|].
    cbn [head fmap option_fmap option_map default]. by rw !Hu.
Qed.

Lemma sfn_char_upper b : sfn_char b → sfn_char (ascii_upper b).
Proof.
  rw /sfn_char /ascii_upper /between.
  destruct (Z.leb_spec 97 b), (Z.leb_spec b 122) => /=; lia.
Qed.

Lemma sfn_parts_upper base ext :
  sfn_parts base ext → sfn_parts (ascii_upper <$> base) (ascii_upper <$> ext).
Proof.
  move=> [????]. split; rw ?zlen_fmap //;
    apply Forall_fmap; eapply Forall_impl; [done|apply sfn_char_upper|done|apply sfn_char_upper].
Qed.

Lemma sfn_text_upper base ext :
  ascii_upper <$> sfn_text base ext = sfn_text (ascii_upper <$> base) (ascii_upper <$> ext).
Proof. rw /sfn_text. case: ext => [|e ext] //=. by rw fmap_app. Qed.

Lemma fmap_ascii_upper_id s : ascii_upper <$> s = s ↔ Forall (λ b, ascii_upper b = b) s.
Proof.
  split; elim: s => [|b s IH] //=.
  - move=> [? ?]. constructor; auto.
  - move=> /Forall_cons [-> /IH E]. by f_equal.
Qed.

Section names.
Context `{UnicodeCase}.

(** C26: Formatting an 8.3 name for a directory entry and reading the entry
    back yields the name with its ASCII letters in upper case; so exactly the
    names without lower-case letters are recovered unchanged. *)
Theorem format_to_8_3_roundtrip base ext :
  sfn_parts base ext →
  ∃ n11, format_to_8_3 (sfn_text base ext) = Done (Ok n11)
    ∧ zlen n11 = 11
    ∧ short_name_to_string n11 = ascii_upper <$> sfn_text base ext
    ∧ (short_name_to_string n11 = sfn_text base ext ↔ no_lower (sfn_text base ext)).
Proof.
  move=> Hp. eexists. rw format_to_8_3_eq format_parts_sfn //.
  split; [done|]. split; [apply zlen_sfn_bytes|].
  rw short_name_to_string_sfn; [by apply sfn_parts_upper|]. rw -sfn_text_upper.
  split; [done|]. rw /no_lower. apply fmap_ascii_upper_id.
Qed.
End names.
