(* ===== verification/DirSpec.v ===== *)
(** * What a directory cluster means

    The abstract directory: a sequence of records, each laid out as the FAT
    specification prescribes (a long name is cut into fragments of thirteen
    UTF-16 units, stored last fragment first, before the short entry).  The
    refinement theorem states that the scan of [src/src/file_system.rs] reads
    back exactly the records that were laid out. *)

From S2P Require Import Prelude Machine Str Volume DirEntry.

(** ** Laying out long names *)

Definition units_le (us : list Z) : list Z := us ≫= u16_to_le.

(** A long-name entry: ordinal, checksum and thirteen units. *)
Definition long_entry_bytes (ord ck : Z) (us : list Z) : list Z :=
  [ord] ++ units_le (sub 0 5 us) ++ [ATTR_LFN; 0; ck] ++ units_le (sub 5 6 us)
  ++ [0; 0] ++ units_le (sub 11 2 us).

(** The last fragment is terminated by 0x0000 and filled with 0xFFFF. *)
Definition pad_units (us : list Z) : list Z :=
  if zlen us =? 13 then us else us ++ 0 :: replicate (12 - length us) 0xFFFF.

(** Cutting a name into fragments; [k] bounds their number. *)
Fixpoint split_units (k : nat) (us : list Z) : list (list Z) :=
  match k with
  | O => []
  | S k => if zlen us <=? 13 then [pad_units us] else sub 0 13 us :: split_units k (drop 13 us)
  end.

Definition name_fragments (us : list Z) : list (list Z) := split_units (length us) us.

(** Entries for fragments given last first: the ordinal counts down to 1. *)
Fixpoint long_entries_tail (ck : Z) (fs : list (list Z)) : list (list Z) :=
  match fs with
  | [] => []
  | us :: fs' => long_entry_bytes (zlen fs) ck us :: long_entries_tail ck fs'
  end.

(** The first entry on disk carries the [0x40] mark of the last fragment. *)
Definition long_entries (ck : Z) (fs : list (list Z)) : list (list Z) :=
  match fs with
  | [] => []
  | us :: fs' => long_entry_bytes (zlen fs + 0x40) ck us :: long_entries_tail ck fs'
  end.

(** ** Records *)

Inductive record :=
  | Short (e : list Z)
  | Long (us : list Z) (e : list Z)
  | Deleted (e : list Z).

Definition layout (r : record) : list (list Z) :=
  match r with
  | Short e | Deleted e => [e]
  | Long us e => long_entries (lfn_checksum (sub 0 11 e)) (reverse (name_fragments us)) ++ [e]
  end.

(** What a short entry says of its file, under the name [name]. *)
Definition entry_info (name : str) (e : list Z) : FileInfo :=
  let d := fat_dir e in
  mkFileInfo name (negb (Z.land (fd_attr d) ATTR_DIRECTORY =? 0)) (fd_size d)
    (Z.lor (Z.shiftl (first_cluster_high d) 16) (first_cluster_low d)).

Definition is_label (e : list Z) : bool := negb (Z.land (byte_at e 11) 0x08 =? 0).

Definition infos (r : record) : list FileInfo :=
  match r with
  | Deleted _ => []
  | Short e => if is_label e then [] else [entry_info (short_name_to_string (sub 0 11 e)) e]
  | Long us e =>
      if is_label e then []
      else [entry_info (default (short_name_to_string (sub 0 11 e)) (from_utf16 us)) e]
  end.

(** A used short entry. *)
Definition used_entry (e : list Z) : Prop :=
  zlen e = 32 ∧ byte_at e 0 ≠ 0x00 ∧ byte_at e 0 ≠ 0xE5 ∧ byte_at e 11 ≠ ATTR_LFN.

(** Units of a long name: neither the terminator nor the filler. *)
Definition name_units (us : list Z) : Prop :=
  0 < zlen us <= 260 ∧ Forall (λ u, 0 < u < 0xFFFF) us.

Definition record_ok (r : record) : Prop :=
  match r with
  | Short e => used_entry e
  | Long us e => used_entry e ∧ name_units us
  | Deleted e => zlen e = 32 ∧ byte_at e 0 = 0xE5
  end.

(** The entries after the last record: none, or a first one marked free. *)
Definition end_of_directory (tail : list (list Z)) : Prop :=
  match tail with
  | [] => True
  | e :: _ => zlen e = 32 ∧ byte_at e 0 = 0x00
  end.

(** ** Reading one long-name entry *)

Lemma zlen_units_le us : zlen (units_le us) = 2 * zlen us.
Proof. elim: us => [|u us IH] //. rw /units_le bind_cons -/(units_le us). len. Qed.

#[export] Hint Rewrite zlen_units_le : len.

Lemma byte_to_u16_units us :
  Forall (λ u, 0 <= u < 2 ^ 16) us → byte_to_u16_vec (units_le us) = us.
Proof.
  elim=> [|u us' Hu _ IH]; [by rw /byte_to_u16_vec chunks_exact_nil|].
  rw /units_le bind_cons -/(units_le us') /byte_to_u16_vec chunks_exact_app; [done|len|].
  cbn [fmap list_fmap]. rw from_to_le //. by rw -/(byte_to_u16_vec _) IH.
Qed.

Section one_entry.
Context (ord ck : Z) (us : list Z) (Hus : zlen us = 13).
Let e := long_entry_bytes ord ck us.

Lemma zlen_long_entry : zlen e = 32.
Proof. rw /e /long_entry_bytes. len. Qed.

Lemma long_entry_fields :
  byte_at e 0 = ord ∧ byte_at e 11 = ATTR_LFN ∧ byte_at e 13 = ck
  ∧ sub 1 10 e = units_le (sub 0 5 us) ∧ sub 14 12 e = units_le (sub 5 6 us)
  ∧ sub 28 4 e = units_le (sub 11 2 us).
Proof.
  have E1 : zlen (units_le (sub 0 5 us)) = 10 by len.
  have E2 : zlen (units_le (sub 5 6 us)) = 12 by len.
  have E3 : zlen (units_le (sub 11 2 us)) = 4 by len.
  rw /e /long_entry_bytes. split; [done|].
  rw !(byte_at_app_r [ord]); [done..|]. rw !(byte_at_app_r (units_le _)); [by rw E1..|].
  rw E1. split; [done|]. split; [done|].
  rw !(sub_app_r _ _ [ord]); [done..|]. split; [by apply sub_app_l|].
  rw !(sub_app_r _ _ (units_le (sub 0 5 us))); [by rw E1..|].
  rw E1 !(sub_app_r _ _ [_; _; _]); [done..|]. split; [by apply sub_app_l|].
  rw (sub_app_r _ _ (units_le (sub 5 6 us))); [by rw E2|].
  rw E2 (sub_app_r _ _ [_; _]); [done|]. rw -[X in sub _ _ X]app_nil_r. by apply sub_app_l.
Qed.

(** What processing the entry does to the collected fragments. *)
Lemma process_long_entry frags exp :
  Forall (λ u, 0 <= u < 2 ^ 16) us →
  process_lfn_entry e frags exp =
    let last := negb (Z.land ord 0x40 =? 0) in
    let frags0 := if last then [] else frags in
    Done (default (frags0 ++ [(Z.land ord 0x1F, us)])
                  (replace_fragment (Z.land ord 0x1F) us frags0),
          if last then Some ck else exp).
Proof.
  move=> Hu. destruct long_entry_fields as (E0 & E11 & E13 & E1 & E2 & E3).
  rw /process_lfn_entry LongFileName_new_ok; [apply zlen_long_entry|]. rw bind_Done.
  rw /long_entry. cbn [seq_num chksum name_1 name_2 name_3].
  rw E0 E13 E1 E2 E3 !byte_to_u16_units; [by apply Forall_sub..|].
  have -> : sub 0 5 us ++ sub 5 6 us ++ sub 11 2 us = us.
  { rw (sub_app 5 6 2) // (sub_app 0 5 8) //. by rw -{2}(sub_all us) Hus. }
  by case: (replace_fragment _ _ _).
Qed.
End one_entry.

(** ** Reading all the fragments of a name *)

(** Fragments given last first, with their sequence numbers. *)
Fixpoint numbered (fs : list (list Z)) : LfnFragments :=
  match fs with
  | [] => []
  | us :: fs' => (zlen fs, us) :: numbered fs'
  end.

(** Thirteen 16-bit units. *)
Definition fragment_ok (us : list Z) : Prop := zlen us = 13 ∧ Forall (λ u, 0 <= u < 2 ^ 16) us.

Lemma numbered_keys fs : Forall (λ f, 1 <= f.1 <= zlen fs) (numbered fs).
Proof.
  elim: fs => [|us fs IH] /=; [constructor|]. have ? := zlen_nonneg fs. rw zlen_cons.
  constructor; [simpl; lia|]. eapply Forall_impl; [exact IH|]. simpl. lia.
Qed.

Lemma numbered_snd fs : (numbered fs).*2 = fs.
Proof. elim: fs => [|us fs IH] //=. by f_equal. Qed.

Lemma replace_fragment_fresh seq data frags :
  Forall (λ f, f.1 ≠ seq) frags → replace_fragment seq data frags = None.
Proof. elim=> [|[s f] frags' /= ? _ IH] //. ztrue. by rw IH. Qed.

(** Ordinals up to 31, without and with the mark of the last fragment. *)
Lemma ordinal_plain k : 1 <= k <= 31 → Z.land k 0x40 = 0 ∧ Z.land k 0x1F = k.
Proof.
  move=> ?. rw (Z.land_ones k 5 ltac:(lia)). split; [|rw Z.mod_small //; lia].
  have -> : k = k mod 2 ^ 5 by rw Z.mod_small //; lia.
  rw -Z.land_ones // -Z.land_assoc. by rw Z.land_0_r.
Qed.

Lemma ordinal_last k : 1 <= k <= 31 → Z.land (k + 0x40) 0x40 ≠ 0 ∧ Z.land (k + 0x40) 0x1F = k.
Proof.
  move=> ?. have E : k + 0x40 = Z.lor (Z.shiftl 1 6) k by rw lor_shiftl_add; lia.
  destruct (ordinal_plain k) as [E1 E2]; [done|].
  rw E !Z.land_lor_distr_l E1 E2. by simpl.
Qed.

(** A used entry of the scan, by kind. *)
Lemma scan_long e rest frags ck acc :
  zlen e = 32 → byte_at e 0 ≠ 0x00 → byte_at e 0 ≠ 0xE5 → byte_at e 11 = ATTR_LFN →
  scan_entries (e :: rest) frags ck acc =
    (st ← process_lfn_entry e frags ck; scan_entries rest st.1 st.2 acc).
Proof.
  move=> He ?? E. cbn [scan_entries]. rw !index_byte_at ?He // !bind_Done E. by ztrue.
Qed.

Lemma scan_short e rest frags ck acc :
  used_entry e →
  scan_entries (e :: rest) frags ck acc =
    (r ← process_data_entry e frags ck ATTR_DIRECTORY;
     scan_entries rest [] None (acc ++ option_list r.1)).
Proof.
  move=> [He [? [? ?]]]. cbn [scan_entries]. rw !index_byte_at ?He // !bind_Done. by ztrue.
Qed.

Lemma scan_deleted e rest frags ck acc :
  zlen e = 32 → byte_at e 0 = 0xE5 →
  scan_entries (e :: rest) frags ck acc = scan_entries rest [] None acc.
Proof. move=> He E. cbn [scan_entries]. rw !index_byte_at ?He // !bind_Done E. by ztrue. Qed.

Lemma scan_end tail frags ck acc :
  end_of_directory tail → scan_entries tail frags ck acc = Done acc.
Proof.
  case: tail => [|e tail] //= [He E]. rw !index_byte_at ?He // !bind_Done E. by ztrue.
Qed.

Lemma scan_long_tail ck fs rest frags exp acc :
  Forall fragment_ok fs → zlen fs <= 20 → Forall (λ f, zlen fs < f.1) frags →
  scan_entries (long_entries_tail ck fs ++ rest) frags exp acc =
    scan_entries rest (frags ++ numbered fs) exp acc.
Proof.
  elim: fs frags => [|us fs IH] frags; [by rw app_nil_r|].
  move=> /Forall_cons [[Hl Hu] ?] Hn Hf. have ? := zlen_nonneg fs. rw zlen_cons in Hn Hf.
  destruct (ordinal_plain (zlen (us :: fs))) as [Eo Es]; [len|].
  cbn [long_entries_tail app]. destruct (long_entry_fields (zlen (us :: fs)) ck us Hl)
    as (E0 & E11 & _). rw scan_long; [by apply zlen_long_entry|rw E0; len|rw E0; len|done|].
  rw process_long_entry // Eo Es. cbn [Z.eqb negb]. rw replace_fragment_fresh.
  { eapply Forall_impl; [exact Hf|]. simpl. len. }
  rw bind_Done. cbn [default fst snd]. rw IH //; [lia| |].
  - apply Forall_app; split; [|by constructor; [simpl; len|]].
    eapply Forall_impl; [exact Hf|]. simpl. lia.
  - by rw -app_assoc.
Qed.

Lemma scan_long_entries ck fs rest frags exp acc :
  Forall fragment_ok fs → 0 < zlen fs <= 20 →
  scan_entries (long_entries ck fs ++ rest) frags exp acc =
    scan_entries rest (numbered fs) (Some ck) acc.
Proof.
  case: fs => [|us fs]; [by rw zlen_nil; lia|].
  move=> /Forall_cons [[Hl Hu] ?] Hn. have ? := zlen_nonneg fs. rw zlen_cons in Hn.
  destruct (ordinal_last (zlen (us :: fs))) as [Eo Es]; [len|].
  cbn [long_entries app]. destruct (long_entry_fields (zlen (us :: fs) + 0x40) ck us Hl)
    as (E0 & E11 & _). rw scan_long; [by apply zlen_long_entry|rw E0; len|rw E0; len|done|].
  rw process_long_entry // Es. ztrue. rw bind_Done. cbn [replace_fragment default fst snd app].
  rw scan_long_tail //; [lia|]. constructor; [simpl; len|constructor].
Qed.

(** ** Reassembling the name *)

Lemma fragment_chars_app us vs :
  Forall (λ u, 0 < u < 0xFFFF) us → fragment_chars (us ++ vs) = us ++ fragment_chars vs.
Proof. elim=> [|u us' ? _ IH] //=. ztrue. by rw IH. Qed.

Lemma fragment_chars_id us : Forall (λ u, 0 < u < 0xFFFF) us → fragment_chars us = us.
Proof. move=> ?. by rw -{1}(app_nil_r us) fragment_chars_app // app_nil_r. Qed.

Lemma pad_units_ok us :
  zlen us <= 13 → Forall (λ u, 0 < u < 0xFFFF) us →
  fragment_ok (pad_units us) ∧ fragment_chars (pad_units us) = us.
Proof.
  move=> Hl Hu. have Hw : Forall (λ u, 0 <= u < 2 ^ 16) us
    by eapply Forall_impl; [exact Hu|simpl; lia].
  rw /pad_units. case_test.
  - split; [done|by apply fragment_chars_id].
  - split; [split|].
    + len.
    + apply Forall_app; split; [done|]. constructor; [done|]. by apply Forall_replicate.
    + by rw fragment_chars_app //= app_nil_r.
Qed.

Lemma split_units_ok k us :
  0 < zlen us <= Z.of_nat k → Forall (λ u, 0 < u < 0xFFFF) us →
  Forall fragment_ok (split_units k us)
  ∧ 1 <= zlen (split_units k us) ∧ 13 * (zlen (split_units k us) - 1) < zlen us
  ∧ split_units k us ≫= fragment_chars = us.
Proof.
  elim: k us => [|k IH] us Hk Hu; [lia|]. cbn [split_units]. case_test.
  - destruct (pad_units_ok us) as [? E]; [done..|].
    rw bind_cons E app_nil_r. repeat split; [by apply Forall_singleton|len..].
  - have Hd : zlen (drop 13 us) = zlen us - 13 by len.
    destruct (IH (drop 13 us)) as (? & ? & ? & E); [lia|by apply Forall_drop|].
    have Ht : Forall (λ u, 0 < u < 0xFFFF) (sub 0 13 us) by apply Forall_sub.
    rw bind_cons E fragment_chars_id // zlen_cons. repeat split; [|lia|lia|].
    + constructor; [|done]. split; [len|]. eapply Forall_impl; [exact Ht|simpl; lia].
    + rw /sub drop_0. apply take_drop.
Qed.

Lemma insert_fragment_last f frags :
  Forall (λ g, g.1 < f.1) frags → insert_fragment f frags = frags ++ [f].
Proof. elim=> [|g frags' ? _ IH] //=. ztrue. by rw IH. Qed.

Lemma sort_numbered fs : sort_fragments (numbered fs) = reverse (numbered fs).
Proof.
  elim: fs => [|us fs IH] //=. rw -/(sort_fragments (numbered fs)) IH insert_fragment_last.
  - apply Forall_reverse. eapply Forall_impl; [apply numbered_keys|]. simpl. rw zlen_cons. lia.
  - by rw reverse_cons.
Qed.

Lemma assemble_numbered us :
  name_units us → assemble_lfn (numbered (reverse (name_fragments us))) = from_utf16 us.
Proof.
  move=> [Hl Hu]. destruct (split_units_ok (length us) us) as (_ & Hn & _ & E); [len|done|].
  rw /assemble_lfn. have -> : is_empty (numbered (reverse (name_fragments us))) = false.
  { have : zlen (reverse (name_fragments us)) = zlen (name_fragments us)
      by rw /zlen length_reverse.
    rw -/(name_fragments us) in Hn. case: (reverse _) => [|f l] //. rw zlen_nil. lia. }
  rw sort_numbered. f_equal.
  have -> : ∀ l, (l ≫= λ f : Z * list Z, fragment_chars f.2) = l.*2 ≫= fragment_chars.
  { elim=> [|f l IH] //. rw fmap_cons !bind_cons IH //. }
  by rw fmap_reverse numbered_snd reverse_involutive.
Qed.

(** ** Refinement *)

Lemma process_short e :
  zlen e = 32 →
  process_data_entry e [] None ATTR_DIRECTORY = Done (head (infos (Short e)), []).
Proof.
  move=> He. rw /process_data_entry FatDir_new_ok // bind_Done /= /is_label.
  by case: (negb (Z.land (byte_at e 11) 8 =? 0)).
Qed.

Lemma process_long us e :
  zlen e = 32 → name_units us →
  ∃ fr, process_data_entry e (numbered (reverse (name_fragments us)))
    (Some (lfn_checksum (sub 0 11 e))) ATTR_DIRECTORY = Done (head (infos (Long us e)), fr).
Proof.
  move=> He Hu. have Ha := assemble_numbered us Hu.
  rw /process_data_entry FatDir_new_ok // bind_Done /= /is_label.
  case: (negb (Z.land (byte_at e 11) 8 =? 0)); [by eexists|].
  move: Ha. rw /assemble_lfn. case E: (is_empty _) => Ha.
  - rw -Ha. by eexists.
  - rw Z.eqb_refl Ha. case: (from_utf16 us) => [s|]; by eexists.
Qed.

Lemma option_list_head_infos r : option_list (head (infos r)) = infos r.
Proof. by case: r => [e|us e|e] /=; try case: (is_label e). Qed.

Lemma scan_record r rest acc :
  record_ok r →
  scan_entries (layout r ++ rest) [] None acc = scan_entries rest [] None (acc ++ infos r).
Proof.
  case: r => [e|us e|e].
  - move=> Hu. cbn [layout app]. rw scan_short //. rw process_short; [by apply Hu|].
    by rw bind_Done option_list_head_infos.
  - move=> [Hu Hn]. cbn [layout]. rw -app_assoc.
    destruct Hn as [Hl Hc]. destruct (split_units_ok (length us) us) as (? & ? & ? & _); [len|done|].
    rw scan_long_entries.
    { by apply Forall_reverse. }
    { rw /zlen length_reverse -/(zlen (name_fragments us)) /name_fragments. lia. }
    cbn [app]. rw scan_short //. destruct (process_long us e) as [fr ->]; [by apply Hu|done|].
    by rw bind_Done option_list_head_infos.
  - move=> [He E]. cbn [layout app infos]. by rw scan_deleted // app_nil_r.
Qed.

Lemma scan_records rs rest acc :
  Forall record_ok rs →
  scan_entries ((rs ≫= layout) ++ rest) [] None acc =
    scan_entries rest [] None (acc ++ (rs ≫= infos)).
Proof.
  move=> Hrs. elim: Hrs acc => [|r rs' Hr _ IH] acc; [by rw app_nil_r|].
  rw !bind_cons -!app_assoc scan_record // IH. by rw -app_assoc.
Qed.

(** The cluster [c] of [fs] holds the records [rs], followed by [tail]. *)
Definition directory (fs : Fat32FileSystem) (c : Z) (rs : list record) (tail : list (list Z)) : Prop :=
  chunks_exact ENTRY_SIZE (cluster_data fs c) = (rs ≫= layout) ++ tail
  ∧ Forall record_ok rs ∧ end_of_directory tail.

Section refinement.
Context `{Profile}.

Lemma listing_records fs n c rs tail :
  volume fs n → 2 <= c < n + 2 → directory fs c rs tail →
  list_directory_entries fs c = Done (rs ≫= infos).
Proof.
  move=> V Hc [E [Hr Ht]]. rw /list_directory_entries (read_cluster_ok fs n V c Hc) bind_Done E.
  by rw scan_records // scan_end.
Qed.

(** C2: Listing a directory cluster returns exactly the files of the records
    laid out in it, in order: long names are reassembled from their
    fragments, short names decoded, deleted entries and volume labels left
    out, and nothing after the end mark is read. *)
Theorem list_directory_entries_records fs n c rs tail :
  volume fs n → 2 <= c < n + 2 → directory fs c rs tail →
  list_directory_entries fs c = Done (rs ≫= infos).
Proof. apply listing_records. Qed.
End refinement.
