(* ===== verification/Path.v ===== *)
(** * Path resolution and reading files

    Models [parse_path], [find_parent_cluster] and [read_file] of
    [src/src/file_system.rs]: walking the directory tree along a path and
    following the cluster chain of a file through the FAT. *)

From S2P Require Import Prelude Machine Str Volume DirEntry DirSpec.

(** ** Operations *)

Section operations.
Context `{Profile}.

Definition find_named (name : str) (files : list FileInfo) : option FileInfo :=
  snd <$> list_find (λ f, fi_name f = name) files.

Definition find_parent_cluster (fs : Fat32FileSystem) (current_cluster : Z) : outcome (option Z) :=
  if current_cluster =? root_cluster fs then Done None
  else
    files ← list_directory_entries fs current_cluster;
    match find_named (lit "..") files with
    | None => Done None
    | Some parent =>
        Done (Some (if start_cluster parent =? 0 then root_cluster fs else start_cluster parent))
    end.

(** The loop over the components of a path; a component is the last one when
    no other follows. *)
Fixpoint walk_parts (fs : Fat32FileSystem) (parts : list str) (cluster : Z)
    : outcome (option FileInfo) :=
  match parts with
  | [] => Done None
  | part :: rest =>
      files ← list_directory_entries fs cluster;
      if bool_decide (part = lit ".") then walk_parts fs rest cluster
      else if bool_decide (part = lit "..") then
        parent ← find_parent_cluster fs cluster;
        match parent with
        | None => Done None
        | Some cluster =>
            if is_empty rest then Done (Some (mkFileInfo (lit "..") true 0 cluster))
            else walk_parts fs rest cluster
        end
      else
        match find_named part files with
        | None => Done None
        | Some file =>
            if is_empty rest then Done (Some file)
            else if negb (is_directory file) then Done None
            else walk_parts fs rest (start_cluster file)
        end
  end.

(** [path.split("/").filter(|s| !s.is_empty()).collect()] *)
Definition path_parts (path : str) : list str :=
  filter (λ s, s ≠ []) (split_on slash path).

Definition parse_path (fs : Fat32FileSystem) (path : str) (current_cluster : option Z)
    : outcome (option FileInfo) :=
  let cluster :=
    if starts_with (lit "/") path || is_empty path then root_cluster fs
    else default (root_cluster fs) current_cluster in
  walk_parts fs (path_parts path) cluster.

(** The loop of [read_file] over the cluster chain. *)
Fixpoint read_chain (fuel : nat) (fs : Fat32FileSystem) (cluster : Z) (data : list Z)
    : outcome (list Z) :=
  match fuel with
  | O => Diverge
  | S fuel =>
      block ← read_cluster fs cluster;
      next ← read_fat_entry fs cluster;
      if 0x0FFFFFF8 <=? next then Done (data ++ block)
      else read_chain fuel fs next (data ++ block)
  end.

Definition read_file (fuel : nat) (fs : Fat32FileSystem) (path : str)
    (current_cluster : option Z) : outcome (result str str) :=
  file ← parse_path fs path current_cluster;
  match file with
  | None => Done (Err (lit "File not found"))
  | Some file =>
      if is_directory file then Done (Err (lit "Not a file"))
      else
        data ← read_chain fuel fs (start_cluster file) [];
        let data := truncate (fi_size file) data in
        match from_utf8 data with
        | Some s => Done (Ok s)
        | None => Done (Err (lit "Invalid UTF-8 content"))
        end
  end.
End operations.

(** ** Cluster chains *)

(** [fat_chain fs n c cs]: starting at [c], the FAT links the clusters [cs] of
    the volume and the last one carries an end-of-chain mark. *)
Inductive fat_chain (fs : Fat32FileSystem) (n : Z) : Z → list Z → Prop :=
  | chain_end c :
      2 <= c < n + 2 → 0x0FFFFFF8 <= fat_get fs c → fat_chain fs n c [c]
  | chain_next c cs :
      2 <= c < n + 2 → fat_get fs c < 0x0FFFFFF8 →
      fat_chain fs n (fat_get fs c) cs → fat_chain fs n c (c :: cs).

(** [fat_path fs n c cs d]: the links lead from [c] through [cs] to [d]. *)
Inductive fat_path (fs : Fat32FileSystem) (n : Z) : Z → list Z → Z → Prop :=
  | path_nil c : fat_path fs n c [] c
  | path_cons c cs d :
      2 <= c < n + 2 → fat_get fs c < 0x0FFFFFF8 →
      fat_path fs n (fat_get fs c) cs d → fat_path fs n c (c :: cs) d.

Section chains.
Context `{Profile} (fs : Fat32FileSystem) (n : Z) (V : volume fs n).

Lemma read_chain_step fuel c data :
  2 <= c < n + 2 →
  read_chain (S fuel) fs c data =
    if 0x0FFFFFF8 <=? fat_get fs c then Done (data ++ cluster_data fs c)
    else read_chain fuel fs (fat_get fs c) (data ++ cluster_data fs c).
Proof.
  move=> Hc. cbn [read_chain]. rw (read_cluster_ok fs n V) // bind_Done.
  rw (read_fat_entry_ok fs n V) ?bind_Done //. lia.
Qed.

Lemma read_chain_ok fuel c cs data :
  fat_chain fs n c cs → (length cs <= fuel)%nat →
  read_chain fuel fs c data = Done (data ++ concat (cluster_data fs <$> cs)).
Proof.
  move=> Hch. elim: Hch fuel data => {c cs} [c Hc He|c cs Hc He _ IH] [|fuel] data Hf;
    cbn [length] in Hf; try lia.
  - rw read_chain_step //. ztrue. cbn [fmap list_fmap concat]. by rw app_nil_r.
  - rw read_chain_step //. ztrue. rw IH; [lia|]. cbn [fmap list_fmap concat]. by rw app_assoc.
Qed.

(** A chain is determined by its first cluster and never visits one twice. *)
Lemma fat_chain_det c cs ds : fat_chain fs n c cs → fat_chain fs n c ds → cs = ds.
Proof.
  move=> Hc. elim: Hc ds => {c cs} [c ?? ds Hd|c cs ??? IH ds Hd];
    inversion Hd; subst; try lia; [done|]. f_equal. by apply IH.
Qed.

Lemma fat_chain_suffix c cs d : fat_chain fs n c cs → d ∈ cs →
  ∃ pre ds, cs = pre ++ ds ∧ fat_chain fs n d ds.
Proof.
  elim=> {c cs} [c ??|c cs ?? Hch IH].
  - move=> /list_elem_of_singleton ->. exists [], [c]. split; [done|by constructor].
  - move=> /elem_of_cons [->|/IH [pre [ds [-> ?]]]].
    + exists [], (c :: cs). split; [done|by constructor].
    + by exists (c :: pre), ds.
Qed.

Lemma fat_chain_NoDup c cs : fat_chain fs n c cs → NoDup cs.
Proof.
  elim=> {c cs} [c ??|c cs ?? Hch IH]; [apply NoDup_singleton|].
  constructor; [|done]. move=> /(fat_chain_suffix _ _ _ Hch) [pre [ds [E Hd]]].
  have Hc : fat_chain fs n c (c :: cs) by constructor.
  have := f_equal length (fat_chain_det _ _ _ Hc Hd).
  rw E /= length_app. lia.
Qed.

Lemma fat_chain_valid c cs : fat_chain fs n c cs → Forall (λ d, 2 <= d < n + 2) cs.
Proof. elim=> *; repeat constructor; auto; lia. Qed.

Lemma fat_chain_cons c cs : fat_chain fs n c cs → ∃ ds, cs = c :: ds.
Proof. case=> *; by eexists. Qed.

Lemma fat_chain_length c cs : fat_chain fs n c cs → (length cs <= Z.to_nat n)%nat.
Proof.
  move=> Hch. have <- : length (seqZ 2 n) = Z.to_nat n by rw length_seqZ.
  apply submseteq_length, NoDup_submseteq; [by eapply fat_chain_NoDup|].
  move=> d Hd. apply elem_of_seqZ. have := fat_chain_valid _ _ Hch.
  rw Forall_forall => /(_ d Hd). lia.
Qed.

Lemma read_chain_path fuel c cs d data :
  fat_path fs n c cs d → (fuel <= length cs)%nat → read_chain fuel fs c data = Diverge.
Proof.
  move=> Hp. elim: Hp fuel data => {c cs d} [c|c cs d ?? _ IH] [|fuel] data Hf; cbn [length] in Hf; try lia; try done.
  rw read_chain_step //. ztrue. apply IH. lia.
Qed.

Lemma fat_path_app c cs d ds e :
  fat_path fs n c cs d → fat_path fs n d ds e → fat_path fs n c (cs ++ ds) e.
Proof. elim=> {c cs d} [c|c cs d ?? _ IH] //= He. constructor; auto. Qed.

Lemma fat_path_repeat c cs (k : nat) :
  fat_path fs n c cs c → fat_path fs n c (mjoin (replicate k cs)) c.
Proof.
  move=> Hc. elim: k => [|k IH]; [constructor|]. by apply (fat_path_app _ _ c).
Qed.
End chains.

(** ** Walking along a path *)

(** The set [D] of directory clusters is closed: it holds the root, and every
    subdirectory and parent that a member lists is the root or in [D]. *)
Record tree `{Profile} (fs : Fat32FileSystem) (n : Z) (D : gset Z) : Prop := {
  tree_root : root_cluster fs ∈ D;
  tree_valid : ∀ c, c ∈ D → 2 <= c < n + 2;
  tree_child : ∀ c files f, c ∈ D → list_directory_entries fs c = Done files → f ∈ files →
    is_directory f = true → fi_name f ≠ lit "." → fi_name f ≠ lit ".." → start_cluster f ∈ D;
  tree_parent : ∀ c files f, c ∈ D → list_directory_entries fs c = Done files → f ∈ files →
    fi_name f = lit ".." → start_cluster f = 0 ∨ start_cluster f ∈ D;
}.

(** The decision procedure for [tree]. *)
Definition treeb `{Profile} (fs : Fat32FileSystem) (n : Z) (D : list Z) : bool :=
  bool_decide (root_cluster fs ∈ D)
  && forallb (λ c, (2 <=? c) && (c <? n + 2)
       && match list_directory_entries fs c with
          | Done files => forallb (λ f,
              (negb (is_directory f) || bool_decide (fi_name f = lit ".")
                || bool_decide (fi_name f = lit "..") || bool_decide (start_cluster f ∈ D))
              && (negb (bool_decide (fi_name f = lit "..")) || (start_cluster f =? 0)
                || bool_decide (start_cluster f ∈ D))) files
          | _ => false
          end) D.

Lemma treeb_sound `{Profile} fs n D : treeb fs n D = true → tree fs n (list_to_set D).
Proof.
  rw /treeb andb_true_iff bool_decide_eq_true forallb_forall => -[HR HD].
  have Hc : ∀ c, c ∈ (list_to_set D : gset Z) → In c D
    by move=> c /elem_of_list_to_set /list_elem_of_In.
  split; [by apply elem_of_list_to_set| | |].
  - move=> c /Hc /HD. rw !andb_true_iff. lia.
  - move=> c files f /Hc /HD + E. rw E !andb_true_iff forallb_forall => -[_ Hf].
    move=> /list_elem_of_In /Hf. rw !andb_true_iff !orb_true_iff !bool_decide_eq_true !negb_true_iff.
    move=> [H1 _] Hd ??. apply elem_of_list_to_set. destruct H1 as [[[?|?]|?]|?] => //. congruence.
  - move=> c files f /Hc /HD + E. rw E !andb_true_iff forallb_forall => -[_ Hf].
    move=> /list_elem_of_In /Hf. rw !andb_true_iff !orb_true_iff !bool_decide_eq_true !negb_true_iff.
    move=> [_ H2] Hn. rw bool_decide_eq_false Z.eqb_eq in H2.
    destruct H2 as [[?|?]|?]; [done|by left|right; by apply elem_of_list_to_set].
Qed.

Section paths.
Context `{Profile}.

Lemma find_named_Some name files f :
  find_named name files = Some f → f ∈ files ∧ fi_name f = name.
Proof.
  rw /find_named => /fmap_Some [[i g] [/list_find_Some [Hg [Hn _]] ->]].
  split; [|done]. by eapply list_elem_of_lookup_2.
Qed.

Lemma walk_parts_app fs ps qs c :
  ps ≠ [] → last ps ≠ Some (lit ".") → qs ≠ [] →
  walk_parts fs (ps ++ qs) c =
    (r ← walk_parts fs ps c;
     match r with
     | Some f => if is_directory f then walk_parts fs qs (start_cluster f) else Done None
     | None => Done None
     end).
Proof.
  move=> Hps Hlast Hqs.
  have Hne : ∀ rest : list str, is_empty (rest ++ qs) = false.
  { move=> [|? ?] //. by case: qs Hqs. }
  elim: ps c Hps Hlast => [|part rest IH] c // _ Hlast. cbn [app walk_parts].
  case: (list_directory_entries fs c) => [files|p|] //. rw !bind_Done Hne.
  have Hlast' : rest ≠ [] → last rest ≠ Some (lit ".") by case: rest Hlast {IH}.
  case: (decide (rest = [])) => [Er|Hr].
  - subst rest. cbn [app is_empty]. rw bool_decide_eq_false_2; [by move=> E; subst|].
    case_bool_decide.
    + rw bind_assoc. case: (find_parent_cluster fs c) => [[d|]|p|] //.
    + case: (find_named part files) => [f|] //. rw bind_Done. by case: (is_directory f).
  - have {}IH := λ c, IH c Hr (Hlast' Hr).
    have -> : is_empty rest = false by case: rest Hr {IH Hlast Hlast'}.
    case_bool_decide; [apply IH|]. case_bool_decide.
    + rw bind_assoc. case: (find_parent_cluster fs c) => [[d|]|p|] //. rw !bind_Done. apply IH.
    + case: (find_named part files) => [f|] //. case: (is_directory f) => //. apply IH.
Qed.

Lemma path_parts_join p q : path_parts (p ++ slash :: q) = path_parts p ++ path_parts q.
Proof. by rw /path_parts split_on_snoc filter_app. Qed.

Lemma parse_path_join fs p q cur :
  path_parts p ≠ [] → last (path_parts p) ≠ Some (lit ".") →
  path_parts q ≠ [] → starts_with (lit "/") q = false →
  parse_path fs (p ++ slash :: q) cur =
    (r ← parse_path fs p cur;
     match r with
     | Some f => if is_directory f then parse_path fs q (Some (start_cluster f)) else Done None
     | None => Done None
     end).
Proof.
  move=> Hp Hl Hq Hs. rw /parse_path path_parts_join walk_parts_app // Hs.
  have -> : is_empty q = false by case: q Hq {Hs}.
  by case: p Hp Hl => [|b p] Hp Hl; [destruct Hp|].
Qed.

(** C29: Paths compose, when [p] has components and does not end in a dot
    component and [q] has components and is relative: resolving [p/q] is
    resolving [p] and then, if it names a directory, [q] relative to that
    directory; if [p] names a file or nothing, [p/q] names nothing.  (The other
    paths do not compose: ["."] and ["/"] alone resolve to nothing.) *)
Theorem parse_path_compose fs p q cur :
  path_parts p ≠ [] → last (path_parts p) ≠ Some (lit ".") →
  path_parts q ≠ [] → starts_with (lit "/") q = false →
  parse_path fs (p ++ slash :: q) cur =
    (r ← parse_path fs p cur;
     match r with
     | Some f => if is_directory f then parse_path fs q (Some (start_cluster f)) else Done None
     | None => Done None
     end).
Proof. apply parse_path_join. Qed.

(** A path without components, such as ["/"] or the empty path, resolves
    to nothing, whatever the directory it is resolved from. *)
Lemma parse_path_no_parts fs path cur :
  path_parts path = [] → parse_path fs path cur = Done None.
Proof. by rw /parse_path => ->. Qed.

Section in_tree.
Context (fs : Fat32FileSystem) (n : Z) (D : gset Z) (V : volume fs n) (T : tree fs n D).

Lemma find_parent_ok c : c ∈ D →
  ∃ r, find_parent_cluster fs c = Done r ∧ ∀ d, r = Some d → d ∈ D.
Proof.
  move=> Hc. rw /find_parent_cluster. case_test; [by eexists|].
  destruct (listing_total fs n c V (tree_valid _ _ _ T c Hc)) as [l [El _]].
  rw El bind_Done. case Ef: (find_named _ l) => [f|]; [|by eexists].
  eexists; split; [done|]. move=> d [<-]. case_test; [apply T|].
  apply find_named_Some in Ef as [Hf En]. by destruct (tree_parent _ _ _ T c l f Hc El Hf En).
Qed.

(** Every component of a path stays inside the tree. *)
Lemma walk_parts_ok parts c : c ∈ D →
  ∃ r, walk_parts fs parts c = Done r
    ∧ ∀ f, r = Some f → is_directory f = true → start_cluster f ∈ D.
Proof.
  elim: parts c => [|part rest IH] c Hc; [by eexists|]. cbn [walk_parts].
  destruct (listing_total fs n c V (tree_valid _ _ _ T c Hc)) as [l [El _]].
  rw El bind_Done. case_bool_decide; [by apply IH|]. case_bool_decide.
  - destruct (find_parent_ok c Hc) as [[d|] [-> Hd]]; rw bind_Done; [|by eexists].
    case: (is_empty rest); [|by apply IH, Hd]. eexists; split; [done|].
    move=> f [<-] _. by apply Hd.
  - case Ef: (find_named part l) => [f|]; [|by eexists].
    apply find_named_Some in Ef as [Hf En].
    have Hs : is_directory f = true → start_cluster f ∈ D.
    { move=> ?. eapply (tree_child _ _ _ T c l f); [done..| |]; congruence. }
    case: (is_empty rest); [by eexists; split; [done|]; move=> g [<-]|].
    case E: (is_directory f); [|by eexists]. by apply IH, Hs.
Qed.

Lemma parse_path_ok path cur : (∀ c, cur = Some c → c ∈ D) →
  ∃ r, parse_path fs path cur = Done r
    ∧ ∀ f, r = Some f → is_directory f = true → start_cluster f ∈ D.
Proof.
  move=> Hcur. apply walk_parts_ok. case: (_ || _); [apply T|].
  case: cur Hcur => [c|] Hcur /=; [by apply Hcur|apply T].
Qed.
End in_tree.

(** C11: On a volume whose directories form a closed tree, resolving a path
    never panics, and a directory it resolves to is again in the tree. *)
Theorem parse_path_safe fs n D path cur :
  volume fs n → tree fs n D → (∀ c, cur = Some c → c ∈ D) →
  ∃ r, parse_path fs path cur = Done r
    ∧ ∀ f, r = Some f → is_directory f = true → start_cluster f ∈ D.
Proof. move=> V T. by apply parse_path_ok with n. Qed.

(** What reading a file returns, from its chain of clusters. *)
Lemma read_file_chain fs n path cur f cs :
  volume fs n → parse_path fs path cur = Done (Some f) → is_directory f = false →
  fat_chain fs n (start_cluster f) cs →
  let data := take (Z.to_nat (fi_size f)) (concat (cluster_data fs <$> cs)) in
  read_file (Z.to_nat n) fs path cur =
    Done match from_utf8 data with
         | Some s => Ok s
         | None => Err (lit "Invalid UTF-8 content")
         end.
Proof.
  move=> V Ep Ed Hch data. rw /read_file Ep bind_Done Ed.
  rw (read_chain_ok fs n V _ _ cs); [done|by eapply fat_chain_length|].
  rw bind_Done app_nil_l truncate_take. by case: (from_utf8 _).
Qed.

(** C9: Reading a file returns the first [size] bytes of its clusters, in
    chain order, when they are valid UTF-8 and an error otherwise; a chain of
    a volume of [n] clusters has at most [n] links, so [n] iterations of the
    loop are enough. *)
Theorem read_file_spec fs n path cur f cs :
  volume fs n → parse_path fs path cur = Done (Some f) → is_directory f = false →
  fat_chain fs n (start_cluster f) cs →
  let data := take (Z.to_nat (fi_size f)) (concat (cluster_data fs <$> cs)) in
  read_file (Z.to_nat n) fs path cur =
    Done match from_utf8 data with
         | Some s => Ok s
         | None => Err (lit "Invalid UTF-8 content")
         end.
Proof. apply read_file_chain. Qed.

(** C37: When the chain of a file runs into a cycle, the loop of [read_file]
    never ends: no number of iterations is enough. *)
Theorem read_file_cycle fs n path cur f cs d ds fuel :
  volume fs n → parse_path fs path cur = Done (Some f) → is_directory f = false →
  fat_path fs n (start_cluster f) cs d → fat_path fs n d ds d → ds ≠ [] →
  read_file fuel fs path cur = Diverge.
Proof.
  move=> V Ep Ed Hp Hc Hne. rw /read_file Ep bind_Done Ed.
  have Hk := fat_path_repeat fs n d ds fuel Hc.
  rw (read_chain_path fs n V fuel _ _ _ [] (fat_path_app fs n _ _ _ _ _ Hp Hk)) //.
  have ? : (1 <= length ds)%nat by case: ds Hne {Hc Hk} => //= *; lia.
  have : (fuel <= length (mjoin (replicate fuel ds)))%nat; [|rw length_app; lia].
  elim: fuel {Hk} => [|k IH] /=; [lia|]. rw length_app. lia.
Qed.

(** The errors of [read_file] that come from the path. *)
Lemma read_file_not_found fuel fs path cur :
  parse_path fs path cur = Done None →
  read_file fuel fs path cur = Done (Err (lit "File not found")).
Proof. by rw /read_file => ->. Qed.

Lemma read_file_directory fuel fs path cur f :
  parse_path fs path cur = Done (Some f) → is_directory f = true →
  read_file fuel fs path cur = Done (Err (lit "Not a file")).
Proof. by rw /read_file => -> /= ->. Qed.
End paths.

(** Reading an empty file, whose start cluster is 0 by the FAT
    specification, panics in builds with overflow checks: the cluster number is
    used without being checked against 2. *)
Lemma read_file_empty_panics fs path cur f fuel :
  @parse_path true fs path cur = Done (Some f) → is_directory f = false → start_cluster f < 2 →
  @read_file true (S fuel) fs path cur = Panic ArithmeticOverflow.
Proof.
  move=> Ep Ed ?. rw /read_file Ep bind_Done Ed. cbn [read_chain].
  by rw /read_cluster /first_sector arith_panic; [lia|].
Qed.
