(* ===== verification/Stability.v ===== *)
(** * What existing paths resolve to

    A preorder on file systems that a mutating operation should respect: every
    name that a directory of the tree listed is still found there, for the same
    cluster and of the same kind; only sizes may differ.  Walking a path is
    monotone in it, so operations that respect it never break an existing path. *)

From S2P Require Import Prelude Machine Str Volume DirEntry DirSpec Path.

(** The same file, up to its size. *)
Definition same_file (f g : FileInfo) : Prop :=
  fi_name f = fi_name g ∧ is_directory f = is_directory g ∧ start_cluster f = start_cluster g.

#[export] Instance same_file_equiv : Equivalence same_file.
Proof.
  split; rw /same_file; [done| |].
  - move=> f g [-> [-> ->]] //.
  - move=> f g h [-> [-> ->]] [-> [-> ->]] //.
Qed.

(** Names keep their meaning from one listing to another. *)
Definition names_kept (files files' : list FileInfo) : Prop :=
  ∀ name f, find_named name files = Some f →
    ∃ f', find_named name files' = Some f' ∧ same_file f f'.

#[export] Instance names_kept_preorder : PreOrder names_kept.
Proof.
  split.
  - move=> files name f E. by exists f.
  - move=> fs1 fs2 fs3 H12 H23 name f /H12 [f2 [/H23 [f3 [E S3]] S2]].
    exists f3. split; [done|]. by etrans.
Qed.

Lemma find_named_app name l l' :
  find_named name (l ++ l') =
    match find_named name l with Some f => Some f | None => find_named name l' end.
Proof.
  elim: l => [|f l IH] //. rw /find_named /= in IH |- *. case_decide; [done|].
  move: IH. case: (list_find _ l) => [[]|] //=; case: (list_find _ (l ++ l')) => [[]|] //=;
    by case: (list_find _ l') => [[]|].
Qed.

Lemma find_named_cons name f l :
  find_named name (f :: l) = if bool_decide (fi_name f = name) then Some f else find_named name l.
Proof.
  rw /find_named /=. case_decide.
  - by rw bool_decide_eq_true_2.
  - rw bool_decide_eq_false_2 //. by case: (list_find _ l) => [[]|].
Qed.

(** Replacing a file by the same file, up to its size. *)
Lemma names_kept_update l f g l' :
  same_file f g → names_kept (l ++ f :: l') (l ++ g :: l').
Proof.
  move=> S name h. rw !find_named_app !find_named_cons. case: (find_named name l) => [x|].
  { move=> [<-]. by exists x. }
  have [-> _] := S. case_bool_decide; [move=> [<-]; by exists g|by exists h].
Qed.

(** Adding a file under a name that was not there. *)
Lemma names_kept_insert l f l' :
  find_named (fi_name f) (l ++ l') = None → names_kept (l ++ l') (l ++ f :: l').
Proof.
  move=> Hn name h E. exists h. split; [|done]. move: E. rw !find_named_app find_named_cons.
  case E: (find_named name l) => [x|] //. case_bool_decide; [|done].
  subst name. move: Hn. by rw find_named_app E => ->.
Qed.

Section stability.
Context `{Profile}.

(** Every name of the directories [D] keeps its meaning. *)
Record extends (D : gset Z) (fs fs' : Fat32FileSystem) : Prop := {
  ext_root : root_cluster fs' = root_cluster fs;
  ext_names : ∀ c files files', c ∈ D → list_directory_entries fs c = Done files →
    list_directory_entries fs' c = Done files' → names_kept files files';
}.

#[export] Instance extends_refl D : Reflexive (extends D).
Proof. split; [done|]. by move=> c files files' _ -> [->]. Qed.

Lemma extends_trans D fs1 fs2 fs3 n :
  volume fs2 n → (∀ c, c ∈ D → 2 <= c < n + 2) →
  extends D fs1 fs2 → extends D fs2 fs3 → extends D fs1 fs3.
Proof.
  move=> V HD [R1 N1] [R2 N2]. split; [congruence|]. move=> c l1 l3 Hc E1 E3.
  destruct (listing_total fs2 n c V (HD c Hc)) as [l2 [E2 _]].
  etrans; [by eapply N1|by eapply N2].
Qed.

Lemma list_directory_entries_frame fs fs' n c :
  volume fs n → volume fs' n → 2 <= c < n + 2 → cluster_data fs' c = cluster_data fs c →
  list_directory_entries fs' c = list_directory_entries fs c.
Proof.
  move=> V V' Hc E. by rw /list_directory_entries (read_cluster_ok fs n V) // (read_cluster_ok fs' n V') // E.
Qed.

(** Only the directory [p] changes, and it keeps its names. *)
Lemma extends_one D fs fs' n p files files' :
  volume fs n → volume fs' n → (∀ c, c ∈ D → 2 <= c < n + 2) →
  root_cluster fs' = root_cluster fs →
  (∀ c, c ∈ D → c ≠ p → cluster_data fs' c = cluster_data fs c) →
  list_directory_entries fs p = Done files → list_directory_entries fs' p = Done files' →
  names_kept files files' → extends D fs fs'.
Proof.
  move=> V V' HD HR HF E E' K. split; [done|]. move=> c l l' Hc El El'.
  destruct (decide (c = p)) as [->|].
  { rw E in El. rw E' in El'. by injection El as <-; injection El' as <-. }
  rw (list_directory_entries_frame fs fs' n) in El'; auto. have -> : l = l' by congruence. done.
Qed.

Section walk.
Context (fs fs' : Fat32FileSystem) (n : Z) (D : gset Z).
Context (V : volume fs n) (V' : volume fs' n) (T : tree fs n D) (X : extends D fs fs').

Lemma listings c : c ∈ D → ∃ files files', list_directory_entries fs c = Done files
  ∧ list_directory_entries fs' c = Done files' ∧ names_kept files files'.
Proof.
  move=> Hc. have Hv := tree_valid _ _ _ T c Hc.
  destruct (listing_total fs n c V Hv) as [l [El _]].
  destruct (listing_total fs' n c V' Hv) as [l' [El' _]].
  exists l, l'. split; [done|]. split; [done|]. by eapply ext_names.
Qed.

Lemma find_parent_extends c d : c ∈ D →
  find_parent_cluster fs c = Done (Some d) → find_parent_cluster fs' c = Done (Some d).
Proof.
  move=> Hc. rw /find_parent_cluster (ext_root _ _ _ X). case_test; [done|].
  destruct (listings c Hc) as (l & l' & -> & -> & K). rw !bind_Done.
  case E: (find_named _ l) => [f|] // -[<-]. by destruct (K _ _ E) as (f' & -> & _ & _ & ->).
Qed.

Lemma walk_parts_extends parts c f : c ∈ D →
  walk_parts fs parts c = Done (Some f) →
  ∃ f', walk_parts fs' parts c = Done (Some f') ∧ same_file f f'.
Proof.
  elim: parts c => [|part rest IH] c Hc //. cbn [walk_parts].
  destruct (listings c Hc) as (l & l' & El & -> & K). rw El !bind_Done.
  case_bool_decide; [by apply IH|]. case_bool_decide.
  - destruct (find_parent_ok fs n D V T c Hc) as [[d|] [Ed Hd]]; rw Ed bind_Done //.
    rw (find_parent_extends c d Hc Ed) bind_Done.
    case: (is_empty rest); [move=> [<-]; by eexists|]. by apply IH, Hd.
  - case Ef: (find_named part l) => [g|] //. destruct (K _ _ Ef) as (g' & -> & Hs).
    case: (is_empty rest); [move=> [<-]; by exists g'|].
    have [_ [<- <-]] := Hs. case Eg: (is_directory g) => //=. apply IH.
    apply find_named_Some in Ef as [Hg En]. eapply (tree_child _ _ _ T c l g); [done..| |]; congruence.
Qed.
End walk.

Lemma parse_path_extends fs fs' n D path cur f :
  volume fs n → volume fs' n → tree fs n D → extends D fs fs' → (∀ c, cur = Some c → c ∈ D) →
  parse_path fs path cur = Done (Some f) →
  ∃ f', parse_path fs' path cur = Done (Some f') ∧ same_file f f'.
Proof.
  move=> V V' T X Hcur. rw /parse_path (ext_root _ _ _ X). apply (walk_parts_extends _ _ n D) => //.
  case: (_ || _); [apply T|]. case: cur Hcur => [c|] Hcur /=; [by apply Hcur|apply T].
Qed.

(** When no directory of the tree changes, every path means the same. *)
Section unchanged.
Context (fs fs' : Fat32FileSystem) (n : Z) (D : gset Z).
Context (V : volume fs n) (V' : volume fs' n) (T : tree fs n D).
Context (HR : root_cluster fs' = root_cluster fs).
Context (HD : ∀ d, d ∈ D → cluster_data fs' d = cluster_data fs d).

Lemma same_listing c : c ∈ D → list_directory_entries fs' c = list_directory_entries fs c.
Proof. move=> Hc. apply (list_directory_entries_frame fs fs' n); [done..|by eapply tree_valid|by apply HD]. Qed.

Lemma walk_parts_frame parts c : c ∈ D → walk_parts fs' parts c = walk_parts fs parts c.
Proof.
  elim: parts c => [|part rest IH] c Hc //. cbn [walk_parts]. rw same_listing //.
  destruct (listing_total fs n c V (tree_valid _ _ _ T c Hc)) as [l [El _]]. rw El !bind_Done.
  case_bool_decide; [by apply IH|]. case_bool_decide.
  - have -> : find_parent_cluster fs' c = find_parent_cluster fs c.
    { rw /find_parent_cluster HR. case_test; [done|]. by rw same_listing. }
    destruct (find_parent_ok fs n D V T c Hc) as [[d|] [-> Hd]]; rw !bind_Done //.
    case: (is_empty rest) => //. by apply IH, Hd.
  - case Ef: (find_named part l) => [g|] //. case: (is_empty rest) => //.
    case Eg: (is_directory g) => //=. apply IH.
    apply find_named_Some in Ef as [Hg En]. eapply (tree_child _ _ _ T c l g); [done..| |]; congruence.
Qed.

Lemma parse_path_frame path cur : (∀ c, cur = Some c → c ∈ D) → parse_path fs' path cur = parse_path fs path cur.
Proof.
  move=> Hcur. rw /parse_path HR. apply walk_parts_frame.
  case: (_ || _); [apply T|]. case: cur Hcur => [c|] Hcur /=; [by apply Hcur|apply T].
Qed.

Lemma tree_frame : tree fs' n D.
Proof.
  split; [rw HR; apply T|apply T| |].
  - move=> c files f Hc. rw same_listing //. by apply T.
  - move=> c files f Hc. rw same_listing //. by apply T.
Qed.
End unchanged.
End stability.
