(* ===== verification/FileOps.v ===== *)
(** * Creating directories and files, and writing files

    Models the mutating half of [src/src/file_system.rs]: [allocate_cluster],
    [write_directory_entry], [init_directory_cluster], [create_file], [mkdir],
    [update_file_size] and [write_file].  Each is a [method] on the mounted
    file system: an [Err] keeps whatever was written before it. *)

From S2P Require Import Prelude Machine Str Volume DirEntry Names DirSpec Path.

Section operations.
Context `{Profile} `{UnicodeCase}.

(** ** Allocation *)

(** The loop [for cluster_id in 2..50000], with [k] iterations to go. *)
Fixpoint allocate_scan (k : nat) (cluster_id : Z) : method Fat32FileSystem Z := λ fs,
  match k with
  | O => Done (fs, Err (lit "Disk full"))
  | S k =>
      entry ← read_fat_entry fs cluster_id;
      if entry =? 0x00000000 then
        fs' ← write_fat_entry cluster_id 0x0FFFFFFF fs;
        Done (fs', Ok cluster_id)
      else allocate_scan k (cluster_id + 1) fs
  end.

Definition allocate_cluster : method Fat32FileSystem Z :=
  allocate_scan (Z.to_nat (50000 - 2)) 2.

(** ** Directory entries *)

(** The position on disk of a byte of a cluster, given the cluster's first
    sector; both writers of directory entries compute it this way. *)
Definition byte_position (fs : Fat32FileSystem) (start_sector byte_offset : Z) : outcome Z :=
  sector_offset ← u_div (as_u32 byte_offset) (bytes_per_sector fs);
  offset_in_sector ← u_rem byte_offset (bytes_per_sector fs);
  s ← u32_add start_sector sector_offset;
  base ← u32_mul s (bytes_per_sector fs);
  usize_add base offset_in_sector.

Definition write_directory_entry (cluster_id entry_idx : Z) (data : list Z)
    (fs : Fat32FileSystem) : outcome Fat32FileSystem :=
  start_sector ← first_sector fs cluster_id;
  offset_in_cluster ← usize_mul entry_idx 32;
  global_offset ← byte_position fs start_sector offset_in_cluster;
  hi ← usize_add global_offset 32;
  d ← copy_into (disk fs) global_offset hi data;
  Done (set_disk d fs).

(** The name, attribute and start cluster of a new 32-byte entry. *)
Definition new_entry (short_name : list Z) (attr cluster : Z) : outcome (list Z) :=
  e ← copy_into (replicate 32 0) 0 11 short_name;
  e ← set_index e 11 attr;
  let high := as_u16 (Z.shiftr cluster 16) in
  let low := as_u16 (Z.land cluster 0xFFFF) in
  e ← copy_into e 20 22 (u16_to_le high);
  copy_into e 26 28 (u16_to_le low).

(** [chunks_exact(32).enumerate().find(..).map(|(i, _)| i)] *)
Definition find_chunk (P : list Z → Prop) `{∀ e, Decision (P e)} (data : list Z) : option Z :=
  (λ ie, Z.of_nat ie.1) <$> list_find P (chunks_exact 32 data).

Definition free_slot (chunk : list Z) : Prop := byte_at chunk 0 = 0x00 ∨ byte_at chunk 0 = 0xE5.

#[global] Instance free_slot_dec chunk : Decision (free_slot chunk).
Proof. unfold free_slot. apply _. Defined.

Definition init_directory_cluster (current_cluster parent_cluster : Z)
    (fs : Fat32FileSystem) : outcome Fat32FileSystem :=
  cluster_size ← u32_mul (sectors_per_cluster fs) (bytes_per_sector fs);
  let data := replicate (Z.to_nat cluster_size) 0 in
  data ← copy_into data 0 11 (lit ".          ");
  data ← set_index data 11 0x10;
  data ← copy_into data 20 22 (u16_to_le (as_u16 (Z.shiftr current_cluster 16)));
  data ← copy_into data 26 28 (u16_to_le (as_u16 current_cluster));
  data ← copy_into data 32 43 (lit "..         ");
  data ← set_index data 43 0x10;
  let parent_val := if parent_cluster =? root_cluster fs then 0 else parent_cluster in
  data ← copy_into data 52 54 (u16_to_le (as_u16 (Z.shiftr parent_val 16)));
  data ← copy_into data 58 60 (u16_to_le (as_u16 parent_val));
  start_sector ← first_sector fs current_cluster;
  offset_in_disk ← u32_mul start_sector (bytes_per_sector fs);
  hi ← usize_add offset_in_disk cluster_size;
  d ← copy_into (disk fs) offset_in_disk hi data;
  Done (set_disk d fs).

(** ** Creating files and directories *)

(** The parent of a new entry: the root for an empty path or ["/"]. *)
Definition resolve_parent (parent_path : str) (not_found : str) : method Fat32FileSystem Z := λ fs,
  if is_empty parent_path || bool_decide (parent_path = lit "/") then Done (fs, Ok (root_cluster fs))
  else
    f ← parse_path fs parent_path None;
    Done (fs, ok_or (start_cluster <$> f) not_found).

Definition short_name_of (name : str) : method Fat32FileSystem (list Z) := λ fs,
  r ← format_to_8_3 name; Done (fs, r).

Definition create_file (parent_path filename : str) : method Fat32FileSystem unit :=
  parent_cluster ← resolve_parent parent_path (lit "Parent directory not found");
  short_name ← short_name_of filename;
  new_file_cluster ← allocate_cluster;
  cluster_data ← reads (λ fs, read_cluster fs parent_cluster);
  idx ← question (ok_or (find_chunk free_slot cluster_data) (lit "No space in parent directory"));
  entry ← reads (λ _, new_entry short_name 0x20 new_file_cluster);
  updates (write_directory_entry parent_cluster idx entry).

Definition mkdir (parent_path folder_name : str) : method Fat32FileSystem unit :=
  parent_cluster ← resolve_parent parent_path (lit "Parent path not found");
  new_folder_cluster ← allocate_cluster;
  _ ← updates (init_directory_cluster new_folder_cluster parent_cluster);
  short_name ← short_name_of folder_name;
  cluster_data ← reads (λ fs, read_cluster fs parent_cluster);
  idx ← question (ok_or (find_chunk free_slot cluster_data) (lit "No space in parent directory"));
  entry ← reads (λ _, new_entry short_name 0x10 new_folder_cluster);
  entry ← reads (λ _, copy_into entry 28 32 (u32_to_le 0));
  updates (write_directory_entry parent_cluster idx entry).

(** ** Writing *)

(** [path.rfind('/')] splits a path into its parent and its last component. *)
Definition split_path (path : str) : str * str :=
  match rfind slash path with
  | Some pos => (take (Z.to_nat pos) path, drop (Z.to_nat (pos + 1)) path)
  | None => ([], path)
  end.

Definition write_size (parent_cluster entry_idx new_size : Z) (fs : Fat32FileSystem)
    : outcome Fat32FileSystem :=
  start_sector ← first_sector fs parent_cluster;
  b ← usize_mul entry_idx 32;
  byte_offset ← usize_add b 28;
  final_offset ← byte_position fs start_sector byte_offset;
  hi ← usize_add final_offset 4;
  d ← copy_into (disk fs) final_offset hi (u32_to_le new_size);
  Done (set_disk d fs).

Definition update_file_size (path : str) (new_size : Z) : method Fat32FileSystem unit :=
  let '(parent_path, filename) := split_path path in
  parent_cluster ← (λ fs,
    if is_empty parent_path || bool_decide (parent_path = lit "/") then Done (fs, Ok (root_cluster fs))
    else
      f ← parse_path fs parent_path None;
      Done (fs, Ok (default (root_cluster fs) (start_cluster <$> f))));
  short_name ← short_name_of filename;
  cluster_data ← reads (λ fs, read_cluster fs parent_cluster);
  entry_idx ← question (ok_or (find_chunk (λ e, sub 0 11 e = short_name) cluster_data)
                          (lit "Entrée introuvable pour mise à jour"));
  updates (write_size parent_cluster entry_idx new_size).

(** The bytes of a file's first cluster. *)
Definition write_data (cluster : Z) (data : list Z) (bytes_to_write : Z)
    (fs : Fat32FileSystem) : outcome Fat32FileSystem :=
  start_sector ← first_sector fs cluster;
  global_offset ← u32_mul start_sector (bytes_per_sector fs);
  hi ← usize_add global_offset bytes_to_write;
  src ← slice data 0 bytes_to_write;
  d ← copy_into (disk fs) global_offset hi src;
  Done (set_disk d fs).

Definition write_file (path : str) (data : list Z) : method Fat32FileSystem unit :=
  f ← reads (λ fs, parse_path fs path None);
  file_info ← question (ok_or f (lit "Fichier non trouvé"));
  if is_directory file_info then question (Err (lit "Impossible d'écrire dans un répertoire"))
  else
    cluster_size ← reads (λ fs, u32_mul (sectors_per_cluster fs) (bytes_per_sector fs));
    let bytes_to_write := Z.min (zlen data) cluster_size in
    _ ← updates (write_data (start_cluster file_info) data bytes_to_write);
    update_file_size path (as_u32 bytes_to_write).
End operations.

(** ** The primitives write where they mean to *)

(** The entry that a creation writes: name, attribute, zero stamps, cluster, zero size. *)
Definition entry_bytes (short_name : list Z) (attr cluster : Z) : list Z :=
  short_name ++ [attr] ++ replicate 8 0 ++ u16_to_le (Z.shiftr cluster 16)
  ++ replicate 4 0 ++ u16_to_le (Z.land cluster 0xFFFF) ++ replicate 4 0.

(** The first cluster of a new directory: the entries [.] and [..], then zeros. *)
Definition dot_entries (current_cluster parent_val : Z) : list Z :=
  entry_bytes (lit ".          ") 0x10 current_cluster
  ++ entry_bytes (lit "..         ") 0x10 parent_val.

Definition dir_cluster (fs : Fat32FileSystem) (current_cluster parent_cluster : Z) : list Z :=
  let parent_val := if parent_cluster =? root_cluster fs then 0 else parent_cluster in
  dot_entries current_cluster parent_val ++ replicate (Z.to_nat (cluster_size fs) - 64) 0.

Section primitives.
Context `{Profile} `{UnicodeCase} (fs : Fat32FileSystem) (n : Z) (V : volume fs n).

Lemma byte_position_ok c k : 2 <= c < n + 2 → 0 <= k < cluster_size fs →
  byte_position fs (data_sector fs + (c - 2) * sectors_per_cluster fs) k =
    Done (cluster_off fs c + k).
Proof.
  move=> Hc Hk. have ? := volume_sectors fs n V. have ? := cluster_sectors fs n V c Hc.
  have ? := cluster_off_bounds fs n V c Hc. have ? := data_in_disk fs n V.
  have ? := cluster_size_bounds fs n V. destruct V.
  have E := Z.div_mod k (bytes_per_sector fs) ltac:(lia).
  have ? := Z.mod_pos_bound k (bytes_per_sector fs) ltac:(lia).
  have ? : 0 <= k / bytes_per_sector fs by apply Z.div_pos; lia.
  set s := data_sector fs + _. set q := k / _ in E *.
  have Es : cluster_off fs c = s * bytes_per_sector fs by [].
  have ? : (s + q) * 1 <= (s + q) * bytes_per_sector fs
    by apply Z.mul_le_mono_nonneg_l; lia.
  rw /byte_position /as_u32 Z.mod_small; [lia|]. rw u_div_ok; [lia|].
  rw bind_Done u_rem_ok; [lia|]. rw bind_Done arith_ok; [lia|].
  rw bind_Done arith_ok; [lia|]. rw bind_Done arith_ok; [lia|]. f_equal. lia.
Qed.

Lemma write_directory_entry_ok c idx data :
  2 <= c < n + 2 → 0 <= idx → (idx + 1) * 32 <= cluster_size fs → zlen data = 32 →
  write_directory_entry c idx data fs = Done (data_put c (idx * 32) data fs).
Proof.
  move=> Hc ?? Hd. have ? := cluster_off_bounds fs n V c Hc. have ? := data_in_disk fs n V.
  have ? := cluster_size_bounds fs n V.
  rw /write_directory_entry (first_sector_ok fs n V) // bind_Done arith_ok; [lia|].
  rw bind_Done byte_position_ok //; [lia|]. destruct V. rw bind_Done arith_ok; [lia|].
  rw bind_Done copy_into_ok; [lia..|]. done.
Qed.

Lemma write_size_ok c idx size :
  2 <= c < n + 2 → 0 <= idx → (idx + 1) * 32 <= cluster_size fs →
  write_size c idx size fs = Done (data_put c (idx * 32 + 28) (u32_to_le size) fs).
Proof.
  move=> Hc ??. have ? := cluster_off_bounds fs n V c Hc. have ? := data_in_disk fs n V.
  have ? := cluster_size_bounds fs n V.
  rw /write_size (first_sector_ok fs n V) // bind_Done arith_ok; [lia|].
  rw bind_Done arith_ok; [lia|]. rw bind_Done byte_position_ok //; [lia|].
  destruct V. rw bind_Done arith_ok; [lia|].
  rw bind_Done copy_into_ok; [lia|lia|len|]. done.
Qed.

Lemma write_data_ok c data k :
  2 <= c < n + 2 → 0 <= k → k <= zlen data → k <= cluster_size fs →
  write_data c data k fs = Done (data_put c 0 (take (Z.to_nat k) data) fs).
Proof.
  move=> Hc ???. have ? := cluster_off_bounds fs n V c Hc. have ? := data_in_disk fs n V.
  have ? := cluster_size_bounds fs n V.
  rw /write_data (first_sector_ok fs n V) // bind_Done -/(cluster_off fs c).
  destruct V. rw arith_ok -/(cluster_off fs c); [lia|].
  rw bind_Done arith_ok; [lia|]. rw bind_Done slice_ok; [lia..|].
  rw bind_Done copy_into_ok; [lia|lia|len|].
  by rw bind_Done /data_put Z.add_0_r /sub drop_0 Z.sub_0_r.
Qed.

Lemma set_index_middle {A} (l : list A) i x pre y post :
  l = pre ++ y :: post → i = zlen pre → set_index l i x = Done (pre ++ x :: post).
Proof.
  move=> -> ->. have ? := zlen_nonneg pre. have ? := zlen_nonneg post. rw /set_index.
  rw !zlen_app zlen_cons. ztrue. by rw insert_middle.
Qed.

Lemma copy_into_middle {A} (l : list A) lo hi s pre old post :
  l = pre ++ old ++ post → lo = zlen pre → zlen old = zlen s → hi = lo + zlen s →
  copy_into l lo hi s = Done (pre ++ s ++ post).
Proof.
  move=> -> -> E ->. have ? := zlen_nonneg pre. have ? := zlen_nonneg post.
  rw copy_into_ok; [lia|rw !zlen_app; lia|lia|]. by rw splice_middle.
Qed.

Lemma zlen_entry_bytes name attr cluster :
  zlen name = 11 → zlen (entry_bytes name attr cluster) = 32.
Proof. move=> E. rw /entry_bytes. len. Qed.

Lemma as_u16_high c : 0 <= c < 2 ^ 32 → as_u16 (Z.shiftr c 16) = Z.shiftr c 16.
Proof. move=> ?. by rw /as_u16 Z.mod_small; [apply shiftr16_bounds|]. Qed.

Lemma as_u16_low c : as_u16 (Z.land c 0xFFFF) = Z.land c 0xFFFF.
Proof. by rw /as_u16 Z.mod_small; [apply land_ffff_bounds|]. Qed.

Lemma as_u16_land c : as_u16 c = Z.land c 0xFFFF.
Proof. by rw (Z.land_ones c 16). Qed.

Lemma new_entry_ok name attr cluster :
  zlen name = 11 → 0 <= cluster < 2 ^ 32 →
  new_entry name attr cluster = Done (entry_bytes name attr cluster).
Proof.
  move=> E Hc. rw /new_entry as_u16_high // as_u16_low.
  rw (copy_into_middle _ 0 11 name [] (replicate 11 0) (0 :: replicate 20 0)); [done|done|len..|].
  rw bind_Done (set_index_middle _ 11 attr name 0 (replicate 20 0)) //.
  rw bind_Done (copy_into_middle _ 20 22 _ (name ++ [attr] ++ replicate 8 0)
    (replicate 2 0) (replicate 10 0)); [by rw -!app_assoc|len..|].
  rw bind_Done (copy_into_middle _ 26 28 _
    (name ++ [attr] ++ replicate 8 0 ++ u16_to_le (Z.shiftr cluster 16) ++ replicate 4 0)
    (replicate 2 0) (replicate 4 0)); [by rw -!app_assoc|len..|].
  by rw /entry_bytes -!app_assoc.
Qed.

Lemma zlen_dir_cluster c p : zlen (dir_cluster fs c p) = cluster_size fs.
Proof.
  have ? := cluster_size_bounds fs n V. rw /dir_cluster /dot_entries 2!zlen_app.
  rw !zlen_entry_bytes //. len.
Qed.

(** The eight writes of [init_directory_cluster] into the zeroed buffer. *)
Lemma dot_entries_written c p (k : nat) : 0 <= c < 2 ^ 32 → 0 <= p < 2 ^ 32 →
  (data ← copy_into (replicate (64 + k) 0) 0 11 (lit ".          ");
   data ← set_index data 11 0x10;
   data ← copy_into data 20 22 (u16_to_le (as_u16 (Z.shiftr c 16)));
   data ← copy_into data 26 28 (u16_to_le (as_u16 c));
   data ← copy_into data 32 43 (lit "..         ");
   data ← set_index data 43 0x10;
   data ← copy_into data 52 54 (u16_to_le (as_u16 (Z.shiftr p 16)));
   copy_into data 58 60 (u16_to_le (as_u16 p))) = Done (dot_entries c p ++ replicate k 0).
Proof.
  move=> Hc Hp. rw !as_u16_high // !as_u16_land. set R := replicate k 0.
  set n1 := lit ".          ". set n2 := lit "..         ".
  pose e1 := n1 ++ [0x10] ++ replicate 8 0 ++ u16_to_le (Z.shiftr c 16) ++ replicate 4 0.
  pose e2 := n2 ++ [0x10] ++ replicate 8 0 ++ u16_to_le (Z.shiftr p 16) ++ replicate 4 0.
  pose E1 := e1 ++ u16_to_le (Z.land c 0xFFFF) ++ replicate 4 0.
  have Hl1 : zlen n1 = 11 by []. have Hl2 : zlen n2 = 11 by [].
  have HE1 : zlen E1 = 32 by rw /E1 /e1; len.
  rw replicate_add -/R.
  rw (copy_into_middle _ 0 11 n1 [] (replicate 11 0) (0 :: replicate 52 0 ++ R)) // bind_Done.
  rw (set_index_middle _ 11 0x10 n1 0 (replicate 52 0 ++ R)) // bind_Done.
  rw (copy_into_middle _ 20 22 _ (n1 ++ [0x10] ++ replicate 8 0) (replicate 2 0)
    (replicate 42 0 ++ R)); [by rw -!app_assoc|len..|]. rw bind_Done.
  rw (copy_into_middle _ 26 28 _ e1 (replicate 2 0) (replicate 36 0 ++ R));
    [by rw /e1 -!app_assoc|rw /e1; len|len|len|]. rw bind_Done.
  rw (copy_into_middle _ 32 43 n2 E1 (replicate 11 0) (0 :: replicate 20 0 ++ R));
    [by rw /E1 -!app_assoc|done..|]. rw bind_Done.
  rw (set_index_middle _ 43 0x10 (E1 ++ n2) 0 (replicate 20 0 ++ R));
    [by rw -!app_assoc|len|]. rw bind_Done.
  rw (copy_into_middle _ 52 54 _ (E1 ++ n2 ++ [0x10] ++ replicate 8 0) (replicate 2 0)
    (replicate 10 0 ++ R)); [by rw -!app_assoc|len..|]. rw bind_Done.
  rw (copy_into_middle _ 58 60 _ (E1 ++ e2) (replicate 2 0) (replicate 4 0 ++ R));
    [by rw /e2 -!app_assoc|rw /e2; len|len|len|].
  by rw /dot_entries /entry_bytes -/n1 -/n2 /E1 /e1 /e2 -!app_assoc.
Qed.

Lemma init_directory_cluster_ok c p : 2 <= c < n + 2 → 0 <= p < 2 ^ 32 →
  init_directory_cluster c p fs = Done (data_put c 0 (dir_cluster fs c p) fs).
Proof.
  move=> Hc Hp. have ? := cluster_off_bounds fs n V c Hc. have ? := data_in_disk fs n V.
  have ? := cluster_size_bounds fs n V. have Hz := zlen_dir_cluster c p.
  have Hsz : zlen (disk fs) < 2 ^ 32 by destruct V.
  have ? : 0 <= c < 2 ^ 32 by have ? := volume_sectors fs n V; destruct V; nia.
  rw /init_directory_cluster arith_ok -/(cluster_size fs); [lia|]. rw bind_Done.
  set pv := if p =? root_cluster fs then 0 else p.
  have Hpv : 0 <= pv < 2 ^ 32 by rw /pv; case_test.
  have Hd := dot_entries_written c pv (Z.to_nat (cluster_size fs) - 64) ltac:(done) Hpv.
  have E64 : (64 + (Z.to_nat (cluster_size fs) - 64) = Z.to_nat (cluster_size fs))%nat by lia.
  rw E64 in Hd. move: Hd => /bind_Done_inv [d1 [E1 /bind_Done_inv [d2 [E2 /bind_Done_inv
    [d3 [E3 /bind_Done_inv [d4 [E4 /bind_Done_inv [d5 [E5 /bind_Done_inv [d6 [E6
    /bind_Done_inv [d7 [E7 E8]]]]]]]]]]]]]].
  rw E1 bind_Done E2 bind_Done E3 bind_Done E4 bind_Done E5 bind_Done E6 bind_Done.
  rw -/pv E7 bind_Done E8 bind_Done.
  rw (first_sector_ok fs n V) // bind_Done arith_ok -/(cluster_off fs c); [lia|].
  rw bind_Done arith_ok; [lia|]. rw bind_Done copy_into_ok; [lia|lia| |].
  - move: Hz. rw /dir_cluster -/pv. lia.
  - by rw bind_Done /data_put Z.add_0_r /dir_cluster.
Qed.
End primitives.
