(* ===== verification/FileOpsSpec.v ===== *)
(** * Correctness of the mutating operations

    What [allocate_cluster], [create_file], [mkdir], [update_file_size] and
    [write_file] do to a volume: every one of them keeps its size, its geometry
    and the range of its bytes whatever it returns; on success the directory gains exactly the
    new record; on failure what was written before the error stays. *)

From S2P Require Import Prelude Machine Str Volume DirEntry Names DirSpec Path FileOps.

(** ** The geometry stays *)

(** Peel a computation that finished into its steps. *)
Ltac peel H := repeat (apply bind_Done_inv in H as [? [? H]]).

Section invariant.
Context `{Profile} `{UnicodeCaseOk} (n : Z).

Lemma copy_into_volume fs lo hi src d :
  volume fs n → bytes src → copy_into (disk fs) lo hi src = Done d → volume (set_disk d fs) n.
Proof.
  move=> V Hs /copy_into_inv [? [? [? ->]]].
  apply volume_set_disk; [done|by apply zlen_splice|]. destruct V. auto with fat.
Qed.

Lemma write_fat_entry_volume c v fs fs' :
  volume fs n → write_fat_entry c v fs = Done fs' → volume fs' n.
Proof.
  move=> V E. rw /write_fat_entry in E. peel E. injection E as <-.
  eapply copy_into_volume; [done| |done]. auto with fat.
Qed.

Lemma write_directory_entry_volume c i data fs fs' :
  volume fs n → bytes data → write_directory_entry c i data fs = Done fs' → volume fs' n.
Proof.
  move=> V ? E. rw /write_directory_entry in E. peel E. injection E as <-.
  by eapply copy_into_volume.
Qed.

Lemma write_size_volume c i size fs fs' :
  volume fs n → write_size c i size fs = Done fs' → volume fs' n.
Proof.
  move=> V E. rw /write_size in E. peel E. injection E as <-.
  eapply copy_into_volume; [done| |done]. auto with fat.
Qed.

Lemma write_data_volume c data k fs fs' :
  volume fs n → bytes data → write_data c data k fs = Done fs' → volume fs' n.
Proof.
  move=> V Hd E. rw /write_data in E. peel E. injection E as <-.
  eapply copy_into_volume; [done| |done].
  match goal with E : slice data _ _ = Done _ |- _ => move: E end.
  rw /slice. case: (_ && _ && _) => // -[<-]. auto with fat.
Qed.

(** Byte buffers stay byte buffers. *)
Lemma copy_into_bytes d d' lo hi src :
  bytes d → bytes src → copy_into d lo hi src = Done d' → bytes d'.
Proof. move=> ?? /copy_into_inv [_ [_ [_ ->]]]. auto with fat. Qed.

Lemma set_index_bytes d d' i (x : Z) :
  bytes d → is_byte x → set_index d i x = Done d' → bytes d'.
Proof.
  move=> ??. rw /set_index. case: (_ && _) => // -[<-]. by apply Forall_insert.
Qed.

Lemma lit_bytes s : bytes (lit s).
Proof.
  apply Forall_fmap, Forall_forall => c _ /=. have := Ascii.N_ascii_bounded c. lia.
Qed.

Lemma replicate_bytes k : bytes (replicate k 0).
Proof. by apply Forall_replicate. Qed.

#[local] Hint Resolve copy_into_bytes set_index_bytes lit_bytes replicate_bytes : fat.

Lemma new_entry_bytes name attr c e :
  bytes name → is_byte attr → new_entry name attr c = Done e → bytes e.
Proof.
  move=> Hn Ha E. rw /new_entry in E. peel E.
  eapply copy_into_bytes; [|apply bytes_to_le|done].
  eapply copy_into_bytes; [|apply bytes_to_le|done].
  eapply set_index_bytes; [|done|done].
  eapply copy_into_bytes; [apply replicate_bytes|done|done].
Qed.

Lemma init_directory_cluster_volume c p fs fs' :
  volume fs n → init_directory_cluster c p fs = Done fs' → volume fs' n.
Proof.
  move=> V E. rw /init_directory_cluster in E. peel E. injection E as <-.
  eapply copy_into_volume; [done| |done].
  repeat first [apply replicate_bytes | apply lit_bytes | apply bytes_to_le | lia
    | eapply copy_into_bytes; [| |eassumption]
    | eapply set_index_bytes; [| |eassumption] ].
Qed.

Lemma format_to_8_3_bytes name n11 :
  bytes name → format_to_8_3 name = Done (Ok n11) → bytes n11.
Proof.
  move=> /(split_on_Forall _ dot). rw format_to_8_3_eq /format_parts.
  case: (split_on dot name) => [|[|b p] rest] // /Forall_cons [Hp Hr] [<-].
  apply Forall_app; split; apply bytes_pad; [by apply bytes_to_uppercase|].
  case: rest Hr => [|q rest] /=; [constructor|]. move=> /Forall_cons [? _].
  by apply bytes_to_uppercase.
Qed.

#[local] Abbreviation keeps c := (preserves (λ fs, volume fs n) c).

Lemma allocate_scan_keeps k c : keeps (allocate_scan k c).
Proof.
  elim: k c => [|k IH] c fs fs' r V; [by move=> [<- _]|]. cbn [allocate_scan].
  case: (read_fat_entry fs c) => [e|p|] //. rw bind_Done. case_test; [|by apply IH].
  case E: (write_fat_entry c _ fs) => [fs1|p|] //= -[<- _].
  by eapply write_fat_entry_volume.
Qed.

Lemma resolve_parent_keeps path err : keeps (resolve_parent path err).
Proof.
  move=> fs fs' r V. rw /resolve_parent. case: (_ || _); [by move=> [<- _]|].
  by case: (parse_path fs path None) => [f|p|] //= -[<- _].
Qed.

(** A method that is only run on well-typed names. *)
Lemma short_name_bind_keeps {A} name (k : list Z → method Fat32FileSystem A) :
  bytes name → (∀ n11, bytes n11 → keeps (k n11)) → keeps (short_name_of name ≫= k).
Proof.
  move=> Hn Hk fs fs' r V. rw /mbind /method_bind /short_name_of.
  case E: (format_to_8_3 name) => [[n11|e]|p|] //=; [|by move=> [<- _]].
  apply Hk; [|done]. by eapply format_to_8_3_bytes.
Qed.

Lemma add_entry_keeps n11 attr c p :
  bytes n11 → is_byte attr →
  keeps (cluster_data ← reads (λ fs, read_cluster fs p);
         idx ← question (ok_or (find_chunk free_slot cluster_data) (lit "No space in parent directory"));
         entry ← reads (λ _, new_entry n11 attr c);
         updates (write_directory_entry p idx entry)).
Proof.
  move=> Hn Ha. apply preserves_bind; [auto with fat|]. move=> data.
  apply preserves_bind; [auto with fat|]. move=> idx fs fs' r V.
  rw /mbind /method_bind /reads /updates.
  case E: (new_entry n11 attr c) => [e|q|] //=.
  case E2: (write_directory_entry p idx e fs) => [fs1|q|] //= -[<- _].
  eapply write_directory_entry_volume; [done| |done]. by eapply new_entry_bytes.
Qed.

Lemma create_file_keeps path name : bytes name → keeps (create_file path name).
Proof.
  move=> Hn. apply preserves_bind; [apply resolve_parent_keeps|]. move=> p.
  apply short_name_bind_keeps; [done|]. move=> n11 ?.
  apply preserves_bind; [apply allocate_scan_keeps|]. move=> c. by apply add_entry_keeps.
Qed.

Lemma mkdir_keeps path name : bytes name → keeps (mkdir path name).
Proof.
  move=> Hn. apply preserves_bind; [apply resolve_parent_keeps|]. move=> p.
  apply preserves_bind; [apply allocate_scan_keeps|]. move=> c.
  apply preserves_bind.
  { apply preserves_updates => fs fs' /= V E'. by eapply init_directory_cluster_volume. }
  move=> _. apply short_name_bind_keeps; [done|]. move=> n11 ?.
  apply preserves_bind; [auto with fat|]. move=> data.
  apply preserves_bind; [auto with fat|]. move=> idx fs fs' r V.
  rw /mbind /method_bind /reads /updates.
  case E: (new_entry n11 0x10 c) => [e|q|] //=.
  case E1: (copy_into e 28 32 _) => [e'|q|] //=.
  case E2: (write_directory_entry p idx e' fs) => [fs1|q|] //= -[<- _].
  eapply write_directory_entry_volume; [done| |done].
  eapply copy_into_bytes; [by eapply (new_entry_bytes n11 0x10)| |done].
  exact (bytes_to_le 4 0).
Qed.

Lemma update_file_size_keeps path size : bytes path → keeps (update_file_size path size).
Proof.
  move=> Hp. rw /update_file_size. case E: (split_path path) => [parent file].
  apply preserves_bind.
  { move=> fs fs' r V. case: (_ || _); [by move=> [<- _]|].
    by case: (parse_path fs parent None) => [f|p|] //= -[<- _]. }
  move=> p. apply short_name_bind_keeps.
  { move: E. rw /split_path. case: (rfind _ _) => [pos|] [_ <-] //. by apply Forall_drop. }
  move=> n11 ?. apply preserves_bind; [auto with fat|]. move=> data.
  apply preserves_bind; [auto with fat|]. move=> idx.
  apply preserves_updates => fs fs' /= V E'. by eapply write_size_volume.
Qed.

Lemma write_file_keeps path data : bytes path → bytes data → keeps (write_file path data).
Proof.
  move=> Hp Hd. rw /write_file. apply preserves_bind; [auto with fat|]. move=> f.
  apply preserves_bind; [auto with fat|]. move=> fi. case: (is_directory fi); [auto with fat|].
  apply preserves_bind; [auto with fat|]. move=> size. apply preserves_bind.
  { apply preserves_updates => fs fs' /= V E'. by eapply write_data_volume. }
  move=> _. by apply update_file_size_keeps.
Qed.
End invariant.

(** ** Sequences of operations *)

(** The public mutating operations, with their arguments. *)
Inductive fs_op :=
  | CreateFile (parent_path filename : str)
  | Mkdir (parent_path folder_name : str)
  | WriteFile (path : str) (data : list Z).

Definition op_typed (o : fs_op) : Prop :=
  match o with
  | CreateFile p f | Mkdir p f => bytes p ∧ bytes f
  | WriteFile p d => bytes p ∧ bytes d
  end.

Section sequences.
Context `{Profile} `{UnicodeCaseOk}.

Definition run_op (o : fs_op) : method Fat32FileSystem unit :=
  match o with
  | CreateFile p f => create_file p f
  | Mkdir p f => mkdir p f
  | WriteFile p d => write_file p d
  end.

(** A caller that goes on after errors, as the shell does. *)
Inductive steps : Fat32FileSystem → list fs_op → Fat32FileSystem → Prop :=
  | steps_nil fs : steps fs [] fs
  | steps_cons fs fs' fs'' o os r :
      run_op o fs = Done (fs', r) → steps fs' os fs'' → steps fs (o :: os) fs''.

(** Any sequence of creations and writes, successful or not, keeps the size and
    the geometry of the volume and the byte range of its content. *)
Lemma steps_keep_volume fs os fs' n :
  volume fs n → Forall op_typed os → steps fs os fs' → volume fs' n.
Proof.
  move=> V Ho Hs. elim: Hs V Ho => {fs os fs'} [fs //|fs fs1 fs' o os r E _ IH] V.
  move=> /Forall_cons [Ho Hos]. apply IH; [|done]. move: V E.
  case: o Ho => a b [Ha Hb] V; simpl => E.
  - exact (create_file_keeps n a b Hb fs fs1 r V E).
  - exact (mkdir_keeps n a b Hb fs fs1 r V E).
  - exact (write_file_keeps n a b Ha Hb fs fs1 r V E).
Qed.
End sequences.

(** ** Allocation *)

(** [c] is the first cluster whose FAT entry is zero. *)
Definition first_free (fs : Fat32FileSystem) (c : Z) : Prop :=
  2 <= c ∧ fat_get fs c = 0 ∧ ∀ d, 2 <= d < c → fat_get fs d ≠ 0.

(** The FAT after [c] has been reserved. *)
Abbreviation reserve c fs := (fat_put c 0x0FFFFFFF fs).

Section allocation.
Context `{Profile} (fs : Fat32FileSystem) (n : Z) (V : volume fs n).

Lemma allocate_scan_found k c0 c :
  2 <= c0 <= c → c < c0 + Z.of_nat k → c < n + 2 → fat_get fs c = 0 →
  (∀ d, c0 <= d < c → fat_get fs d ≠ 0) →
  allocate_scan k c0 fs = Done (reserve c fs, Ok c).
Proof.
  elim: k c0 => [|k IH] c0 ??? Hz Hne; [lia|]. cbn [allocate_scan].
  rw (read_fat_entry_ok fs n V); [lia|]. rw bind_Done.
  destruct (decide (c0 = c)) as [->|].
  - rw Hz. ztrue. rw (write_fat_entry_ok fs n V) //. lia.
  - have := Hne c0 ltac:(lia). move=> ?. ztrue. apply IH; [lia..|done|]. move=> d ?. apply Hne. lia.
Qed.

Lemma allocate_scan_full k c0 :
  2 <= c0 → c0 + Z.of_nat k <= n + 2 →
  (∀ d, c0 <= d < c0 + Z.of_nat k → fat_get fs d ≠ 0) →
  allocate_scan k c0 fs = Done (fs, Err (lit "Disk full")).
Proof.
  elim: k c0 => [|k IH] c0 ?? Hne; [done|]. cbn [allocate_scan].
  rw (read_fat_entry_ok fs n V); [lia|]. rw bind_Done.
  have ? := Hne c0 ltac:(lia). ztrue. apply IH; [lia..|]. move=> d ?. apply Hne. lia.
Qed.

Lemma allocate_cluster_ok c : first_free fs c → c < n + 2 → c < 50000 →
  allocate_cluster fs = Done (reserve c fs, Ok c).
Proof. move=> [? [? ?]] ??. by apply allocate_scan_found; [lia..|]. Qed.
End allocation.

Section allocation_theorems.
Context `{Profile}.

(** Allocation returns the first free cluster and marks it as the end of
    a chain; every other FAT entry and all file data are as before. *)
Lemma allocate_cluster_first fs n c :
  volume fs n → first_free fs c → c < n + 2 → c < 50000 →
  ∃ fs', allocate_cluster fs = Done (fs', Ok c)
    ∧ fat_get fs' c = 0x0FFFFFFF
    ∧ (∀ d, 0 <= d < n + 2 → d ≠ c → fat_get fs' d = fat_get fs d)
    ∧ (∀ d, 2 <= d < n + 2 → cluster_data fs' d = cluster_data fs d)
    ∧ volume fs' n.
Proof.
  move=> V Hf ??. have ? := proj1 Hf. exists (reserve c fs). split; [by apply allocate_cluster_ok with n|].
  split; [by rw (fat_get_put_same fs n V) //; lia|].
  split; [move=> d ??; rw (fat_get_put_other fs n V) //; lia|].
  split; [move=> d ?; rw (cluster_data_fat_put fs n V) //; lia|].
  apply volume_fat_put; [done|lia].
Qed.

(** When none of the clusters below 50 000 is free, allocation reports a
    full disk and changes nothing. *)
Lemma allocate_cluster_full fs n :
  volume fs n → 50000 <= n + 2 → (∀ d, 2 <= d < 50000 → fat_get fs d ≠ 0) →
  allocate_cluster fs = Done (fs, Err (lit "Disk full")).
Proof. move=> V ? Hne. by apply (allocate_scan_full fs n V); [lia..|]. Qed.
End allocation_theorems.

(** ** Adding an entry to a directory *)

Definition not_deleted (r : record) : Prop :=
  match r with Deleted _ => False | _ => True end.

(** [free_place rs tail rs1 e rs2 tail']: the first free slot [e] of a directory
    is that of the first deleted record, or else the end mark. *)
Inductive free_place : list record → list (list Z) →
    list record → list Z → list record → list (list Z) → Prop :=
  | place_deleted rs1 e rs2 tail :
      Forall not_deleted rs1 → free_place (rs1 ++ Deleted e :: rs2) tail rs1 e rs2 tail
  | place_end rs e tail :
      Forall not_deleted rs → end_of_directory tail → free_place rs (e :: tail) rs e [] tail.

(** Chunks that an occupied part of a directory consists of. *)
Definition occupied (e : list Z) : Prop := zlen e = 32 ∧ ¬ free_slot e.

Lemma long_tail_occupied ck fs :
  Forall fragment_ok fs → zlen fs <= 20 → Forall occupied (long_entries_tail ck fs).
Proof.
  elim=> [|us fs' [Hl _] _ IH]; [constructor|]. rw zlen_cons => ?. have ? := zlen_nonneg fs'.
  cbn [long_entries_tail]. constructor; [|apply IH; lia].
  destruct (long_entry_fields (zlen (us :: fs')) ck us Hl) as [E _].
  split; [by apply zlen_long_entry|]. rw /free_slot E zlen_cons. lia.
Qed.

Lemma long_occupied ck fs :
  Forall fragment_ok fs → zlen fs <= 20 → Forall occupied (long_entries ck fs).
Proof.
  case=> [|us fs' [Hl Hu] Hfs]; [constructor|]. rw zlen_cons => ?. have ? := zlen_nonneg fs'.
  cbn [long_entries]. constructor; [|apply long_tail_occupied; [done|lia]].
  destruct (long_entry_fields (zlen (us :: fs') + 0x40) ck us Hl) as [E _].
  split; [by apply zlen_long_entry|]. rw /free_slot E zlen_cons. lia.
Qed.

Lemma record_occupied r : record_ok r → not_deleted r → Forall occupied (layout r).
Proof.
  case: r => [e|us e|e] //=.
  - move=> [? [? [? _]]] _. constructor; [|constructor]. split; [done|]. rw /free_slot. lia.
  - move=> [[? [? [? _]]] [Hl Hu]] _. apply Forall_app; split.
    + destruct (split_units_ok (length us) us) as (? & ? & ? & _); [len|done|].
      apply long_occupied; [by apply Forall_reverse|].
      rw /zlen length_reverse -/(zlen (name_fragments us)) /name_fragments. lia.
    + constructor; [|constructor]. split; [done|]. rw /free_slot. lia.
Qed.

Lemma records_occupied rs :
  Forall record_ok rs → Forall not_deleted rs → Forall occupied (rs ≫= layout).
Proof.
  move=> H1 H2. apply Forall_bind. apply Forall_forall => r Hr.
  apply record_occupied; [by eapply Forall_forall in H1|by eapply Forall_forall in H2].
Qed.

(** The chunks around the free slot. *)
Lemma free_place_chunks rs tail rs1 e rs2 tail' :
  free_place rs tail rs1 e rs2 tail' → Forall record_ok rs → end_of_directory tail →
  (rs ≫= layout) ++ tail = (rs1 ≫= layout) ++ e :: (rs2 ≫= layout) ++ tail'
  ∧ Forall occupied (rs1 ≫= layout) ∧ free_slot e ∧ zlen e = 32
  ∧ Forall record_ok rs1 ∧ Forall record_ok rs2 ∧ end_of_directory tail'.
Proof.
  case=> {rs tail rs1 e rs2 tail'} [rs1 e rs2 tail Hn|rs e tail Hn Ht].
  - move=> /Forall_app [Hr1 /Forall_cons [[He E] Hr2]] Ht.
    rw bind_app bind_cons -!app_assoc. repeat split; try done.
    + by apply records_occupied.
    + by right.
  - move=> Hr [He E]. repeat split; try done; [by apply records_occupied|by left].
Qed.

Lemma find_chunk_at (P : list Z → Prop) `{∀ e, Decision (P e)} data pre e post :
  chunks_exact 32 data = pre ++ e :: post → Forall (λ x, ¬ P x) pre → P e →
  find_chunk P data = Some (zlen pre).
Proof.
  move=> E Hpre He. rw /find_chunk E list_find_app_r.
  { apply list_find_None. done. }
  by rw /= decide_True.
Qed.

Lemma chunk_bound data (pre : list (list Z)) e post :
  chunks_exact 32 data = pre ++ e :: post → (zlen pre + 1) * 32 <= zlen data.
Proof.
  move=> E. have := lookup_chunks_exact_Some 32 data (length pre) e ltac:(lia).
  rw E list_lookup_middle // => /(_ eq_refl) [_]. rw /zlen. lia.
Qed.

Lemma chunks_replace data (pre : list (list Z)) e e' post :
  chunks_exact 32 data = pre ++ e :: post → zlen e' = 32 →
  chunks_exact 32 (splice (zlen pre * 32) e' data) = pre ++ e' :: post.
Proof.
  move=> E He. have Hb := lookup_lt_Some (chunks_exact 32 data) (length pre) e.
  rw E list_lookup_middle // in Hb. have {}Hb := Hb eq_refl.
  rw -E length_chunks_exact in Hb.
  rw {1}/zlen chunks_exact_splice //; [lia|]. rw E insert_app_r_alt // Nat.sub_diag //.
Qed.

(** *** Decoding a new entry *)

Lemma fat_dir_entry_bytes name attr c :
  zlen name = 11 → is_byte attr → 0 <= c < 2 ^ 32 →
  let e := entry_bytes name attr c in
  sub 0 11 e = name ∧ byte_at e 11 = attr
  ∧ fat_dir e = mkFatDir name attr (Z.shiftr c 16) (Z.land c 0xFFFF) 0.
Proof.
  move=> Hn Ha Hc e. have Hhi := shiftr16_bounds c Hc. have Hlo := land_ffff_bounds c.
  have E0 : sub 0 11 e = name by apply sub_app_l.
  have E11 : byte_at e 11 = attr by rw /e /entry_bytes byte_at_app_r Hn.
  have E20 : from_le (sub 20 2 e) = Z.shiftr c 16.
  { apply (field_le e 20 2 _ (name ++ [attr] ++ replicate 8 0) 
      (replicate 4 0 ++ u16_to_le (Z.land c 0xFFFF) ++ replicate 4 0)); [|len|done].
    by rw /e /entry_bytes -!app_assoc. }
  have E26 : from_le (sub 26 2 e) = Z.land c 0xFFFF.
  { apply (field_le e 26 2 _ (name ++ [attr] ++ replicate 8 0 ++ u16_to_le (Z.shiftr c 16)
      ++ replicate 4 0) (replicate 4 0)); [|len|done].
    by rw /e /entry_bytes -!app_assoc. }
  have E28 : from_le (sub 28 4 e) = 0.
  { apply (field_le e 28 4 0 (name ++ [attr] ++ replicate 8 0 ++ u16_to_le (Z.shiftr c 16)
      ++ replicate 4 0 ++ u16_to_le (Z.land c 0xFFFF)) []); [|len|done].
    by rw /e /entry_bytes -!app_assoc. }
  by rw /fat_dir E0 E11 E20 E26 E28.
Qed.

(** The file that a new entry describes. *)
Lemma entry_info_new name n11 attr c :
  zlen n11 = 11 → is_byte attr → 0 <= c < 2 ^ 32 →
  entry_info name (entry_bytes n11 attr c) =
    mkFileInfo name (negb (Z.land attr ATTR_DIRECTORY =? 0)) 0 c.
Proof.
  move=> Hn Ha Hc. destruct (fat_dir_entry_bytes n11 attr c) as (_ & _ & E); [done..|].
  rw /entry_info E. cbn [fd_attr fd_size first_cluster_high first_cluster_low].
  by rw halves_join.
Qed.

(** A short name that can start an entry: not a free mark. *)
Definition startable (n11 : list Z) : Prop :=
  zlen n11 = 11 ∧ bytes n11 ∧ byte_at n11 0 ≠ 0x00 ∧ byte_at n11 0 ≠ 0xE5.

Lemma bytes_entry_bytes n11 attr c : bytes n11 → is_byte attr → bytes (entry_bytes n11 attr c).
Proof.
  move=> ??. rw /entry_bytes. repeat (apply Forall_app; split);
    first [done | apply bytes_to_le | by apply Forall_replicate | by constructor].
Qed.

Lemma used_entry_bytes n11 attr c :
  startable n11 → is_byte attr → attr ≠ ATTR_LFN → 0 <= c < 2 ^ 32 →
  used_entry (entry_bytes n11 attr c).
Proof.
  move=> [Hn [_ [??]]] Ha ? Hc. destruct (fat_dir_entry_bytes n11 attr c) as (_ & E & _); [done..|].
  split; [by apply zlen_entry_bytes|]. rw E /entry_bytes byte_at_app_l; [lia|done].
Qed.

Section add_entry.
Context `{Profile} (fs : Fat32FileSystem) (n p : Z) (V : volume fs n) (Hp : 2 <= p < n + 2).
Context (rs : list record) (tail : list (list Z)) (Hdir : directory fs p rs tail).
Context (rs1 rs2 : list record) (e : list Z) (tail' : list (list Z)).
Context (Hplace : free_place rs tail rs1 e rs2 tail').

Let idx := zlen (rs1 ≫= layout).

Lemma slot_chunks :
  chunks_exact 32 (cluster_data fs p) = (rs1 ≫= layout) ++ e :: (rs2 ≫= layout) ++ tail'.
Proof.
  destruct Hdir as [E [Hr Ht]]. destruct (free_place_chunks _ _ _ _ _ _ Hplace Hr Ht) as [<- _].
  exact E.
Qed.

Lemma slot_found : find_chunk free_slot (cluster_data fs p) = Some idx.
Proof.
  destruct Hdir as [_ [Hr Ht]].
  destruct (free_place_chunks _ _ _ _ _ _ Hplace Hr Ht) as (_ & Ho & Hf & _).
  eapply find_chunk_at; [apply slot_chunks| |done].
  eapply Forall_impl; [exact Ho|]. by move=> x [_ ?].
Qed.

Lemma slot_bounds : 0 <= idx ∧ (idx + 1) * 32 <= cluster_size fs.
Proof.
  split; [apply zlen_nonneg|]. rw -(zlen_cluster_data fs n V p Hp).
  by eapply chunk_bound, slot_chunks.
Qed.

(** Writing an entry into the slot turns it into a record. *)
Lemma slot_written x : used_entry x →
  directory (data_put p (idx * 32) x fs) p (rs1 ++ Short x :: rs2) tail'.
Proof.
  move=> Hx. have Hx32 := proj1 Hx. have ? := slot_bounds.
  destruct Hdir as [_ [Hr Ht]].
  destruct (free_place_chunks _ _ _ _ _ _ Hplace Hr Ht) as (_ & _ & _ & _ & ? & ? & ?).
  split; [|split; [by apply Forall_app; split; [|constructor]|done]].
  rw (cluster_data_put_same fs n V) //; [lia..|].
  rw (chunks_replace _ _ e x _ slot_chunks) //.
  by rw bind_app bind_cons -!app_assoc.
Qed.
End add_entry.

Section creation.
Context `{Profile} `{UnicodeCase}.

(** The parent directory, the slot and the cluster that a creation will use. *)
Record creation (fs : Fat32FileSystem) (n : Z) (path name : str) (n11 : list Z) (p c : Z)
    (rs : list record) (tail : list (list Z)) (rs1 : list record) (e : list Z)
    (rs2 : list record) (tail' : list (list Z)) : Prop := {
  cr_volume : volume fs n;
  cr_parent : 2 <= p < n + 2;
  cr_path : ∀ err, resolve_parent path err fs = Done (fs, Ok p);
  cr_name : format_to_8_3 name = Done (Ok n11);
  cr_start : startable n11;
  cr_free : first_free fs c;
  cr_bound : c < n + 2 ∧ c < 50000;
  cr_dir : directory fs p rs tail;
  cr_place : free_place rs tail rs1 e rs2 tail';
}.

Context (fs : Fat32FileSystem) (n : Z) (path name : str) (n11 : list Z) (p c : Z).
Context (rs : list record) (tail : list (list Z)) (rs1 : list record) (e : list Z).
Context (rs2 : list record) (tail' : list (list Z)).
Context (C : creation fs n path name n11 p c rs tail rs1 e rs2 tail').

Let idx := zlen (rs1 ≫= layout).

Lemma creation_cluster : 2 <= c < n + 2 ∧ 0 <= c < 2 ^ 32.
Proof. destruct C. have := proj1 cr_free0. lia. Qed.

Lemma directory_reserve : directory (reserve c fs) p rs tail.
Proof.
  have [? ?] := creation_cluster. destruct C. destruct cr_dir0 as [E ?]. split; [|done].
  rw (cluster_data_fat_put fs n) //. lia.
Qed.

Lemma create_file_ok :
  create_file path name fs =
    Done (data_put p (idx * 32) (entry_bytes n11 0x20 c) (reserve c fs), Ok tt).
Proof.
  have [? ?] := creation_cluster. have Hd := directory_reserve. destruct C.
  have V' : volume (reserve c fs) n by apply volume_fat_put; [done|lia].
  destruct cr_start0 as [Hn11 _]. destruct cr_bound0.
  have [? ?] := slot_bounds (reserve c fs) n p V' cr_parent0 rs tail Hd rs1 rs2 e tail' cr_place0.
  have Hf := slot_found (reserve c fs) p rs tail Hd rs1 rs2 e tail' cr_place0.
  rw /create_file (method_bind_ok _ _ _ _ _ (cr_path0 _)).
  erewrite method_bind_ok; [|by rw /short_name_of cr_name0].
  erewrite method_bind_ok; [|by apply allocate_cluster_ok with n].
  erewrite method_bind_ok; [|by apply reads_Done, (read_cluster_ok _ n)].
  erewrite method_bind_ok; [|by rw Hf].
  erewrite method_bind_ok; [|by apply reads_Done, new_entry_ok].
  apply updates_Done, (write_directory_entry_ok _ n); [done..|].
  by apply zlen_entry_bytes.
Qed.

Section mkdir_steps.
(** The parent directory is in use, hence not the new cluster. *)
Context (Hused : fat_get fs p ≠ 0).

Let fs1 := reserve c fs.
Let fs2 := data_put c 0 (dir_cluster fs1 c p) fs1.

Lemma mkdir_distinct : c ≠ p.
Proof. move=> E. destruct C. destruct cr_free0 as [_ [Hz _]]. by rw E in Hz. Qed.

Lemma mkdir_volumes : volume fs1 n ∧ volume fs2 n.
Proof.
  have [? ?] := creation_cluster. destruct C.
  have V1 : volume fs1 n by apply volume_fat_put; [done|lia]. split; [done|].
  apply volume_data_put; [done..| |].
  - rw (zlen_dir_cluster fs1 n V1). lia.
  - rw /dir_cluster /dot_entries. apply Forall_app; split; [|by apply Forall_replicate].
    apply Forall_app; split; by apply bytes_entry_bytes; [apply lit_bytes|].
Qed.

Lemma directory_fs2 : directory fs2 p rs tail.
Proof.
  have [? ?] := creation_cluster. have [V1 _] := mkdir_volumes. have ? := mkdir_distinct.
  destruct directory_reserve as [E Hrest]. destruct C. split; [|done].
  rw (cluster_data_put_other fs1 n V1) //. rw (zlen_dir_cluster fs1 n V1). lia.
Qed.

Lemma mkdir_ok :
  mkdir path name fs = Done (data_put p (idx * 32) (entry_bytes n11 0x10 c) fs2, Ok tt).
Proof.
  have [? ?] := creation_cluster. have Hd := directory_fs2. have [V1 V2] := mkdir_volumes.
  destruct C. destruct cr_start0 as [Hn11 _]. destruct cr_bound0.
  have ? : 0 <= p < 2 ^ 32 by have ? := volume_sectors fs n cr_volume0; destruct cr_volume0; nia.
  have [? ?] := slot_bounds fs2 n p V2 cr_parent0 rs tail Hd rs1 rs2 e tail' cr_place0.
  have Hf := slot_found fs2 p rs tail Hd rs1 rs2 e tail' cr_place0.
  rw /mkdir (method_bind_ok _ _ _ _ _ (cr_path0 _)).
  erewrite method_bind_ok; [|by apply allocate_cluster_ok with n].
  erewrite method_bind_ok; [|by apply updates_Done, (init_directory_cluster_ok _ n)].
  erewrite method_bind_ok; [|by rw /short_name_of cr_name0].
  erewrite method_bind_ok; [|by apply reads_Done, (read_cluster_ok _ n)].
  erewrite method_bind_ok; [|by rw Hf].
  erewrite method_bind_ok; [|by apply reads_Done, new_entry_ok].
  erewrite method_bind_ok.
  2: { apply reads_Done, (copy_into_middle _ 28 32 _ (n11 ++ [0x10] ++ replicate 8 0
         ++ u16_to_le (Z.shiftr c 16) ++ replicate 4 0 ++ u16_to_le (Z.land c 0xFFFF))
         (replicate 4 0) []); [by rw /entry_bytes -!app_assoc|len..]. }
  apply updates_Done. rw (write_directory_entry_ok _ n); [done..|len|].
  by rw /entry_bytes -!app_assoc.
Qed.
End mkdir_steps.
End creation.

Lemma free_place_infos rs tail rs1 e rs2 tail' :
  free_place rs tail rs1 e rs2 tail' → rs ≫= infos = (rs1 ≫= infos) ++ (rs2 ≫= infos).
Proof. case=> *; [by rw bind_app bind_cons|by rw app_nil_r]. Qed.

(** The listing of a new short entry. *)
Lemma infos_new_entry n11 attr c :
  zlen n11 = 11 → is_byte attr → Z.land attr 0x08 = 0 → 0 <= c < 2 ^ 32 →
  infos (Short (entry_bytes n11 attr c)) =
    [mkFileInfo (short_name_to_string n11) (negb (Z.land attr ATTR_DIRECTORY =? 0)) 0 c].
Proof.
  move=> Hn Ha Hl Hc. destruct (fat_dir_entry_bytes n11 attr c) as (E0 & E11 & _); [done..|].
  cbn [infos]. rw /is_label E11 Hl E0. by rw /= entry_info_new.
Qed.

Section creation_theorems.
Context `{Profile} `{UnicodeCase}.

(** The volume, the directory and the rest after a creation. *)
Lemma create_file_effect fs n path name n11 p c rs tail rs1 e rs2 tail' :
  creation fs n path name n11 p c rs tail rs1 e rs2 tail' →
  ∃ fs', create_file path name fs = Done (fs', Ok tt)
    ∧ volume fs' n ∧ root_cluster fs' = root_cluster fs ∧ cluster_size fs' = cluster_size fs
    ∧ directory fs' p (rs1 ++ Short (entry_bytes n11 0x20 c) :: rs2) tail'
    ∧ fat_get fs' c = 0x0FFFFFFF
    ∧ (∀ d, 0 <= d < n + 2 → d ≠ c → fat_get fs' d = fat_get fs d)
    ∧ (∀ d, 2 <= d < n + 2 → d ≠ p → cluster_data fs' d = cluster_data fs d).
Proof.
  move=> C. eexists. split; [by eapply create_file_ok|].
  have [Hc Hc32] := creation_cluster _ _ _ _ _ _ _ _ _ _ _ _ _ C.
  have Hd := directory_reserve _ _ _ _ _ _ _ _ _ _ _ _ _ C.
  destruct C as [V Hp _ _ Hs _ _ Hdir Hpl]. have [Hn11 [Hb _]] := Hs.
  have V' : volume (reserve c fs) n by apply volume_fat_put; [done|lia].
  have [? ?] := slot_bounds _ _ _ V' Hp _ _ Hd _ _ _ _ Hpl.
  set x := entry_bytes n11 0x20 c. have Hx : used_entry x by apply used_entry_bytes.
  have Hx32 := proj1 Hx. set fs' := data_put p _ x _.
  have V'' : volume fs' n.
  { apply volume_data_put; [done..|lia|rw Hx32; lia|by apply bytes_entry_bytes]. }
  do 3 (split; [done|]). split; [by apply (slot_written _ _ _ V' Hp _ _ Hd _ _ _ _ Hpl)|].
  split; [|split].
  - rw (fat_get_data_put _ _ V') //; [lia..|rw Hx32; lia|]. rw (fat_get_put_same fs n V) //. lia.
  - move=> d ??. rw (fat_get_data_put _ _ V') //; [lia..|rw Hx32; lia|].
    rw (fat_get_put_other fs n V) //. lia.
  - move=> d ??. rw (cluster_data_put_other _ _ V') //; [lia..|rw Hx32; lia|].
    rw (cluster_data_fat_put fs n V) //. lia.
Qed.

(** The listings before and after a creation. *)
Lemma creation_listings fs fs' n path name n11 p c rs tail rs1 e rs2 tail' attr :
  creation fs n path name n11 p c rs tail rs1 e rs2 tail' →
  volume fs' n → is_byte attr → Z.land attr 0x08 = 0 →
  directory fs' p (rs1 ++ Short (entry_bytes n11 attr c) :: rs2) tail' →
  list_directory_entries fs p = Done ((rs1 ≫= infos) ++ (rs2 ≫= infos))
  ∧ list_directory_entries fs' p =
      Done ((rs1 ≫= infos) ++
        mkFileInfo (short_name_to_string n11) (negb (Z.land attr ATTR_DIRECTORY =? 0)) 0 c
        :: (rs2 ≫= infos)).
Proof.
  move=> C V' ?? Hd. have [Hc Hc32] := creation_cluster _ _ _ _ _ _ _ _ _ _ _ _ _ C.
  destruct C as [V Hp _ _ [Hn11 _] _ _ Hdir Hpl]. split.
  - by rw (listing_records _ _ _ _ _ V Hp Hdir) (free_place_infos _ _ _ _ _ _ Hpl).
  - by rw (listing_records _ _ _ _ _ V' Hp Hd) bind_app bind_cons infos_new_entry.
Qed.

(** C7: On success, [create_file] inserts one record in the first free slot of
    the parent directory: the listing gains exactly the new empty file, whose
    cluster is the allocated one; no other cluster and no other FAT entry
    changes. *)
Theorem create_file_adds fs n path name n11 p c rs tail rs1 e rs2 tail' :
  creation fs n path name n11 p c rs tail rs1 e rs2 tail' →
  ∃ fs', create_file path name fs = Done (fs', Ok tt)
    ∧ list_directory_entries fs p = Done ((rs1 ≫= infos) ++ (rs2 ≫= infos))
    ∧ list_directory_entries fs' p =
        Done ((rs1 ≫= infos) ++ mkFileInfo (short_name_to_string n11) false 0 c :: (rs2 ≫= infos))
    ∧ fat_get fs' c = 0x0FFFFFFF
    ∧ (∀ d, 0 <= d < n + 2 → d ≠ c → fat_get fs' d = fat_get fs d)
    ∧ (∀ d, 2 <= d < n + 2 → d ≠ p → cluster_data fs' d = cluster_data fs d).
Proof.
  move=> C. destruct (create_file_effect _ _ _ _ _ _ _ _ _ _ _ _ _ C)
    as (fs' & E & V' & _ & _ & Hd & Hf & Ho & Hc). exists fs'. split; [done|].
  by destruct (creation_listings _ _ _ _ _ _ _ _ _ _ _ _ _ _ 0x20 C V') as [-> ->].
Qed.

(** Zeroed entries. *)
Lemma zeros_chunks k : Forall (λ e, zlen e = 32 ∧ byte_at e 0 = 0x00) (chunks_exact 32 (replicate k 0)).
Proof.
  apply Forall_lookup => i e Hi.
  have [-> Hb] := lookup_chunks_exact_Some 32 (replicate k 0) i e ltac:(lia) Hi.
  rw zlen_replicate in Hb. split; [rw zlen_sub; [lia..|rw zlen_replicate; lia|done]|].
  rw /byte_at lookup_sub; [lia..|]. by rw lookup_replicate_2; [lia|].
Qed.

Lemma zeros_end k : end_of_directory (chunks_exact 32 (replicate k 0)).
Proof. have := zeros_chunks k. by case: (chunks_exact 32 _) => [|e es] // /Forall_cons []. Qed.

(** The cluster of a new directory holds the records of itself and its parent. *)
Lemma dir_cluster_directory fs c p :
  0 <= c < 2 ^ 32 → 0 <= p < 2 ^ 32 → cluster_data fs c = dir_cluster fs c p →
  let pv := if p =? root_cluster fs then 0 else p in
  directory fs c [Short (entry_bytes (lit ".          ") 0x10 c);
                  Short (entry_bytes (lit "..         ") 0x10 pv)]
    (chunks_exact 32 (replicate (Z.to_nat (cluster_size fs) - 64) 0)).
Proof.
  move=> Hc32 Hp E pv. have Hpv : 0 <= pv < 2 ^ 32 by rw /pv; case_test.
  split; [|split; [|apply zeros_end]].
  - rw E /dir_cluster /dot_entries -/pv -app_assoc.
    by rw !chunks_exact_app; [done|by apply zlen_entry_bytes|done|by apply zlen_entry_bytes|].
  - repeat constructor; apply used_entry_bytes; try done; repeat split; try done; apply lit_bytes.
Qed.

(** It lists itself and its parent. *)
Lemma dir_cluster_listing fs n c p :
  volume fs n → 2 <= c < n + 2 → 0 <= c < 2 ^ 32 → 0 <= p < 2 ^ 32 →
  cluster_data fs c = dir_cluster fs c p →
  list_directory_entries fs c = Done
    [mkFileInfo (lit ".") true 0 c;
     mkFileInfo (lit "..") true 0 (if p =? root_cluster fs then 0 else p)].
Proof.
  move=> V Hc Hc32 Hp E. set pv := if p =? root_cluster fs then 0 else p.
  have Hpv : 0 <= pv < 2 ^ 32 by rw /pv; case_test.
  rw (listing_records fs n c _ _ V Hc (dir_cluster_directory fs c p Hc32 Hp E)).
  by rw bind_cons infos_new_entry // bind_cons infos_new_entry.
Qed.

Lemma mkdir_effect fs n path name n11 p c rs tail rs1 e rs2 tail' :
  creation fs n path name n11 p c rs tail rs1 e rs2 tail' → fat_get fs p ≠ 0 →
  ∃ fs', mkdir path name fs = Done (fs', Ok tt)
    ∧ volume fs' n ∧ root_cluster fs' = root_cluster fs ∧ cluster_size fs' = cluster_size fs
    ∧ directory fs' p (rs1 ++ Short (entry_bytes n11 0x10 c) :: rs2) tail'
    ∧ cluster_data fs' c = dir_cluster fs' c p
    ∧ fat_get fs' c = 0x0FFFFFFF
    ∧ (∀ d, 0 <= d < n + 2 → d ≠ c → fat_get fs' d = fat_get fs d)
    ∧ (∀ d, 2 <= d < n + 2 → d ≠ p → d ≠ c → cluster_data fs' d = cluster_data fs d).
Proof.
  move=> C Hu. eexists. split; [by eapply mkdir_ok|].
  have [Hc Hc32] := creation_cluster _ _ _ _ _ _ _ _ _ _ _ _ _ C.
  have Hd := directory_fs2 _ _ _ _ _ _ _ _ _ _ _ _ _ C Hu.
  have [V1 V2] := mkdir_volumes _ _ _ _ _ _ _ _ _ _ _ _ _ C.
  have Hne := mkdir_distinct _ _ _ _ _ _ _ _ _ _ _ _ _ C Hu.
  destruct C as [V Hp _ _ Hs _ _ Hdir Hpl]. have [Hn11 [Hb _]] := Hs.
  have Hp32 : 0 <= p < 2 ^ 32 by have ? := volume_sectors fs n V; destruct V; nia.
  have [? ?] := slot_bounds _ _ _ V2 Hp _ _ Hd _ _ _ _ Hpl.
  have Hz := zlen_dir_cluster (reserve c fs) n V1 c p.
  have ? := cluster_size_bounds _ _ V.
  set x := entry_bytes n11 0x10 c. have Hx : used_entry x by apply used_entry_bytes.
  have Hx32 := proj1 Hx. set fs' := data_put p _ x _.
  have V' : volume fs' n.
  { apply volume_data_put; [done..|lia|rw Hx32; lia|by apply bytes_entry_bytes]. }
  do 3 (split; [done|]). split; [by apply (slot_written _ _ _ V2 Hp _ _ Hd _ _ _ _ Hpl)|].
  split; [|split; [|split]].
  - rw (cluster_data_put_other _ _ V2) //; [lia|rw Hx32; lia|].
    rw (cluster_data_put_same _ _ V1) //; [rw Hz; done|].
    apply splice_all. by rw Hz (zlen_cluster_data _ _ V1).
  - rw (fat_get_data_put _ _ V2) //; [lia|lia|rw Hx32; lia|].
    rw (fat_get_data_put _ _ V1) //; [lia|rw Hz; done|]. rw (fat_get_put_same fs n V) //. lia.
  - move=> d ??. rw (fat_get_data_put _ _ V2) //; [lia|rw Hx32; lia|].
    rw (fat_get_data_put _ _ V1) //; [rw Hz; done|]. rw (fat_get_put_other fs n V) //. lia.
  - move=> d ???. rw (cluster_data_put_other _ _ V2) //; [lia|rw Hx32; lia|].
    rw (cluster_data_put_other _ _ V1) //; [by rw Hz|].
    rw (cluster_data_fat_put fs n V) //. lia.
Qed.

(** The listing of the new directory. *)
Lemma mkdir_listing fs fs' n path name n11 p c rs tail rs1 e rs2 tail' :
  creation fs n path name n11 p c rs tail rs1 e rs2 tail' → volume fs' n →
  cluster_data fs' c = dir_cluster fs' c p →
  list_directory_entries fs' c = Done
    [mkFileInfo (lit ".") true 0 c;
     mkFileInfo (lit "..") true 0 (if p =? root_cluster fs' then 0 else p)].
Proof.
  move=> C V' E. have [Hc Hc32] := creation_cluster _ _ _ _ _ _ _ _ _ _ _ _ _ C.
  destruct C as [V Hp _ _ _ _ _ _ _].
  apply (dir_cluster_listing fs' n c p V' Hc Hc32); [|done].
  have ? := volume_sectors fs n V. destruct V. nia.
Qed.

(** C8: On success, [mkdir] inserts one directory record in the first free
    slot of the parent, and the allocated cluster lists exactly [.], the
    directory itself, and [..], the parent, with 0 standing for the root; no
    other cluster and no other FAT entry changes. *)
Theorem mkdir_adds fs n path name n11 p c rs tail rs1 e rs2 tail' :
  creation fs n path name n11 p c rs tail rs1 e rs2 tail' → fat_get fs p ≠ 0 →
  ∃ fs', mkdir path name fs = Done (fs', Ok tt)
    ∧ list_directory_entries fs' p =
        Done ((rs1 ≫= infos) ++ mkFileInfo (short_name_to_string n11) true 0 c :: (rs2 ≫= infos))
    ∧ list_directory_entries fs' c = Done
        [mkFileInfo (lit ".") true 0 c;
         mkFileInfo (lit "..") true 0 (if p =? root_cluster fs then 0 else p)]
    ∧ fat_get fs' c = 0x0FFFFFFF
    ∧ (∀ d, 0 <= d < n + 2 → d ≠ c → fat_get fs' d = fat_get fs d)
    ∧ (∀ d, 2 <= d < n + 2 → d ≠ p → d ≠ c → cluster_data fs' d = cluster_data fs d).
Proof.
  move=> C Hu. destruct (mkdir_effect _ _ _ _ _ _ _ _ _ _ _ _ _ C Hu)
    as (fs' & E & V' & HR & _ & Hd & Hl & Hf & Ho & Hc). exists fs'. split; [done|].
  rw -HR (mkdir_listing _ _ _ _ _ _ _ _ _ _ _ _ _ _ C V' Hl).
  by destruct (creation_listings _ _ _ _ _ _ _ _ _ _ _ _ _ _ 0x10 C V') as [_ ->].
Qed.
End creation_theorems.
