(* ===== verification/WriteSpec.v ===== *)
(** * Correctness of writing

    What [write_file] and [update_file_size] do: the data of the file's first
    cluster and the size field of its directory entry change and nothing else,
    every path keeps its meaning, and what was written is what [read_file]
    returns. *)

From S2P Require Import Prelude Machine Str Volume DirEntry Names DirSpec Path Stability.
From S2P Require Import FileOps FileOpsSpec.

(** ** The parent of a path *)

Lemma rfind_Some c s i :
  rfind c s = Some i →
  0 <= i ∧ s = take (Z.to_nat i) s ++ c :: drop (Z.to_nat (i + 1)) s
  ∧ c ∉ drop (Z.to_nat (i + 1)) s.
Proof.
  elim: s i => [|b s IH] i //=. case E: (rfind c s) => [j|].
  - move=> [<-]. destruct (IH j E) as (? & Es & Hn).
    have -> : Z.to_nat (1 + j) = S (Z.to_nat j) by lia.
    have -> : Z.to_nat (1 + j + 1) = S (Z.to_nat (j + 1)) by lia.
    split; [lia|]. cbn [take drop app]. by rw -Es.
  - case_test; [|done]. move=> [<-]. split; [done|].
    change (Z.to_nat (0 + 1)) with 1%nat. cbn [drop]. rw drop_0.
    split; [by subst b|by apply rfind_None].
Qed.

Lemma split_path_parts path parent name :
  split_path path = (parent, name) →
  (slash ∉ name) ∧ path_parts path = path_parts parent ++ path_parts name.
Proof.
  rw /split_path. case E: (rfind slash path) => [i|] [<- <-].
  - apply rfind_Some in E as (_ & E & Hn). split; [done|].
    by rw -path_parts_join -E.
  - split; [by apply rfind_None|done].
Qed.

Lemma path_parts_name name : slash ∉ name → name ≠ [] → path_parts name = [name].
Proof. move=> ??. by rw /path_parts split_on_none // filter_cons_True. Qed.

Section parents.
Context `{Profile} `{UnicodeCase}.

(** The directory [p] that [update_file_size] finds for a parent path. *)
Inductive parent_dir (fs : Fat32FileSystem) (parent : str) : Z → Prop :=
  | parent_root : path_parts parent = [] → parent_dir fs parent (root_cluster fs)
  | parent_sub g :
      last (path_parts parent) ≠ Some (lit ".") →
      parse_path fs parent None = Done (Some g) → is_directory g = true →
      parent_dir fs parent (start_cluster g).

Lemma parse_path_root fs path :
  parse_path fs path None = walk_parts fs (path_parts path) (root_cluster fs).
Proof. rw /parse_path. by case: (_ || _). Qed.

Lemma walk_parts_last fs name c :
  name ≠ lit "." → name ≠ lit ".." →
  walk_parts fs [name] c = (files ← list_directory_entries fs c; Done (find_named name files)).
Proof.
  move=> ??. cbn [walk_parts is_empty].
  rw bool_decide_eq_false_2 // bool_decide_eq_false_2 //.
  case: (list_directory_entries fs c) => [files|p|] //. rw !bind_Done.
  by case: (find_named name files).
Qed.

(** A path resolves to what its parent directory lists under its last component. *)
Lemma parse_path_split fs path parent name p :
  split_path path = (parent, name) → name ≠ [] → name ≠ lit "." → name ≠ lit ".." →
  parent_dir fs parent p →
  parse_path fs path None =
    (files ← list_directory_entries fs p; Done (find_named name files)).
Proof.
  move=> /split_path_parts [Hs E] Hne ?? Hp. rw parse_path_root E (path_parts_name name Hs Hne).
  case: Hp => [->|g Hl Eg Ed]; [by rw app_nil_l walk_parts_last|].
  rw parse_path_root in Eg. rw walk_parts_app //.
  { by move=> Ep; rw Ep in Eg. }
  by rw Eg bind_Done Ed walk_parts_last.
Qed.

Lemma update_parent fs parent p :
  parent_dir fs parent p →
  (if is_empty parent || bool_decide (parent = lit "/") then Done (fs, Ok (root_cluster fs))
   else
     f ← parse_path fs parent None;
     Done (fs, Ok (default (root_cluster fs) (start_cluster <$> f))))
  = Done (fs, Ok p : result Z str).
Proof.
  case=> [E|g Hl Eg Ed].
  - case: (_ || _) => //. by rw parse_path_root E.
  - rw Eg. have Hne : path_parts parent ≠ [] by move=> Ep; rw parse_path_root Ep in Eg.
    case: parent Hne {Hl Eg} => [|b parent] Hne //=. case_bool_decide as Hb; [|done].
    by rw Hb in Hne.
Qed.

Lemma parent_dir_in fs n D parent p :
  volume fs n → tree fs n D → parent_dir fs parent p → p ∈ D.
Proof.
  move=> V T [E|g Hl Eg Ed]; [apply T|].
  destruct (parse_path_ok fs n D V T parent None) as [r [Er Hr]]; [done|].
  rw Eg in Er. injection Er as <-. by apply Hr.
Qed.

Lemma parent_dir_extends fs fs' n D parent p :
  volume fs n → volume fs' n → tree fs n D → extends D fs fs' →
  parent_dir fs parent p → parent_dir fs' parent p.
Proof.
  move=> V V' T X [E|g Hl Eg Ed]; [rw -(ext_root _ _ _ X); by constructor|].
  destruct (parse_path_extends fs fs' n D parent None g) as (g' & Eg' & _ & Hd & ->); [done..|].
  constructor; [done..|congruence].
Qed.
End parents.

(** ** The size field of an entry *)

Definition set_size (e : list Z) (size : Z) : list Z := splice 28 (u32_to_le size) e.

(** Overwriting part of a stretch of a list. *)
Lemma splice_within {A} i j m (s l : list A) :
  0 <= i → 0 <= j → j + zlen s <= m → i + m <= zlen l →
  splice (i + j) s l = splice i (splice j s (sub i m l)) l.
Proof.
  move=> ????. have ? := zlen_nonneg s. have Hm : zlen (sub i m l) = m by apply zlen_sub; lia.
  have Hz : zlen (splice j s (sub i m l)) = m by rw zlen_splice; lia.
  apply list_eq_lookup.
  { apply Nat2Z.inj. rw -/(zlen (splice (i + j) s l)) -/(zlen (splice i _ l)).
    rw !zlen_splice ?Hz; lia. }
  move=> k _. destruct (decide (i <= Z.of_nat k < i + m)).
  - rw (lookup_splice_in i) ?Hz; [lia..|].
    destruct (decide (i + j <= Z.of_nat k < i + j + zlen s)).
    + rw (lookup_splice_in (i + j)); [lia..|]. rw lookup_splice_in ?Hm; [lia..|]. f_equal. lia.
    + rw (lookup_splice_out (i + j)); [lia..|]. rw lookup_splice_out ?Hm; [lia..|].
      rw lookup_sub; [lia..|]. f_equal. lia.
  - rw !lookup_splice_out ?Hz; [lia..|done].
Qed.

Lemma byte_at_sub e i : 0 <= i → byte_at e i = default 0 (sub i 1 e !! 0%nat).
Proof. move=> ?. rw lookup_sub; [lia..|]. by rw Nat.add_0_r. Qed.

Section set_size.
Context (e : list Z) (size : Z) (He : zlen e = 32) (Hs : 0 <= size < 2 ^ 32).

Lemma zlen_set_size : zlen (set_size e size) = 32.
Proof. rw /set_size zlen_splice; [lia|len|done]. Qed.

(** Every other field is as before. *)
Lemma sub_set_size i k : 0 <= i → 0 <= k → i + k <= 28 → sub i k (set_size e size) = sub i k e.
Proof. move=> ???. rw /set_size sub_splice_disjoint //; len. Qed.

Lemma byte_at_set_size i : 0 <= i < 28 → byte_at (set_size e size) i = byte_at e i.
Proof. move=> ?. rw !byte_at_sub; [lia..|]. rw sub_set_size //; lia. Qed.

Lemma fat_dir_set_size :
  fat_dir (set_size e size) =
    mkFatDir (sub 0 11 e) (byte_at e 11) (from_le (sub 20 2 e)) (from_le (sub 26 2 e)) size.
Proof.
  rw /fat_dir (sub_set_size 0 11) // (sub_set_size 20 2) // (sub_set_size 26 2) //.
  rw byte_at_set_size //. f_equal.
  have := sub_splice_same 28 (u32_to_le size) e. rw zlen_to_le /set_size => ->; [lia..|].
  apply from_to_le. lia.
Qed.

Lemma used_set_size : used_entry e → used_entry (set_size e size).
Proof. move=> [_ ?]. split; [apply zlen_set_size|]. by rw !byte_at_set_size. Qed.

Lemma infos_set_size :
  infos (Short (set_size e size)) =
    (λ f, mkFileInfo (fi_name f) (is_directory f) size (start_cluster f)) <$> infos (Short e).
Proof.
  cbn [infos]. rw /is_label byte_at_set_size // sub_set_size //. case: (negb _) => //=.
  by rw /entry_info fat_dir_set_size.
Qed.
End set_size.

(** ** Writing a file *)

Section writing.
Context `{Profile} `{UnicodeCase}.

(** The file that [entry] describes under a short name. *)
Definition short_info (e : list Z) : FileInfo := entry_info (short_name_to_string (sub 0 11 e)) e.

(** [path] names the file of the short entry [e] of the directory [p], and
    nothing before that entry has the same name. *)
Record writable (fs : Fat32FileSystem) (n : Z) (D : gset Z) (path parent name : str) (p : Z)
    (rs1 : list record) (e : list Z) (rs2 : list record) (tail : list (list Z)) : Prop := {
  wr_volume : volume fs n;
  wr_tree : tree fs n D;
  wr_split : split_path path = (parent, name);
  wr_parent : parent_dir fs parent p;
  wr_dir : directory fs p (rs1 ++ Short e :: rs2) tail;
  wr_format : format_to_8_3 name = Done (Ok (sub 0 11 e));
  wr_shown : short_name_to_string (sub 0 11 e) = name;
  wr_first_entry : Forall (λ x, sub 0 11 x ≠ sub 0 11 e) (rs1 ≫= layout);
  wr_first_name : find_named name (rs1 ≫= infos) = None;
  wr_label : is_label e = false;
  wr_file : is_directory (short_info e) = false;
  wr_cluster : 2 <= start_cluster (short_info e) < n + 2;
  wr_data : start_cluster (short_info e) ∉ D;
}.

Lemma format_to_8_3_dots name n11 : format_to_8_3 name = Done (Ok n11) →
  name ≠ [] ∧ name ≠ lit "." ∧ name ≠ lit "..".
Proof. move=> E. split; [|split]; move=> Hn; by rw Hn in E. Qed.

Context (fs : Fat32FileSystem) (n : Z) (D : gset Z) (path parent name : str) (p : Z).
Context (rs1 : list record) (e : list Z) (rs2 : list record) (tail : list (list Z)).
Context (W : writable fs n D path parent name p rs1 e rs2 tail).

Let c := start_cluster (short_info e).
Let idx := zlen (rs1 ≫= layout).

Lemma writable_dir : p ∈ D ∧ 2 <= p < n + 2 ∧ p ≠ c.
Proof.
  destruct W. have ? : p ∈ D by eapply parent_dir_in. split; [done|].
  split; [by eapply tree_valid|]. by move=> ?; subst p.
Qed.

Lemma writable_listing :
  list_directory_entries fs p = Done ((rs1 ≫= infos) ++ short_info e :: (rs2 ≫= infos)).
Proof.
  have [_ [Hp _]] := writable_dir. destruct W.
  rw (listing_records _ _ _ _ _ wr_volume0 Hp wr_dir0) bind_app bind_cons. cbn [infos].
  by rw wr_label0.
Qed.

Lemma writable_resolved : parse_path fs path None = Done (Some (short_info e)).
Proof.
  have E := writable_listing. destruct W. destruct (format_to_8_3_dots _ _ wr_format0) as (?&?&?).
  rw (parse_path_split fs path parent name p) // E bind_Done find_named_app wr_first_name0.
  by rw find_named_cons bool_decide_eq_true_2.
Qed.

Lemma writable_chunks :
  chunks_exact 32 (cluster_data fs p) = (rs1 ≫= layout) ++ e :: (rs2 ≫= layout) ++ tail
  ∧ zlen e = 32 ∧ used_entry e ∧ 0 <= idx ∧ (idx + 1) * 32 <= cluster_size fs.
Proof.
  have [_ [Hp _]] := writable_dir. destruct W. destruct wr_dir0 as [E [Hr _]].
  apply Forall_app in Hr as [_ [Hr _]%Forall_cons].
  rw bind_app bind_cons -!app_assoc in E. split; [exact E|]. split; [apply Hr|].
  split; [done|]. split; [apply zlen_nonneg|]. rw -(zlen_cluster_data fs n wr_volume0 p Hp).
  by eapply chunk_bound, E.
Qed.

Section write.
Context (data : list Z) (Hdata : bytes data).

Let k := Z.min (zlen data) (cluster_size fs).
Let written := take (Z.to_nat (cluster_size fs)) data.
Let fs1 := data_put c 0 written fs.
Let fs2 := data_put p (idx * 32 + 28) (u32_to_le k) fs1.

Lemma written_size : zlen written = k ∧ 0 <= k < 2 ^ 32 ∧ k <= cluster_size fs.
Proof.
  destruct W. have ? := cluster_size_bounds _ _ wr_volume0. have ? := zlen_nonneg data.
  rw /written zlen_take /k. lia.
Qed.

Lemma written_volumes : volume fs1 n ∧ volume fs2 n.
Proof.
  have [Hz [? ?]] := written_size. have [_ [? _]] := writable_dir.
  have [_ [_ [_ [? ?]]]] := writable_chunks. destruct W.
  have V1 : volume fs1 n.
  { apply volume_data_put; [done..|rw Hz; lia|by apply Forall_take]. }
  split; [done|]. apply volume_data_put; [done..|lia|rw zlen_to_le cluster_size_set_disk; lia|].
  apply bytes_to_le.
Qed.

(** The directories before the size is updated. *)
Lemma written_dirs d : d ∈ D → cluster_data fs1 d = cluster_data fs d.
Proof.
  move=> Hd. have [Hz ?] := written_size. destruct W.
  apply (cluster_data_put_other fs n wr_volume0); [done|by eapply tree_valid| |done|rw Hz; lia].
  by move=> E; apply wr_data0; rw -E in Hd.
Qed.

Lemma written_extends : extends D fs fs1.
Proof.
  have [V1 _] := written_volumes. have E := writable_listing. have [Hp [Hp2 _]] := writable_dir.
  destruct W. eapply (extends_one D fs fs1 n p _ _ wr_volume0 V1); [|done| |exact E| |done].
  - apply wr_tree0.
  - move=> d Hd _. by apply written_dirs.
  - rw (list_directory_entries_frame fs fs1 n) //. by apply written_dirs.
Qed.

Lemma update_file_size_ok : update_file_size path k fs1 = Done (fs2, Ok tt).
Proof.
  have [V1 _] := written_volumes. have X := written_extends. have [HpD [Hp _]] := writable_dir.
  have [Ech [_ [_ [? ?]]]] := writable_chunks. destruct W.
  rw /update_file_size wr_split0.
  erewrite method_bind_ok; [|by eapply update_parent, parent_dir_extends].
  erewrite method_bind_ok; [|by rw /short_name_of wr_format0].
  erewrite method_bind_ok; [|by apply reads_Done, (read_cluster_ok _ n)].
  erewrite method_bind_ok.
  2: { rw written_dirs //. erewrite (find_chunk_at _ _ _ _ _ Ech); [done|done|done]. }
  by apply updates_Done, (write_size_ok _ n).
Qed.

Lemma write_file_ok : write_file path data fs = Done (fs2, Ok tt).
Proof.
  have Er := writable_resolved. have Eu := update_file_size_ok.
  have [Hz [? ?]] := written_size. destruct W.
  have ? := cluster_size_bounds _ _ wr_volume0.
  rw /write_file. erewrite method_bind_ok; [|by apply reads_Done].
  erewrite method_bind_ok; [|done]. rw wr_file0.
  erewrite method_bind_ok; [|apply reads_Done, arith_ok; rw -/(cluster_size fs); lia].
  rw -/(cluster_size fs) -/k.
  erewrite method_bind_ok; [|apply updates_Done, (write_data_ok _ n); [done..|lia|lia|done]].
  have -> : take (Z.to_nat k) data = written.
  { rw /written /k. destruct (decide (zlen data <= cluster_size fs)).
    - rw !take_ge //; zlia.
    - f_equal. lia. }
  by rw /as_u32 Z.mod_small.
Qed.

Lemma written_directory : directory fs2 p (rs1 ++ Short (set_size e k) :: rs2) tail.
Proof.
  have [V1 _] := written_volumes. have [HpD [Hp _]] := writable_dir.
  have [Hz [? ?]] := written_size.
  have [Ech [He [Hu [? ?]]]] := writable_chunks. destruct W.
  destruct wr_dir0 as [_ [Hr Ht]]. apply Forall_app in Hr as [? [? ?]%Forall_cons].
  split; [|split; [|done]].
  - rw (cluster_data_put_same fs1 n V1) //; [lia|rw zlen_to_le cluster_size_set_disk; lia|].
    rw written_dirs // (splice_within _ 28 32); [lia|lia|rw zlen_to_le; lia| |].
    { rw (zlen_cluster_data fs n) //. lia. }
    have El : chunks_exact 32 (cluster_data fs p) !! length (rs1 ≫= layout) = Some e
      by rw Ech list_lookup_middle.
    have [<- _] := lookup_chunks_exact_Some 32 _ _ _ ltac:(lia) El.
    rw -/(set_size e k) (chunks_replace _ _ e _ _ Ech); [by apply zlen_set_size|].
    by rw bind_app bind_cons -!app_assoc.
  - apply Forall_app; split; [done|]. constructor; [by apply used_set_size|done].
Qed.
End write.
End writing.

Section write_theorems.
Context `{Profile} `{UnicodeCase}.
Context (fs : Fat32FileSystem) (n : Z) (D : gset Z) (path parent name : str) (p : Z).
Context (rs1 : list record) (e : list Z) (rs2 : list record) (tail : list (list Z)).

Abbreviation c := (start_cluster (short_info e)).
Abbreviation written data := (take (Z.to_nat (cluster_size fs)) data).

(** What a write leaves behind, from its two updates. *)
Lemma write_file_effect data :
  writable fs n D path parent name p rs1 e rs2 tail → bytes data →
  ∃ fs', write_file path data fs = Done (fs', Ok tt)
    ∧ volume fs' n
    ∧ cluster_data fs' c = splice 0 (written data) (cluster_data fs c)
    ∧ directory fs' p (rs1 ++ Short (set_size e (zlen (written data))) :: rs2) tail
    ∧ (∀ d, 2 <= d < n + 2 → d ≠ c → d ≠ p → cluster_data fs' d = cluster_data fs d)
    ∧ (∀ d, 0 <= d < n + 2 → fat_get fs' d = fat_get fs d)
    ∧ extends D fs fs'.
Proof.
  move=> W Hd. eexists. split; [by eapply write_file_ok|].
  have [V1 V2] := written_volumes _ _ _ _ _ _ _ _ _ _ _ W data Hd.
  have [Hz [? ?]] := written_size _ _ _ _ _ _ _ _ _ _ _ W data.
  have Hdir := written_directory _ _ _ _ _ _ _ _ _ _ _ W data Hd.
  have X1 := written_extends _ _ _ _ _ _ _ _ _ _ _ W data Hd.
  have [HpD [Hp ?]] := writable_dir _ _ _ _ _ _ _ _ _ _ _ W.
  have [_ [He [_ [? ?]]]] := writable_chunks _ _ _ _ _ _ _ _ _ _ _ W.
  have Hf : zlen (rs1 ≫= layout) * 32 + 28 + zlen (u32_to_le (Z.min (zlen data) (cluster_size fs)))
    <= cluster_size (data_put c 0 (written data) fs) by rw zlen_to_le cluster_size_set_disk; lia.
  rw Hz. destruct W.
  split; [done|]. split; [|split; [done|]].
  { rw (cluster_data_put_other _ _ V1) //; [lia|]. rw (cluster_data_put_same fs n) //. rw Hz. lia. }
  split; [|split].
  - move=> d ???. rw (cluster_data_put_other _ _ V1); [done..|congruence|lia|done|].
    rw (cluster_data_put_other fs n); [done..|congruence|lia|rw Hz; lia|done].
  - move=> d ?. rw (fat_get_data_put _ _ V1) //; [lia|]. rw (fat_get_data_put fs n) //. rw Hz. lia.
  - eapply (extends_trans D _ _ _ n V1); [apply wr_tree0|exact X1|].
    eapply (extends_one D _ _ n p _ _ V1 V2 (tree_valid _ _ _ wr_tree0)); [done| | | |].
    + move=> d Hd' ?. have ? := tree_valid _ _ _ wr_tree0 d Hd'.
      rw (cluster_data_put_other _ _ V1) //. lia.
    + rw (list_directory_entries_frame fs _ n) //.
      { by eapply (written_dirs fs n D path parent name p rs1 e rs2 tail). }
      by rw (listing_records _ _ _ _ _ wr_volume0 Hp wr_dir0).
    + exact (listing_records _ _ _ _ _ V2 Hp Hdir).
    + rw !bind_app !bind_cons infos_set_size //. cbn [infos]. rw wr_label0. by apply names_kept_update.
Qed.

(** C3: Writing to a file whose name is its own 8.3 form (a short entry, the
    first of that name in its directory) stores the data, cut off at the end of
    its first cluster, at the start of that cluster, and records the length that
    was stored in the directory entry of the file; every other cluster, the rest
    of the directory and the FAT stay as they are, and every path resolves to
    the same file as before.  [write_file_long_name] is about other names. *)
Theorem write_file_spec data :
  writable fs n D path parent name p rs1 e rs2 tail → bytes data →
  ∃ fs', write_file path data fs = Done (fs', Ok tt)
    ∧ cluster_data fs' c = written data ++ drop (length (written data)) (cluster_data fs c)
    ∧ directory fs' p (rs1 ++ Short (set_size e (zlen (written data))) :: rs2) tail
    ∧ (∀ d, 2 <= d < n + 2 → d ≠ c → d ≠ p → cluster_data fs' d = cluster_data fs d)
    ∧ (∀ d, 0 <= d < n + 2 → fat_get fs' d = fat_get fs d)
    ∧ (∀ q f, parse_path fs q None = Done (Some f) →
         ∃ f', parse_path fs' q None = Done (Some f') ∧ same_file f f').
Proof.
  move=> W Hd. destruct (write_file_effect data W Hd) as (fs' & E & V' & Ec & Ed & Ho & Hf & X).
  exists fs'. split; [done|]. split; [by rw Ec|].
  do 3 (split; [done|]). move=> q f. by apply (parse_path_extends fs fs' n D); destruct W.
Qed.

(** The file as it is read back. *)
Lemma write_read data cs :
  writable fs n D path parent name p rs1 e rs2 tail → bytes data →
  fat_chain fs n c cs → from_utf8 (written data) ≠ None →
  ∃ fs', write_file path data fs = Done (fs', Ok tt)
    ∧ read_file (Z.to_nat n) fs' path None = Done (Ok (written data)).
Proof.
  move=> W Hd Hch Hu.
  have [Hz [? ?]] := written_size _ _ _ _ _ _ _ _ _ _ _ W data.
  destruct (write_file_effect data W Hd) as (fs' & E & V' & Ec & Ed & Ho & Hf & X).
  have [HpD [Hp ?]] := writable_dir _ _ _ _ _ _ _ _ _ _ _ W.
  have [_ [He _]] := writable_chunks _ _ _ _ _ _ _ _ _ _ _ W.
  exists fs'. split; [done|]. destruct W. destruct (format_to_8_3_dots _ _ wr_format0) as (?&?&?).
  pose f := mkFileInfo name false (zlen (written data)) c.
  have Ep : parse_path fs' path None = Done (Some f).
  { rw (parse_path_split fs' path parent name p) //.
    { by eapply (parent_dir_extends fs fs' n D). }
    rw (listing_records _ _ _ _ _ V' Hp Ed) bind_Done bind_app bind_cons find_named_app wr_first_name0.
    rw Hz infos_set_size //. cbn [infos]. rw wr_label0. cbn [fmap list_fmap app].
    rw find_named_cons bool_decide_eq_true_2 //. do 2 f_equal. rw /f -wr_file0 -Hz. by rw -{1}wr_shown0. }
  have Hch' : ∀ d ds, fat_chain fs n d ds → fat_chain fs' n d ds.
  { move=> d ds. elim=> {d ds} [d ??|d ds ??? IH]; constructor; try (rw Hf //; lia); done. }
  destruct (fat_chain_cons _ _ _ _ Hch) as [ds ->].
  rw /read_file Ep bind_Done. cbn [is_directory f]. rw (read_chain_ok fs' n V' _ _ (c :: ds)).
  { by apply Hch'. } { by eapply fat_chain_length, Hch. }
  rw bind_Done app_nil_l truncate_take. cbn [fi_size f fmap list_fmap concat]. rw Ec.
  have -> : take (Z.to_nat (zlen (written data)))
    (splice 0 (written data) (cluster_data fs c) ++ concat (cluster_data fs' <$> ds)) = written data.
  { rw /splice /= -app_assoc to_nat_zlen take_app_length //. }
  by rw /from_utf8 in Hu |- *; case: (utf8_decode _) Hu.
Qed.

(** C4: What is written to a file is what is read back: after a write of any
    text that fits into a cluster, reading the file returns that text; of a
    longer one the part that fits, if it is valid UTF-8. *)
Theorem write_read_roundtrip data cs :
  writable fs n D path parent name p rs1 e rs2 tail → bytes data →
  fat_chain fs n c cs → from_utf8 (written data) ≠ None →
  ∃ fs', write_file path data fs = Done (fs', Ok tt)
    ∧ read_file (Z.to_nat n) fs' path None = Done (Ok (written data)).
Proof. apply write_read. Qed.
End write_theorems.

(** ** Files without a short name of their own *)

Section long_names.
Context `{Profile} `{UnicodeCase}.

(** C10: Writing to a file that has no entry under the 8.3 form of its name, such
    as a file with a long name, fails half way: the data is stored in the first
    cluster of the file, up to the size of a cluster, and then the entry is not
    found and an error returned.  No directory and no FAT entry changes, so
    every path resolves as before and the file keeps its old size. *)
Theorem write_file_long_name fs n D path parent name p f n11 data :
  volume fs n → tree fs n D → split_path path = (parent, name) → parent_dir fs parent p →
  parse_path fs path None = Done (Some f) → is_directory f = false →
  2 <= start_cluster f < n + 2 → start_cluster f ∉ D → bytes data →
  format_to_8_3 name = Done (Ok n11) →
  Forall (λ x, sub 0 11 x ≠ n11) (chunks_exact 32 (cluster_data fs p)) →
  let stored := take (Z.to_nat (cluster_size fs)) data in
  ∃ fs', write_file path data fs = Done (fs', Err (lit "Entrée introuvable pour mise à jour"))
    ∧ cluster_data fs' (start_cluster f) = stored ++ drop (length stored) (cluster_data fs (start_cluster f))
    ∧ (∀ d, 2 <= d < n + 2 → d ≠ start_cluster f → cluster_data fs' d = cluster_data fs d)
    ∧ (∀ d, 0 <= d < n + 2 → fat_get fs' d = fat_get fs d)
    ∧ ∀ q cur, (∀ d, cur = Some d → d ∈ D) → parse_path fs' q cur = parse_path fs q cur.
Proof.
  move=> V T Es Hpar Ep Ef Hc HcD Hb En Hno stored. set c := start_cluster f in Hc HcD |- *.
  have ? := cluster_size_bounds _ _ V. have ? := zlen_nonneg data.
  set k := Z.min (zlen data) (cluster_size fs).
  have Hst : take (Z.to_nat k) data = stored ∧ zlen stored = k.
  { rw /stored zlen_take /k. split; [|lia]. destruct (decide (zlen data <= cluster_size fs)).
    - rw !take_ge //; zlia.
    - f_equal. lia. }
  destruct Hst as [Hst Hz]. have V' : volume (data_put c 0 stored fs) n.
  { apply volume_data_put; [done..|rw Hz; lia|by apply Forall_take]. }
  have Hsame : ∀ d, 2 <= d < n + 2 → d ≠ c → cluster_data (data_put c 0 stored fs) d = cluster_data fs d.
  { move=> d ??. apply (cluster_data_put_other fs n V); [done..|rw Hz; lia]. }
  have HsD : ∀ d, d ∈ D → cluster_data (data_put c 0 stored fs) d = cluster_data fs d.
  { move=> d Hd. apply Hsame; [by eapply tree_valid|]. by move=> ?; subst d. }
  have Hp := parent_dir_in fs n D parent p V T Hpar. have Hpv := tree_valid _ _ _ T p Hp.
  have Hframe := parse_path_frame fs (data_put c 0 stored fs) n D V V' T eq_refl HsD.
  have Hpar' : parent_dir (data_put c 0 stored fs) parent p.
  { destruct Hpar as [Hpar|g Hl Eg Ed]; [by apply (parent_root (data_put c 0 stored fs))|]. by econstructor; [|rw Hframe|]. }
  exists (data_put c 0 stored fs). split; [|split; [|split; [done|split; [|done]]]].
  - rw /write_file. erewrite method_bind_ok; [|by apply reads_Done].
    erewrite method_bind_ok; [|done]. rw Ef.
    erewrite method_bind_ok; [|apply reads_Done, arith_ok; rw -/(cluster_size fs); lia].
    rw -/(cluster_size fs) -/k.
    erewrite method_bind_ok; [|apply updates_Done, (write_data_ok _ n); [done..|lia|lia|lia]].
    rw Hst -/c /update_file_size Es.
    erewrite method_bind_ok; [|by apply update_parent].
    erewrite method_bind_ok; [|by rw /short_name_of En].
    erewrite method_bind_ok; [|by apply reads_Done, (read_cluster_ok _ n)].
    rw HsD // /find_chunk (proj2 (list_find_None _ _)) //.
  - rw (cluster_data_put_same fs n V) //. rw Hz. lia.
  - move=> d ?. apply (fat_get_data_put fs n V); [done|done|lia|rw Hz; lia].
Qed.
End long_names.
