(* ===== verification/CreateSpec.v ===== *)
(** * Creations and the directory tree

    [create_file] and [mkdir] under a fresh name keep the directory tree closed
    and every existing path valid, and make the new path resolve; a file that
    was created, written and read back has the text that was written.  The
    failing branches of both are stated with what they leave on the disk. *)

From S2P Require Import Prelude Machine Str Volume DirEntry Names DirSpec Path Stability.
From S2P Require Import FileOps FileOpsSpec WriteSpec.

(** ** The tree *)

Section grow.
Context `{Profile}.

(** The tree of [fs] with the clusters [N] added is the tree of [fs'] when a
    file that [fs'] lists in an old directory is one that [fs] listed there,
    or is plain, or leads into [N]. *)
Lemma tree_grow fs fs' n D N :
  volume fs n → tree fs n D → root_cluster fs' = root_cluster fs →
  (∀ c, c ∈ N → 2 <= c < n + 2) →
  (∀ c files files' f, c ∈ D → list_directory_entries fs c = Done files →
     list_directory_entries fs' c = Done files' → f ∈ files' →
     f ∈ files ∨ fi_name f ≠ lit ".." ∧ (is_directory f = true → start_cluster f ∈ N)) →
  (∀ c files' f, c ∈ N → list_directory_entries fs' c = Done files' → f ∈ files' →
     fi_name f = lit "." ∨ fi_name f = lit ".." ∧ (start_cluster f = 0 ∨ start_cluster f ∈ D)) →
  tree fs' n (D ∪ N).
Proof.
  move=> V T HR HN Hold Hnew. have Hv := tree_valid _ _ _ T. split.
  - rw HR. apply elem_of_union_l, T.
  - move=> c /elem_of_union [?|?]; auto.
  - move=> c files' f /elem_of_union [Hc|Hc] El Hf Hd H1 H2.
    + destruct (listing_total fs n c V (Hv c Hc)) as [files [E _]].
      destruct (Hold c files files' f Hc E El Hf) as [Hin|[_ Hs]].
      * apply elem_of_union_l. by eapply (tree_child _ _ _ T c files f).
      * apply elem_of_union_r. by apply Hs.
    + by destruct (Hnew c files' f Hc El Hf) as [?|[? _]].
  - move=> c files' f /elem_of_union [Hc|Hc] El Hf Hn.
    + destruct (listing_total fs n c V (Hv c Hc)) as [files [E _]].
      destruct (Hold c files files' f Hc E El Hf) as [Hin|[? _]]; [|done].
      destruct (tree_parent _ _ _ T c files f Hc E Hin Hn) as [?|?]; [by left|by right; apply elem_of_union_l].
    + destruct (Hnew c files' f Hc El Hf) as [Hdot|[_ Hs]]; [by rw Hdot in Hn|].
      destruct Hs as [?|?]; [by left|by right; apply elem_of_union_l].
Qed.
End grow.

(** ** Creating under a fresh name *)

Section fresh.
Context `{Profile} `{UnicodeCase}.

(** A creation in a directory of the tree, under a name that it does not list. *)
Record fresh_creation (fs : Fat32FileSystem) (n : Z) (D : gset Z) (path name : str)
    (n11 : list Z) (p c : Z) (rs : list record) (tail : list (list Z)) (rs1 : list record)
    (e : list Z) (rs2 : list record) (tail' : list (list Z)) : Prop := {
  fc_creation : creation fs n path name n11 p c rs tail rs1 e rs2 tail';
  fc_tree : tree fs n D;
  fc_used : ∀ d, d ∈ D → fat_get fs d ≠ 0;
  fc_parent : p ∈ D;
  fc_fresh : find_named (short_name_to_string n11) (rs ≫= infos) = None;
  fc_dots : short_name_to_string n11 ≠ lit "..";
}.

Context (fs fs' : Fat32FileSystem) (n : Z) (D : gset Z) (path name : str) (n11 : list Z) (p c : Z).
Context (rs : list record) (tail : list (list Z)) (rs1 : list record) (e : list Z).
Context (rs2 : list record) (tail' : list (list Z)) (attr : Z).
Context (F : fresh_creation fs n D path name n11 p c rs tail rs1 e rs2 tail').
Context (V' : volume fs' n) (HR : root_cluster fs' = root_cluster fs).
Context (Hattr : is_byte attr) (Hlabel : Z.land attr 0x08 = 0).
Context (Hdir : directory fs' p (rs1 ++ Short (entry_bytes n11 attr c) :: rs2) tail').
Context (Hsame : ∀ d, 2 <= d < n + 2 → d ≠ p → d ≠ c → cluster_data fs' d = cluster_data fs d).

Abbreviation new_file :=
  (mkFileInfo (short_name_to_string n11) (negb (Z.land attr ATTR_DIRECTORY =? 0)) 0 c).

Lemma fresh_cluster : c ∉ D.
Proof. destruct F. destruct fc_creation0. move=> /fc_used0. by destruct cr_free as [_ [-> _]]. Qed.

Lemma fresh_listings :
  list_directory_entries fs p = Done ((rs1 ≫= infos) ++ (rs2 ≫= infos))
  ∧ list_directory_entries fs' p = Done ((rs1 ≫= infos) ++ new_file :: (rs2 ≫= infos)).
Proof. destruct F. by eapply creation_listings. Qed.

Lemma fresh_kept : names_kept ((rs1 ≫= infos) ++ (rs2 ≫= infos))
  ((rs1 ≫= infos) ++ new_file :: (rs2 ≫= infos)).
Proof.
  destruct F. destruct fc_creation0. apply names_kept_insert.
  by rw -(free_place_infos _ _ _ _ _ _ cr_place).
Qed.

Lemma fresh_extends : extends D fs fs'.
Proof.
  have [E E'] := fresh_listings. have K := fresh_kept. have Hc := fresh_cluster. destruct F.
  destruct fc_creation0. eapply (extends_one D fs fs' n p _ _ cr_volume V'); [|done| |exact E|exact E'|done].
  { apply fc_tree0. }
  move=> d Hd ?. apply Hsame; [by eapply tree_valid|done|]. by move=> ?; subst d.
Qed.

Lemma fresh_found files : list_directory_entries fs' p = Done files →
  find_named (short_name_to_string n11) files = Some new_file.
Proof.
  have [_ ->] := fresh_listings. move=> [<-]. destruct F. destruct fc_creation0.
  rw (free_place_infos _ _ _ _ _ _ cr_place) find_named_app in fc_fresh0.
  rw find_named_app find_named_cons bool_decide_eq_true_2 //. by case: (find_named _ (rs1 ≫= infos)) fc_fresh0.
Qed.

(** The tree after the creation, with the clusters [N] of new directories. *)
Lemma fresh_tree (N : gset Z) :
  (∀ d, d ∈ N → d = c) → (is_directory new_file = true → c ∈ N) →
  (∀ d files' f, d ∈ N → list_directory_entries fs' d = Done files' → f ∈ files' →
     fi_name f = lit "." ∨ fi_name f = lit ".." ∧ (start_cluster f = 0 ∨ start_cluster f ∈ D)) →
  tree fs' n (D ∪ N).
Proof.
  move=> HN Hd Hnew. have [E E'] := fresh_listings. have Hc := fresh_cluster. destruct F.
  have [? _] := creation_cluster _ _ _ _ _ _ _ _ _ _ _ _ _ fc_creation0.
  destruct fc_creation0. apply (tree_grow fs); try done; [by move=> d /HN ->|].
  move=> d files files' f Hd' El El' Hf. destruct (decide (d = p)) as [->|].
  - rw E in El. rw E' in El'. injection El as <-. injection El' as <-.
    apply elem_of_app in Hf as [Hf|Hf]; [by left; apply elem_of_app; left|].
    apply elem_of_cons in Hf as [->|Hf]; [by right|by left; apply elem_of_app; right].
  - left. have Ev := list_directory_entries_frame fs fs' n d cr_volume V' (tree_valid _ _ _ fc_tree0 d Hd').
    rw Ev in El'; [|congruence]. apply Hsame; [by eapply tree_valid|done|]. by move=> ?; subst d.
Qed.
End fresh.

Section creation_paths.
Context `{Profile} `{UnicodeCase}.
Context (fs : Fat32FileSystem) (n : Z) (D : gset Z) (path name : str) (n11 : list Z) (p c : Z).
Context (rs : list record) (tail : list (list Z)) (rs1 : list record) (e : list Z).
Context (rs2 : list record) (tail' : list (list Z)).

Abbreviation fresh := (fresh_creation fs n D path name n11 p c rs tail rs1 e rs2 tail').
Abbreviation shown := (short_name_to_string n11).

(** The path of the new entry resolves to it. *)
Lemma new_path_resolves fs' attr q parent :
  fresh → volume fs' n → extends D fs fs' → is_byte attr → Z.land attr 0x08 = 0 →
  directory fs' p (rs1 ++ Short (entry_bytes n11 attr c) :: rs2) tail' →
  split_path q = (parent, shown) → shown ≠ [] → shown ≠ lit "." → parent_dir fs parent p →
  parse_path fs' q None =
    Done (Some (mkFileInfo shown (negb (Z.land attr ATTR_DIRECTORY =? 0)) 0 c)).
Proof.
  move=> F V' X Ha Hl Hd Hq H1 H2 Hp. have V := cr_volume _ _ _ _ _ _ _ _ _ _ _ _ _ (fc_creation _ _ _ _ _ _ _ _ _ _ _ _ _ _ F).
  rw (parse_path_split fs' q parent shown p) //; [by destruct F| |].
  { eapply (parent_dir_extends fs fs' n D); try done. by destruct F. }
  have [_ E'] := fresh_listings _ _ _ _ _ _ _ _ _ _ _ _ _ _ _ _ F V' Ha Hl Hd.
  rw E' bind_Done (fresh_found _ _ _ _ _ _ _ _ _ _ _ _ _ _ _ _ F V' Ha Hl Hd _ E') //.
Qed.

Lemma create_file_fresh :
  fresh →
  ∃ fs', create_file path name fs = Done (fs', Ok tt)
    ∧ volume fs' n ∧ cluster_size fs' = cluster_size fs
    ∧ directory fs' p (rs1 ++ Short (entry_bytes n11 0x20 c) :: rs2) tail'
    ∧ fat_get fs' c = 0x0FFFFFFF ∧ tree fs' n D ∧ extends D fs fs'.
Proof.
  move=> F. have C := fc_creation _ _ _ _ _ _ _ _ _ _ _ _ _ _ F.
  destruct (create_file_effect _ _ _ _ _ _ _ _ _ _ _ _ _ C)
    as (fs' & E & V' & HR & HS & Hd & Hf & Ho & Hc).
  exists fs'. do 5 (split; [done|]).
  have Hs : ∀ d, 2 <= d < n + 2 → d ≠ p → d ≠ c → cluster_data fs' d = cluster_data fs d by auto.
  split; [|by apply (fresh_extends fs fs' n D path name n11 p c rs tail rs1 e rs2 tail' 0x20)].
  rw -(right_id_L ∅ (∪) D).
  apply (fresh_tree fs fs' n D path name n11 p c rs tail rs1 e rs2 tail' 0x20); try done; set_solver.
Qed.

(** Creating a file under a fresh name keeps the directory tree closed,
    leaves every existing path resolving to the same file, and makes the new
    path resolve to the new empty file. *)
Lemma create_file_paths :
  fresh_creation fs n D path name n11 p c rs tail rs1 e rs2 tail' →
  ∃ fs', create_file path name fs = Done (fs', Ok tt)
    ∧ tree fs' n D
    ∧ (∀ q f, parse_path fs q None = Done (Some f) →
         ∃ f', parse_path fs' q None = Done (Some f') ∧ same_file f f')
    ∧ (∀ q parent, split_path q = (parent, shown) → shown ≠ [] → shown ≠ lit "." →
         parent_dir fs parent p →
         parse_path fs' q None = Done (Some (mkFileInfo shown false 0 c))).
Proof.
  move=> F. destruct (create_file_fresh F) as (fs' & E & V' & _ & Hd & _ & T' & X).
  exists fs'. split; [done|]. split; [done|]. split.
  - move=> q f. apply (parse_path_extends fs fs' n D) => //; by destruct F as [[]].
  - move=> q parent ????. by apply (new_path_resolves fs' 0x20 q parent).
Qed.

(** Creating a directory under a fresh name adds its cluster to the
    directory tree, which stays closed, leaves every existing path resolving
    to the same file, and makes the new path resolve to the new directory. *)
Lemma mkdir_paths :
  fresh_creation fs n D path name n11 p c rs tail rs1 e rs2 tail' →
  ∃ fs', mkdir path name fs = Done (fs', Ok tt)
    ∧ tree fs' n (D ∪ {[c]})
    ∧ (∀ q f, parse_path fs q None = Done (Some f) →
         ∃ f', parse_path fs' q None = Done (Some f') ∧ same_file f f')
    ∧ (∀ q parent, split_path q = (parent, shown) → shown ≠ [] → shown ≠ lit "." →
         parent_dir fs parent p →
         parse_path fs' q None = Done (Some (mkFileInfo shown true 0 c))).
Proof.
  move=> F. have C := fc_creation _ _ _ _ _ _ _ _ _ _ _ _ _ _ F.
  have Hp := fc_parent _ _ _ _ _ _ _ _ _ _ _ _ _ _ F.
  have T := fc_tree _ _ _ _ _ _ _ _ _ _ _ _ _ _ F.
  destruct (mkdir_effect _ _ _ _ _ _ _ _ _ _ _ _ _ C (fc_used _ _ _ _ _ _ _ _ _ _ _ _ _ _ F p Hp))
    as (fs' & E & V' & HR & _ & Hd & Hdata & _ & _ & Hs).
  have Hl := mkdir_listing _ _ _ _ _ _ _ _ _ _ _ _ _ _ C V' Hdata. rw HR in Hl.
  have X : extends D fs fs' by apply (fresh_extends fs fs' n D path name n11 p c rs tail rs1 e rs2 tail' 0x10).
  exists fs'. split; [done|]. split; [|split].
  - apply (fresh_tree fs fs' n D path name n11 p c rs tail rs1 e rs2 tail' 0x10); try done; [set_solver|set_solver|].
    move=> d files' f /elem_of_singleton ->. rw Hl => -[<-].
    move=> /elem_of_cons [->|/list_elem_of_singleton ->]; [by left|right].
    split; [done|]. cbn [start_cluster]. case_test; [by left|by right].
  - move=> q f. apply (parse_path_extends fs fs' n D) => //; by destruct C.
  - move=> q parent ????. by apply (new_path_resolves fs' 0x10 q parent).
Qed.
End creation_paths.

(** ** Creating, writing and reading *)

Section create_write_read.
Context `{Profile} `{UnicodeCase}.
Context (fs : Fat32FileSystem) (n : Z) (D : gset Z) (path name : str) (n11 : list Z) (p c : Z).
Context (rs : list record) (tail : list (list Z)) (rs1 : list record) (e : list Z).
Context (rs2 : list record) (tail' : list (list Z)).

Abbreviation fresh := (fresh_creation fs n D path name n11 p c rs tail rs1 e rs2 tail').

Lemma short_info_new : zlen n11 = 11 → 0 <= c < 2 ^ 32 →
  short_info (entry_bytes n11 0x20 c) = mkFileInfo (short_name_to_string n11) false 0 c.
Proof.
  move=> Hn Hc. rw /short_info entry_info_new //.
  by destruct (fat_dir_entry_bytes n11 0x20 c) as (-> & _).
Qed.

(** A file that has just been created can be written. *)
Lemma created_writable fs' q parent :
  fresh → volume fs' n → tree fs' n D → extends D fs fs' →
  directory fs' p (rs1 ++ Short (entry_bytes n11 0x20 c) :: rs2) tail' →
  short_name_to_string n11 = name → split_path q = (parent, name) → parent_dir fs parent p →
  Forall (λ x, sub 0 11 x ≠ n11) (rs1 ≫= layout) →
  writable fs' n D q parent name p rs1 (entry_bytes n11 0x20 c) rs2 tail'.
Proof.
  move=> F V' T' X Hd Hn Hq Hp Hfirst. have C := fc_creation _ _ _ _ _ _ _ _ _ _ _ _ _ _ F.
  have [Hc Hc32] := creation_cluster _ _ _ _ _ _ _ _ _ _ _ _ _ C.
  have HcD := fresh_cluster _ _ _ _ _ _ _ _ _ _ _ _ _ _ F.
  have [Hn11 _] := cr_start _ _ _ _ _ _ _ _ _ _ _ _ _ C.
  destruct (fat_dir_entry_bytes n11 0x20 c) as (E0 & E11 & _); [done..|].
  have Es := short_info_new Hn11 Hc32. destruct F, C.
  split; rw ?E0 ?Es //.
  - by eapply (parent_dir_extends fs fs' n D).
  - rw (free_place_infos _ _ _ _ _ _ cr_place) find_named_app Hn in fc_fresh0.
    by case: (find_named _ _) fc_fresh0.
  - by rw /is_label E11.
Qed.

Lemma created_read_back q parent data :
  fresh → short_name_to_string n11 = name → split_path q = (parent, name) →
  parent_dir fs parent p → Forall (λ x, sub 0 11 x ≠ n11) (rs1 ≫= layout) →
  bytes data → from_utf8 (take (Z.to_nat (cluster_size fs)) data) ≠ None →
  ∃ fs' fs'', create_file path name fs = Done (fs', Ok tt)
    ∧ write_file q data fs' = Done (fs'', Ok tt)
    ∧ read_file (Z.to_nat n) fs'' q None = Done (Ok (take (Z.to_nat (cluster_size fs)) data)).
Proof.
  move=> F Hn Hq Hp Hfirst Hb Hu. have C := fc_creation _ _ _ _ _ _ _ _ _ _ _ _ _ _ F.
  have [Hc Hc32] := creation_cluster _ _ _ _ _ _ _ _ _ _ _ _ _ C.
  have [Hn11 _] := cr_start _ _ _ _ _ _ _ _ _ _ _ _ _ C.
  destruct (create_file_fresh _ _ _ _ _ _ _ _ _ _ _ _ _ _ F) as (fs' & E & V' & HS & Hd & Hf & T' & X).
  have W : writable fs' n D q parent name p rs1 (entry_bytes n11 0x20 c) rs2 tail'
    by apply created_writable.
  have Hch : fat_chain fs' n c [c] by constructor; [done|rw Hf].
  rw -HS in Hu |- *.
  destruct (write_read _ _ _ _ _ _ _ _ _ _ _ data [c] W Hb) as (fs'' & Ew & Er); [by rw short_info_new|done|].
  by exists fs', fs''.
Qed.

(** A file created under a fresh name that is its own 8.3 form, then
    written, reads back as the text written, up to the size of a cluster. *)
Lemma create_write_read q parent data :
  fresh_creation fs n D path name n11 p c rs tail rs1 e rs2 tail' →
  short_name_to_string n11 = name → split_path q = (parent, name) →
  parent_dir fs parent p → Forall (λ x, sub 0 11 x ≠ n11) (rs1 ≫= layout) →
  bytes data → from_utf8 (take (Z.to_nat (cluster_size fs)) data) ≠ None →
  ∃ fs' fs'', create_file path name fs = Done (fs', Ok tt)
    ∧ write_file q data fs' = Done (fs'', Ok tt)
    ∧ read_file (Z.to_nat n) fs'' q None = Done (Ok (take (Z.to_nat (cluster_size fs)) data)).
Proof. apply created_read_back. Qed.
End create_write_read.

(** ** Failures *)

Section failures.
Context `{Profile} `{UnicodeCase}.

(** No cluster but [c] changed its FAT entry, and no data of the others. *)
Definition only_reserved (fs fs' : Fat32FileSystem) (n c : Z) : Prop :=
  fat_get fs' c = 0x0FFFFFFF
  ∧ (∀ d, 0 <= d < n + 2 → d ≠ c → fat_get fs' d = fat_get fs d)
  ∧ (∀ d, 2 <= d < n + 2 → d ≠ c → cluster_data fs' d = cluster_data fs d).

Lemma reserve_only fs n c : volume fs n → 2 <= c < n + 2 → only_reserved fs (reserve c fs) n c.
Proof.
  move=> V Hc. split; [by rw (fat_get_put_same fs n V) //; lia|].
  split; [move=> d ??; rw (fat_get_put_other fs n V) //; lia|].
  move=> d ??. rw (cluster_data_fat_put fs n V) //. lia.
Qed.

Lemma create_file_no_parent fs path name :
  path ≠ [] → path ≠ lit "/" → parse_path fs path None = Done None →
  create_file path name fs = Done (fs, Err (lit "Parent directory not found")).
Proof.
  move=> H1 H2 E. have Er : resolve_parent path (lit "Parent directory not found") fs =
    Done (fs, Err (lit "Parent directory not found")).
  { rw /resolve_parent E bool_decide_eq_false_2 //. by case: path H1 {H2 E}. }
  by rw /create_file (method_bind_err _ _ _ _ _ Er).
Qed.

(** A name without 8.3 form ends the operation. *)
Lemma short_name_bind_err {A} name msg (k : list Z → method Fat32FileSystem A) fs :
  format_to_8_3 name = Done (Err msg) →
  (short_name_of name ≫= k) fs = Done (fs, Err (lit "Invalid name")).
Proof.
  move=> En. rw format_to_8_3_eq in En. rw /mbind /method_bind /short_name_of format_to_8_3_eq.
  by case: (format_parts name) En => [[b x]|] //= [<-].
Qed.

Lemma create_file_bad_name fs path name p msg :
  resolve_parent path (lit "Parent directory not found") fs = Done (fs, Ok p) →
  format_to_8_3 name = Done (Err msg) →
  create_file path name fs = Done (fs, Err (lit "Invalid name")).
Proof.
  move=> Er En. by rw /create_file (method_bind_ok _ _ _ _ _ Er) (short_name_bind_err _ _ _ _ En).
Qed.

(** [create_file] checks its arguments before it touches the disk: with a
    parent path that does not resolve, or a name that has no 8.3 form, it
    returns an error and changes nothing. *)
Lemma create_file_rejects fs path name :
  (path ≠ [] → path ≠ lit "/" → parse_path fs path None = Done None →
     create_file path name fs = Done (fs, Err (lit "Parent directory not found")))
  ∧ (∀ p msg, resolve_parent path (lit "Parent directory not found") fs = Done (fs, Ok p) →
       format_to_8_3 name = Done (Err msg) →
       create_file path name fs = Done (fs, Err (lit "Invalid name"))).
Proof. split; [apply create_file_no_parent|apply create_file_bad_name]. Qed.

(** *** A cluster is reserved, and the operation fails *)

Section late.
Context (fs : Fat32FileSystem) (n : Z) (path name : str) (p c : Z).
Context (V : volume fs n) (Hp : 2 <= p < n + 2).
Context (Er : ∀ err, resolve_parent path err fs = Done (fs, Ok p)).
Context (Hf : first_free fs c) (Hn : c < n + 2) (Hmax : c < 50000).

Lemma late_cluster : 2 <= c < n + 2 ∧ volume (reserve c fs) n ∧ 0 <= p < 2 ^ 32.
Proof.
  have ? := proj1 Hf. split; [lia|]. split; [apply volume_fat_put; [done|lia]|].
  have ? := volume_sectors fs n V. destruct V. nia.
Qed.

Lemma reserve_data d : 2 <= d < n + 2 → cluster_data (reserve c fs) d = cluster_data fs d.
Proof. move=> ?. rw (cluster_data_fat_put fs n V) //. have := late_cluster. lia. Qed.

Lemma create_file_late n11 :
  format_to_8_3 name = Done (Ok n11) →
  Forall (λ x, ¬ free_slot x) (chunks_exact 32 (cluster_data fs p)) →
  create_file path name fs = Done (reserve c fs, Err (lit "No space in parent directory")).
Proof.
  move=> En Hfull. have [? [V' _]] := late_cluster.
  rw /create_file (method_bind_ok _ _ _ _ _ (Er _)).
  erewrite method_bind_ok; [|by rw /short_name_of En].
  erewrite method_bind_ok; [|by apply (allocate_cluster_ok fs n V)].
  erewrite method_bind_ok; [|by apply reads_Done, (read_cluster_ok _ n)].
  rw reserve_data // /find_chunk (proj2 (list_find_None _ _)) //.
Qed.

(** The volume after the cluster was initialised as a directory. *)
Definition orphan : Fat32FileSystem :=
  data_put c 0 (dir_cluster (reserve c fs) c p) (reserve c fs).

Lemma orphan_volume : volume orphan n.
Proof.
  have [? [V' Hp32]] := late_cluster. have ? : 0 <= c < 2 ^ 32 by lia.
  apply volume_data_put; [done..| |].
  - by rw (zlen_dir_cluster _ n V').
  - rw /dir_cluster /dot_entries. apply Forall_app; split; [|by apply Forall_replicate].
    apply Forall_app; split; by apply bytes_entry_bytes; [apply lit_bytes|].
Qed.

Lemma orphan_only : only_reserved fs orphan n c ∧ cluster_data orphan c = dir_cluster fs c p.
Proof.
  have [? [V' _]] := late_cluster. have Hz := zlen_dir_cluster (reserve c fs) n V' c p.
  have [H1 [H2 H3]] := reserve_only fs n c V ltac:(lia). split; [split; [|split]|].
  - by rw (fat_get_data_put _ _ V') ?Hz //; lia.
  - move=> d ??. rw (fat_get_data_put _ _ V') ?Hz //. by apply H2.
  - move=> d ??. rw (cluster_data_put_other _ _ V') ?Hz //; [lia..|]. by apply H3.
  - rw (cluster_data_put_same _ _ V') ?Hz //. apply splice_all. by rw Hz (zlen_cluster_data _ _ V').
Qed.

Lemma mkdir_bad_name_late msg :
  format_to_8_3 name = Done (Err msg) →
  mkdir path name fs = Done (orphan, Err (lit "Invalid name")).
Proof.
  move=> En. have [? [V' Hp32]] := late_cluster.
  rw /mkdir (method_bind_ok _ _ _ _ _ (Er _)).
  erewrite method_bind_ok; [|by apply (allocate_cluster_ok fs n V)].
  erewrite method_bind_ok; [|apply updates_Done, (init_directory_cluster_ok _ n); [done..|lia]].
  by rw (short_name_bind_err _ _ _ _ En).
Qed.

Lemma mkdir_no_space_late n11 :
  c ≠ p → format_to_8_3 name = Done (Ok n11) →
  Forall (λ x, ¬ free_slot x) (chunks_exact 32 (cluster_data fs p)) →
  mkdir path name fs = Done (orphan, Err (lit "No space in parent directory")).
Proof.
  move=> Hne En Hfull. have [? [V' Hp32]] := late_cluster.
  rw /mkdir (method_bind_ok _ _ _ _ _ (Er _)).
  erewrite method_bind_ok; [|by apply (allocate_cluster_ok fs n V)].
  erewrite method_bind_ok; [|apply updates_Done, (init_directory_cluster_ok _ n); [done..|lia]].
  erewrite method_bind_ok; [|by rw /short_name_of En].
  erewrite method_bind_ok; [|apply reads_Done, (read_cluster_ok _ n); [apply orphan_volume|done]].
  destruct orphan_only as [[_ [_ Hd]] _].
  rw -/orphan Hd // /find_chunk (proj2 (list_find_None _ _)) //.
Qed.
End late.

(** C35: When the parent directory has no free slot, [create_file] fails only
    after it has reserved a cluster: the cluster stays marked in the FAT
    although nothing refers to it. *)
Theorem create_file_no_space_leaks fs n path name n11 p c :
  volume fs n → 2 <= p < n + 2 → (∀ err, resolve_parent path err fs = Done (fs, Ok p)) →
  format_to_8_3 name = Done (Ok n11) → first_free fs c → c < n + 2 → c < 50000 →
  Forall (λ x, ¬ free_slot x) (chunks_exact 32 (cluster_data fs p)) →
  ∃ fs', create_file path name fs = Done (fs', Err (lit "No space in parent directory"))
    ∧ only_reserved fs fs' n c ∧ cluster_data fs' c = cluster_data fs c.
Proof.
  move=> V Hp Er En Hf ?? Hfull. have Hc := proj1 Hf. exists (reserve c fs).
  split; [by eapply create_file_late|]. split; [by apply reserve_only|by eapply reserve_data].
Qed.

(** C36: [mkdir] validates the name only after it has reserved and initialised
    a cluster: with a name that has no 8.3 form it returns an error, no cluster
    but that one changes, and the cluster stays reserved and holds a directory
    that no path leads to: the directories of the tree are the same as before
    and every path resolves as before, never to a directory in that cluster. *)
Theorem mkdir_bad_name_leaks fs n D path name msg p c :
  volume fs n → tree fs n D → (∀ d, d ∈ D → fat_get fs d ≠ 0) → p ∈ D →
  (∀ err, resolve_parent path err fs = Done (fs, Ok p)) →
  format_to_8_3 name = Done (Err msg) → first_free fs c → c < n + 2 → c < 50000 →
  ∃ fs', mkdir path name fs = Done (fs', Err (lit "Invalid name"))
    ∧ only_reserved fs fs' n c ∧ cluster_data fs' c = dir_cluster fs c p
    ∧ tree fs' n D
    ∧ ∀ q cur, (∀ d, cur = Some d → d ∈ D) →
        parse_path fs' q cur = parse_path fs q cur
        ∧ ∀ f, parse_path fs' q cur = Done (Some f) → is_directory f = true → start_cluster f ≠ c.
Proof.
  move=> V T HU HpD Er En Hf ??. have Hp := tree_valid _ _ _ T p HpD. exists (orphan fs p c).
  have V' := orphan_volume fs n p c V Hp Hf ltac:(done) ltac:(done).
  destruct (orphan_only fs n p c V Hp Hf) as [Ho Hd]; [done|].
  have HcD : c ∉ D by move=> Hc; apply (HU c Hc), Hf.
  have Hsame : ∀ d, d ∈ D → cluster_data (orphan fs p c) d = cluster_data fs d.
  { move=> d Hin. apply Ho; [by eapply tree_valid|]. by move=> ?; subst d. }
  have HR : root_cluster (orphan fs p c) = root_cluster fs by [].
  split; [by eapply mkdir_bad_name_late|]. do 2 (split; [done|]).
  have T' := tree_frame fs _ n D V V' T HR Hsame. split; [done|].
  move=> q cur Hcur. split; [by apply (parse_path_frame fs _ n D)|].
  move=> f Ef Edir Ec. destruct (parse_path_ok _ n D V' T' q cur Hcur) as [r [Er' Hr]].
  rw Ef in Er'. injection Er' as <-. apply HcD. rw -Ec. by apply Hr.
Qed.
End failures.
