(* ===== verification/FsModel.v ===== *)
(** * The file system as its callers see it

    An abstract specification of the file system, without disk, FAT or
    directory entries: directories are lists of named links, a link leads to a
    directory or to a file and its content.  [resolve] is the meaning of a
    path, [fetch] that of reading a file, and the relation [astep] states what
    each mutating operation of [src/src/file_system.rs] may reply and how it
    changes the state.  [allowed] is what an operation asks of its caller. *)

From S2P Require Import Prelude Machine Str Names Path FileOps FileOpsSpec.

(** ** State *)

(** What a link leads to; files and directories have inode numbers. *)
Inductive node :=
  | NDir (ino : Z)
  | NFile (ino : Z) (content : list Z).

Record link := mkLink { ln_name : str; ln_node : node }.

(** A directory: its parent (the root has none), its links in order and the
    number of links that can still be added. *)
Record dir := mkDir { ad_parent : option Z; ad_links : list link; ad_room : nat }.

(** A file system: the root, the largest size a write can give to a file, the
    number of free clusters and the directories. *)
Record afs := mkAfs { a_root : Z; a_limit : Z; a_free : nat; a_dirs : gmap Z dir }.

#[global] Instance node_eq_dec : EqDecision node.
Proof. solve_decision. Defined.

#[global] Instance link_eq_dec : EqDecision link.
Proof. solve_decision. Defined.

(** ** Paths *)

Fixpoint find_link (name : str) (ls : list link) : option node :=
  match ls with
  | [] => None
  | l :: ls => if bool_decide (ln_name l = name) then Some (ln_node l) else find_link name ls
  end.

(** Where one component of a path leads. *)
Definition component (name : str) (d : dir) : option node :=
  if bool_decide (name = lit "..") then NDir <$> ad_parent d else find_link name (ad_links d).

(** Following the components of a path; a path that ends in ["."] leads
    nowhere. *)
Fixpoint follow (A : afs) (parts : list str) (c : Z) : option node :=
  match parts with
  | [] => None
  | part :: rest =>
      if bool_decide (part = lit ".") then follow A rest c
      else
        d ← a_dirs A !! c;
        nd ← component part d;
        if is_empty rest then Some nd
        else match nd with NDir c => follow A rest c | NFile _ _ => None end
  end.

Definition resolve (A : afs) (path : str) (cur : option Z) : option node :=
  let from :=
    if starts_with (lit "/") path || is_empty path then a_root A else default (a_root A) cur in
  follow A (path_parts path) from.

(** Reading a file. *)
Definition fetch (A : afs) (path : str) (cur : option Z) : result str str :=
  match resolve A path cur with
  | None => Err (lit "File not found")
  | Some (NDir _) => Err (lit "Not a file")
  | Some (NFile _ s) =>
      match from_utf8 s with Some t => Ok t | None => Err (lit "Invalid UTF-8 content") end
  end.

(** Where a creation takes place. *)
Definition target (A : afs) (path : str) : option node :=
  if is_empty path || bool_decide (path = lit "/") then Some (NDir (a_root A))
  else resolve A path None.

(** ** Names *)

(** The characters a new name may have. *)
Definition name_char (b : Z) : Prop := 33 <= b < 127 ∧ b ≠ slash.

(** The name a new link gets: in upper case, at most eight characters before
    the dot and at most three behind it; without a first part it gets none. *)
Definition canon (name : str) : option str :=
  match split_on dot name with
  | [] | [] :: _ => None
  | base :: rest =>
      Some (sfn_text (take 8 (ascii_upper <$> base))
                     (take 3 (ascii_upper <$> default [] (head rest))))
  end.

(** ** Operations *)

(** One cluster less is free. *)
Definition take_cluster (A : afs) : afs :=
  mkAfs (a_root A) (a_limit A) (pred (a_free A)) (a_dirs A).

Definition put_dir (c : Z) (d : dir) (A : afs) : afs :=
  mkAfs (a_root A) (a_limit A) (a_free A) (<[c := d]> (a_dirs A)).

(** The directory [d] with a link inserted between [l1] and [l2]. *)
Definition with_link (d : dir) (l1 : list link) (l : link) (l2 : list link) : dir :=
  mkDir (ad_parent d) (l1 ++ l :: l2) (pred (ad_room d)).

Definition with_links (d : dir) (ls : list link) : dir :=
  mkDir (ad_parent d) ls (ad_room d).

Definition ino_of (nd : node) : Z :=
  match nd with NDir c | NFile c _ => c end.

(** [c] is no inode yet. *)
Definition fresh_ino (A : afs) (c : Z) : Prop :=
  a_dirs A !! c = None
  ∧ ∀ d ls l, a_dirs A !! d = Some ls → l ∈ ad_links ls → ino_of (ln_node l) ≠ c.

(** A new directory has room for all entries of a cluster but two. *)
Definition empty_dir (A : afs) (parent : Z) : dir :=
  mkDir (Some parent) [] (Z.to_nat (a_limit A / 32) - 2).

(** Where a creation can go: a directory, its links cut in two and the name
    of the new link. *)
Definition place (A : afs) (path name : str) (p : Z) (d : dir) (l1 l2 : list link) (s : str) : Prop :=
  target A path = Some (NDir p) ∧ a_dirs A !! p = Some d ∧ ad_links d = l1 ++ l2
  ∧ (0 < ad_room d)%nat ∧ canon name = Some s.

(** The directory of [path] is full. *)
Definition crowded (A : afs) (path name : str) : Prop :=
  ∃ p d, target A path = Some (NDir p) ∧ a_dirs A !! p = Some d ∧ ad_room d = O
    ∧ canon name ≠ None.

Inductive astep (A : afs) : fs_op → result unit str → afs → Prop :=
  | create_no_parent path name :
      target A path = None →
      astep A (CreateFile path name) (Err (lit "Parent directory not found")) A
  | create_bad_name path name p :
      target A path = Some (NDir p) → canon name = None →
      astep A (CreateFile path name) (Err (lit "Invalid name")) A
  | create_full path name :
      crowded A path name →
      astep A (CreateFile path name) (Err (lit "No space in parent directory")) (take_cluster A)
  | create_done path name p d l1 l2 s c :
      place A path name p d l1 l2 s → fresh_ino A c →
      astep A (CreateFile path name) (Ok tt)
        (put_dir p (with_link d l1 (mkLink s (NFile c [])) l2) (take_cluster A))
  | mkdir_no_parent path name :
      target A path = None →
      astep A (Mkdir path name) (Err (lit "Parent path not found")) A
  | mkdir_bad_name path name p :
      target A path = Some (NDir p) → canon name = None →
      astep A (Mkdir path name) (Err (lit "Invalid name")) (take_cluster A)
  | mkdir_full path name :
      crowded A path name →
      astep A (Mkdir path name) (Err (lit "No space in parent directory")) (take_cluster A)
  | mkdir_done path name p d l1 l2 s c :
      place A path name p d l1 l2 s → fresh_ino A c →
      astep A (Mkdir path name) (Ok tt)
        (put_dir p (with_link d l1 (mkLink s (NDir c)) l2) (put_dir c (empty_dir A p) (take_cluster A)))
  | write_no_file path data :
      resolve A path None = None →
      astep A (WriteFile path data) (Err (lit "Fichier non trouvé")) A
  | write_directory path data c :
      resolve A path None = Some (NDir c) →
      astep A (WriteFile path data) (Err (lit "Impossible d'écrire dans un répertoire")) A
  | write_done path data parent name p d l1 i old l2 :
      split_path path = (parent, name) → resolve A path None = Some (NFile i old) →
      a_dirs A !! p = Some d → ad_links d = l1 ++ mkLink name (NFile i old) :: l2 →
      find_link name l1 = None →
      astep A (WriteFile path data) (Ok tt)
        (put_dir p (with_links d (l1 ++ mkLink name (NFile i (take (Z.to_nat (a_limit A)) data)) :: l2)) A).

(** What the operations ask of their caller: a new name is printable and goes
    into a directory, a cluster is free, and the path of a file to write ends
    in a name whose directory is not spelled with a trailing ["."]. *)
Definition allowed (A : afs) (o : fs_op) : Prop :=
  match o with
  | CreateFile path name | Mkdir path name =>
      match target A path with
      | None => True
      | Some (NFile _ _) => False
      | Some (NDir _) => Forall name_char name ∧ (0 < a_free A)%nat
      end
  | WriteFile path data =>
      bytes data ∧ (split_path path).2 ≠ []
      ∧ last (path_parts (split_path path).1) ≠ Some (lit ".")
  end.

(** ** Facts *)

Lemma find_link_app name l1 l2 :
  find_link name (l1 ++ l2) =
    match find_link name l1 with Some nd => Some nd | None => find_link name l2 end.
Proof. elim: l1 => [|l l1 IH] //=. by case_bool_decide. Qed.

Lemma find_link_Some name ls nd : find_link name ls = Some nd → mkLink name nd ∈ ls.
Proof.
  elim: ls => [|[x y] ls IH] //=. case_bool_decide; [|by move=> /IH; apply list_elem_of_further].
  simpl in *. subst. move=> [->]. by apply list_elem_of_here.
Qed.

(** The specification is deterministic in its replies: only the inode and the
    position of a new link are left open. *)
Lemma crowded_place A path name p d l1 l2 s :
  crowded A path name → place A path name p d l1 l2 s → False.
Proof.
  move=> [q [d' [Et [Ed [Er _]]]]] [Et' [Ed' [_ [Hr _]]]]. rw Et in Et'.
  injection Et' as <-. rw Ed in Ed'. injection Ed' as <-. lia.
Qed.

Lemma astep_reply A o r1 A1 r2 A2 : astep A o r1 A1 → astep A o r2 A2 → r1 = r2.
Proof.
  move=> H1 H2. inversion H1; subst; inversion H2; subst => //;
    try (exfalso; by eapply crowded_place);
    unfold crowded, place in *; naive_solver.
Qed.

(** ** What operations leave alone *)

(** The node [nd] after [new] was written to the file [i]. *)
Definition replace (i : Z) (new : list Z) (nd : node) : node :=
  match nd with
  | NFile j s => NFile j (if j =? i then new else s)
  | NDir c => NDir c
  end.

Definition replace_link (i : Z) (new : list Z) (l : link) : link :=
  mkLink (ln_name l) (replace i new (ln_node l)).

Definition replace_dir (i : Z) (new : list Z) (d : dir) : dir :=
  with_links d (replace_link i new <$> ad_links d).

Lemma find_link_replace i new name ls :
  find_link name (replace_link i new <$> ls) = replace i new <$> find_link name ls.
Proof. elim: ls => [|l ls IH] //=. by case_bool_decide. Qed.

(** Replacing the content of a file everywhere commutes with resolution. *)
Lemma follow_replace A A' i new parts c :
  a_dirs A' = replace_dir i new <$> a_dirs A →
  follow A' parts c = replace i new <$> follow A parts c.
Proof.
  move=> E. elim: parts c => [|part rest IH] c //=. case_bool_decide; [apply IH|].
  rw E lookup_fmap. case: (a_dirs A !! c) => [d|] //=. rw /component /= find_link_replace.
  have Hc : ∀ nd : option node, (nd' ← replace i new <$> nd;
      if is_empty rest then Some nd' else match nd' with NDir c => follow A' rest c | NFile _ _ => None end)
    = replace i new <$> (nd' ← nd;
      if is_empty rest then Some nd' else match nd' with NDir c => follow A rest c | NFile _ _ => None end).
  { move=> [[d'|j s]|] //=; case: (is_empty rest) => //=. }
  case_bool_decide; [|apply Hc]. rw -Hc. by case: (ad_parent d).
Qed.

Lemma resolve_replace A A' i new path cur :
  a_root A' = a_root A → a_dirs A' = replace_dir i new <$> a_dirs A →
  resolve A' path cur = replace i new <$> resolve A path cur.
Proof. move=> HR E. rw /resolve HR. by apply follow_replace. Qed.

(** Links that are not the file [i]. *)
Definition other_links (i : Z) (ls : list link) : Prop :=
  ∀ l s, l ∈ ls → ln_node l ≠ NFile i s.

Lemma replace_other i new ls : other_links i ls → replace_link i new <$> ls = ls.
Proof.
  elim: ls => [|l ls IH] // Ho. rw fmap_cons IH; [by move=> l' s Hl'; apply Ho, list_elem_of_further|].
  f_equal. have Hl := λ s, Ho l s (list_elem_of_here _ _).
  case: l Ho Hl => name [c|j s] // _ Hl. rw /replace_link /=. case_test; [|done].
  subst. by case: (Hl s).
Qed.

(** An update that keeps the links of every directory up to an insertion under
    a new name. *)
Definition grows (d d' : dir) : Prop :=
  ad_parent d' = ad_parent d
  ∧ ∀ name nd, find_link name (ad_links d) = Some nd → find_link name (ad_links d') = Some nd.

Lemma grows_refl d : grows d d.
Proof. done. Qed.

Lemma dir_grows_insert d l1 l l2 : ad_links d = l1 ++ l2 →
  find_link (ln_name l) (ad_links d) = None → grows d (with_link d l1 l l2).
Proof.
  move=> E Hn. split; [done|]. move=> name nd. cbn [with_link ad_links]. rw E in Hn |- *.
  rw !find_link_app in Hn |- *. case: (find_link name l1) => [x|] //= Hf.
  case_bool_decide; [|done]. subst name. move: Hn. rw Hf. by case: (find_link _ l1).
Qed.

Lemma follow_grows A A' parts c nd :
  (∀ c d, a_dirs A !! c = Some d → ∃ d', a_dirs A' !! c = Some d' ∧ grows d d') →
  follow A parts c = Some nd → follow A' parts c = Some nd.
Proof.
  move=> HA. elim: parts c => [|part rest IH] c //=. case_bool_decide; [apply IH|].
  case E: (a_dirs A !! c) => [d|] //=. destruct (HA c d E) as (d' & -> & Hp & Hl). cbn.
  case Ec: (component part d) => [x|] //=.
  have -> : component part d' = Some x.
  { move: Ec. rw /component Hp. case_bool_decide; [done|apply Hl]. }
  cbn. case: (is_empty rest) => //. case: x {Ec} => [c'|] //. apply IH.
Qed.

(** The name that a creation would add is not there yet. *)
Definition new_name (A : afs) (path name : str) : Prop :=
  ∀ p d s, target A path = Some (NDir p) → a_dirs A !! p = Some d → canon name = Some s →
    find_link s (ad_links d) = None.

Definition creates (o : fs_op) (path name : str) : Prop :=
  o = CreateFile path name ∨ o = Mkdir path name.

(** Creations, successful or not, keep what existing paths lead to. *)
Lemma astep_creation_grows A o path name r A' :
  creates o path name → new_name A path name → astep A o r A' →
  a_root A' = a_root A
  ∧ ∀ c d, a_dirs A !! c = Some d → ∃ d', a_dirs A' !! c = Some d' ∧ grows d d'.
Proof.
  move=> Ho Hn Hs.
  have Hsame : ∀ c d, a_dirs A !! c = Some d → ∃ d', a_dirs A !! c = Some d' ∧ grows d d'
    by move=> c d ?; exists d.
  have Hput : ∀ p d l1 l l2 s, place A path name p d l1 l2 s → ln_name l = s →
    grows d (with_link d l1 l l2).
  { move=> p d l1 l l2 s [Ht [Hd [El [_ Hc]]]] El'. apply dir_grows_insert; [done|]. rw El'. by apply (Hn p d). }
  inversion Hs; subst; destruct Ho as [Ho|Ho]; try discriminate; injection Ho as -> ->;
    (split; [done|]); try exact Hsame; move=> q e Hq; cbn [put_dir take_cluster a_dirs].
  - destruct (decide (q = p)) as [->|]; [|rw lookup_insert_ne //; by apply Hsame].
    rw lookup_insert_eq. eexists; split; [done|].
    have Hd : a_dirs A !! p = Some d by destruct H as (_ & ? & _). rw Hq in Hd. injection Hd as ->. by eapply Hput.
  - destruct (decide (q = p)) as [->|].
    + rw lookup_insert_eq. eexists; split; [done|].
      have Hd : a_dirs A !! p = Some d by destruct H as (_ & ? & _). rw Hq in Hd. injection Hd as ->. by eapply Hput.
    + rw lookup_insert_ne // lookup_insert_ne; [|by apply Hsame].
      move=> E. subst q. destruct H0 as [H0 _]. by rw H0 in Hq.
Qed.

Lemma resolve_creation A o path name r A' q cur nd :
  creates o path name → new_name A path name → astep A o r A' →
  resolve A q cur = Some nd → resolve A' q cur = Some nd.
Proof.
  move=> Ho Hn Hs. destruct (astep_creation_grows A o path name r A' Ho Hn Hs) as [HR HA].
  rw /resolve HR. by apply follow_grows.
Qed.
