(* ===== verification/FsAbs.v ===== *)
(** * From the disk to the abstract file system

    The representation invariant [well_formed] of the volumes that the kernel
    itself writes, the abstraction function [abstract] that reads an abstract
    file system off such a volume, and the proof that resolving paths and
    reading files on the disk is resolving and reading in the abstract state. *)

From S2P Require Import Prelude Machine Str Volume DirEntry Names DirSpec Path Stability.
From S2P Require Import FileOps FileOpsSpec WriteSpec FsModel.

(** ** Names *)

(** The short names of plain entries: eleven bytes that are the 8.3 form of a
    name in upper case. *)
Definition sfn_canonical (base ext : str) : Prop :=
  sfn_parts base ext ∧ no_lower base ∧ no_lower ext.

Lemma pad_take k l : pad k (take k l) = pad k l.
Proof. rw /pad take_take Nat.min_id length_take. do 2 f_equal. lia. Qed.

Lemma sfn_bytes_take b x : sfn_bytes (take 8 b) (take 3 x) = sfn_bytes b x.
Proof. by rw /sfn_bytes !pad_take. Qed.

Lemma ascii_upper_idem b : ascii_upper (ascii_upper b) = ascii_upper b.
Proof.
  rw /ascii_upper /between.
  destruct (Z.leb_spec 97 b), (Z.leb_spec b 122) => /=; try done;
    destruct (Z.leb_spec 97 b), (Z.leb_spec b 122) => //=; try lia.
  destruct (Z.leb_spec 97 (b - 32)) => //=. lia.
Qed.

Lemma no_lower_upper s : no_lower (ascii_upper <$> s).
Proof. apply Forall_fmap, Forall_true => b. apply ascii_upper_idem. Qed.

Section names.
Context `{UnicodeCase}.

(** A part of a printable name: no separators left. *)
Lemma name_part name p :
  Forall name_char name → p ∈ split_on dot name → Forall sfn_char p.
Proof.
  move=> /(split_on_Forall _ dot) Hn Hp. have Hd := split_on_no_sep dot name.
  rw !Forall_forall in Hn Hd. have {}Hn := Hn p Hp. have {}Hd := Hd p Hp.
  rw !Forall_forall in Hn |- *. move=> b Hb. destruct (Hn b Hb). split; [done|]. split; [|done].
  by move=> E; subst b.
Qed.

Lemma sfn_upper p : Forall sfn_char p → to_uppercase p = ascii_upper <$> p.
Proof.
  move=> Hp. apply to_uppercase_ascii. eapply Forall_impl; [done|apply sfn_char_ascii].
Qed.

Lemma canonical_upper k base :
  Forall sfn_char base →
  Forall sfn_char (take k (ascii_upper <$> base)) ∧ no_lower (take k (ascii_upper <$> base)).
Proof.
  move=> Hb. split; apply Forall_take; [|apply no_lower_upper].
  apply Forall_fmap. eapply Forall_impl; [done|apply sfn_char_upper].
Qed.

(** [canon] is what [format_to_8_3] writes into an entry. *)
Lemma format_canon name : Forall name_char name →
  match canon name with
  | None => format_to_8_3 name = Done (Err (lit "Invalid name"))
  | Some s => ∃ b x, sfn_canonical b x ∧ s = sfn_text b x
      ∧ format_to_8_3 name = Done (Ok (sfn_bytes b x))
  end.
Proof.
  move=> Hn. have Hp := name_part name _ Hn. rw format_to_8_3_eq /canon /format_parts.
  case E: (split_on dot name) => [//|[|b0 base] rest] //.
  rw E in Hp. have Hb : Forall sfn_char (b0 :: base) by apply Hp, list_elem_of_here.
  have Hx : Forall sfn_char (default [] (head rest)).
  { case: rest E Hp => [|x rest] E Hp; [constructor|]. apply Hp. set_solver. }
  destruct (canonical_upper 8 _ Hb) as [Cb Lb]. destruct (canonical_upper 3 _ Hx) as [Cx Lx].
  eexists _, _. split; [|split; [done|]].
  - split; [|done]. split; [|len|done..]. rw zlen_take zlen_fmap zlen_cons. have ? := zlen_nonneg base. lia.
  - rw sfn_bytes_take sfn_upper //. do 3 f_equal.
    clear -Hx. case: rest Hx => [|x rest] //= Hx. by rw sfn_upper.
Qed.

Lemma format_sfn_canonical b x :
  sfn_canonical b x → format_to_8_3 (sfn_text b x) = Done (Ok (sfn_bytes b x)).
Proof.
  move=> [Hp [Hb Hx]]. rw format_to_8_3_eq format_parts_sfn //.
  by rw (proj2 (fmap_ascii_upper_id b) Hb) (proj2 (fmap_ascii_upper_id x) Hx).
Qed.

Lemma sfn_text_inj b x b' x' :
  sfn_canonical b x → sfn_canonical b' x' → sfn_text b x = sfn_text b' x' →
  sfn_bytes b x = sfn_bytes b' x'.
Proof.
  move=> /format_sfn_canonical H1 /format_sfn_canonical H2 E. rw E in H1. congruence.
Qed.
End names.

Lemma sfn_text_dots b x :
  sfn_parts b x → sfn_text b x ≠ lit "." ∧ sfn_text b x ≠ lit "..".
Proof.
  move=> [Hl _ Hb _]. case: b Hl Hb => [|c b] Hl Hb; [rw zlen_nil in Hl; lia|].
  apply Forall_cons in Hb as [[_ [Hc _]] _]. rw /sfn_text.
  split; case: (is_empty x); move=> E; injection E as E _; by subst c.
Qed.

Lemma startable_sfn b x : sfn_parts b x → startable (sfn_bytes b x).
Proof.
  move=> [Hl _ Hb Hx].
  have Hy : ∀ l, Forall sfn_char l → bytes l.
  { move=> l ?. eapply Forall_impl; [done|]. rw /sfn_char. lia. }
  split; [apply zlen_sfn_bytes|]. split.
  { apply Forall_app; split; apply bytes_pad; auto. }
  case: b Hl Hb => [|c b] Hl Hb; [rw zlen_nil in Hl; lia|].
  apply Forall_cons in Hb as [[? _] _]. rw /sfn_bytes /pad. cbn [take app byte_at lookup list_lookup].
  rw /byte_at /=. lia.
Qed.

(** ** The abstraction function *)

(** The clusters of a chain, at most [k] of them. *)
Fixpoint chain (k : nat) (fs : Fat32FileSystem) (c : Z) : list Z :=
  match k with
  | O => []
  | S k => c :: if 0x0FFFFFF8 <=? fat_get fs c then [] else chain k fs (fat_get fs c)
  end.

Definition is_dots (f : FileInfo) : Prop := fi_name f = lit "." ∨ fi_name f = lit "..".

#[global] Instance is_dots_dec f : Decision (is_dots f).
Proof. unfold is_dots. apply _. Defined.

Section abstraction.
Context `{Profile} (fs : Fat32FileSystem) (n : Z).

Definition listing (c : Z) : list FileInfo :=
  match list_directory_entries fs c with Done files => files | _ => [] end.

(** The entries of a directory other than [.] and [..]. *)
Definition children (c : Z) : list FileInfo := filter (λ f, ¬ is_dots f) (listing c).

Definition clusters (f : FileInfo) : list Z := chain (Z.to_nat n) fs (start_cluster f).

Definition content (f : FileInfo) : list Z :=
  take (Z.to_nat (fi_size f)) (concat (cluster_data fs <$> clusters f)).

Definition node_of (f : FileInfo) : node :=
  if is_directory f then NDir (start_cluster f) else NFile (start_cluster f) (content f).

Definition link_of (f : FileInfo) : link := mkLink (fi_name f) (node_of f).

Definition dir_of (c : Z) : dir :=
  mkDir (match find_parent_cluster fs c with Done p => p | _ => None end)
    (link_of <$> children c)
    (length (filter free_slot (chunks_exact 32 (cluster_data fs c)))).

(** The clusters that [allocate_cluster] can hand out. *)
Definition free_clusters : list Z :=
  filter (λ c, fat_get fs c = 0) (seqZ 2 (Z.min n 49998)).

Definition abstract (D : gset Z) : afs :=
  mkAfs (root_cluster fs) (cluster_size fs) (length free_clusters)
    (set_to_map (λ c, (c, dir_of c)) D).

(** The clusters of the plain files that a directory lists. *)
Definition file_clusters (c : Z) : list Z :=
  filter (λ f, is_directory f = false) (children c) ≫= clusters.

(** All clusters in use: directories and files. *)
Definition owned (D : gset Z) : list Z := elements D ++ (elements D ≫= file_clusters).

Lemma dirs_lookup (D : gset Z) (c : Z) :
  a_dirs (abstract D) !! c = if bool_decide (c ∈ D) then Some (dir_of c) else None.
Proof.
  case_bool_decide as Hc.
  - apply lookup_set_to_map; [naive_solver|]. by exists c.
  - apply eq_None_not_Some => -[d /lookup_set_to_map E].
    destruct E as [y [? [= -> ?]]]; [naive_solver|done].
Qed.

Lemma dirs_in D c d : a_dirs (abstract D) !! c = Some d ↔ c ∈ D ∧ d = dir_of c.
Proof. rw dirs_lookup. case_bool_decide; naive_solver. Qed.

Lemma chain_fat k c cs : fat_chain fs n c cs → (length cs <= k)%nat → chain k fs c = cs.
Proof.
  move=> Hch. elim: Hch k => {c cs} [c ??|c cs ??? IH] [|k] /= Hk; try lia; ztrue; [done|].
  rw IH //. lia.
Qed.

Lemma clusters_chain f cs : fat_chain fs n (start_cluster f) cs → clusters f = cs.
Proof. move=> Hch. apply chain_fat; [done|by eapply fat_chain_length]. Qed.

Lemma find_link_named name files : name ≠ lit "." → name ≠ lit ".." →
  find_link name (link_of <$> filter (λ f, ¬ is_dots f) files) = node_of <$> find_named name files.
Proof.
  move=> H1 H2. elim: files => [|f files IH] //. rw find_named_cons filter_cons. case_decide as Hd.
  - rw fmap_cons /= . case_bool_decide; [done|exact IH].
  - rw IH bool_decide_eq_false_2 //. move=> E. rw /is_dots E in Hd. naive_solver.
Qed.
End abstraction.

(** ** The representation invariant *)

(** The records of a directory of this kernel: deleted slots, plain short
    entries, and the two links of a directory to itself and its parent. *)
Definition plain_record (r : record) : Prop :=
  match r with
  | Deleted _ => True
  | Long _ _ => False
  | Short e =>
      is_label e = false
      ∧ (sub 0 11 e = lit ".          " ∨ sub 0 11 e = lit "..         "
         ∨ ∃ b x, sfn_canonical b x ∧ sub 0 11 e = sfn_bytes b x)
  end.

(** A directory of plain records with nothing behind its end. *)
Definition plain_directory (fs : Fat32FileSystem) (c : Z) (rs : list record)
    (tail : list (list Z)) : Prop :=
  directory fs c rs tail ∧ Forall plain_record rs ∧ Forall (λ e, byte_at e 0 = 0x00) tail.

Record well_formed `{Profile} (fs : Fat32FileSystem) (n : Z) (D : gset Z) : Prop := {
  wf_volume : volume fs n;
  wf_tree : tree fs n D;
  wf_dir : ∀ c, c ∈ D → ∃ rs tail, plain_directory fs c rs tail;
  wf_used : ∀ c, c ∈ D → fat_get fs c ≠ 0;
  wf_file : ∀ c f, c ∈ D → f ∈ children fs c → is_directory f = false →
    ∃ cs, fat_chain fs n (start_cluster f) cs;
  wf_owned : NoDup (owned fs n D);
}.

Section reading.
Context `{Profile} (fs : Fat32FileSystem) (n : Z) (D : gset Z) (W : well_formed fs n D).

Abbreviation A := (abstract fs n D).

Lemma listing_done c : c ∈ D → list_directory_entries fs c = Done (listing fs c).
Proof.
  move=> Hc. destruct W as [V T _ _ _ _].
  destruct (listing_total fs n c V (tree_valid _ _ _ T c Hc)) as [l [El _]]. by rw /listing El.
Qed.

Lemma parent_done c : c ∈ D → find_parent_cluster fs c = Done (ad_parent (dir_of fs n c)).
Proof.
  move=> Hc. destruct W as [V T _ _ _ _]. cbn [ad_parent dir_of].
  by destruct (find_parent_ok fs n D V T c Hc) as [r [-> _]].
Qed.

(** Following a path in the abstract state is following it on the disk. *)
Lemma walk_follow parts c : c ∈ D →
  ∃ r, walk_parts fs parts c = Done r ∧ follow A parts c = node_of fs n <$> r.
Proof.
  have [V T _ _ _ _] := W.
  elim: parts c => [|part rest IH] c Hc; [by exists None|]. cbn [walk_parts follow].
  rw listing_done // bind_Done. case_bool_decide as H1; [by apply IH|].
  rw dirs_lookup (bool_decide_eq_true_2 (c ∈ D)) // /component parent_done //.
  cbn [mbind option_bind].
  case_bool_decide as H2.
  - destruct (find_parent_ok fs n D V T c Hc) as [r [E Hr]].
    rw parent_done // in E. injection E as E. cbn [ad_parent dir_of] in E |- *. rw E.
    case: r {E} Hr => [d|] Hr; [|by exists None]. cbn.
    case: (is_empty rest); [by eexists|]. by apply IH, Hr.
  - rw find_link_named //. case Ef: (find_named part (listing fs c)) => [f|]; [|by exists None].
    cbn. case: (is_empty rest); [by exists (Some f)|]. rw /node_of.
    case Ed: (is_directory f); [|by exists None]. apply IH.
    apply find_named_Some in Ef as [Hf En].
    eapply (tree_child _ _ _ T c _ f Hc (listing_done c Hc)); [done..| |]; congruence.
Qed.

Lemma parse_resolve path cur : (∀ c, cur = Some c → c ∈ D) →
  ∃ r, parse_path fs path cur = Done r ∧ resolve A path cur = node_of fs n <$> r.
Proof.
  move=> Hcur. have [V T _ _ _ _] := W. rw /parse_path /resolve. cbn [a_root abstract].
  apply walk_follow. case: (_ || _); [apply T|].
  case: cur Hcur => [c|] Hcur /=; [by apply Hcur|apply T].
Qed.

Lemma children_in c f : f ∈ children fs c → f ∈ listing fs c ∧ ¬ is_dots f.
Proof. rw /children => /list_elem_of_filter [? ?]. done. Qed.

(** A plain file that a path leads to is listed in some directory. *)
Lemma walk_file parts c f : c ∈ D → walk_parts fs parts c = Done (Some f) →
  is_directory f = false → ∃ d, d ∈ D ∧ f ∈ children fs d.
Proof.
  have [V T _ _ _ _] := W.
  elim: parts c => [|part rest IH] c Hc //. cbn [walk_parts]. rw listing_done // bind_Done.
  case_bool_decide as H1; [by apply IH|]. case_bool_decide as H2.
  - destruct (find_parent_ok fs n D V T c Hc) as [[d|] [E Hr]]; rw E bind_Done //.
    case: (is_empty rest); [by move=> [<-]|]. by apply IH, Hr.
  - case Ef: (find_named part (listing fs c)) => [g|] //.
    apply find_named_Some in Ef as [Hg En].
    case: (is_empty rest).
    { move=> [<-] _. exists c. split; [done|]. apply list_elem_of_filter. split; [|done].
      rw /is_dots En. naive_solver. }
    case Ed: (is_directory g) => //=. apply IH.
    eapply (tree_child _ _ _ T c _ g Hc (listing_done c Hc)); [done..| |]; congruence.
Qed.

Lemma parse_file path cur f : (∀ c, cur = Some c → c ∈ D) →
  parse_path fs path cur = Done (Some f) → is_directory f = false →
  ∃ d, d ∈ D ∧ f ∈ children fs d.
Proof.
  move=> Hcur. have [V T _ _ _ _] := W. apply walk_file. case: (_ || _); [apply T|].
  case: cur Hcur => [c|] Hcur /=; [by apply Hcur|apply T].
Qed.

(** Reading a file on the disk is reading it in the abstract state. *)
Lemma read_fetch path cur : (∀ c, cur = Some c → c ∈ D) →
  read_file (Z.to_nat n) fs path cur = Done (fetch A path cur).
Proof.
  move=> Hcur. have [V T _ _ HF _] := W. destruct (parse_resolve path cur Hcur) as [r [E Er]].
  rw /fetch Er. case: r E {Er} => [f|] E; [|by rw /read_file E]. cbn. rw /node_of.
  case Ed: (is_directory f); [by rw /read_file E bind_Done Ed|].
  destruct (parse_file path cur f Hcur E Ed) as [d [Hd Hf]].
  destruct (HF d f Hd Hf Ed) as [cs Hch].
  rw (read_file_chain fs n path cur f cs V E Ed Hch) /content (clusters_chain _ _ _ _ Hch).
  by case: (from_utf8 _).
Qed.
End reading.
