(* ===== verification/FsFrame.v ===== *)
(** * Frames: what an update leaves alone

    Updates of a well-formed volume reserve at most one free cluster and write
    into at most one directory and one file.  The lemmas below say what then
    stays the same in the abstract file system. *)

From S2P Require Import Prelude Machine Str Volume DirEntry Names DirSpec Path Stability.
From S2P Require Import FileOps FileOpsSpec WriteSpec CreateSpec FsModel FsAbs.

(** ** Ownership *)

Lemma bind_Permutation {A B} (g : A → list B) (l k : list A) : l ≡ₚ k → l ≫= g ≡ₚ k ≫= g.
Proof.
  elim=> {l k} [|x l k _ IH|x y l|l k m _ IH1 _ IH2] //.
  - rw !bind_cons. by f_equiv.
  - rw !bind_cons !app_assoc. by f_equiv; apply Permutation_app_comm.
  - by etrans.
Qed.

Lemma elements_pick (D : gset Z) p : p ∈ D → elements D ≡ₚ p :: elements (D ∖ {[p]}).
Proof.
  move=> Hp. rw -elements_union_singleton; [set_solver|].
  by rw -(union_difference_singleton_L p D Hp).
Qed.

(** The pieces of a set's members, one member apart. *)
Lemma bind_pick {B} (g : Z → list B) (D : gset Z) p :
  p ∈ D → elements D ≫= g ≡ₚ g p ++ (elements (D ∖ {[p]}) ≫= g).
Proof. move=> Hp. rw (bind_Permutation g _ _ (elements_pick D p Hp)). by rw bind_cons. Qed.

Lemma bind_ext_elements {B} (g g' : Z → list B) (D : gset Z) :
  (∀ d, d ∈ D → g' d = g d) → elements D ≫= g' = elements D ≫= g.
Proof.
  move=> Hg. by apply Forall_bind_ext, Forall_forall => d /elem_of_elements /Hg.
Qed.

(** When the pieces of one member grow by [xs], so does the whole. *)
Lemma bind_grow {B} (g g' : Z → list B) (D : gset Z) p xs :
  p ∈ D → (∀ d, d ∈ D → d ≠ p → g' d = g d) → g' p ≡ₚ xs ++ g p →
  elements D ≫= g' ≡ₚ xs ++ (elements D ≫= g).
Proof.
  move=> Hp Hd Ep. rw (bind_pick g' D p Hp) (bind_pick g D p Hp) Ep app_assoc.
  rw (bind_ext_elements g g') //. set_solver.
Qed.

Section owned.
Context `{Profile} (fs : Fat32FileSystem) (n : Z) (D : gset Z) (W : well_formed fs n D).

Lemma fat_chain_nonzero c cs x : fat_chain fs n c cs → x ∈ cs → fat_get fs x ≠ 0.
Proof.
  elim=> {c cs} [c ??|c cs ?? Hch IH]; [move=> /list_elem_of_singleton ->; lia|].
  move=> /elem_of_cons [->|]; [|done]. have := fat_chain_valid _ _ _ _ Hch.
  by destruct (fat_chain_cons _ _ _ _ Hch) as [ds ->] => /Forall_cons [? _]; lia.
Qed.

(** The chain of a listed file. *)
Lemma file_chain d f : d ∈ D → f ∈ children fs d → is_directory f = false →
  fat_chain fs n (start_cluster f) (clusters fs n f).
Proof.
  move=> Hd Hf Ed. destruct (wf_file _ _ _ W d f Hd Hf Ed) as [cs Hch].
  by rw (clusters_chain _ _ _ _ Hch).
Qed.

Lemma file_clusters_elem d x : x ∈ file_clusters fs n d ↔
  ∃ f, f ∈ children fs d ∧ is_directory f = false ∧ x ∈ clusters fs n f.
Proof.
  rw /file_clusters list_elem_of_bind. split.
  - move=> [f [Hx /list_elem_of_filter [? ?]]]. by exists f.
  - move=> [f [? [? ?]]]. exists f. split; [done|]. by apply list_elem_of_filter.
Qed.

Lemma owned_file d f x : d ∈ D → f ∈ children fs d → is_directory f = false →
  x ∈ clusters fs n f → x ∈ owned fs n D.
Proof.
  move=> Hd Hf Ed Hx. apply elem_of_app. right. apply list_elem_of_bind. exists d.
  split; [apply file_clusters_elem; by exists f|by apply elem_of_elements].
Qed.

Lemma owned_nonzero x : x ∈ owned fs n D → fat_get fs x ≠ 0.
Proof.
  move=> /elem_of_app [/elem_of_elements|/list_elem_of_bind [d [Hx /elem_of_elements Hd]]].
  - apply W.
  - apply file_clusters_elem in Hx as (f & Hf & Ed & Hx).
    eapply fat_chain_nonzero; [by eapply file_chain|done].
Qed.

Lemma owned_valid x : x ∈ owned fs n D → 2 <= x < n + 2.
Proof.
  move=> /elem_of_app [/elem_of_elements|/list_elem_of_bind [d [Hx /elem_of_elements Hd]]].
  - apply W.
  - apply file_clusters_elem in Hx as (f & Hf & Ed & Hx).
    have := fat_chain_valid _ _ _ _ (file_chain d f Hd Hf Ed). rw Forall_forall => Hv. by apply Hv.
Qed.

(** Directories and files do not share clusters. *)
Lemma dir_no_file c d f : c ∈ D → d ∈ D → f ∈ children fs d → is_directory f = false →
  c ∉ clusters fs n f.
Proof.
  move=> Hc Hd Hf Ed Hx. have [_ _ _ _ _ HN] := W. apply NoDup_app in HN as [_ [HN _]].
  apply (HN c); [by apply elem_of_elements|]. apply list_elem_of_bind. exists d.
  split; [apply file_clusters_elem; by exists f|by apply elem_of_elements].
Qed.

(** Neither do files of different directories. *)
Lemma file_no_file c d f g x : c ∈ D → d ∈ D → c ≠ d →
  f ∈ children fs c → is_directory f = false → x ∈ clusters fs n f →
  g ∈ children fs d → is_directory g = false → x ∉ clusters fs n g.
Proof.
  move=> Hc Hd Hne Hf Ef Hx Hg Eg Hx'. have [_ _ _ _ _ HN] := W.
  apply NoDup_app in HN as [_ [_ HN]]. rw (bind_pick _ D c Hc) in HN.
  apply NoDup_app in HN as [_ [HN _]]. apply (HN x); [apply file_clusters_elem; by exists f|].
  apply list_elem_of_bind. exists d. split; [apply file_clusters_elem; by exists g|].
  apply elem_of_elements. set_solver.
Qed.

(** Nor files at different positions of one directory. *)
Lemma sibling_no_file c k1 f k2 g x : c ∈ D → children fs c = k1 ++ f :: k2 →
  is_directory f = false → x ∈ clusters fs n f → g ∈ k1 ++ k2 → is_directory g = false →
  x ∉ clusters fs n g.
Proof.
  move=> Hc E Ef Hx Hg Eg Hx'. have [_ _ _ _ _ HN] := W.
  apply NoDup_app in HN as [_ [_ HN]]. rw (bind_pick _ D c Hc) in HN.
  apply NoDup_app in HN as [HN _]. rw /file_clusters E in HN.
  have Hp : k1 ++ f :: k2 ≡ₚ f :: k1 ++ k2 by rw -Permutation_middle.
  rw Hp filter_cons_True // in HN. apply NoDup_app in HN as [_ [HN _]]. apply (HN x Hx).
  apply list_elem_of_bind. exists g. split; [done|]. by apply list_elem_of_filter.
Qed.
End owned.

(** ** Reserving a cluster *)

(** [fs'] is [fs] with the free cluster [c] marked as used; the content of
    clusters is not constrained. *)
Record reserved `{Profile} (fs fs' : Fat32FileSystem) (n c : Z) : Prop := {
  rv_volume : volume fs' n;
  rv_root : root_cluster fs' = root_cluster fs;
  rv_size : cluster_size fs' = cluster_size fs;
  rv_range : 2 <= c < n + 2 ∧ c < 50000;
  rv_free : fat_get fs c = 0;
  rv_taken : fat_get fs' c = 0x0FFFFFFF;
  rv_fat : ∀ d, 0 <= d < n + 2 → d ≠ c → fat_get fs' d = fat_get fs d;
}.

(** The FAT and the data of the cluster [d] are as before. *)
Definition untouched (fs fs' : Fat32FileSystem) (d : Z) : Prop :=
  fat_get fs' d = fat_get fs d ∧ cluster_data fs' d = cluster_data fs d.

Section frames.
Context `{Profile} (fs fs' : Fat32FileSystem) (n : Z).

Lemma fat_chain_frame c cs : fat_chain fs n c cs →
  (∀ d, d ∈ cs → fat_get fs' d = fat_get fs d) → fat_chain fs' n c cs.
Proof.
  elim=> {c cs} [c ??|c cs ??? IH] Hd; constructor; try (rw Hd; [set_solver|done]); try done.
  rw Hd; [set_solver|]. apply IH. set_solver.
Qed.

(** A file whose clusters are untouched. *)
Lemma file_frame f : fat_chain fs n (start_cluster f) (clusters fs n f) →
  (∀ d, d ∈ clusters fs n f → fat_get fs' d = fat_get fs d) →
  clusters fs' n f = clusters fs n f.
Proof. move=> Hch Hd. by apply clusters_chain, fat_chain_frame. Qed.

Lemma content_frame f : fat_chain fs n (start_cluster f) (clusters fs n f) →
  (∀ d, d ∈ clusters fs n f → untouched fs fs' d) → content fs' n f = content fs n f.
Proof.
  move=> Hch Hd. rw /content file_frame //; [by move=> d /Hd [? _]|]. do 2 f_equal.
  apply list_fmap_ext => i d Hi. by destruct (Hd d (list_elem_of_lookup_2 _ _ _ Hi)).
Qed.

Lemma link_frame f :
  (is_directory f = false → fat_chain fs n (start_cluster f) (clusters fs n f)) →
  (is_directory f = false → ∀ d, d ∈ clusters fs n f → untouched fs fs' d) →
  link_of fs' n f = link_of fs n f.
Proof.
  move=> Hch Hd. rw /link_of /node_of. case E: (is_directory f) => //.
  rw content_frame //; [by apply Hch|by apply Hd].
Qed.

Context (D : gset Z) (W : well_formed fs n D) (V' : volume fs' n).
Context (HR : root_cluster fs' = root_cluster fs).

Lemma listing_frame d : d ∈ D → cluster_data fs' d = cluster_data fs d →
  list_directory_entries fs' d = list_directory_entries fs d.
Proof.
  move=> Hd E. destruct W. apply (list_directory_entries_frame fs fs' n); [done..| |done].
  by eapply tree_valid.
Qed.

Lemma children_frame d : d ∈ D → cluster_data fs' d = cluster_data fs d →
  children fs' d = children fs d.
Proof. move=> Hd E. by rw /children /listing listing_frame. Qed.

(** A directory whose cluster, and whose files, are untouched. *)
Lemma dir_frame d : d ∈ D → cluster_data fs' d = cluster_data fs d →
  (∀ f x, f ∈ children fs d → is_directory f = false → x ∈ clusters fs n f →
     untouched fs fs' x) →
  dir_of fs' n d = dir_of fs n d ∧ file_clusters fs' n d = file_clusters fs n d.
Proof.
  move=> Hd E Hx. have Ech := children_frame d Hd E. split.
  - rw /dir_of Ech E /find_parent_cluster HR listing_frame //. f_equal.
    apply list_fmap_ext => i f Hi. have Hf := list_elem_of_lookup_2 _ _ _ Hi.
    apply link_frame; [by eapply file_chain|]. move=> Ef x. by apply (Hx f).
  - rw /file_clusters Ech. apply Forall_bind_ext, Forall_forall => f /list_elem_of_filter [Ef Hf].
    apply file_frame; [by eapply file_chain|]. move=> x Hc. by destruct (Hx f x Hf Ef Hc).
Qed.
End frames.

Lemma filter_same (P P' : Z → Prop) `{∀ x, Decision (P x)} `{∀ x, Decision (P' x)} (l : list Z) :
  (∀ d, d ∈ l → P' d ↔ P d) → filter P' l = filter P l.
Proof.
  elim: l => [|y l IH] // Hl. have Hy := Hl y ltac:(set_solver). have {}IH := IH ltac:(set_solver).
  rw !filter_cons IH. do 2 case_decide => //; naive_solver.
Qed.

Lemma filter_one_less (P P' : Z → Prop) `{∀ x, Decision (P x)} `{∀ x, Decision (P' x)} l c :
  NoDup l → c ∈ l → P c → ¬ P' c → (∀ d, d ∈ l → d ≠ c → P' d ↔ P d) →
  length (filter P l) = S (length (filter P' l)).
Proof.
  move=> + + Hc Hc'. elim: l => [|x l IH]; [set_solver|]. move=> /NoDup_cons [Hx HN] Hin HP.
  destruct (decide (x = c)) as [->|Hne].
  - rw filter_cons_True // filter_cons_False //=. f_equal. f_equal. symmetry.
    apply filter_same => d Hd. apply HP; set_solver.
  - have Hy := HP x ltac:(set_solver) Hne. rw !filter_cons.
    have {}IH := IH HN ltac:(set_solver) ltac:(set_solver). do 2 case_decide => //=; try naive_solver lia.
Qed.

(** There is a first free cluster when any is free. *)
Lemma free_first fs n : (0 < length (free_clusters fs n))%nat →
  ∃ c, first_free fs c ∧ c < n + 2 ∧ c < 50000.
Proof.
  rw /free_clusters. set l := seqZ 2 _. move=> Hl.
  destruct (list_find (λ c, fat_get fs c = 0) l) as [[i c]|] eqn:E.
  - apply list_find_Some in E as (Hi & Hz & Hb). apply lookup_seqZ in Hi as [Ec ?].
    exists c. split; [|lia]. split; [lia|]. split; [done|]. move=> d ?.
    apply (Hb (Z.to_nat (d - 2))); [|lia]. apply lookup_seqZ. lia.
  - apply list_find_None in E. assert (filter (λ c, fat_get fs c = 0) l = []) as Hn.
    { elim: E => [|x k ?? IH] //. by rw filter_cons_False. }
    rw Hn /= in Hl. lia.
Qed.

Section reserve.
Context `{Profile} (fs fs' : Fat32FileSystem) (n c p : Z) (D : gset Z).
Context (W : well_formed fs n D) (R : reserved fs fs' n c) (Hp : p ∈ D).
Context (Hsame : ∀ d, 2 <= d < n + 2 → d ≠ p → d ≠ c → cluster_data fs' d = cluster_data fs d).

Lemma reserved_fresh : c ∉ owned fs n D.
Proof. move=> /(owned_nonzero fs n D W). by destruct R. Qed.

Lemma reserved_not_dir : c ∉ D.
Proof. move=> Hc. apply reserved_fresh, elem_of_app. left. by apply elem_of_elements. Qed.

Lemma reserved_free : length (free_clusters fs' n) = pred (length (free_clusters fs n)).
Proof.
  destruct R. rw /free_clusters.
  rw (filter_one_less (λ d, fat_get fs d = 0) (λ d, fat_get fs' d = 0) _ c) //.
  - apply NoDup_seqZ.
  - apply elem_of_seqZ. lia.
  - by rw rv_taken0.
  - move=> d /elem_of_seqZ ??. rw rv_fat0 //. lia.
Qed.

Lemma kept_file d f x : d ∈ D → f ∈ children fs d → is_directory f = false →
  x ∈ clusters fs n f → untouched fs fs' x.
Proof.
  move=> Hd Hf Ed Hx. have Ho := owned_file fs n D d f x Hd Hf Ed Hx.
  have Hc : x ≠ c by move=> E; subst x; apply reserved_fresh.
  have Hx' : x ≠ p by move=> E; subst x; eapply (dir_no_file fs n D W p d f).
  have Hv := owned_valid fs n D W x Ho. destruct R.
  split; [apply rv_fat0; [lia|done]|by apply Hsame].
Qed.

Lemma kept_data d : d ∈ D → d ≠ p → cluster_data fs' d = cluster_data fs d.
Proof.
  move=> Hd Hn. destruct W. apply Hsame; [by eapply tree_valid|done|].
  move=> E. subst d. by apply reserved_not_dir.
Qed.

Lemma kept_dir d : d ∈ D → cluster_data fs' d = cluster_data fs d →
  dir_of fs' n d = dir_of fs n d ∧ file_clusters fs' n d = file_clusters fs n d.
Proof.
  move=> Hd E. have [V' HR _ _ _ _ _] := R. apply dir_frame with D; [done..|].
  move=> f x. by apply kept_file.
Qed.

Lemma kept_chain d f : d ∈ D → f ∈ children fs d → is_directory f = false →
  fat_chain fs' n (start_cluster f) (clusters fs n f).
Proof.
  move=> Hd Hf Ed. apply (fat_chain_frame fs); [by eapply file_chain|].
  move=> x Hx. by destruct (kept_file d f x Hd Hf Ed Hx).
Qed.

Lemma kept_link d f : d ∈ D → f ∈ children fs d → link_of fs' n f = link_of fs n f.
Proof.
  move=> Hd Hf. apply link_frame; [by eapply file_chain|]. move=> Ed x. by apply (kept_file d f).
Qed.
End reserve.
