(* ===== verification/FsRefine.v ===== *)
(** * The disk implements the abstract file system

    A forward simulation: on a well-formed volume, every operation that the
    specification allows returns a reply that the specification gives, and
    leaves a well-formed volume whose abstraction is the state the
    specification prescribes.  Sequences of operations follow. *)

From S2P Require Import Prelude Machine Str Volume DirEntry Names DirSpec Path Stability.
From S2P Require Import FileOps FileOpsSpec WriteSpec CreateSpec FsModel FsAbs FsFrame.

(** ** Failures that leak a cluster *)

Lemma plain_directory_frame fs fs' c rs tail :
  cluster_data fs' c = cluster_data fs c → plain_directory fs c rs tail →
  plain_directory fs' c rs tail.
Proof. by rw /plain_directory /directory => ->. Qed.

Lemma abstract_eq `{Profile} fs n D (A : afs) :
  root_cluster fs = a_root A → cluster_size fs = a_limit A →
  length (free_clusters fs n) = a_free A →
  (∀ c, c ∈ D → a_dirs A !! c = Some (dir_of fs n c)) →
  (∀ c, c ∉ D → a_dirs A !! c = None) →
  abstract fs n D = A.
Proof.
  case: A => root limit free dirs /= <- <- <- Hin Hout. rw /abstract. f_equal.
  apply map_eq => c. rw -/(a_dirs (abstract fs n D)) dirs_lookup. case_bool_decide; symmetry; auto.
Qed.

Section leak.
Context `{Profile} (fs fs' : Fat32FileSystem) (n c : Z) (D : gset Z).
Context (W : well_formed fs n D) (R : reserved fs fs' n c).
Context (Hsame : ∀ d, 2 <= d < n + 2 → d ≠ c → cluster_data fs' d = cluster_data fs d).

Lemma leak_data d : d ∈ D → cluster_data fs' d = cluster_data fs d.
Proof.
  move=> Hd. apply Hsame; [by eapply (tree_valid _ _ _ (wf_tree _ _ _ W))|].
  move=> E. subst d. exact (reserved_not_dir fs fs' n c D W R Hd).
Qed.

Lemma leak_kept d : d ∈ D →
  dir_of fs' n d = dir_of fs n d ∧ file_clusters fs' n d = file_clusters fs n d.
Proof.
  move=> Hd. have HR := tree_root _ _ _ (wf_tree _ _ _ W).
  by apply (kept_dir fs fs' n c (root_cluster fs) D); auto; apply leak_data.
Qed.

(** The leaked cluster is lost; nothing else changes. *)
Lemma leak_step :
  well_formed fs' n D ∧ abstract fs' n D = take_cluster (abstract fs n D).
Proof.
  have [V' HR HS _ _ _ Hfat] := R. have [V T HD HU HF HN] := W.
  have El := λ d Hd, listing_frame fs fs' n D W V' d Hd (leak_data d Hd).
  have Ec := λ d Hd, children_frame fs fs' n D W V' d Hd (leak_data d Hd).
  split; [split; try done|].
  - rw -(right_id_L ∅ (∪) D). apply (tree_grow fs); [done..|by move=> d /elem_of_empty| |by move=> d files f /elem_of_empty].
    move=> d files files' f Hd Ef Ef' ?. left. rw El // in Ef'. congruence.
  - move=> d Hd. destruct (HD d Hd) as (rs & tail & Hpl). exists rs, tail.
    eapply plain_directory_frame; [by apply leak_data|done].
  - move=> d Hd. have ? := tree_valid _ _ _ T d Hd. rw Hfat; [lia| |by apply HU].
    move=> E. subst d. exact (reserved_not_dir fs fs' n c D W R Hd).
  - move=> d f Hd. rw Ec // => Hf Ed. eexists.
    eapply (kept_chain fs fs' n c (root_cluster fs) D); try done; [apply T|auto].
  - rw /owned. rw (bind_ext_elements (file_clusters fs n) (file_clusters fs' n)) //.
    by move=> d /leak_kept [_ ?].
  - apply abstract_eq; [done..| | |].
    + by apply (reserved_free fs fs' n c).
    + move=> d Hd. cbn [take_cluster a_dirs]. rw dirs_lookup bool_decide_eq_true_2 //.
      by destruct (leak_kept d Hd) as [-> _].
    + move=> d Hd. cbn [take_cluster a_dirs]. by rw dirs_lookup bool_decide_eq_false_2.
Qed.
End leak.

(** ** Adding a link *)

(** [fs'] is [fs] with the cluster [c] reserved and an entry for the file
    [new] written over the free slot [e] of the directory [p]. *)
Record linked `{Profile} (fs fs' : Fat32FileSystem) (n : Z) (D : gset Z) (p c : Z)
    (l1 : list FileInfo) (new : FileInfo) (l2 : list FileInfo) : Prop := {
  lk_wf : well_formed fs n D;
  lk_reserved : reserved fs fs' n c;
  lk_dir : p ∈ D;
  lk_same : ∀ d, 2 <= d < n + 2 → d ≠ p → d ≠ c → cluster_data fs' d = cluster_data fs d;
  lk_before : list_directory_entries fs p = Done (l1 ++ l2);
  lk_after : list_directory_entries fs' p = Done (l1 ++ new :: l2);
  lk_plain : ∃ rs tail, plain_directory fs' p rs tail;
  lk_slot : ∃ pre e x post, chunks_exact 32 (cluster_data fs p) = pre ++ e :: post
    ∧ chunks_exact 32 (cluster_data fs' p) = pre ++ x :: post ∧ free_slot e ∧ ¬ free_slot x;
  lk_name : ¬ is_dots new;
  lk_start : start_cluster new = c;
  lk_empty : fi_size new = 0;
}.

Section added.
Context `{Profile} (fs fs' : Fat32FileSystem) (n : Z) (D : gset Z) (p c : Z).
Context (l1 : list FileInfo) (new : FileInfo) (l2 : list FileInfo).
Context (L : linked fs fs' n D p c l1 new l2).

Abbreviation shown := (filter (λ f, ¬ is_dots f)).
Abbreviation links l := (link_of fs n <$> shown l).

Lemma added_children :
  children fs p = shown l1 ++ shown l2 ∧ children fs' p = shown l1 ++ new :: shown l2.
Proof.
  destruct L. rw /children /listing lk_before0 lk_after0 !filter_app. split; [done|].
  by rw filter_cons_True.
Qed.

Lemma added_link f : f ∈ shown l1 ++ shown l2 → link_of fs' n f = link_of fs n f.
Proof.
  move=> Hf. have [Ec _] := added_children. destruct L.
  apply (kept_link fs fs' n c p D) with p; try done. by rw Ec.
Qed.

(** The chain of the reserved cluster is the cluster alone. *)
Lemma added_chain : fat_chain fs' n c [c].
Proof. destruct L. destruct lk_reserved0. constructor; [lia|]. by rw rv_taken. Qed.

Lemma added_node :
  link_of fs' n new = mkLink (fi_name new) (if is_directory new then NDir c else NFile c []).
Proof.
  destruct L. rw /link_of /node_of /content lk_start0 lk_empty0. by case: (is_directory new).
Qed.

Lemma added_room :
  length (filter free_slot (chunks_exact 32 (cluster_data fs' p)))
  = pred (length (filter free_slot (chunks_exact 32 (cluster_data fs p)))).
Proof.
  destruct L. destruct lk_slot0 as (pre & e & x & post & -> & -> & He & Hx).
  rw !filter_app filter_cons_False // filter_cons_True // !length_app /=. lia.
Qed.

Lemma added_parent : find_parent_cluster fs' p = find_parent_cluster fs p.
Proof.
  destruct L. rw /find_parent_cluster (rv_root _ _ _ _ lk_reserved0) lk_before0 lk_after0 !bind_Done.
  rw !find_named_app find_named_cons bool_decide_eq_false_2 //.
  move=> E. apply lk_name0. by right.
Qed.

Lemma added_dir :
  dir_of fs' n p = with_link (dir_of fs n p) (links l1)
    (mkLink (fi_name new) (if is_directory new then NDir c else NFile c [])) (links l2)
  ∧ ad_links (dir_of fs n p) = links l1 ++ links l2.
Proof.
  have [Ec Ec'] := added_children. rw /dir_of /with_link. cbn [ad_parent ad_links ad_room].
  rw Ec Ec' added_parent added_room fmap_app fmap_app fmap_cons added_node. split; [|done].
  do 2 f_equal; [|f_equal]; apply list_fmap_ext => i f Hi; apply added_link, elem_of_app;
    [left|right]; by eapply list_elem_of_lookup_2.
Qed.

Lemma added_file d f : d ∈ D → f ∈ children fs' d → is_directory f = false →
  ∃ cs, fat_chain fs' n (start_cluster f) cs.
Proof.
  move=> Hd Hf Ed. have [Ec Ec'] := added_children. have Hch := added_chain. destruct L.
  have Hold : ∀ g, g ∈ children fs d → is_directory g = false →
    ∃ cs, fat_chain fs' n (start_cluster g) cs.
  { move=> g Hg Eg. eexists. by apply (kept_chain fs fs' n c p D) with d. }
  destruct (decide (d = p)) as [->|Hne].
  - rw Ec' in Hf. apply elem_of_app in Hf as [Hf|Hf]; [apply Hold; [rw Ec; set_solver|done]|].
    apply elem_of_cons in Hf as [->|Hf]; [|apply Hold; [rw Ec; set_solver|done]].
    rw lk_start0. by eexists.
  - apply Hold; [|done]. have V' := rv_volume _ _ _ _ lk_reserved0.
    rw -(children_frame fs fs' n D) //. by apply (kept_data fs fs' n c p D).
Qed.

(** The clusters in use, but for the new directory's own. *)
Lemma added_files :
  elements D ≫= file_clusters fs' n ≡ₚ
    (if is_directory new then [] else [c]) ++ (elements D ≫= file_clusters fs n).
Proof.
  have [Ec Ec'] := added_children. have Hch := added_chain. destruct L.
  apply bind_grow with p; [done| |].
  { move=> d Hd Hne. apply (kept_dir fs fs' n c p D); try done. by apply (kept_data fs fs' n c p D). }
  rw /file_clusters Ec Ec'.
  have Ep : shown l1 ++ new :: shown l2 ≡ₚ new :: shown l1 ++ shown l2 by rw -Permutation_middle.
  rw (bind_Permutation (clusters fs' n) _ _ (filter_Permutation (λ f, is_directory f = false) _ _ Ep)).
  assert (filter (λ f, is_directory f = false) (shown l1 ++ shown l2) ≫= clusters fs' n
    = filter (λ f, is_directory f = false) (shown l1 ++ shown l2) ≫= clusters fs n) as Eb.
  { apply Forall_bind_ext, Forall_forall => f /list_elem_of_filter [Ed Hf].
    apply clusters_chain, (kept_chain fs fs' n c p D) with p; try done. by rw Ec. }
  rw filter_cons. case E: (is_directory new); case_decide; try done; [by rw Eb|].
  rw bind_cons Eb (clusters_chain fs' n new [c]) //. by rw lk_start0.
Qed.
End added.

(** ** Finding the place *)

Lemma first_deleted rs : Forall not_deleted rs ∨
  ∃ rs1 e rs2, rs = rs1 ++ Deleted e :: rs2 ∧ Forall not_deleted rs1.
Proof.
  elim: rs => [|r rs IH]; [by left|]. case: r => [e|us e|e]; [| |by right; exists [], e, rs].
  - destruct IH as [IH|(rs1 & e1 & rs2 & -> & IH)]; [by left; constructor|].
    right. by exists (Short e :: rs1), e1, rs2; split; [|constructor].
  - destruct IH as [IH|(rs1 & e1 & rs2 & -> & IH)]; [by left; constructor|].
    right. by exists (Long us e :: rs1), e1, rs2; split; [|constructor].
Qed.

Lemma directory_chunks_32 fs c rs tail :
  directory fs c rs tail → Forall (λ e, zlen e = 32) tail.
Proof.
  move=> [E _]. have := chunks_exact_zlen 32 (cluster_data fs c) ltac:(lia).
  by rw E => /Forall_app [_ ?].
Qed.

(** A directory with room has a first free slot. *)
Lemma room_place fs c rs tail :
  plain_directory fs c rs tail →
  (0 < length (filter free_slot (chunks_exact 32 (cluster_data fs c))))%nat →
  ∃ rs1 e rs2 tail', free_place rs tail rs1 e rs2 tail'
    ∧ Forall plain_record rs1 ∧ Forall plain_record rs2 ∧ Forall (λ x, byte_at x 0 = 0x00) tail'.
Proof.
  move=> [Hdir [Hpl Hz]] Hroom. have H32 := directory_chunks_32 _ _ _ _ Hdir.
  destruct (first_deleted rs) as [Hn|(rs1 & e & rs2 & -> & Hn)].
  - destruct Hdir as [E [Hr _]]. case: tail E Hz H32 => [|e tail] E Hz H32.
    { have Ho := records_occupied rs Hr Hn. rw E app_nil_r in Hroom.
      assert (filter free_slot (rs ≫= layout) = []) as Hf.
      { elim: Ho => [|x l [_ ?] _ IH] //. by rw filter_cons_False. }
      rw Hf /= in Hroom. lia. }
    apply Forall_cons in Hz as [_ Hz]. apply Forall_cons in H32 as [_ H32].
    exists rs, e, [], tail. split; [|done]. constructor; [done|].
    case: tail Hz H32 {E} => [|x tail] // /Forall_cons [? _] /Forall_cons [? _]. done.
  - apply Forall_app in Hpl as [? [_ ?]%Forall_cons].
    exists rs1, e, rs2, tail. split; [by constructor|done].
Qed.

Lemma no_room {A} (P : A → Prop) `{∀ x, Decision (P x)} l :
  length (filter P l) = O → Forall (λ x, ¬ P x) l.
Proof.
  elim: l => [|x l IH]; [done|]. rw filter_cons. case_decide => //= ?. constructor; auto.
Qed.

Section creating.
Context `{Profile} `{UnicodeCase} (fs : Fat32FileSystem) (n : Z) (D : gset Z).
Context (W : well_formed fs n D) (path name : str).

Abbreviation A := (abstract fs n D).

Lemma target_none err : target A path = None →
  resolve_parent path err fs = Done (fs, Err err).
Proof.
  rw /target /resolve_parent. case: (_ || _) => // Hr.
  destruct (parse_resolve fs n D W path None) as [r [-> E]]; [done|].
  rw E in Hr. by case: r Hr {E}.
Qed.

Lemma target_dir p : target A path = Some (NDir p) →
  p ∈ D ∧ ∀ err, resolve_parent path err fs = Done (fs, Ok p).
Proof.
  have [V T _ _ _ _] := W. rw /target /resolve_parent. case: (_ || _).
  { move=> [<-]. split; [apply T|done]. }
  move=> Hr. destruct (parse_resolve fs n D W path None) as [r [Ep E]]; [done|].
  rw E in Hr. case: r Ep Hr {E} => [f|] Ep //. cbn. rw /node_of.
  case Ed: (is_directory f) => // -[<-]. split; [|by rw Ep].
  destruct (parse_path_ok fs n D V T path None) as [r [Er Hr]]; [done|].
  rw Ep in Er. injection Er as <-. by apply Hr.
Qed.

Context (p : Z) (Ht : target A path = Some (NDir p)).
Context (Hname : Forall name_char name) (Hfree : (0 < a_free A)%nat).

(** The first free cluster. *)
Lemma free_cluster : ∃ c, first_free fs c ∧ c < n + 2 ∧ c < 50000.
Proof. by apply free_first. Qed.

Lemma parent_valid : p ∈ D ∧ 2 <= p < n + 2 ∧ fat_get fs p ≠ 0.
Proof.
  destruct (target_dir p Ht) as [Hp _]. have [V T _ HU _ _] := W.
  split; [done|]. split; [by eapply tree_valid|by apply HU].
Qed.

(** All that a creation needs. *)
Lemma creation_exists s : canon name = Some s → (0 < ad_room (dir_of fs n p))%nat →
  ∃ b x c rs tail rs1 e rs2 tail',
    sfn_canonical b x ∧ s = sfn_text b x
    ∧ creation fs n path name (sfn_bytes b x) p c rs tail rs1 e rs2 tail'
    ∧ Forall plain_record rs1 ∧ Forall plain_record rs2
    ∧ Forall (λ x, byte_at x 0 = 0x00) tail'.
Proof.
  move=> Hs Hroom. destruct (target_dir p Ht) as [Hp Hr]. destruct parent_valid as (_ & Hv & _).
  have := format_canon name Hname. rw Hs => -[b [x [Hc [-> Hf]]]].
  destruct free_cluster as (c & Hc1 & Hc2 & Hc3). have [V T HD _ _ _] := W.
  destruct (HD p Hp) as (rs & tail & Hpl).
  destruct (room_place fs p rs tail Hpl Hroom) as (rs1 & e & rs2 & tail' & Hplace & ? & ? & ?).
  exists b, x, c, rs, tail, rs1, e, rs2, tail'. do 2 (split; [done|]). split; [|done].
  split; try done; [by apply startable_sfn, Hc|by destruct Hpl].
Qed.
End creating.

Lemma creation_linked `{Profile} `{UnicodeCase} fs fs' n D path name b x p c rs tail rs1 e rs2 tail' attr :
  well_formed fs n D → p ∈ D → sfn_canonical b x →
  creation fs n path name (sfn_bytes b x) p c rs tail rs1 e rs2 tail' →
  reserved fs fs' n c → is_byte attr → Z.land attr 0x08 = 0 → attr ≠ ATTR_LFN →
  directory fs' p (rs1 ++ Short (entry_bytes (sfn_bytes b x) attr c) :: rs2) tail' →
  (∀ d, 2 <= d < n + 2 → d ≠ p → d ≠ c → cluster_data fs' d = cluster_data fs d) →
  Forall plain_record rs1 → Forall plain_record rs2 → Forall (λ x, byte_at x 0 = 0x00) tail' →
  linked fs fs' n D p c (rs1 ≫= infos)
    (mkFileInfo (sfn_text b x) (negb (Z.land attr ATTR_DIRECTORY =? 0)) 0 c) (rs2 ≫= infos).
Proof.
  move=> W Hp Hbx C R Ha Hl Hlfn Hd Hsame Hp1 Hp2 Hz. have V' := rv_volume _ _ _ _ R.
  have Esn := short_name_to_string_sfn b x (proj1 Hbx).
  have [Hb Hf] := creation_listings _ _ _ _ _ _ _ _ _ _ _ _ _ _ attr C V' Ha Hl Hd.
  have [Hc Hc32] := creation_cluster _ _ _ _ _ _ _ _ _ _ _ _ _ C.
  destruct C as [V Hpv _ _ Hs _ _ Hdir Hplace].
  destruct (fat_dir_entry_bytes (sfn_bytes b x) attr c) as (E0 & E11 & _); [by apply Hs|done..|].
  split; try done; rw ?Hf ?Esn //.
  - exists (rs1 ++ Short (entry_bytes (sfn_bytes b x) attr c) :: rs2), tail'.
    split; [done|]. split; [|done]. apply Forall_app; split; [done|]. constructor; [|done].
    split; [by rw /is_label E11 Hl|]. right; right. by exists b, x.
  - exists (rs1 ≫= layout), e, (entry_bytes (sfn_bytes b x) attr c), ((rs2 ≫= layout) ++ tail').
    split; [by eapply slot_chunks|]. destruct Hd as [Ed _]. split; [by rw Ed bind_app bind_cons -!app_assoc|].
    destruct Hdir as [_ [Hr Ht]].
    destruct (free_place_chunks _ _ _ _ _ _ Hplace Hr Ht) as (_ & _ & ? & _). split; [done|].
    destruct (used_entry_bytes (sfn_bytes b x) attr c Hs Ha Hlfn Hc32) as (_ & ? & ? & _).
    rw /free_slot. naive_solver.
  - by destruct (sfn_text_dots b x (proj1 Hbx)) as [? ?] => -[].
Qed.

Section link_steps.
Context `{Profile} (fs fs' : Fat32FileSystem) (n : Z) (D : gset Z) (p c : Z).
Context (l1 : list FileInfo) (new : FileInfo) (l2 : list FileInfo).
Context (L : linked fs fs' n D p c l1 new l2).

Abbreviation A := (abstract fs n D).
Abbreviation links l := (link_of fs n <$> filter (λ f, ¬ is_dots f) l).

Lemma linked_fresh : fresh_ino A c.
Proof.
  destruct L. have Hn := reserved_not_dir fs fs' n c D lk_wf0 lk_reserved0. split.
  - by rw dirs_lookup bool_decide_eq_false_2.
  - move=> d ls l /dirs_in [Hd ->]. cbn [ad_links dir_of].
    move=> /list_elem_of_fmap [f [-> Hf]]. cbn [ln_node link_of]. rw /node_of => E.
    case Ed: (is_directory f) E => /= E.
    + have [Hl Hdot] := children_in fs d f Hf. apply Hn. rw -E.
      have T := wf_tree _ _ _ lk_wf0.
      eapply (tree_child _ _ _ T d _ f Hd (listing_done fs n D lk_wf0 d Hd) Hl Ed);
        rw /is_dots in Hdot; naive_solver.
    + apply (reserved_fresh fs fs' n c D lk_wf0 lk_reserved0).
      apply (owned_file fs n D d f); try done.
      have Hch := file_chain fs n D lk_wf0 d f Hd Hf Ed. rw E in Hch.
      destruct (fat_chain_cons _ _ _ _ Hch) as [ds ->]. set_solver.
Qed.

(** The directories of the abstract state after the update. *)
Lemma linked_dirs d : d ∈ D →
  dir_of fs' n d = if bool_decide (d = p)
    then with_link (dir_of fs n p) (links l1)
      (mkLink (fi_name new) (if is_directory new then NDir c else NFile c [])) (links l2)
    else dir_of fs n d.
Proof.
  move=> Hd. have [Ep _] := added_dir fs fs' n D p c l1 new l2 L. destruct L.
  case_bool_decide; [by subst d|].
  apply (kept_dir fs fs' n c p D); try done. by apply (kept_data fs fs' n c p D).
Qed.

Lemma linked_plain d : d ∈ D → ∃ rs tail, plain_directory fs' d rs tail.
Proof.
  move=> Hd. destruct L. destruct (decide (d = p)) as [->|Hne]; [done|].
  destruct (wf_dir _ _ _ lk_wf0 d Hd) as (rs & tail & Hpl). exists rs, tail.
  eapply plain_directory_frame; [|done]. by apply (kept_data fs fs' n c p D).
Qed.

Lemma linked_used d : d ∈ D → fat_get fs' d ≠ 0.
Proof.
  move=> Hd. destruct L. have Hn := reserved_not_dir fs fs' n c D lk_wf0 lk_reserved0.
  have [V T _ HU _ _] := lk_wf0. have ? := tree_valid _ _ _ T d Hd.
  rw (rv_fat _ _ _ _ lk_reserved0); [lia| |by apply HU]. by move=> E; subst d.
Qed.

Lemma linked_tree (N : gset Z) :
  (∀ d, d ∈ N → d = c) → (is_directory new = true → c ∈ N) →
  (∀ d files' f, d ∈ N → list_directory_entries fs' d = Done files' → f ∈ files' →
     fi_name f = lit "." ∨ fi_name f = lit ".." ∧ (start_cluster f = 0 ∨ start_cluster f ∈ D)) →
  tree fs' n (D ∪ N).
Proof.
  move=> HN Hdir Hnew. destruct L. have [V T _ _ _ _] := lk_wf0.
  have V' := rv_volume _ _ _ _ lk_reserved0.
  apply (tree_grow fs); try done; [by apply lk_reserved0|by move=> d /HN ->; apply lk_reserved0|].
  move=> d files files' f Hd El El' Hf. destruct (decide (d = p)) as [->|Hne].
  - rw lk_before0 in El. rw lk_after0 in El'. injection El as <-. injection El' as <-.
    apply elem_of_app in Hf as [Hf|Hf]; [left; set_solver|].
    apply elem_of_cons in Hf as [->|Hf]; [|left; set_solver]. right.
    split; [rw /is_dots in lk_name0; naive_solver|]. by rw lk_start0.
  - left. rw (listing_frame fs fs' n D lk_wf0 V') // in El'; [|congruence].
    by apply (kept_data fs fs' n c p D).
Qed.
End link_steps.

Section create_steps.
Context `{Profile} (fs fs' : Fat32FileSystem) (n : Z) (D : gset Z) (p c : Z).
Context (l1 : list FileInfo) (new : FileInfo) (l2 : list FileInfo).
Context (L : linked fs fs' n D p c l1 new l2).

Abbreviation A := (abstract fs n D).
Abbreviation links l := (link_of fs n <$> filter (λ f, ¬ is_dots f) l).

(** The new link is a file. *)
Lemma file_step : is_directory new = false →
  well_formed fs' n D
  ∧ abstract fs' n D =
      put_dir p (with_link (dir_of fs n p) (links l1) (mkLink (fi_name new) (NFile c [])) (links l2))
        (take_cluster A).
Proof.
  move=> Ed. have Hfiles := added_files fs fs' n D p c l1 new l2 L. rw Ed /= in Hfiles.
  have HR := lk_reserved _ _ _ _ _ _ _ _ _ L. have Hp := lk_dir _ _ _ _ _ _ _ _ _ L.
  have W := lk_wf _ _ _ _ _ _ _ _ _ L. split; [split|].
  - apply HR.
  - rw -(right_id_L ∅ (∪) D). apply (linked_tree fs fs' n D p c l1 new l2 L); rw ?Ed //.
    all: by move=> d; rw elem_of_empty.
  - by apply (linked_plain fs fs' n D p c l1 new l2).
  - by apply (linked_used fs fs' n D p c l1 new l2).
  - move=> d f. by apply (added_file fs fs' n D p c l1 new l2).
  - rw /owned Hfiles -Permutation_middle. apply NoDup_cons. split; [|apply W].
    by apply (reserved_fresh fs fs' n c D W HR).
  - have Hdirs := linked_dirs fs fs' n D p c l1 new l2 L. rw Ed in Hdirs.
    apply abstract_eq; cbn [put_dir take_cluster a_root a_limit a_free a_dirs].
    + apply HR.
    + apply HR.
    + by apply (reserved_free fs fs' n c).
    + move=> d Hd. rw Hdirs //. destruct (decide (d = p)) as [->|Hne].
      * by rw lookup_insert_eq bool_decide_eq_true_2.
      * rw lookup_insert_ne // dirs_lookup bool_decide_eq_true_2 // bool_decide_eq_false_2 //.
    + move=> d Hd. rw lookup_insert_ne; [by move=> E; subst d|].
      by rw dirs_lookup bool_decide_eq_false_2.
Qed.

(** The new link is a directory. *)
Context (Hdata : cluster_data fs' c = dir_cluster fs' c p) (Ed : is_directory new = true).

Lemma new_dir_range : 0 <= c < 2 ^ 32 ∧ 0 <= p < 2 ^ 32 ∧ 2 <= p ∧ c ≠ root_cluster fs'.
Proof.
  destruct L. have [V T _ _ _ _] := lk_wf0. have ? := volume_sectors fs n V.
  have ? := tree_valid _ _ _ T p lk_dir0. have := tree_root _ _ _ T.
  have Hn := reserved_not_dir fs fs' n c D lk_wf0 lk_reserved0. destruct lk_reserved0.
  rw rv_root. destruct V. have ? : p < 2 ^ 32 by nia. have ? : c < 2 ^ 32 by nia.
  move=> Hr. repeat split; try lia. move=> E. apply Hn. by rw E.
Qed.

Lemma new_dir_listing : list_directory_entries fs' c = Done
  [mkFileInfo (lit ".") true 0 c;
   mkFileInfo (lit "..") true 0 (if p =? root_cluster fs' then 0 else p)].
Proof.
  destruct new_dir_range as (? & ? & _). destruct L. destruct lk_reserved0.
  apply (dir_cluster_listing fs' n); [done|lia|done..].
Qed.

Lemma new_dir_plain : ∃ rs tail, plain_directory fs' c rs tail.
Proof.
  destruct new_dir_range as (Hc & Hp & _). have Hd := dir_cluster_directory fs' c p Hc Hp Hdata.
  have Hpv : 0 <= (if p =? root_cluster fs' then 0 else p) < 2 ^ 32 by case_test.
  eexists _, _. split; [exact Hd|]. split.
  - destruct (fat_dir_entry_bytes (lit ".          ") 0x10 c) as (E0 & E1 & _); [done..|].
    destruct (fat_dir_entry_bytes (lit "..         ") 0x10
      (if p =? root_cluster fs' then 0 else p)) as (F0 & F1 & _); [done..|].
    constructor; [|constructor; [|constructor]]; (split; [by rw /is_label ?E1 ?F1|]); naive_solver.
  - eapply Forall_impl; [apply zeros_chunks|]. by move=> x [_ ?].
Qed.

Lemma new_dir_abstract : dir_of fs' n c = empty_dir A p ∧ file_clusters fs' n c = [].
Proof.
  have El := new_dir_listing. destruct new_dir_range as (Hc & Hp & ? & Hr).
  have Ech : children fs' c = [] by rw /children /listing El !filter_cons_False //=; rw /is_dots; naive_solver.
  split; [|by rw /file_clusters Ech]. rw /dir_of /empty_dir Ech /find_parent_cluster. f_equal.
  - ztrue. rw El bind_Done find_named_cons bool_decide_eq_false_2 // find_named_cons bool_decide_eq_true_2 //=.
    do 2 f_equal. case_test; case_test; congruence || lia.
  - destruct (dir_cluster_directory fs' c p Hc Hp Hdata) as [E32 [Hrs _]]. rw /ENTRY_SIZE in E32. rw E32.
    have Hz := zeros_chunks (Z.to_nat (cluster_size fs') - 64).
    have Hnd : Forall not_deleted [Short (entry_bytes (lit ".          ") 0x10 c);
      Short (entry_bytes (lit "..         ") 0x10 (if p =? root_cluster fs' then 0 else p))] by repeat constructor.
    have Ho := records_occupied _ Hrs Hnd. rw filter_app length_app.
    assert (∀ l, Forall occupied l → filter free_slot l = []) as Ho'.
    { move=> l. elim=> [|x k [_ ?] _ IH] //. by rw filter_cons_False. }
    assert (∀ l, Forall (λ e, zlen e = 32 ∧ byte_at e 0 = 0x00) l → filter free_slot l = l) as Hz'.
    { move=> l. elim=> [|x k [_ ?] _ IH] //. rw filter_cons_True; [by left|]. by rw IH. }
    rw Ho' // Hz' // length_chunks_exact zlen_replicate /=.
    have -> : cluster_size fs' = cluster_size fs by destruct L; apply lk_reserved0.
    have ? : 512 <= cluster_size fs < 2 ^ 24 by destruct L; destruct lk_wf0; eapply cluster_size_bounds.
    rw Nat2Z.inj_sub; [lia|]. rw Z2Nat.id; [lia|].
    have -> : cluster_size fs - Z.of_nat 64 = cluster_size fs + (-2) * 32 by lia. rw Z.div_add //. lia.
Qed.

Lemma new_dir_fresh : c ∉ D.
Proof. destruct L. exact (reserved_not_dir fs fs' n c D lk_wf0 lk_reserved0). Qed.

Lemma new_dir_wf : well_formed fs' n (D ∪ {[c]}).
Proof.
  have Hfiles := added_files fs fs' n D p c l1 new l2 L. rw Ed /= in Hfiles.
  have HR := lk_reserved _ _ _ _ _ _ _ _ _ L. have W := lk_wf _ _ _ _ _ _ _ _ _ L.
  have Hp := lk_dir _ _ _ _ _ _ _ _ _ L. destruct new_dir_abstract as [_ Ef]. split.
  - apply HR.
  - apply (linked_tree fs fs' n D p c l1 new l2 L).
    + by move=> d /elem_of_singleton.
    + move=> _. by apply elem_of_singleton.
    + move=> d files' f /elem_of_singleton ->. rw new_dir_listing => -[<-].
      move=> /elem_of_cons [->|/list_elem_of_singleton ->]; [by left|right].
      split; [done|]. cbn [start_cluster]. case_test; [by left|by right].
  - move=> d /elem_of_union [|/elem_of_singleton ->]; [|apply new_dir_plain].
    by apply (linked_plain fs fs' n D p c l1 new l2).
  - move=> d /elem_of_union [|/elem_of_singleton ->]; [by apply (linked_used fs fs' n D p c l1 new l2)|].
    by destruct HR as [_ _ _ _ _ -> _].
  - move=> d f /elem_of_union [|/elem_of_singleton ->];
      [by apply (added_file fs fs' n D p c l1 new l2)|].
    rw /children /listing new_dir_listing !filter_cons_False //=; try by rw elem_of_nil.
    all: rw /is_dots; naive_solver.
  - have Ep : elements (D ∪ {[c]}) ≡ₚ c :: elements D
      by rw (comm_L (∪)) elements_union_singleton; [apply new_dir_fresh|].
    rw /owned (bind_Permutation _ _ _ Ep) bind_cons Ef app_nil_l Ep Hfiles.
    apply NoDup_cons. split; [|apply W]. by apply (reserved_fresh fs fs' n c D W HR).
Qed.

Lemma dir_step :
  abstract fs' n (D ∪ {[c]}) =
    put_dir p (with_link (dir_of fs n p) (links l1) (mkLink (fi_name new) (NDir c)) (links l2))
      (put_dir c (empty_dir A p) (take_cluster A)).
Proof.
  have HR := lk_reserved _ _ _ _ _ _ _ _ _ L. have W := lk_wf _ _ _ _ _ _ _ _ _ L.
  have Hp := lk_dir _ _ _ _ _ _ _ _ _ L. have Hc := new_dir_fresh.
  have Hdirs := linked_dirs fs fs' n D p c l1 new l2 L. rw Ed in Hdirs.
  destruct new_dir_abstract as [Ec _].
  apply abstract_eq; cbn [put_dir take_cluster a_root a_limit a_free a_dirs].
  - apply HR.
  - apply HR.
  - by apply (reserved_free fs fs' n c).
  - move=> d /elem_of_union [Hd|/elem_of_singleton ->].
    + rw Hdirs //. destruct (decide (d = p)) as [->|Hne].
      * by rw lookup_insert_eq bool_decide_eq_true_2.
      * rw lookup_insert_ne // lookup_insert_ne; [by move=> E; subst d|].
        rw dirs_lookup bool_decide_eq_true_2 // bool_decide_eq_false_2 //.
    + rw lookup_insert_ne; [by move=> E; rw E in Hp|]. by rw lookup_insert_eq Ec.
  - move=> d Hd. rw lookup_insert_ne; [by move=> E; apply Hd; set_solver|].
    rw lookup_insert_ne; [by move=> E; apply Hd; set_solver|].
    rw dirs_lookup bool_decide_eq_false_2 //. set_solver.
Qed.
End create_steps.
