(* ===== verification/FsWrite.v ===== *)
(** * Writing implements the abstract write

    On a well-formed volume a path that leads to a plain file is [writable],
    and writing it replaces exactly the content of that file in the abstract
    state. *)

From S2P Require Import Prelude Machine Str Volume DirEntry Names DirSpec Path Stability.
From S2P Require Import FileOps FileOpsSpec WriteSpec CreateSpec FsModel FsAbs FsFrame FsRefine.

(** ** Finding the entry *)

(** The record that a name leads to. *)
Lemma find_record name rs f :
  find_named name (rs ≫= infos) = Some f → fi_name f = name ∧
  ∃ rs1 r rs2, rs = rs1 ++ r :: rs2 ∧ infos r = [f] ∧ find_named name (rs1 ≫= infos) = None.
Proof.
  move=> E. split; [by apply find_named_Some in E as [_ ?]|].
  elim: rs E => [|r rs IH] //. rw bind_cons find_named_app.
  case E: (find_named name (infos r)) => [g|].
  - move=> [<-]. exists [], r, rs. split; [done|]. split; [|done].
    apply find_named_Some in E as [Hg _].
    move: Hg. case: r => [e|us e|e] /=; try case: (is_label e); try by rw elem_of_nil.
    all: by move=> /list_elem_of_singleton ->.
  - move=> /IH [rs1 [r' [rs2 [-> [? Hn]]]]]. exists (r :: rs1), r', rs2.
    split; [done|]. split; [done|]. by rw bind_cons find_named_app E.
Qed.

Lemma find_named_None name files : find_named name files = None ↔ Forall (λ f, fi_name f ≠ name) files.
Proof.
  elim: files => [|f files IH]; [by split|]. rw find_named_cons Forall_cons. case_bool_decide; naive_solver.
Qed.

Section entry.
Context `{UnicodeCase}.

(** A plain record with a name that is neither [.] nor [..]. *)
Lemma plain_entry r f : plain_record r → infos r = [f] → ¬ is_dots f →
  ∃ e b x, r = Short e ∧ is_label e = false ∧ sfn_canonical b x
    ∧ sub 0 11 e = sfn_bytes b x ∧ f = short_info e ∧ fi_name f = sfn_text b x.
Proof.
  case: r => [e|us e|e] //= [Hl Hn]. rw Hl => -[Ef] Hd.
  have Ef' : f = short_info e by rw -Ef. have En : fi_name f = short_name_to_string (sub 0 11 e) by rw -Ef.
  destruct Hn as [Hn|[Hn|(b & x & Hbx & Hn)]].
  - exfalso. apply Hd. left. by rw En Hn.
  - exfalso. apply Hd. right. by rw En Hn.
  - exists e, b, x. repeat (split; [done|]). by rw En Hn short_name_to_string_sfn; [apply Hbx|].
Qed.

(** The first record of a name is the first entry with its eleven bytes. *)
Lemma first_entry b x rs : sfn_canonical b x → Forall record_ok rs → Forall plain_record rs →
  find_named (sfn_text b x) (rs ≫= infos) = None →
  Forall (λ e, sub 0 11 e ≠ sfn_bytes b x) (rs ≫= layout).
Proof.
  move=> Hbx. elim: rs => [|r rs IH]; [constructor|]. move=> /Forall_cons [Hr Hrs] /Forall_cons [Hp Hps].
  rw !bind_cons find_named_app. case E: (find_named _ (infos r)) => [//|] Hn.
  apply Forall_app; split; [|by apply IH]. case: r Hr Hp E => [e|us e|e] //= Hr Hp E.
  - constructor; [|constructor]. move=> Es. destruct Hp as [Hl _]. move: E. rw Hl Es.
    rw find_named_cons bool_decide_eq_true_2 //. cbn [fi_name entry_info].
    apply short_name_to_string_sfn, Hbx.
  - constructor; [|constructor]. move=> Es. destruct Hr as [Hz Hb].
    destruct (startable_sfn b x) as (_ & _ & _ & Hs); [by apply Hbx|]. apply Hs.
    rw -Es -Hb /byte_at lookup_sub //.
Qed.
End entry.

(** ** A file of a well-formed volume can be written *)

Section writable.
Context `{Profile} `{UnicodeCase} (fs : Fat32FileSystem) (n : Z) (D : gset Z).
Context (W : well_formed fs n D) (path parent name : str) (f : FileInfo).
Context (Hsplit : split_path path = (parent, name)) (Hname : name ≠ []).
Context (Hdot : last (path_parts parent) ≠ Some (lit ".")).
Context (Hparse : parse_path fs path None = Done (Some f)) (Hfile : is_directory f = false).

Lemma file_parent : ∃ p, parent_dir fs parent p ∧ p ∈ D ∧ walk_parts fs [name] p = Done (Some f).
Proof.
  have [V T _ _ _ _] := W. destruct (split_path_parts _ _ _ Hsplit) as [Hs Ep].
  have Hw := Hparse. rw parse_path_root Ep (path_parts_name name Hs Hname) in Hw.
  destruct (decide (path_parts parent = [])) as [E|Hne].
  - exists (root_cluster fs). rw E in Hw. split; [by constructor|]. split; [apply T|done].
  - rw walk_parts_app // in Hw. apply bind_Done_inv in Hw as [[g|] [Eg Hg]]; [|done].
    case Ed: (is_directory g) Hg => // Hg. exists (start_cluster g).
    have Hp : parent_dir fs parent (start_cluster g) by constructor; [|rw parse_path_root|].
    split; [done|]. split; [by eapply parent_dir_in|done].
Qed.

Lemma file_named p : p ∈ D → walk_parts fs [name] p = Done (Some f) →
  ¬ is_dots f ∧ find_named name (listing fs p) = Some f.
Proof.
  move=> Hp. have Hl := listing_done fs n D W p Hp. have [V T _ _ _ _] := W.
  cbn [walk_parts is_empty]. rw Hl bind_Done. case_bool_decide as H1; [done|].
  case_bool_decide as H2.
  - destruct (find_parent_ok fs n D V T p Hp) as [[d|] [-> _]] => //= -[E]. move: Hfile. by rw -E.
  - case E: (find_named name (listing fs p)) => [g|] // -[<-]. split; [|done].
    apply find_named_Some in E as [_ En]. rw /is_dots En. naive_solver.
Qed.

Lemma file_writable : ∃ p rs1 e rs2 tail b x,
  p ∈ D ∧ writable fs n D path parent name p rs1 e rs2 tail ∧ f = short_info e
  ∧ sfn_canonical b x ∧ sub 0 11 e = sfn_bytes b x
  ∧ Forall plain_record rs1 ∧ Forall plain_record rs2
  ∧ Forall (λ y, byte_at y 0 = 0x00) tail ∧ ¬ is_dots f ∧ f ∈ children fs p.
Proof.
  have [V T HD HU HF HN] := W. destruct file_parent as (p & Hpd & Hp & Hw).
  destruct (file_named p Hp Hw) as [Hnd Hf]. destruct (HD p Hp) as (rs & tail & Hdir & Hpl & Hz).
  have Hv := tree_valid _ _ _ T p Hp.
  have Hch : f ∈ children fs p.
  { apply find_named_Some in Hf as [? _]. by apply list_elem_of_filter. }
  rw /listing (listing_records _ _ _ _ _ V Hv Hdir) in Hf.
  destruct (find_record _ _ _ Hf) as (En & rs1 & r & rs2 & -> & Ei & Hn).
  apply Forall_app in Hpl as [Hp1 [Hpr Hp2]%Forall_cons].
  destruct (plain_entry r f Hpr Ei Hnd) as (e & b & x & -> & Hl & Hbx & Es & Ef & Ex).
  have Hchain := file_chain fs n D W p f Hp Hch Hfile.
  destruct (fat_chain_cons _ _ _ _ Hchain) as [ds Eds].
  exists p, rs1, e, rs2, tail, b, x. split; [done|]. split; [|done].
  have Hok := Hdir. destruct Hok as (_ & Hr & _). apply Forall_app in Hr as [Hr1 _].
  have Enx : name = sfn_text b x by congruence.
  split; rw -?Ef ?Es; try done.
  - rw Enx. by apply format_sfn_canonical.
  - rw Enx. by apply short_name_to_string_sfn, Hbx.
  - apply first_entry; try done. by rw -Enx.
  - have := fat_chain_valid _ _ _ _ Hchain. by rw Eds => /Forall_cons [].
  - move=> Hc. apply (dir_no_file fs n D W _ p f Hc Hp Hch Hfile). rw Eds. set_solver.
Qed.
End writable.

(** ** What a write changes *)

(** [fs'] is [fs] with [new] written to the file [f] of the directory [p]. *)
Record rewritten `{Profile} (fs fs' : Fat32FileSystem) (n : Z) (D : gset Z) (p : Z)
    (l1 : list FileInfo) (f : FileInfo) (l2 : list FileInfo) (new : list Z) : Prop := {
  rw_wf : well_formed fs n D;
  rw_volume : volume fs' n;
  rw_root : root_cluster fs' = root_cluster fs;
  rw_size : cluster_size fs' = cluster_size fs;
  rw_dir : p ∈ D;
  rw_same : ∀ d, 2 <= d < n + 2 → d ≠ start_cluster f → d ≠ p → cluster_data fs' d = cluster_data fs d;
  rw_fat : ∀ d, 0 <= d < n + 2 → fat_get fs' d = fat_get fs d;
  rw_data : cluster_data fs' (start_cluster f) = splice 0 new (cluster_data fs (start_cluster f));
  rw_before : list_directory_entries fs p = Done (l1 ++ f :: l2);
  rw_after : list_directory_entries fs' p =
    Done (l1 ++ mkFileInfo (fi_name f) false (zlen new) (start_cluster f) :: l2);
  rw_plain : ∃ rs tail, plain_directory fs' p rs tail;
  rw_slot : ∃ pre e x post, chunks_exact 32 (cluster_data fs p) = pre ++ e :: post
    ∧ chunks_exact 32 (cluster_data fs' p) = pre ++ x :: post ∧ ¬ free_slot e ∧ ¬ free_slot x;
  rw_name : ¬ is_dots f;
  rw_file : is_directory f = false;
}.

Section rewritten.
Context `{Profile} (fs fs' : Fat32FileSystem) (n : Z) (D : gset Z) (p : Z).
Context (l1 : list FileInfo) (f : FileInfo) (l2 : list FileInfo) (new : list Z).
Context (X : rewritten fs fs' n D p l1 f l2 new).

Abbreviation A := (abstract fs n D).
Abbreviation shown := (filter (λ f, ¬ is_dots f)).
Abbreviation links l := (link_of fs n <$> shown l).
Abbreviation f' := (mkFileInfo (fi_name f) false (zlen new) (start_cluster f)).

Lemma rewritten_children :
  children fs p = shown l1 ++ f :: shown l2 ∧ children fs' p = shown l1 ++ f' :: shown l2.
Proof.
  destruct X. rw /children /listing rw_before0 rw_after0 !filter_app. by rw !filter_cons_True.
Qed.

Lemma rewritten_chain : fat_chain fs n (start_cluster f) (clusters fs n f)
  ∧ start_cluster f ∈ clusters fs n f.
Proof.
  have [Ec _] := rewritten_children. destruct X.
  have Hch : fat_chain fs n (start_cluster f) (clusters fs n f).
  { eapply (file_chain fs n D rw_wf0 p); try done. rw Ec. set_solver. }
  split; [done|]. destruct (fat_chain_cons _ _ _ _ Hch) as [ds ->]. set_solver.
Qed.

(** The clusters of other files, and their FAT entries. *)
Lemma rewritten_other d g x : d ∈ D → g ∈ children fs d → is_directory g = false →
  x ∈ clusters fs n g → x ≠ start_cluster f → untouched fs fs' x.
Proof.
  move=> Hd Hg Eg Hx Hne. destruct X.
  have Hv := owned_valid fs n D rw_wf0 x (owned_file fs n D d g x Hd Hg Eg Hx).
  split; [apply rw_fat0; lia|]. apply rw_same0; [done..|].
  move=> E. subst x. exact (dir_no_file fs n D rw_wf0 p d g rw_dir0 Hd Hg Eg Hx).
Qed.

Lemma rewritten_fat d g : d ∈ D → g ∈ children fs d → is_directory g = false →
  fat_chain fs' n (start_cluster g) (clusters fs n g).
Proof.
  move=> Hd Hg Eg. destruct X. apply (fat_chain_frame fs); [by apply (file_chain fs n D rw_wf0 d)|].
  move=> x Hx. apply rw_fat0.
  have := owned_valid fs n D rw_wf0 x (owned_file fs n D d g x Hd Hg Eg Hx). lia.
Qed.

Lemma rewritten_data d : d ∈ D → d ≠ p → cluster_data fs' d = cluster_data fs d.
Proof.
  move=> Hd Hne. have [Ec _] := rewritten_children. have [_ Hs] := rewritten_chain. destruct X.
  apply rw_same0; [by eapply (tree_valid _ _ _ (wf_tree _ _ _ rw_wf0))| |done].
  move=> E. subst d. eapply (dir_no_file fs n D rw_wf0 _ p f Hd rw_dir0); try done. rw Ec. set_solver.
Qed.

Lemma rewritten_kept d : d ∈ D → d ≠ p →
  dir_of fs' n d = dir_of fs n d ∧ file_clusters fs' n d = file_clusters fs n d.
Proof.
  move=> Hd Hne. have E := rewritten_data d Hd Hne. have [Ec _] := rewritten_children.
  have [_ Hs] := rewritten_chain. have Hother := rewritten_other d. destruct X.
  apply dir_frame with D; try done. move=> g x Hg Eg Hx. apply (Hother g); try done.
  move=> E'. subst x. have Hne' : p ≠ d by congruence.
  refine (file_no_file fs n D rw_wf0 p d f g _ rw_dir0 Hd Hne' _ rw_file0 Hs Hg Eg Hx).
  rw Ec. set_solver.
Qed.

Lemma rewritten_link g : g ∈ shown l1 ++ shown l2 → link_of fs' n g = link_of fs n g.
Proof.
  move=> Hg. have [Ec _] := rewritten_children. have [_ Hs] := rewritten_chain.
  have Hother := rewritten_other p g. destruct X.
  have Hgc : g ∈ children fs p by rw Ec; set_solver.
  apply link_frame; [by apply (file_chain fs n D rw_wf0 p)|]. move=> Eg x Hx. apply Hother; try done.
  move=> E. subst x. by eapply (sibling_no_file fs n D rw_wf0 p (shown l1) f (shown l2) g).
Qed.

(** The file has the new content. *)
Lemma rewritten_content : link_of fs' n f' = mkLink (fi_name f) (NFile (start_cluster f) new).
Proof.
  have [Ec _] := rewritten_children. have [Hch _] := rewritten_chain.
  have Hf : f ∈ children fs p by rw Ec; set_solver.
  have Hch' : fat_chain fs' n (start_cluster f) (clusters fs n f).
  { destruct X. by eapply rewritten_fat. }
  destruct (fat_chain_cons _ _ _ _ Hch') as [ds E]. rw E in Hch'. destruct X.
  rw /link_of /node_of /content. cbn [is_directory fi_name fi_size start_cluster].
  rw (clusters_chain fs' n f' (start_cluster f :: ds)) //. cbn [fmap list_fmap concat].
  rw rw_data0 /splice /= -app_assoc to_nat_zlen take_app_length //.
Qed.

Lemma rewritten_parent : find_parent_cluster fs' p = find_parent_cluster fs p.
Proof.
  destruct X. rw /find_parent_cluster rw_root0 rw_before0 rw_after0 !bind_Done.
  rw !find_named_app !find_named_cons !bool_decide_eq_false_2 //;
    move=> E; apply rw_name0; by right.
Qed.

Lemma rewritten_dir :
  dir_of fs' n p = with_links (dir_of fs n p)
    (links l1 ++ mkLink (fi_name f) (NFile (start_cluster f) new) :: links l2)
  ∧ ad_links (dir_of fs n p) =
      links l1 ++ mkLink (fi_name f) (NFile (start_cluster f) (content fs n f)) :: links l2.
Proof.
  have [Ec Ec'] := rewritten_children. rw /dir_of /with_links. cbn [ad_parent ad_links ad_room].
  rw Ec Ec' rewritten_parent !fmap_app !fmap_cons rewritten_content. split.
  - f_equal.
    + f_equal; [|f_equal]; apply list_fmap_ext => i g Hi; apply rewritten_link, elem_of_app;
        [left|right]; by eapply list_elem_of_lookup_2.
    + destruct X. destruct rw_slot0 as (pre & e & x & post & -> & -> & He & Hx).
      by rw !filter_app !filter_cons_False.
  - destruct X. by rw {2}/link_of /node_of rw_file0.
Qed.

Lemma rewritten_clusters d : d ∈ D → file_clusters fs' n d = file_clusters fs n d.
Proof.
  move=> Hd. destruct (decide (d = p)) as [->|Hne]; [|by apply rewritten_kept].
  have [Ec Ec'] := rewritten_children. have [Hch _] := rewritten_chain.
  have Hfat : ∀ g, g ∈ children fs p → is_directory g = false → clusters fs' n g = clusters fs n g.
  { move=> g ??. apply clusters_chain. by apply (rewritten_fat p). }
  destruct X. rw /file_clusters Ec Ec' !filter_app !filter_cons_True // !bind_app !bind_cons.
  have Ef : clusters fs' n f' = clusters fs n f by apply (Hfat f); [rw Ec; set_solver|].
  rw Ef. f_equal; [|f_equal]; apply Forall_bind_ext, Forall_forall => g /list_elem_of_filter [Eg Hg];
    apply Hfat; try done; rw Ec; set_solver.
Qed.

Lemma rewritten_tree : tree fs' n D.
Proof.
  destruct X. have [V T _ _ _ _] := rw_wf0. rw -(right_id_L ∅ (∪) D).
  apply (tree_grow fs); [done..|by move=> d /elem_of_empty| |by move=> d files g /elem_of_empty].
  move=> d files files' g Hd El El' Hg. destruct (decide (d = p)) as [->|Hne].
  - rw rw_before0 in El. rw rw_after0 in El'. injection El as <-. injection El' as <-.
    apply elem_of_app in Hg as [Hg|Hg]; [left; set_solver|].
    apply elem_of_cons in Hg as [->|Hg]; [|left; set_solver]. right.
    split; [rw /is_dots in rw_name0; naive_solver|done].
  - left. rw (listing_frame fs fs' n D rw_wf0) // in El'; [by apply rewritten_data|congruence].
Qed.

Lemma rewritten_files d g : d ∈ D → g ∈ children fs' d → is_directory g = false →
  ∃ cs, fat_chain fs' n (start_cluster g) cs.
Proof.
  have [Ec Ec'] := rewritten_children. move=> Hd Hg Eg. destruct (decide (d = p)) as [->|Hne].
  - rw Ec' in Hg. have Hg' : g ∈ children fs p ∨ g = f' by rw Ec; set_solver.
    destruct Hg' as [?| ->]; [by eexists; apply (rewritten_fat p)|].
    eexists. apply (rewritten_fat p f); [done|rw Ec; set_solver|by destruct X].
  - rw (children_frame fs fs' n D) // in Hg; try (by destruct X); [by apply rewritten_data|].
    by eexists; apply (rewritten_fat d).
Qed.

Lemma rewritten_step :
  well_formed fs' n D
  ∧ abstract fs' n D = put_dir p (with_links (dir_of fs n p)
      (links l1 ++ mkLink (fi_name f) (NFile (start_cluster f) new) :: links l2)) A.
Proof.
  have Ht := rewritten_tree. have Hdir := proj1 rewritten_dir. have Hkept := rewritten_kept.
  have Hcl := rewritten_clusters. have Hdata := rewritten_data. have Hfiles := rewritten_files.
  destruct X. have [V T HD HU HF HN] := rw_wf0. split; [split; try done|].
  - move=> d Hd. destruct (decide (d = p)) as [->|Hne]; [done|].
    destruct (HD d Hd) as (rs & tail & Hpl). exists rs, tail.
    eapply plain_directory_frame; [by apply Hdata|done].
  - move=> d Hd. have ? := tree_valid _ _ _ T d Hd. rw rw_fat0; [lia|]. by apply HU.
  - rw /owned (bind_ext_elements (file_clusters fs n) (file_clusters fs' n)) //.
  - apply abstract_eq; cbn [put_dir a_root a_limit a_free a_dirs]; try done.
    + rw /free_clusters (filter_same (λ d, fat_get fs d = 0) (λ d, fat_get fs' d = 0)) //.
      move=> d /elem_of_seqZ ?. rw rw_fat0 //. lia.
    + move=> d Hd. destruct (decide (d = p)) as [->|Hne]; [by rw lookup_insert_eq Hdir|].
      rw lookup_insert_ne // dirs_lookup bool_decide_eq_true_2 //. by destruct (Hkept d Hd Hne) as [-> _].
    + move=> d Hd. rw lookup_insert_ne; [by move=> E; subst d|].
      by rw dirs_lookup bool_decide_eq_false_2.
Qed.
End rewritten.

(** ** From [write_file] to the frame *)

Section write_rewritten.
Context `{Profile} `{UnicodeCase} (fs : Fat32FileSystem) (n : Z) (D : gset Z).
Context (W : well_formed fs n D) (path parent name : str) (p : Z).
Context (rs1 : list record) (e : list Z) (rs2 : list record) (tail : list (list Z)) (b x : str).
Context (Wr : writable fs n D path parent name p rs1 e rs2 tail).
Context (Hbx : sfn_canonical b x) (Hn11 : sub 0 11 e = sfn_bytes b x).
Context (Hp1 : Forall plain_record rs1) (Hp2 : Forall plain_record rs2).
Context (Hz : Forall (λ y, byte_at y 0 = 0x00) tail) (data : list Z) (Hdata : bytes data).

Abbreviation new := (take (Z.to_nat (cluster_size fs)) data).

(** Neither the entry nor the entry with its new size is free. *)
Lemma entry_taken k : 0 <= k < 2 ^ 32 → ¬ free_slot e ∧ ¬ free_slot (set_size e k).
Proof.
  move=> Hk. have [_ [He [Hu _]]] := writable_chunks _ _ _ _ _ _ _ _ _ _ _ Wr.
  have [_ [? [? _]]] := Hu. have [_ [? [? _]]] := used_set_size e k He Hu.
  rw /free_slot. naive_solver.
Qed.

Lemma write_rewritten : ∃ fs', write_file path data fs = Done (fs', Ok tt)
  ∧ rewritten fs fs' n D p (rs1 ≫= infos) (short_info e) (rs2 ≫= infos) new.
Proof.
  have Hok := write_file_ok _ _ _ _ _ _ _ _ _ _ _ Wr data Hdata.
  destruct (write_file_effect _ _ _ _ _ _ _ _ _ _ _ data Wr Hdata)
    as (fs' & E & V' & Ec & Ed & Ho & Hf & X).
  have [Hzn [Hk _]] := written_size _ _ _ _ _ _ _ _ _ _ _ Wr data.
  have [HpD [Hp _]] := writable_dir _ _ _ _ _ _ _ _ _ _ _ Wr.
  have Hl := writable_listing _ _ _ _ _ _ _ _ _ _ _ Wr.
  have [Hch [He _]] := writable_chunks _ _ _ _ _ _ _ _ _ _ _ Wr.
  rw -Hzn in Hk. destruct (entry_taken _ Hk) as [Ht Ht'].
  have HS : cluster_size fs' = cluster_size fs by rw E in Hok; injection Hok as ->.
  exists fs'. split; [done|]. destruct Wr. split; try done.
  - apply X.
  - rw (listing_records _ _ _ _ _ V' Hp Ed) bind_app bind_cons infos_set_size //.
    cbn [infos]. rw wr_label -/(short_info e). cbn [fmap list_fmap app]. by rw wr_file.
  - eexists _, _. split; [exact Ed|]. split; [|done]. apply Forall_app; split; [done|].
    constructor; [|done]. split; [by rw /is_label byte_at_set_size|]. right; right.
    exists b, x. by rw sub_set_size.
  - exists (rs1 ≫= layout), e, (set_size e (zlen new)), ((rs2 ≫= layout) ++ tail).
    split; [done|]. split; [|done]. destruct Ed as [Ed _]. by rw Ed bind_app bind_cons -!app_assoc.
  - rw /is_dots. cbn [fi_name short_info entry_info]. rw wr_shown.
    destruct (format_to_8_3_dots _ _ wr_format) as (_ & ? & ?). naive_solver.
Qed.
End write_rewritten.
