(* ===== verification/FsCheck.v ===== *)
(** * Checking a volume

    A decision procedure for [well_formed]: decode every directory, follow
    every chain and check that no cluster is used twice.  It is what evaluates
    the representation invariant on concrete images. *)

From S2P Require Import Prelude Machine Str Volume DirEntry Names DirSpec Path Stability.
From S2P Require Import FileOps FileOpsSpec WriteSpec FsModel FsAbs.

(** ** Entries *)

Definition sfn_charb (b : Z) : bool :=
  (33 <=? b) && (b <? 127) && negb (b =? dot) && negb (b =? slash) && (ascii_upper b =? b).

Definition sfn_canonicalb (b x : str) : bool :=
  (0 <? zlen b) && (zlen b <=? 8) && (zlen x <=? 3) && forallb sfn_charb b && forallb sfn_charb x.

Lemma sfn_charb_sound l : forallb sfn_charb l = true → Forall sfn_char l ∧ no_lower l.
Proof.
  rw forallb_forall => Hl. split; apply Forall_forall => b /list_elem_of_In /Hl;
    rw /sfn_charb !andb_true_iff !negb_true_iff /sfn_char; lia.
Qed.

Lemma sfn_canonicalb_sound b x : sfn_canonicalb b x = true → sfn_canonical b x.
Proof.
  rw /sfn_canonicalb !andb_true_iff => -[[[[? ?] ?] /sfn_charb_sound [? ?]] /sfn_charb_sound [? ?]].
  split; [split; [lia|lia|done..]|done].
Qed.

(** The short name of an entry: [.], [..], or the 8.3 form of a name. *)
Definition plain_nameb (n11 : list Z) : bool :=
  bool_decide (n11 = lit ".          ") || bool_decide (n11 = lit "..         ")
  || let b := part_to_string (sub 0 8 n11) in
     let x := part_to_string (sub 8 3 n11) in
     sfn_canonicalb b x && bool_decide (n11 = sfn_bytes b x).

Definition plain_shortb (e : list Z) : bool :=
  (zlen e =? 32) && negb (byte_at e 0 =? 0x00) && negb (byte_at e 0 =? 0xE5)
  && negb (byte_at e 11 =? ATTR_LFN) && negb (is_label e) && plain_nameb (sub 0 11 e).

Lemma plain_shortb_sound e :
  plain_shortb e = true → record_ok (Short e) ∧ plain_record (Short e).
Proof.
  rw /plain_shortb !andb_true_iff !negb_true_iff => -[[[[[? ?] ?] ?] Hl] Hn].
  split; [rw /= /used_entry; lia|]. split; [done|]. move: Hn.
  rw /plain_nameb !orb_true_iff !bool_decide_eq_true andb_true_iff bool_decide_eq_true.
  move=> [[?|?]|[/sfn_canonicalb_sound ? ?]]; [by left|by right; left|].
  right; right. by eexists _, _.
Qed.

(** ** Directories *)

(** The records of a directory of plain entries, and what follows them. *)
Fixpoint decode (chunks : list (list Z)) : option (list record * list (list Z)) :=
  match chunks with
  | [] => Some ([], [])
  | e :: es =>
      if byte_at e 0 =? 0x00 then
        if forallb (λ x, byte_at x 0 =? 0x00) es then Some ([], e :: es) else None
      else if byte_at e 0 =? 0xE5 then
        '(rs, tail) ← decode es; Some (Deleted e :: rs, tail)
      else if plain_shortb e then
        '(rs, tail) ← decode es; Some (Short e :: rs, tail)
      else None
  end.

Lemma decode_sound chunks rs tail :
  Forall (λ e, zlen e = 32) chunks → decode chunks = Some (rs, tail) →
  chunks = (rs ≫= layout) ++ tail ∧ Forall record_ok rs ∧ Forall plain_record rs
  ∧ Forall (λ e, byte_at e 0 = 0x00) tail ∧ end_of_directory tail.
Proof.
  elim: chunks rs tail => [|e es IH] rs tail; [by move=> _ [<- <-]|].
  move=> /Forall_cons [He Hes]. cbn [decode]. case_test.
  { case E: (forallb _ es) => // -[<- <-]. split; [done|]. split; [done|]. split; [done|].
    split; [|done]. constructor; [done|]. rw forallb_forall in E.
    apply Forall_forall => x /list_elem_of_In /E. lia. }
  have Hrec : ∀ r, layout r = [e] → record_ok r → plain_record r →
    ('(rs, tail) ← decode es; Some (r :: rs, tail)) = Some (rs, tail) →
    e :: es = (rs ≫= layout) ++ tail ∧ Forall record_ok rs ∧ Forall plain_record rs
    ∧ Forall (λ e, byte_at e 0 = 0x00) tail ∧ end_of_directory tail.
  { move=> r Hl Hok Hp. case E: (decode es) => [[rs' tail']|] //= -[<- <-].
    destruct (IH rs' tail' Hes E) as (-> & ? & ? & ? & ?). rw bind_cons Hl.
    split; [done|]. by repeat constructor. }
  case_test; [by apply Hrec|]. case E: (plain_shortb e) => //.
  destruct (plain_shortb_sound e E). by apply Hrec.
Qed.

Definition plain_directoryb (fs : Fat32FileSystem) (c : Z) : bool :=
  match decode (chunks_exact ENTRY_SIZE (cluster_data fs c)) with Some _ => true | None => false end.

Lemma plain_directoryb_sound fs c :
  plain_directoryb fs c = true → ∃ rs tail, plain_directory fs c rs tail.
Proof.
  rw /plain_directoryb. case E: (decode _) => [[rs tail]|] // _. exists rs, tail.
  have H32 := chunks_exact_zlen 32 (cluster_data fs c) ltac:(lia).
  destruct (decode_sound _ _ _ H32 E) as (? & ? & ? & ? & ?). by split.
Qed.

(** ** Chains *)

Fixpoint fat_chainb (k : nat) (fs : Fat32FileSystem) (n c : Z) : bool :=
  match k with
  | O => false
  | S k =>
      if (2 <=? c) && (c <? n + 2) then
        if 0x0FFFFFF8 <=? fat_get fs c then true else fat_chainb k fs n (fat_get fs c)
      else false
  end.

Lemma fat_chainb_sound k fs n c : fat_chainb k fs n c = true → ∃ cs, fat_chain fs n c cs.
Proof.
  elim: k c => [|k IH] c //. cbn [fat_chainb]. case Hc: (_ && _) => //. case_test.
  - move=> _. exists [c]. constructor; [lia|done].
  - move=> /IH [cs Hcs]. exists (c :: cs). constructor; [lia|lia|done].
Qed.

(** ** The whole volume *)

Section check.
Context `{Profile}.

Definition well_formedb (fs : Fat32FileSystem) (n : Z) (D : list Z) : bool :=
  volumeb fs n && treeb fs n D
  && forallb (λ c, plain_directoryb fs c && negb (fat_get fs c =? 0)
       && forallb (λ f, is_directory f || fat_chainb (Z.to_nat n) fs n (start_cluster f))
            (children fs c)) D
  && bool_decide (NoDup (owned fs n (list_to_set D))).

(** A volume that passes the check is well formed. *)
Lemma well_formedb_sound fs n D :
  well_formedb fs n D = true → well_formed fs n (list_to_set D).
Proof.
  move=> /andb_prop [/andb_prop [/andb_prop [HV HT] HD] HN].
  rw bool_decide_eq_true in HN. rw forallb_forall in HD. have V := volumeb_sound _ _ HV. have T := treeb_sound _ _ _ HT.
  have Hc : ∀ c, c ∈ (list_to_set D : gset Z) → In c D
    by move=> c /elem_of_list_to_set /list_elem_of_In.
  split; try done.
  - move=> c /Hc /HD /andb_prop [/andb_prop [Hp _] _]. by apply plain_directoryb_sound.
  - move=> c /Hc /HD /andb_prop [/andb_prop [_ Hz] _]. lia.
  - move=> c f /Hc /HD /andb_prop [_ Hf] /list_elem_of_In Hin Ed.
    rw forallb_forall in Hf. have := Hf f Hin. rw Ed. apply fat_chainb_sound.
Qed.
End check.
