(* ===== verification/Vga.v ===== *)
(** * The VGA text console

    Models [src/src/vga_buffer.rs]: the 25 x 80 character grid, the cursor that
    stays on the bottom row, and the copying that scrolls the grid.  The grid is
    shown to display the last 25 rows of an unbounded scrollback. *)

From S2P Require Import Prelude Machine Str.

(** ** Data *)

Inductive Color :=
  | Black | Blue | Green | Cyan | Red | Magenta | Brown | LightGray
  | DarkGray | LightBlue | LightGreen | LightCyan | LightRed | Pink | Yellow | White.

(** [color as u8] *)
Definition color_u8 (c : Color) : Z :=
  match c with
  | Black => 0 | Blue => 1 | Green => 2 | Cyan => 3 | Red => 4 | Magenta => 5 | Brown => 6
  | LightGray => 7 | DarkGray => 8 | LightBlue => 9 | LightGreen => 10 | LightCyan => 11
  | LightRed => 12 | Pink => 13 | Yellow => 14 | White => 15
  end.

(** [ColorCode::new]: the background in the high nibble of a byte. *)
Definition ColorCode_new (foreground background : Color) : Z :=
  Z.lor (Z.shiftl (color_u8 background) 4 mod 2 ^ 8) (color_u8 foreground).

Record ScreenChar := mkScreenChar { ascii_character : Z; char_color : Z }.

Definition BUFFER_HEIGHT : Z := 25.
Definition BUFFER_WIDTH : Z := 80.

Record Writer := mkWriter {
  column_position : Z;
  color_code : Z;
  chars : list (list ScreenChar);
}.

Definition set_chars (g : list (list ScreenChar)) (w : Writer) : Writer :=
  mkWriter (column_position w) (color_code w) g.
Definition set_column (c : Z) (w : Writer) : Writer := mkWriter c (color_code w) (chars w).

(** ** Operations *)

Section operations.
Context `{Profile}.

(** [chars[row][col].read()] and [chars[row][col].write(x)] *)
Definition cell_read (g : list (list ScreenChar)) (row col : Z) : outcome ScreenChar :=
  r ← index g row; index r col.

Definition cell_write (row col : Z) (x : ScreenChar) (g : list (list ScreenChar))
    : outcome (list (list ScreenChar)) :=
  r ← index g row; r ← set_index r col x; set_index g row r.

(** The inner loop of [new_line], with [k] columns to go. *)
Fixpoint copy_cols (k : nat) (row col : Z) (g : list (list ScreenChar))
    : outcome (list (list ScreenChar)) :=
  match k with
  | O => Done g
  | S k =>
      character ← cell_read g row col;
      up ← usize_sub row 1;
      g ← cell_write up col character g;
      copy_cols k row (col + 1) g
  end.

(** The outer loop of [new_line], with [k] rows to go. *)
Fixpoint copy_rows (k : nat) (row : Z) (g : list (list ScreenChar))
    : outcome (list (list ScreenChar)) :=
  match k with
  | O => Done g
  | S k =>
      g ← copy_cols (Z.to_nat BUFFER_WIDTH) row 0 g;
      copy_rows k (row + 1) g
  end.

(** The loop of [clear_row]. *)
Fixpoint fill_cols (k : nat) (row col : Z) (x : ScreenChar) (g : list (list ScreenChar))
    : outcome (list (list ScreenChar)) :=
  match k with
  | O => Done g
  | S k =>
      g ← cell_write row col x g;
      fill_cols k row (col + 1) x g
  end.

Definition clear_row (row : Z) (w : Writer) : outcome Writer :=
  let blank := mkScreenChar 32 (color_code w) in
  g ← fill_cols (Z.to_nat BUFFER_WIDTH) row 0 blank (chars w);
  Done (set_chars g w).

Definition new_line (w : Writer) : outcome Writer :=
  g ← copy_rows (Z.to_nat (BUFFER_HEIGHT - 1)) 1 (chars w);
  w ← clear_row (BUFFER_HEIGHT - 1) (set_chars g w);
  Done (set_column 0 w).

Definition write_byte (byte : Z) (w : Writer) : outcome Writer :=
  if byte =? 10 then new_line w
  else
    w ← (if BUFFER_WIDTH <=? column_position w then new_line w else Done w);
    let row := BUFFER_HEIGHT - 1 in
    let col := column_position w in
    g ← cell_write row col (mkScreenChar byte (color_code w)) (chars w);
    c ← usize_add (column_position w) 1;
    Done (set_column c (set_chars g w)).

Fixpoint write_string (s : str) (w : Writer) : outcome Writer :=
  match s with
  | [] => Done w
  | byte :: s =>
      w ← (if (0x20 <=? byte) && (byte <=? 0x7E) || (byte =? 10) then write_byte byte w
           else write_byte 0xFE w);
      write_string s w
  end.

(** [print!]: the pieces of the format string one after the other. *)
Definition print (pieces : list str) (w : Writer) : outcome Writer :=
  write_string (concat pieces) w.

(** [println!] *)
Definition println (s : str) (w : Writer) : outcome Writer := print [s; [10]] w.
End operations.

(** [WRITER]: yellow on black at the start of the bottom row, over whatever the
    memory held. *)
Definition WRITER (memory : list (list ScreenChar)) : Writer :=
  mkWriter 0 (ColorCode_new Yellow Black) memory.

(** ** The grid *)

Abbreviation row_ok r := (zlen r = 80).
Abbreviation grid_ok g := (zlen g = 25 ∧ Forall (λ r : list ScreenChar, zlen r = 80) g).

Section grid.
Context `{Profile}.

Lemma copy_cols_ok k (row : nat) col g (new old same rest : list ScreenChar) :
  g !! row = Some (new ++ old) → g !! S row = Some (same ++ rest) →
  zlen new = col → zlen same = col → zlen old = Z.of_nat k → zlen rest = Z.of_nat k →
  Z.of_nat row + 1 < 2 ^ 64 →
  copy_cols k (Z.of_nat row + 1) col g = Done (<[row := new ++ rest]> g).
Proof.
  elim: k col g new old same rest => [|k IH] col g new old same rest Ew Er Hn Hs Ho Hr Hb.
  { apply zlen_0 in Hr as ->. apply zlen_0 in Ho as ->. cbn [copy_cols]. by rw list_insert_id. }
  apply zlen_S in Hr as (x & rest' & -> & Hr). apply zlen_S in Ho as (y & old' & -> & Ho).
  have ? := zlen_nonneg new. move: rest' old' Hr Ho Er Ew => {}rest {}old Hr Ho Er Ew.
  cbn [copy_cols]. rw /cell_read (index_ok g _ (same ++ x :: rest)); [lia| |].
  { by have -> : Z.to_nat (Z.of_nat row + 1) = S row by lia. }
  rw bind_Done (index_ok _ _ x); [lia|by rw -Hs to_nat_zlen list_lookup_middle|].
  rw bind_Done arith_ok; [lia|]. rw bind_Done /cell_write.
  have -> : Z.of_nat row + 1 - 1 = Z.of_nat row by lia.
  rw (index_ok g _ (new ++ y :: old)); [lia|by rw Nat2Z.id|].
  have ? := lookup_lt_Some _ _ _ Ew.
  rw bind_Done /set_index zlen_app zlen_cons. have ? := zlen_nonneg old. ztrue.
  rw bind_Done -Hn insert_middle //. have ? : Z.of_nat row < zlen g by zlia. ztrue.
  rw bind_Done Nat2Z.id (IH _ _ (new ++ [x]) old (same ++ [x]) rest).
  - rw list_lookup_insert_eq //. by rw -app_assoc.
  - rw list_lookup_insert_ne; [lia|]. by rw -app_assoc.
  - len.
  - len.
  - lia.
  - lia.
  - done.
  - by rw list_insert_insert_eq -app_assoc.
Qed.

Lemma copy_rows_ok k (row : nat) pre a rows :
  row = length pre → length rows = k → Forall (λ r : list ScreenChar, zlen r = 80) (a :: rows) →
  Z.of_nat row + Z.of_nat k < 2 ^ 63 →
  copy_rows k (Z.of_nat row + 1) (pre ++ a :: rows) =
    Done (pre ++ rows ++ [default a (last rows)]).
Proof.
  elim: k row pre a rows => [|k IH] row pre a rows -> Hk Hw ?.
  { by apply nil_length_inv in Hk as ->. }
  case: rows Hk Hw => [|b rows] // [Hk] Hw.
  have [Ha Hw'] := Forall_cons_1 _ _ _ Hw. have [Hb Hrest] := Forall_cons_1 _ _ _ Hw'. cbn [copy_rows].
  rw (copy_cols_ok _ (length pre) _ _ [] a [] b) //; [by apply list_lookup_middle| |lia|].
  { rw lookup_app_r; [lia|]. by have -> : (S (length pre) - length pre = 1)%nat by lia. }
  rw bind_Done insert_app_r_alt // Nat.sub_diag. cbn [app list_insert insert].
  have E : length (pre ++ [b]) = S (length pre) by rw length_app /=; lia.
  have := IH (S (length pre)) (pre ++ [b]) b rows ltac:(by rw E) ltac:(lia) ltac:(by constructor) ltac:(lia).
  have -> : Z.of_nat (S (length pre)) = Z.of_nat (length pre) + 1 by lia.
  rw -!app_assoc /= => ->. rw last_cons. by case: (last rows).
Qed.

Lemma fill_cols_ok k (row : nat) col x g (new old : list ScreenChar) :
  g !! row = Some (new ++ old) → zlen new = col → zlen old = Z.of_nat k →
  fill_cols k (Z.of_nat row) col x g = Done (<[row := new ++ replicate k x]> g).
Proof.
  elim: k col g new old => [|k IH] col g new old E Hn Ho.
  { apply zlen_0 in Ho as ->. cbn [fill_cols replicate]. by rw list_insert_id. }
  apply zlen_S in Ho as (y & old' & -> & Ho). move: old' Ho E => {}old Ho E.
  have ? := zlen_nonneg new.
  have ? := lookup_lt_Some _ _ _ E.
  cbn [fill_cols]. rw /cell_write (index_ok g _ (new ++ y :: old)); [lia|by rw Nat2Z.id|].
  rw bind_Done /set_index zlen_app zlen_cons. have ? := zlen_nonneg old. ztrue.
  rw bind_Done -Hn insert_middle //. have ? : Z.of_nat row < zlen g by zlia. ztrue.
  rw bind_Done Nat2Z.id (IH _ _ (new ++ [x]) old).
  - rw list_lookup_insert_eq //. by rw -app_assoc.
  - len.
  - lia.
  - by rw list_insert_insert_eq -app_assoc.
Qed.

(** Scrolling: the rows move up by one and the bottom row is blank. *)
Lemma new_line_ok w top rest :
  chars w = top :: rest → grid_ok (chars w) →
  new_line w = Done (mkWriter 0 (color_code w)
    (rest ++ [replicate 80 (mkScreenChar 32 (color_code w))])).
Proof.
  move=> E [Hl Hw]. rw E zlen_cons in Hl. rw E in Hw. rw /new_line E.
  have Hr : length rest = 24%nat by zlia.
  have := copy_rows_ok 24 0 [] top rest eq_refl Hr Hw ltac:(lia).
  change (Z.of_nat 0 + 1) with 1. rw !app_nil_l => Ec.
  change (Z.to_nat (BUFFER_HEIGHT - 1)) with 24%nat. rw Ec bind_Done /clear_row.
  change (color_code (set_chars _ w)) with (color_code w). cbn [chars set_chars].
  have [x Hx] : ∃ x, [default top (last rest)] = [x] ∧ zlen x = 80.
  { eexists. split; [done|]. apply (proj1 (Forall_forall _ _) Hw).
    case El: (last rest) => [y|] /=; [right|by left].
    apply last_Some_elem_of in El. done. }
  have [-> Hx80] := Hx.
  have Hx24 : (rest ++ [x]) !! 24%nat = Some ([] ++ x) by rw lookup_app_r Hr.
  rw (fill_cols_ok 80 24 0 (mkScreenChar 32 (color_code w)) (rest ++ [x]) [] x) //.
  rw bind_Done /set_column /set_chars. cbn [column_position color_code chars]. do 2 f_equal.
  rw insert_app_r_alt; [lia|]. by rw Hr.
Qed.
End grid.

(** ** The scrollback *)

(** Everything written so far: the rows above the cursor's line, and the part
    of that line that has been typed. *)
Record scrollback := mkScroll {
  above : list (list ScreenChar);
  line : list ScreenChar;
}.

(** A line as a row of the screen. *)
Definition screen_row (color : Z) (l : list ScreenChar) : list ScreenChar :=
  l ++ replicate (80 - length l) (mkScreenChar 32 color).

Definition type_byte (color : Z) (s : scrollback) (b : Z) : scrollback :=
  if b =? 10 then mkScroll (above s ++ [screen_row color (line s)]) []
  else if zlen (line s) <? 80 then mkScroll (above s) (line s ++ [mkScreenChar b color])
  else mkScroll (above s ++ [line s]) [mkScreenChar b color].

(** Bytes that the console cannot show appear as a block. *)
Definition glyph (b : Z) : Z :=
  if (0x20 <=? b) && (b <=? 0x7E) || (b =? 10) then b else 0xFE.

Definition type_text (color : Z) (s : scrollback) (text : str) : scrollback :=
  foldl (type_byte color) s (glyph <$> text).

(** The writer shows the last 25 rows of the scrollback. *)
Record shows (w : Writer) (s : scrollback) : Prop := {
  sh_above : (24 <= length (above s))%nat;
  sh_rows : Forall (λ r : list ScreenChar, zlen r = 80) (above s);
  sh_line : zlen (line s) <= 80;
  sh_column : column_position w = zlen (line s);
  sh_chars : chars w = drop (length (above s) - 24) (above s) ++ [screen_row (color_code w) (line s)];
}.

Section scrolling.
Context `{Profile}.

Lemma zlen_screen_row color l : zlen l <= 80 → zlen (screen_row color l) = 80.
Proof. move=> ?. rw /screen_row. len. Qed.

Lemma shows_grid w s : shows w s → grid_ok (chars w).
Proof.
  move=> [? Hr Hl _ ->]. split; [rw zlen_app /zlen length_drop /=; lia|].
  apply Forall_app; split; [by apply Forall_drop|]. constructor; [by apply zlen_screen_row|constructor].
Qed.

(** A new line moves the current one into the scrollback. *)
Lemma new_line_shows w s : shows w s →
  ∃ w', new_line w = Done w' ∧ color_code w' = color_code w
    ∧ shows w' (mkScroll (above s ++ [screen_row (color_code w) (line s)]) []).
Proof.
  move=> S. have G := shows_grid w s S. destruct S as [Ha Hr Hl Hc E].
  have [top [rest Et]] : ∃ top rest, drop (length (above s) - 24) (above s) = top :: rest.
  { have : length (drop (length (above s) - 24) (above s)) = 24%nat by rw length_drop; lia.
    case: (drop _ _) => [|top rest] // _. by exists top, rest. }
  eexists. split; [by apply (new_line_ok w top (rest ++ [screen_row (color_code w) (line s)]));
    [rw E Et|]|]. split; [done|]. split; cbn [above line color_code chars column_position].
  - rw length_app. lia.
  - apply Forall_app; split; [done|]. constructor; [by apply zlen_screen_row|constructor].
  - done.
  - done.
  - rw length_app /= drop_app_le; [lia|].
    have -> : (length (above s) + 1 - 24 = (length (above s) - 24) + 1)%nat by lia.
    by rw -drop_drop Et.
Qed.

Lemma write_cell_shows w s b : shows w s → zlen (line s) < 80 →
  ∃ w', (g ← cell_write 24 (column_position w) (mkScreenChar b (color_code w)) (chars w);
         c ← usize_add (column_position w) 1;
         Done (set_column c (set_chars g w))) = Done w' ∧ color_code w' = color_code w
    ∧ shows w' (mkScroll (above s) (line s ++ [mkScreenChar b (color_code w)])).
Proof.
  move=> [Ha Hr Hl Hc E] Hlt. have ? := zlen_nonneg (line s). set x := mkScreenChar b _.
  have Hd : length (drop (length (above s) - 24) (above s)) = 24%nat by rw length_drop; lia.
  have Hk : (80 - length (line s) = S (79 - length (line s)))%nat by zlia.
  rw E /cell_write (index_ok _ _ (screen_row (color_code w) (line s))).
  { lia. } { by rw lookup_app_r Hd. }
  rw bind_Done /set_index zlen_screen_row // Hc. ztrue. rw bind_Done.
  have Hg : ∀ r, zlen (drop (length (above s) - 24) (above s) ++ [r]) = 25
    by move=> r; rw zlen_app /zlen Hd.
  rw Hg. cbn [Z.leb Z.ltb Z.compare andb]. rw bind_Done arith_ok; [lia|].
  rw bind_Done. eexists. split; [done|]. split; [done|].
  split; cbn [above line color_code chars column_position set_column set_chars]; [done|done|len|len|].
  rw insert_app_r_alt; [rw Hd; lia|]. rw Hd. cbn [insert list_insert Z.to_nat Nat.sub].
  do 2 f_equal. rw /screen_row Hk. cbn [replicate]. rw insert_middle //.
  rw -app_assoc length_app /=. by have -> : (80 - (length (line s) + 1) = 79 - length (line s))%nat by lia.
Qed.

Lemma write_byte_shows w s b : shows w s →
  ∃ w', write_byte b w = Done w' ∧ color_code w' = color_code w
    ∧ shows w' (type_byte (color_code w) s b).
Proof.
  move=> S. rw /write_byte /type_byte. destruct (Z.eqb_spec b 10); [by apply new_line_shows|].
  rw (sh_column w s S) /BUFFER_WIDTH. destruct (Z.leb_spec 80 (zlen (line s))).
  - destruct (new_line_shows w s S) as (w1 & -> & <- & S1). ztrue. rw bind_Done.
    have -> : line s = screen_row (color_code w1) (line s).
    { rw /screen_row. have -> : (80 - length (line s) = 0)%nat by zlia. by rw app_nil_r. }
    by apply (write_cell_shows w1 _ b S1).
  - ztrue. rw bind_Done. apply write_cell_shows; [done|lia].
Qed.

Definition printable (b : Z) : Prop := 0x20 <= b <= 0x7E.

Lemma glyph_printable text : Forall printable text → glyph <$> text = text.
Proof.
  elim=> [|b text' Hb _ IH] //. rw fmap_cons IH /glyph. rw /printable in Hb. f_equal. by ztrue.
Qed.

(** Text that fits on the current line is appended to it. *)
Lemma type_line color s text :
  Forall printable text → zlen (line s) + zlen text <= 80 →
  foldl (type_byte color) s text =
    mkScroll (above s) (line s ++ ((λ b, mkScreenChar b color) <$> text)).
Proof.
  elim: text s => [|b text IH] s; [by case: s => a l /=; rw app_nil_r|].
  move=> /Forall_cons [Hb Ht]. rw zlen_cons => ?. have ? := zlen_nonneg text.
  rw /printable in Hb. cbn [foldl]. rw {2}/type_byte. ztrue. rw IH //=; [len|].
  by rw -app_assoc.
Qed.

Lemma write_string_app s t w :
  write_string (s ++ t) w = (w ← write_string s w; write_string t w).
Proof.
  elim: s w => [|b s IH] w //. cbn [app write_string].
  by case: (if _ then _ else _) => [w1|p|] //; rw !bind_Done IH.
Qed.

(** The scrollback after a text, as shown by the writer, which keeps its colour. *)
Lemma write_string_types text w s : shows w s →
  ∃ w', write_string text w = Done w' ∧ shows w' (type_text (color_code w) s text)
    ∧ color_code w' = color_code w.
Proof.
  rw /type_text. elim: text w s => [|b text IH] w s S; [by exists w|]. cbn [write_string fmap list_fmap foldl].
  destruct (write_byte_shows w s (glyph b) S) as (w1 & E & Ec & S1).
  have -> : (if (0x20 <=? b) && (b <=? 0x7E) || (b =? 10) then write_byte b w else write_byte 0xFE w)
    = write_byte (glyph b) w by rw /glyph; case: (_ || _).
  rw E bind_Done -Ec. apply IH. by rw Ec.
Qed.

Lemma write_string_shows text w s : shows w s →
  ∃ w', write_string text w = Done w' ∧ shows w' (type_text (color_code w) s text).
Proof. move=> S. destruct (write_string_types text w s S) as (w' & ? & ? & _). by exists w'. Qed.

Lemma type_text_app color s t1 t2 : type_text color s (t1 ++ t2) = type_text color (type_text color s t1) t2.
Proof. by rw /type_text fmap_app foldl_app. Qed.

(** C13: The console shows the last 25 rows of what has been written to it:
    printing any text never accesses the buffer out of bounds, and leaves on
    the screen the end of the scrollback with the text typed into it, lines
    broken at newlines and after 80 columns, unprintable bytes as blocks. *)
Theorem write_string_scrolls text w s : shows w s →
  ∃ w', write_string text w = Done w' ∧ shows w' (type_text (color_code w) s text).
Proof. apply write_string_shows. Qed.

(** A printable line of at most 80 characters, printed on a line of its
    own, stands in the row above the bottom one, in the colour of the writer
    and filled up with blanks. *)
Lemma println_row text w s : shows w s → Forall printable text → zlen text <= 80 →
  ∃ w', print [[10]; text; [10]] w = Done w'
    ∧ chars w' !! 23%nat =
        Some (screen_row (color_code w) ((λ b, mkScreenChar b (color_code w)) <$> text)).
Proof.
  move=> S Ht Hl. have ? := sh_above w s S. destruct (write_string_shows (concat [[10]; text; [10]]) w s S) as (w' & E & S').
  exists w'. split; [done|]. move: S'. rw /type_text. cbn [concat app].
  rw fmap_cons fmap_app glyph_printable //. cbn [foldl].
  set s1 := type_byte _ s _. rw foldl_app (type_line _ s1 text) //.
  cbn [s1 type_byte glyph Z.eqb Z.leb Z.compare Pos.compare Pos.compare_cont Pos.eqb andb orb
    above line app foldl fmap list_fmap]. case=> [_ _ _ _ ->]. cbn [above].
  rw lookup_app_l; [rw length_drop !length_app /=; lia|]. rw lookup_drop.
  rw lookup_app_r; rw !length_app /=; [lia|].
  by have -> : (length (above s) + 1 + 1 - 24 + 23 - (length (above s) + 1) = 0)%nat by lia.
Qed.
End scrolling.
