(* ===== verification/Shell.v ===== *)
(** * The shell

    Models [src/src/file_system/interface.rs]: sessions with a current
    directory over one file system, which they share behind a spin lock, and
    which print to the console. *)

From S2P Require Import Prelude Machine Str Volume DirEntry Names DirSpec Path Stability.
From S2P Require Import FileOps FileOpsSpec WriteSpec CreateSpec Vga.

(** ** State *)

(** What all sessions share: the file system behind [Rc<Mutex<..>>] and the console. *)
Record World := mkWorld { shared : Mutex Fat32FileSystem; console : Writer }.

(** A session's own state; its [fs] handle always denotes [shared]. *)
Record ShellSession := mkSession { current_cluster : Z }.

#[export] Instance session_eq_dec : EqDecision ShellSession.
Proof. solve_decision. Defined.

Section commands.
Context `{Profile} `{UnicodeCase}.

(** [self.fs.lock()] for the length of one call. *)
Definition locked {A} (call : method Fat32FileSystem A) : method World A := λ w,
  r ← with_lock call (shared w);
  Done (mkWorld r.1 (console w), r.2).

Definition printing (pieces : list str) : method World unit := λ w,
  c ← print pieces (console w);
  Done (mkWorld (shared w) c, Ok tt).

Definition new_session : method World ShellSession :=
  locked (reads (λ fs, Done (mkSession (root_cluster fs)))).

Definition dots (f : FileInfo) : bool :=
  bool_decide (fi_name f = lit ".") || bool_decide (fi_name f = lit "..").

(** What [ls] prints for one entry. *)
Definition entry_text (f : FileInfo) : list str :=
  [if is_directory f then lit "[DIR]" else lit "[FILE]"; lit " "; fi_name f; lit " "].

(** The printing loop of [ls]. *)
Fixpoint print_entries (files : list FileInfo) : method World unit :=
  match files with
  | [] => mret tt
  | f :: files =>
      if dots f then print_entries files
      else
        _ ← printing (entry_text f);
        print_entries files
  end.

Definition ls (self : ShellSession) (path : option str) : method World unit :=
  cluster ← match path with
    | Some p =>
        file ← locked (reads (λ fs, parse_path fs p (Some (current_cluster self))));
        file ← question (ok_or file (lit "Entry not found"));
        mret (start_cluster file)
    | None => mret (current_cluster self)
    end;
  files ← locked (reads (λ fs, list_directory_entries fs cluster));
  _ ← printing [lit "> "];
  _ ← print_entries files;
  printing [[10]].

(** [cd] returns the updated session. *)
Definition cd (self : ShellSession) (path : str) : method World ShellSession :=
  file ← locked (reads (λ fs, parse_path fs path (Some (current_cluster self))));
  file ← question (ok_or file (lit "Entry not found"));
  if negb (is_directory file) then question (Err (lit "Not a directory"))
  else mret (mkSession (start_cluster file)).

Definition ls_entries (self : ShellSession) : method World (list FileInfo) :=
  files ← locked (reads (λ fs, list_directory_entries fs (current_cluster self)));
  mret (filter (λ f, fi_name f ≠ lit "." ∧ fi_name f ≠ lit "..") files).

Definition cat (fuel : nat) (self : ShellSession) (path : str) : method World unit :=
  data ← locked (reads (λ fs,
    r ← read_file fuel fs path None;
    Done match r with Ok content => content | Err e => e end));
  printing [data; [10]].

Definition sh_mkdir (self : ShellSession) (parent_path folder_name : str) : method World unit :=
  locked (_ ← mkdir parent_path folder_name; mret tt).

Definition touch (self : ShellSession) (parent_path file_name : str) : method World unit :=
  locked (_ ← create_file parent_path file_name; mret tt).

Definition write (self : ShellSession) (path text : str) : method World unit :=
  locked (write_file path text).
End commands.

(** ** Printing *)

Section printing.
Context `{Profile}.

Lemma printing_app ps qs w :
  printing (ps ++ qs) w = (_ ← printing ps; printing qs) w.
Proof.
  rw /printing /print /mbind /method_bind concat_app write_string_app.
  by case: (write_string (concat ps) (console w)).
Qed.

Lemma printing_bind {A} ps qs (k : method World A) w :
  (_ ← printing ps; _ ← printing qs; k) w = (_ ← printing (ps ++ qs); k) w.
Proof.
  rw {3}/mbind /method_bind printing_app /mbind /method_bind.
  by case: (printing ps w) => [[w1 [[]|e]]|p|].
Qed.

Lemma print_entries_eq files w :
  print_entries files w = printing (filter (λ f, ¬ dots f) files ≫= entry_text) w.
Proof.
  elim: files w => [|f files IH] w.
  { rw /printing /=. by case: w. }
  cbn [print_entries]. case E: (dots f).
  - by rw filter_cons_False; [rw E => Hd; apply Hd|apply IH].
  - rw filter_cons_True; [rw E; by move=> []|]. rw bind_cons printing_app.
    rw /mbind /method_bind. by case: (printing _ w) => [[w1 [[]|e]]|p|].
Qed.
End printing.

(** ** Sessions *)

(** A session at work: the lock is free, the volume has clusters, the current
    directory is in the tree and the console shows [s]. *)
Record session_ok `{Profile} (w : World) (self : ShellSession) (n : Z) (D : gset Z)
    (s : scrollback) : Prop := {
  so_free : held (shared w) = false;
  so_volume : volume (inner (shared w)) n;
  so_tree : tree (inner (shared w)) n D;
  so_current : current_cluster self ∈ D;
  so_console : shows (console w) s;
}.

Section sessions.
Context `{Profile} `{UnicodeCase}.

Lemma locked_free {A} (call : method Fat32FileSystem A) w fs' r :
  held (shared w) = false → call (inner (shared w)) = Done (fs', r) →
  locked call w = Done (mkWorld (mkMutex false fs') (console w), r).
Proof. by rw /locked /with_lock => -> ->. Qed.

Lemma locked_reads {A} (f : Fat32FileSystem → outcome A) w a :
  held (shared w) = false → f (inner (shared w)) = Done a →
  locked (reads f) w = Done (w, Ok a).
Proof. move=> Hh E. rw (locked_free _ _ (inner (shared w)) (Ok a)) //; [by apply reads_Done|]. move: Hh. by case: w {E} => [[h fs] c] /= ->. Qed.

Lemma printing_shows ps w s : shows (console w) s →
  ∃ c', printing ps w = Done (mkWorld (shared w) c', Ok tt)
    ∧ shows c' (type_text (color_code (console w)) s (concat ps)).
Proof.
  move=> S. destruct (write_string_shows (concat ps) _ _ S) as (c' & E & S').
  exists c'. by rw /printing /print E.
Qed.

(** [cd] as one call of [parse_path]. *)
Lemma cd_eq self path w : held (shared w) = false →
  cd self path w =
    (f ← parse_path (inner (shared w)) path (Some (current_cluster self));
     Done (w, match f with
              | None => Err (lit "Entry not found")
              | Some f => if is_directory f then Ok (mkSession (start_cluster f))
                          else Err (lit "Not a directory")
              end)).
Proof.
  move=> Hf. case: w Hf => [[h fs] c] /= ->. rw /cd /mbind /method_bind /locked /with_lock /reads /=.
  case: (parse_path _ _ _) => [[f|]|p|] //=. by case: (is_directory f).
Qed.

(** [cd] changes nothing but the session: it returns a session whose
    current directory is again in the directory tree, or one of its two
    errors, and never panics. *)
Lemma cd_stays_in_tree w self n D s path :
  session_ok w self n D s →
  ∃ r, cd self path w = Done (w, r)
    ∧ match r with
      | Ok self' => session_ok w self' n D s
      | Err e => e = lit "Entry not found" ∨ e = lit "Not a directory"
      end.
Proof.
  move=> [Hf V T Hc Hs]. destruct (parse_path_ok _ n D V T path (Some (current_cluster self)))
    as [r [E Hr]]; [by move=> c [<-]|].
  rw cd_eq // E bind_Done. eexists. split; [done|]. case: r Hr {E} => [f|] Hr; [|by left].
  case Ed: (is_directory f); [|by right]. split => //. by apply Hr.
Qed.

(** Changing directory step by step is changing it at once: after a
    successful [cd p], [cd q] with a relative path does what [cd p/q] does
    from the first directory. *)
Lemma cd_compose w self self1 p q :
  held (shared w) = false →
  path_parts p ≠ [] → last (path_parts p) ≠ Some (lit ".") →
  path_parts q ≠ [] → starts_with (lit "/") q = false →
  cd self p w = Done (w, Ok self1) → cd self (p ++ slash :: q) w = cd self1 q w.
Proof.
  move=> Hf H1 H2 H3 H4. rw !cd_eq // parse_path_join // bind_assoc.
  case: (parse_path _ p _) => [[f|]|pn|] //. rw !bind_Done. by case: (is_directory f) => // -[<-].
Qed.

End sessions.

(** [ls] of an empty file panics in builds with overflow checks: the path is
    not checked to name a directory, and the cluster number 0 of the file is
    used as it is. *)
Lemma ls_empty_file_panics `{UnicodeCase} w self path f :
  held (shared w) = false →
  @parse_path true (inner (shared w)) path (Some (current_cluster self)) = Done (Some f) →
  start_cluster f < 2 → @ls true self (Some path) w = Panic ArithmeticOverflow.
Proof.
  move=> Hf E ?. rw /ls /locked /with_lock /reads /mbind /method_bind Hf E. cbn -[list_directory_entries].
  by rw /list_directory_entries /read_cluster /first_sector arith_panic; [lia|].
Qed.

(** ** Sequences of commands *)

Inductive command :=
  | Ls (path : option str)
  | Cd (path : str)
  | LsEntries
  | Cat (path : str)
  | MkDir (parent_path folder_name : str)
  | Touch (parent_path file_name : str)
  | Write (path text : str).

Section sequences.
Context `{Profile} `{UnicodeCase}.

(** One command of a session: the reply of [cd] is the updated session, the
    other commands leave the session as it is. *)
Definition perform (fuel : nat) (c : command) (self : ShellSession) : method World ShellSession :=
  match c with
  | Ls p => _ ← ls self p; mret self
  | Cd p => cd self p
  | LsEntries => _ ← ls_entries self; mret self
  | Cat p => _ ← cat fuel self p; mret self
  | MkDir p f => _ ← sh_mkdir self p f; mret self
  | Touch p f => _ ← touch self p f; mret self
  | Write p t => _ ← write self p t; mret self
  end.

(** Several sessions take turns: the [i]-th one runs the next command, and goes
    on as it was when the command fails. *)
Fixpoint run_turns (fuel : nat) (cs : list (nat * command)) (ss : list ShellSession) (w : World)
    : outcome (World * list ShellSession * list (result ShellSession str)) :=
  match cs with
  | [] => Done (w, ss, [])
  | (i, c) :: cs =>
      match ss !! i with
      | None => run_turns fuel cs ss w
      | Some self =>
          r ← perform fuel c self w;
          rest ← run_turns fuel cs (match r.2 with Ok self => <[i := self]> ss | Err _ => ss end) r.1;
          Done (rest.1, r.2 :: rest.2)
      end
  end.

(** *** Commands as seen from the file system *)

Definition ls_text (files : list FileInfo) : str :=
  lit "> " ++ concat (filter (λ f, ¬ dots f) files ≫= entry_text) ++ [10].

(** A call that replies with the directory [cwd] when it succeeds. *)
Definition call_effect (cwd : Z) (call : method Fat32FileSystem unit) (fs : Fat32FileSystem)
    : outcome (Fat32FileSystem * result Z str * str) :=
  r ← call fs;
  Done (r.1, match r.2 with Ok _ => Ok cwd | Err e => Err e end, []).

(** The effect of a command on the file system, its reply (the current directory
    from now on) and the text it prints. *)
Definition command_effect (fuel : nat) (c : command) (cwd : Z) (fs : Fat32FileSystem)
    : outcome (Fat32FileSystem * result Z str * str) :=
  match c with
  | Ls None =>
      files ← list_directory_entries fs cwd;
      Done (fs, Ok cwd, ls_text files)
  | Ls (Some p) =>
      f ← parse_path fs p (Some cwd);
      match f with
      | None => Done (fs, Err (lit "Entry not found"), [])
      | Some f =>
          files ← list_directory_entries fs (start_cluster f);
          Done (fs, Ok cwd, ls_text files)
      end
  | Cd p =>
      f ← parse_path fs p (Some cwd);
      Done (fs, match f with
                | None => Err (lit "Entry not found")
                | Some f => if is_directory f then Ok (start_cluster f) else Err (lit "Not a directory")
                end, [])
  | LsEntries => files ← list_directory_entries fs cwd; Done (fs, Ok cwd, [])
  | Cat p =>
      r ← read_file fuel fs p None;
      Done (fs, Ok cwd, (match r with Ok s => s | Err e => e end) ++ [10])
  | MkDir p f => call_effect cwd (mkdir p f) fs
  | Touch p f => call_effect cwd (create_file p f) fs
  | Write p t => call_effect cwd (write_file p t) fs
  end.

(** [run] does to the world what [e] does to the file system and the console. *)
Definition world_effect (w : World) (s : scrollback) (run : outcome (World * result ShellSession str))
    (e : outcome (Fat32FileSystem * result Z str * str)) : Prop :=
  match e with
  | Done (fs, r, text) => ∃ c,
      run = Done (mkWorld (mkMutex false fs) c,
                  match r with Ok cwd => Ok (mkSession cwd) | Err e => Err e end)
      ∧ shows c (type_text (color_code (console w)) s text) ∧ color_code c = color_code (console w)
  | Panic p => run = Panic p
  | Diverge => run = Diverge
  end.

Lemma printing_types ps w s : shows (console w) s →
  ∃ c', printing ps w = Done (mkWorld (shared w) c', Ok tt)
    ∧ shows c' (type_text (color_code (console w)) s (concat ps)) ∧ color_code c' = color_code (console w).
Proof.
  move=> S. destruct (write_string_types (concat ps) _ _ S) as (c' & E & S' & Ec).
  exists c'. by rw /printing /print E.
Qed.

(** On a free lock. *)
Lemma locked_eq {A} (call : method Fat32FileSystem A) fs c0 :
  locked call (mkWorld (mkMutex false fs) c0) =
    (r ← call fs; Done (mkWorld (mkMutex false r.1) c0, r.2)).
Proof. rw /locked /with_lock /=. by case: (call fs). Qed.

Lemma locked_reads_eq {A} (f : Fat32FileSystem → outcome A) fs c0 :
  locked (reads f) (mkWorld (mkMutex false fs) c0) =
    (a ← f fs; Done (mkWorld (mkMutex false fs) c0, Ok a)).
Proof. rw locked_eq /reads. by case: (f fs). Qed.

(** The text of a directory listing. *)
Definition print_listing (cluster : Z) : method World unit :=
  files ← locked (reads (λ fs, list_directory_entries fs cluster));
  _ ← printing [lit "> "];
  _ ← print_entries files;
  printing [[10]].

Lemma listing_effect (self : ShellSession) fs c0 s cluster : shows c0 s →
  world_effect (mkWorld (mkMutex false fs) c0) s
    ((_ ← print_listing cluster; mret self) (mkWorld (mkMutex false fs) c0))
    (files ← list_directory_entries fs cluster; Done (fs, Ok (current_cluster self), ls_text files)).
Proof.
  move=> S. case E: (list_directory_entries fs cluster) => [fls|p|].
  - destruct (printing_types ([lit "> "] ++ (filter (λ f, ¬ dots f) fls ≫= entry_text) ++ [[10]])
      (mkWorld (mkMutex false fs) c0) s S) as (c' & Ep & S' & Ec).
    exists c'. split; [|by rw !concat_app /= in S'].
    rw (method_bind_ok _ _ _ (mkWorld (mkMutex false fs) c') tt); [|by destruct self].
    rw /print_listing. erewrite method_bind_ok; [|by rw locked_reads_eq E].
    rw -Ep !printing_app. rw /mbind /method_bind.
    case: (printing _ _) => [[w1 [[]|e]]|p|] //. by rw print_entries_eq printing_app.
  - apply method_bind_panic, method_bind_panic. by rw locked_reads_eq E.
  - apply method_bind_diverge, method_bind_diverge. by rw locked_reads_eq E.
Qed.

Lemma call_effect_ok (self : ShellSession) fs c0 s (call : method Fat32FileSystem unit) : shows c0 s →
  world_effect (mkWorld (mkMutex false fs) c0) s ((_ ← locked call; mret self) (mkWorld (mkMutex false fs) c0))
    (call_effect (current_cluster self) call fs).
Proof.
  move=> S. have El := locked_eq call fs c0. rw /call_effect. destruct self as [d].
  case: (call fs) El => [[fs' [[]|e]]|p|] El.
  - exists c0. split; [exact (method_bind_ok _ _ _ _ _ El)|done].
  - exists c0. split; [exact (method_bind_err _ _ _ _ _ El)|done].
  - exact (method_bind_panic _ _ _ _ El).
  - exact (method_bind_diverge _ _ _ El).
Qed.

(** Dropping the value of a call does not change its effect. *)
Lemma call_effect_unit cwd (call : method Fat32FileSystem unit) fs :
  call_effect cwd (_ ← call; mret tt) fs = call_effect cwd call fs.
Proof. rw /call_effect {2}/mbind /method_bind. by case: (call fs) => [[fs' [[]|e]]|p|]. Qed.

(** The commands hold the lock only while they call the file system: on a free
    lock they do what they do to the file system, print their text and leave
    the lock free. *)
Lemma perform_effect fuel c self w s : held (shared w) = false → shows (console w) s →
  world_effect w s (perform fuel c self w)
    (command_effect fuel c (current_cluster self) (inner (shared w))).
Proof.
  case: w => [[h fs] c0] /= -> S. case: c => [[p|]|p| |p|p f|p f|p t]; cbn [perform command_effect].
  - pose proof (locked_reads_eq (λ fs, parse_path fs p (Some (current_cluster self))) fs c0) as El.
    cbn beta in El. rw /ls. case: (parse_path fs p _) El => [[f|]|pn|] El.
    + have -> : ∀ k : unit → method World ShellSession,
        ((cluster ← (file ← locked (reads (λ fs, parse_path fs p (Some (current_cluster self))));
                     file ← question (ok_or file (lit "Entry not found"));
                     mret (start_cluster file));
          print_listing cluster) ≫= k) (mkWorld (mkMutex false fs) c0)
        = (print_listing (start_cluster f) ≫= k) (mkWorld (mkMutex false fs) c0).
      { move=> k. rw /mbind /method_bind El. done. }
      exact (listing_effect self fs c0 s (start_cluster f) S).
    + exists c0. split; [|done]. do 2 eapply method_bind_err. by rw (method_bind_ok _ _ _ _ _ El).
    + do 3 apply method_bind_panic. exact El.
    + do 3 apply method_bind_diverge. exact El.
  - exact (listing_effect self fs c0 s (current_cluster self) S).
  - rw cd_eq //. cbn [shared inner]. case: (parse_path _ _ _) => [[f|]|pn|] //; rw !bind_Done; exists c0; [|done].
    by case: (is_directory f).
  - pose proof (locked_reads_eq (λ fs, list_directory_entries fs (current_cluster self)) fs c0) as El.
    cbn beta in El. rw /ls_entries. case: (list_directory_entries _ _) El => [files|pn|] El.
    + exists c0. split; [|done]. destruct self. rw /mbind /method_bind El. done.
    + do 2 apply method_bind_panic. exact El.
    + do 2 apply method_bind_diverge. exact El.
  - pose proof (locked_reads_eq (λ fs, r ← read_file fuel fs p None;
      Done match r with Ok content => content | Err e => e end) fs c0) as El.
    cbn beta in El. rw /cat. case: (read_file _ _ _ _) El => [r|pn|] El; rw ?bind_Done in El |- *.
    + destruct (printing_types [match r with Ok content => content | Err e => e end; [10]]
        (mkWorld (mkMutex false fs) c0) s S) as (c' & Ep & S' & Ec). exists c'.
      split; [|by rw /= in S']. destruct self. rw /mbind /method_bind El Ep. done.
    + do 2 apply method_bind_panic. exact El.
    + do 2 apply method_bind_diverge. exact El.
  - rw /sh_mkdir -call_effect_unit. by apply call_effect_ok.
  - rw /touch -call_effect_unit. by apply call_effect_ok.
  - by apply call_effect_ok.
Qed.
End sequences.

(** ** A file from its creation to its display *)

Section session_roundtrip.
Context `{Profile} `{UnicodeCase}.

(** C12: A file that one session creates and writes is displayed by [cat] in
    any other session, wherever that session is: the console shows the text
    and a line break after what it showed before. *)
Theorem touch_write_cat w a b n D s path name n11 p c rs tail rs1 e rs2 tail' q parent text :
  held (shared w) = false → shows (console w) s →
  fresh_creation (inner (shared w)) n D path name n11 p c rs tail rs1 e rs2 tail' →
  short_name_to_string n11 = name → split_path q = (parent, name) →
  parent_dir (inner (shared w)) parent p → Forall (λ x, sub 0 11 x ≠ n11) (rs1 ≫= layout) →
  bytes text → zlen text <= cluster_size (inner (shared w)) → from_utf8 text ≠ None →
  ∃ w1 w2 w3, touch a path name w = Done (w1, Ok tt)
    ∧ write a q text w1 = Done (w2, Ok tt)
    ∧ cat (Z.to_nat n) b q w2 = Done (w3, Ok tt)
    ∧ shows (console w3) (type_text (color_code (console w)) s (text ++ [10])).
Proof.
  move=> Hf Hs F Hn Hq Hp Hfirst Hb Hl Hu.
  have Et : take (Z.to_nat (cluster_size (inner (shared w)))) text = text by rw take_ge //; zlia.
  destruct (created_read_back _ _ _ _ _ _ _ _ _ _ _ _ _ _ q parent text F)
    as (fs1 & fs2 & E1 & E2 & E3); [done..|by rw Et|]. rw Et in E3.
  have Ec : (_ ← create_file path name; mret tt) (inner (shared w)) = Done (fs1, Ok tt)
    by rw /mbind /method_bind E1.
  set w1 := mkWorld (mkMutex false fs1) (console w).
  set w2 := mkWorld (mkMutex false fs2) (console w).
  destruct (printing_shows [text; [10]] w2 s Hs) as (c' & Ep & Sp).
  exists w1, w2, (mkWorld (shared w2) c').
  split; [by apply (locked_free _ _ _ _ Hf Ec)|]. split; [by apply (locked_free _ w1)|].
  split; [|by rw /= in Sp]. rw /cat -Ep.
  erewrite method_bind_ok; [done|]. by apply locked_reads; [|rw /= E3].
Qed.
End session_roundtrip.
