(* ===== verification/ShellSpec.v ===== *)
(** * The shell as its users see it

    An abstract specification of the commands of [Shell], over the abstract
    file system of [FsModel]: what each command replies, prints and changes.
    The sessions of [Shell], with their lock, the disk image and the console,
    are shown to refine it, for any number of sessions that take turns. *)

From S2P Require Import Prelude Machine Str Volume DirEntry Names DirSpec Path Stability.
From S2P Require Import FileOps FileOpsSpec WriteSpec CreateSpec FsModel FsAbs FsFrame FsRefine FsWrite FsSim.
From S2P Require Import Vga Shell.

(** ** Specification *)

(** What [ls] prints for a link, and for a directory. *)
Definition link_text (l : link) : str :=
  (match ln_node l with NDir _ => lit "[DIR]" | NFile _ _ => lit "[FILE]" end)
  ++ lit " " ++ ln_name l ++ lit " ".

Definition dir_text (d : dir) : str := lit "> " ++ (ad_links d ≫= link_text) ++ [10].

(** The operation of the file system behind a command. *)
Definition op_of (c : command) : option fs_op :=
  match c with
  | MkDir p f => Some (Mkdir p f)
  | Touch p f => Some (CreateFile p f)
  | Write p t => Some (WriteFile p t)
  | _ => None
  end.

(** A command in the directory [cur]: its reply (the directory from now on), the
    text it prints and the file system it leaves. *)
Inductive astep_command (A : afs) (cur : Z) : command → result Z str → str → afs → Prop :=
  | a_ls d :
      a_dirs A !! cur = Some d → astep_command A cur (Ls None) (Ok cur) (dir_text d) A
  | a_ls_path p c d :
      resolve A p (Some cur) = Some (NDir c) → a_dirs A !! c = Some d →
      astep_command A cur (Ls (Some p)) (Ok cur) (dir_text d) A
  | a_ls_missing p :
      resolve A p (Some cur) = None →
      astep_command A cur (Ls (Some p)) (Err (lit "Entry not found")) [] A
  | a_cd p c :
      resolve A p (Some cur) = Some (NDir c) → astep_command A cur (Cd p) (Ok c) [] A
  | a_cd_file p i t :
      resolve A p (Some cur) = Some (NFile i t) →
      astep_command A cur (Cd p) (Err (lit "Not a directory")) [] A
  | a_cd_missing p :
      resolve A p (Some cur) = None → astep_command A cur (Cd p) (Err (lit "Entry not found")) [] A
  | a_ls_entries : astep_command A cur LsEntries (Ok cur) [] A
  | a_cat p t :
      fetch A p None = Ok t → astep_command A cur (Cat p) (Ok cur) (t ++ [10]) A
  | a_cat_error p e :
      fetch A p None = Err e → astep_command A cur (Cat p) (Ok cur) (e ++ [10]) A
  | a_op c o A' :
      op_of c = Some o → astep A o (Ok tt) A' → astep_command A cur c (Ok cur) [] A'
  | a_op_error c o e A' :
      op_of c = Some o → astep A o (Err e) A' → astep_command A cur c (Err e) [] A'.

(** The sessions after a reply to the [i]-th one. *)
Definition move_to (i : nat) (r : result Z str) (curs : list Z) : list Z :=
  match r with Ok c => <[i := c]> curs | Err _ => curs end.

(** Sessions that take turns. *)
Inductive asteps_shell : afs → list Z → list (nat * command) → list (result Z str) → str → afs → list Z → Prop :=
  | ashell_nil A curs : asteps_shell A curs [] [] [] A curs
  | ashell_cons A curs i cur c cs r out A1 rs outs A' curs' :
      curs !! i = Some cur → astep_command A cur c r out A1 →
      asteps_shell A1 (move_to i r curs) cs rs outs A' curs' →
      asteps_shell A curs ((i, c) :: cs) (r :: rs) (out ++ outs) A' curs'.

(** What a command asks of its user: the changes are [allowed], and [ls] is not
    given the path of a file. *)
Definition command_allowed (A : afs) (cur : Z) (c : command) : Prop :=
  match op_of c, c with
  | Some o, _ => allowed A o
  | None, Ls (Some p) => ∀ i t, resolve A p (Some cur) ≠ Some (NFile i t)
  | None, _ => True
  end.

(** Users whose commands are allowed whatever the earlier ones did. *)
Fixpoint users_respect (A : afs) (curs : list Z) (cs : list (nat * command)) : Prop :=
  match cs with
  | [] => True
  | (i, c) :: cs => ∃ cur, curs !! i = Some cur ∧ command_allowed A cur c
      ∧ ∀ r out A', astep_command A cur c r out A' → users_respect A' (move_to i r curs) cs
  end.

(** *** Users that create in the root *)

Definition command_cost (c : command) : nat := from_option cost 0%nat (op_of c).

Definition plain_command (c : command) : Prop :=
  match op_of c, c with
  | Some o, _ => rooted o
  | None, Ls (Some _) => False
  | None, _ => True
  end.

(** They respect the specification as long as clusters are free. *)
Lemma users_plain A curs cs :
  Forall (λ ic, (ic.1 < length curs)%nat ∧ plain_command ic.2) cs →
  (sum_list_with (λ ic, command_cost ic.2) cs <= a_free A)%nat → users_respect A curs cs.
Proof.
  elim: cs A curs => [|[i c] cs IH] A curs //= /Forall_cons [[Hi Hc] Hcs] Hcost.
  destruct (lookup_lt_is_Some_2 curs i Hi) as [cur Ecur]. exists cur. split; [done|]. cbn in Hc, Hcost. split.
  - rw /command_allowed /plain_command /command_cost in Hc Hcost |- *. case Eo: (op_of c) Hc Hcost => [o|] Hc Hcost.
    + apply rooted_allowed; [done|]. cbn in Hcost. lia.
    + clear - Hc. by destruct c as [[p|]|p| |p|p f|p f|p t].
  - move=> r out A' Hs. apply IH.
    + eapply Forall_impl; [exact Hcs|]. move=> [j c'] [Hj ?]. split; [|done].
      rw /move_to. case: r {Hs} => [d|e] //. by rw length_insert.
    + have : (a_free A <= a_free A' + command_cost c)%nat; [|lia].
      rw /command_cost. destruct Hs; try lia; rw H; cbn; by eapply astep_free.
Qed.

(** ** Refinement *)

Section refinement.
Context `{Profile} `{UnicodeCase}.

Lemma dots_is_dots f : dots f = false ↔ ¬ is_dots f.
Proof. rw /dots /is_dots orb_false_iff !bool_decide_eq_false. naive_solver. Qed.

Section command.
Context (fs : Fat32FileSystem) (n : Z) (D : gset Z) (W : well_formed fs n D).

Abbreviation A := (abstract fs n D).

(** The listing of a directory is the text of its links. *)
Lemma listing_text c : c ∈ D →
  list_directory_entries fs c = Done (listing fs c) ∧ a_dirs A !! c = Some (dir_of fs n c)
  ∧ ls_text (listing fs c) = dir_text (dir_of fs n c).
Proof.
  move=> Hc. split; [by eapply listing_done|]. split; [by rw dirs_lookup bool_decide_eq_true_2|].
  rw /ls_text /dir_text. do 2 f_equal. cbn [ad_links dir_of]. rw /children.
  have -> : filter (λ f, ¬ dots f) (listing fs c) = filter (λ f, ¬ is_dots f) (listing fs c).
  { apply list_filter_iff => f. rw -dots_is_dots. destruct (dots f); cbn; naive_solver. }
  elim: (filter _ _) => [|f l IH] //. rw fmap_cons !bind_cons concat_app IH. f_equal.
  rw /link_text /link_of /node_of /=. by case: (is_directory f); rw /= ?app_nil_r.
Qed.

Lemma op_effect o cwd : allowed A o →
  ∃ fs' r D', call_effect cwd (run_op o) fs = Done (fs', match r with Ok _ => Ok cwd | Err e => Err e end, [])
    ∧ well_formed fs' n D' ∧ D ⊆ D' ∧ astep A o r (abstract fs' n D').
Proof.
  move=> Ha. destruct (op_simulated fs n D W o Ha) as (r & fs' & D' & E & W' & HD & Hs).
  exists fs', r, D'. by rw /call_effect E.
Qed.

(** Every allowed command returns, and does what the specification says. *)
Lemma command_simulated c cur : cur ∈ D → command_allowed A cur c →
  ∃ fs' r out D', command_effect (Z.to_nat n) c cur fs = Done (fs', r, out)
    ∧ well_formed fs' n D' ∧ D ⊆ D' ∧ (∀ d, r = Ok d → d ∈ D')
    ∧ astep_command A cur c r out (abstract fs' n D').
Proof.
  move=> Hc Ha. have Hcur : ∀ d, Some cur = Some d → d ∈ D by move=> d [<-].
  have [V T _ _ _ _] := W.
  have Hop : ∀ o, op_of c = Some o → allowed A o → command_effect (Z.to_nat n) c cur fs = call_effect cur (run_op o) fs →
    ∃ fs' r out D', command_effect (Z.to_nat n) c cur fs = Done (fs', r, out)
      ∧ well_formed fs' n D' ∧ D ⊆ D' ∧ (∀ d, r = Ok d → d ∈ D')
      ∧ astep_command A cur c r out (abstract fs' n D').
  { move=> o Eo Ho ->. destruct (op_effect o cur Ho) as (fs' & r & D' & -> & W' & HD & Hs).
    eexists fs', _, [], D'. split; [done|]. do 2 (split; [done|]).
    case: r Hs => [[]|e] Hs; (split; [|by econstructor]); [move=> d [<-]; set_solver|done]. }
  case: c Ha Hop => [[p|]|p| |p|p f|p f|p t] Ha Hop; cbn [command_effect].
  - destruct (parse_resolve fs n D W p (Some cur) Hcur) as [r [Ep Er]].
    destruct (parse_path_ok fs n D V T p (Some cur) Hcur) as [r' [Er' Hr']]. rw Ep in Er'. injection Er' as <-.
    rw Ep bind_Done. case: r Er Hr' {Ep} => [f|] Er Hr'.
    2: { eexists fs, _, _, D. do 3 (split; [done|]). split; [done|]. by constructor. }
    rw /= /node_of in Er. case Ed: (is_directory f) Er => Er; [|by destruct (Ha _ _ Er)].
    destruct (listing_text (start_cluster f) (Hr' f eq_refl Ed)) as (-> & Ed' & Et). rw bind_Done Et.
    eexists fs, _, _, D. do 3 (split; [done|]). split; [by move=> d [<-]|]. by eapply a_ls_path.
  - destruct (listing_text cur Hc) as (-> & Ed & Et). rw bind_Done Et. eexists fs, _, _, D.
    do 3 (split; [done|]). split; [by move=> d [<-]|]. by constructor.
  - destruct (parse_resolve fs n D W p (Some cur) Hcur) as [r [Ep Er]].
    destruct (parse_path_ok fs n D V T p (Some cur) Hcur) as [r' [Er' Hr']]. rw Ep in Er'. injection Er' as <-.
    rw Ep bind_Done. eexists fs, _, _, D. do 3 (split; [done|]).
    case: r Er Hr' {Ep} => [f|] Er Hr'; [|by split; [|constructor]]. rw /= /node_of in Er.
    case Ed: (is_directory f) Er => Er; (split; [|by econstructor]); [|done]. move=> d [<-]. by apply Hr'.
  - rw (proj1 (listing_text cur Hc)) bind_Done. eexists fs, _, _, D. do 3 (split; [done|]).
    split; [by move=> d [<-]|constructor].
  - rw (read_fetch fs n D W) // bind_Done. eexists fs, _, _, D. do 3 (split; [done|]).
    split; [by move=> d [<-]|]. case E: (fetch _ _ _) => [t|e]; by constructor.
  - by apply (Hop (Mkdir p f)).
  - by apply (Hop (CreateFile p f)).
  - by apply (Hop (WriteFile p t)).
Qed.
End command.

End refinement.
