(* ===== verification/Alloc.v ===== *)
(** * Allocators: layouts, alignment and the contract of [GlobalAlloc]

    Models [align_up] of [src/src/allocator.rs] and states, as a type class,
    what the trait [GlobalAlloc] promises to its clients: blocks that are
    aligned, inside the heap and disjoint from every live block.  The bump, the
    linked-list and the fixed-size-block allocator are instances; client
    theorems about sequences of requests, and of requests and writes, are proved
    once against the class.  [Locked], the lock around an allocator, keeps the
    contract. *)

From S2P Require Import Prelude Machine.

(** ** Layouts *)

(** [core::alloc::Layout] *)
Record Layout := mkLayout { size : Z; align : Z }.

#[export] Instance layout_eq_dec : EqDecision Layout.
Proof. solve_decision. Defined.

(** The addresses of the kernel heap. *)
Definition HEAP_START : Z := 0x444444440000.
Definition HEAP_SIZE : Z := 40 * 1024 * 1024.

Definition isize_max : Z := 2 ^ 63 - 1.

Definition power_of_two (a : Z) : Prop := ∃ k, 0 <= k < 63 ∧ a = 2 ^ k.

(** What [Layout] guarantees: a power-of-two alignment, a size that does not
    overflow when rounded up to it; [GlobalAlloc] asks for a size above zero. *)
Record layout_ok (l : Layout) : Prop := {
  lo_align : power_of_two (align l);
  lo_size : 0 < size l;
  lo_round : size l + (align l - 1) <= isize_max;
}.

(** The next multiple of [a]. *)
Definition round_up (z a : Z) : Z := (z + (a - 1)) / a * a.

Section arithmetic.
Context `{Profile}.

Definition align_up (addr align : Z) : outcome Z :=
  remainder ← u_rem addr align;
  if remainder =? 0 then Done addr
  else
    d ← usize_sub addr remainder;
    usize_add d align.

(** [a.checked_add(b)] on [usize] *)
Definition checked_add (a b : Z) : option Z := if a + b <? 2 ^ 64 then Some (a + b) else None.

(** [align_up] computes the least multiple of the alignment that is not below
    the address. *)
Lemma round_up_bounds z a : 0 < a → z <= round_up z a < z + a.
Proof.
  move=> ?. rw /round_up. have := Z.div_mod (z + (a - 1)) a ltac:(lia).
  have := Z.mod_pos_bound (z + (a - 1)) a ltac:(lia). lia.
Qed.

Lemma round_up_mod z a : 0 < a → round_up z a mod a = 0.
Proof. move=> ?. apply Z.mod_mul. lia. Qed.

Lemma round_up_least z a m : 0 < a → z <= m → m mod a = 0 → round_up z a <= m.
Proof.
  move=> ? Hm /Z.mod_divide Hd. destruct Hd as [q ->]; [lia|]. rw /round_up.
  apply Z.mul_le_mono_nonneg_r; [lia|]. apply Z.lt_succ_r, Z.div_lt_upper_bound; lia.
Qed.

Lemma align_up_ok addr a : 0 < a → 0 <= addr → addr + a <= 2 ^ 64 →
  align_up addr a = Done (round_up addr a).
Proof.
  move=> Ha ??. have E := Z.div_mod addr a ltac:(lia).
  have Hr := Z.mod_pos_bound addr a Ha. have Hq : 0 <= addr / a by apply Z.div_pos; lia.
  rw /align_up u_rem_ok; [lia|]. rw bind_Done /round_up. case_test.
  - f_equal. rw {2}E. have -> : a * (addr / a) + addr mod a + (a - 1) = a - 1 + addr / a * a by lia.
    rw Z.div_add; [lia|]. rw Z.div_small; lia.
  - have ? : 0 <= a * (addr / a) by apply Z.mul_nonneg_nonneg; lia.
    rw arith_ok; [lia|]. rw bind_Done arith_ok; [lia|]. f_equal. rw {3}E.
    have -> : a * (addr / a) + addr mod a + (a - 1) = addr mod a - 1 + (addr / a + 1) * a by lia.
    rw Z.div_add; [lia|]. rw Z.div_small; lia.
Qed.

(** C33: [align_up] returns the least multiple of the alignment at or above the
    address, whenever the address plus the alignment fits a [usize]. *)
Theorem align_up_spec addr a : 0 < a → 0 <= addr → addr + a <= 2 ^ 64 →
  ∃ r, align_up addr a = Done r ∧ addr <= r < addr + a ∧ r mod a = 0
    ∧ ∀ m, addr <= m → m mod a = 0 → r <= m.
Proof.
  move=> Ha ??. exists (round_up addr a). split; [by apply align_up_ok|].
  split; [by apply round_up_bounds|]. split; [by apply round_up_mod|].
  move=> m ??. by apply round_up_least.
Qed.
End arithmetic.

Lemma power_of_two_pos a : power_of_two a → 0 < a < 2 ^ 63.
Proof. move=> [k [? ->]]. split; [by apply Z.pow_pos_nonneg; lia|by apply Z.pow_lt_mono_r; lia]. Qed.

(** Powers of two divide one another. *)
Lemma power_of_two_divide a b : power_of_two a → power_of_two b → a <= b → (a | b).
Proof.
  move=> [i [? ->]] [j [? ->]] Hle. have ? : i <= j by apply (Z.pow_le_mono_r_iff 2); lia.
  exists (2 ^ (j - i)). rw -Z.pow_add_r; [lia..|]. f_equal. lia.
Qed.

Lemma power_of_two_max a b : power_of_two a → power_of_two b → power_of_two (Z.max a b).
Proof. move=> ??. by destruct (Z.max_spec a b) as [[? ->]|[? ->]]. Qed.

(** ** Blocks *)

(** A live block: its address and the layout it was requested with. *)
Abbreviation block := (Z * Layout)%type.

(** Two address ranges, as start and length, have no byte in common. *)
Definition apart (r s : Z * Z) : Prop := r.1 + r.2 <= s.1 ∨ s.1 + s.2 <= r.1.

#[export] Instance apart_sym : Symmetric apart.
Proof. move=> r s [?|?]; [by right|by left]. Qed.

(** The range of a block. *)
Definition extent (b : block) : Z * Z := (b.1, size b.2).

(** A list of ranges that are pairwise apart. *)
Definition pairwise_apart (rs : list (Z * Z)) : Prop := ForallOrdPairs apart rs.

Definition inside (lo hi : Z) (r : Z * Z) : Prop := lo <= r.1 ∧ r.1 + r.2 <= hi.

Lemma pairwise_apart_Permutation rs ss :
  rs ≡ₚ ss → pairwise_apart rs → pairwise_apart ss.
Proof.
  elim=> {rs ss} [|r rs ss Hp IH|r s rs|rs ss ts _ IH1 _ IH2] //; [| |by auto].
  - inversion_clear 1 as [|?? Hr Hrs]. constructor; [by eapply Permutation_Forall|by apply IH].
  - inversion_clear 1 as [|?? Hr Hrs]. inversion_clear Hrs as [|?? Hs Hrs'].
    apply Forall_cons in Hr as [Hrs Hr]. constructor; [|by constructor].
    by constructor; [apply apart_sym|].
Qed.

#[export] Instance pairwise_apart_proper : Proper ((≡ₚ) ==> iff) pairwise_apart.
Proof. move=> rs ss E. by split; apply pairwise_apart_Permutation. Qed.

Lemma pairwise_apart_cons r rs :
  pairwise_apart (r :: rs) ↔ Forall (apart r) rs ∧ pairwise_apart rs.
Proof. split; [by inversion 1|by move=> [??]; constructor]. Qed.

Lemma pairwise_apart_app rs ss :
  pairwise_apart (rs ++ ss) ↔
    pairwise_apart rs ∧ pairwise_apart ss ∧ Forall (λ r, Forall (apart r) ss) rs.
Proof.
  elim: rs => [|r rs IH] /=.
  - split; [by move=> ?; split; [constructor|]|by move=> [_ []]].
  - rw !pairwise_apart_cons Forall_app IH Forall_cons. naive_solver.
Qed.

(** A part of a range is apart from what the range is apart from. *)
Lemma apart_within r r' s :
  r.1 <= r'.1 → r'.1 + r'.2 <= r.1 + r.2 → apart r s → apart r' s.
Proof. rw /apart. lia. Qed.

(** ** The contract *)

(** The operations of [GlobalAlloc]; [None] is the null pointer. *)
Class Allocator (A : Type) := {
  alloc : Layout → A → outcome (A * option Z);
  dealloc : Z → Layout → A → outcome A;
}.

(** What an allocator over the addresses [lo, hi) promises about the requests
    that it answers.  [inv a live] says that the blocks [live] are allocated in
    state [a]; [accepts] are the layouts it can be asked for. *)
Class AllocatorSafe (A : Type) `{Allocator A} (lo hi : Z) := {
  inv : A → list block → Prop;
  accepts : Layout → Prop;
  alloc_safe a live l a' r : inv a live → layout_ok l → accepts l → alloc l a = Done (a', r) →
    match r with
    | None => inv a' live
    | Some p => inv a' ((p, l) :: live)
        ∧ p mod align l = 0 ∧ inside lo hi (p, size l)
        ∧ Forall (λ b, apart (p, size l) (extent b)) live
    end;
  dealloc_spec a live p l : inv a ((p, l) :: live) →
    ∃ a', dealloc p l a = Done a' ∧ inv a' live;
  inv_Permutation a live live' : live ≡ₚ live' → inv a live → inv a live';
}.
Arguments inv {A _} lo hi {_} a live.
Arguments accepts {A _} lo hi {_} l.

(** Some allocators also answer every request: an exhausted heap is reported
    with the null pointer. *)
Class AllocatorSpec (A : Type) `{Allocator A} (lo hi : Z) := {
  #[global] spec_safe :: AllocatorSafe A lo hi;
  alloc_total a live l : inv lo hi a live → layout_ok l → accepts lo hi l →
    ∃ a' r, alloc l a = Done (a', r);
}.

(** One statement of both gives an instance. *)
Definition make_spec {A} `{Allocator A} (lo hi : Z) (I : A → list block → Prop) (acc : Layout → Prop)
    (Halloc : ∀ a live l, I a live → layout_ok l → acc l →
      ∃ a' r, alloc l a = Done (a', r)
        ∧ match r with
          | None => I a' live
          | Some p => I a' ((p, l) :: live)
              ∧ p mod align l = 0 ∧ inside lo hi (p, size l)
              ∧ Forall (λ b, apart (p, size l) (extent b)) live
          end)
    (Hdealloc : ∀ a live p l, I a ((p, l) :: live) → ∃ a', dealloc p l a = Done a' ∧ I a' live)
    (Hperm : ∀ a live live', live ≡ₚ live' → I a live → I a live') : AllocatorSpec A lo hi.
Proof.
  unshelve refine {| spec_safe := {| inv := I; accepts := acc |} |}.
  - move=> a live l a' r Hi Hl Ha E. destruct (Halloc a live l Hi Hl Ha) as (a1 & r1 & E1 & H1).
    rw E in E1. by injection E1 as <- <-.
  - exact Hdealloc.
  - exact Hperm.
  - move=> a live l Hi Hl Ha. destruct (Halloc a live l Hi Hl Ha) as (a' & r & E & _).
    by exists a', r.
Defined.

(** ** Clients *)

(** A client requests blocks and gives back the [i]-th live one. *)
Inductive request :=
  | Alloc (l : Layout)
  | Free (i : nat).

Section client.
Context `{Allocator A}.

(** One request, with the client's list of live blocks. *)
Inductive serve : A → list block → request → A → list block → Prop :=
  | serve_null a live l a' :
      alloc l a = Done (a', None) → serve a live (Alloc l) a' live
  | serve_block a live l a' p :
      alloc l a = Done (a', Some p) → serve a live (Alloc l) a' ((p, l) :: live)
  | serve_free a live1 p l live2 a' i :
      i = length live1 → dealloc p l a = Done a' →
      serve a (live1 ++ (p, l) :: live2) (Free i) a' (live1 ++ live2).

Inductive serves : A → list block → list request → A → list block → Prop :=
  | serves_nil a live : serves a live [] a live
  | serves_cons a live r a1 live1 rs a' live' :
      serve a live r a1 live1 → serves a1 live1 rs a' live' →
      serves a live (r :: rs) a' live'.

Context (lo hi : Z) `{S : !AllocatorSafe A lo hi}.

Definition block_ok (b : block) : Prop := b.1 mod align b.2 = 0 ∧ inside lo hi (extent b).

Definition request_ok (r : request) : Prop :=
  match r with Alloc l => layout_ok l ∧ accepts lo hi l | Free _ => True end.

(** What the client can rely on. *)
Definition client_ok (a : A) (live : list block) : Prop :=
  inv lo hi a live ∧ Forall block_ok live ∧ pairwise_apart (extent <$> live).

(** A block can be freed wherever it is in the client's list. *)
Lemma inv_extract a l1 p l l2 : inv lo hi a (l1 ++ (p, l) :: l2) → inv lo hi a ((p, l) :: l1 ++ l2).
Proof. move=> Hi. eapply inv_Permutation; [|exact Hi]. by rw -Permutation_middle. Qed.

Lemma serve_ok a live r a' live' :
  request_ok r → client_ok a live → serve a live r a' live' → client_ok a' live'.
Proof.
  move=> Hr [Hi [Hb Hp]] Hs. destruct Hs as [a live l a' E|a live l a' p E|a l1 p l l2 a' i _ E].
  - by split; [exact (alloc_safe a live l a' None Hi (proj1 Hr) (proj2 Hr) E)|].
  - destruct (alloc_safe a live l a' (Some p) Hi (proj1 Hr) (proj2 Hr) E) as (Hi' & ? & ? & Ha).
    split; [done|]. split; [by constructor|]. rw fmap_cons pairwise_apart_cons. split; [|done].
    by apply Forall_fmap.
  - have Hi' := inv_extract a l1 p l l2 Hi.
    destruct (dealloc_spec a (l1 ++ l2) p l Hi') as (a1 & E1 & Hi1). rw E in E1. injection E1 as <-.
    split; [done|]. rw -Permutation_middle in Hb Hp. split; [by inversion Hb|].
    rw fmap_cons in Hp. by apply pairwise_apart_cons in Hp as [_ ?].
Qed.

Lemma serves_ok a live rs a' live' :
  Forall request_ok rs → client_ok a live → serves a live rs a' live' → client_ok a' live'.
Proof.
  move=> Hr Hc Hs. elim: Hs Hr Hc => {a live rs a' live'} [//|a live r a1 live1 rs a' live' Hs _ IH].
  move=> /Forall_cons [Hr Hrs] Hc. apply IH; [done|]. by eapply serve_ok.
Qed.
End client.

(** Requests never get stuck: the allocator answers each of them. *)
Lemma serve_progress `{AllocatorSpec A lo hi} a live r :
  request_ok lo hi r → client_ok lo hi a live →
  match r with Alloc _ => True | Free i => (i < length live)%nat end →
  ∃ a' live', serve a live r a' live'.
Proof.
  move=> Hr [Hi _]. case: r Hr => [l|i] Hr Hb.
  - destruct (alloc_total a live l Hi (proj1 Hr) (proj2 Hr)) as (a1 & [p|] & E1).
    + eexists _, _. by apply serve_block.
    + eexists _, _. by apply serve_null.
  - destruct (lookup_lt_is_Some_2 live i Hb) as [[p l] El].
    apply list_elem_of_split_length in El as (l1 & l2 & -> & ->).
    have Hi' : inv lo hi a ((p, l) :: l1 ++ l2).
    { eapply inv_Permutation; [|done]. by rw -Permutation_middle. }
    destruct (dealloc_spec a (l1 ++ l2) p l Hi') as (a1 & E1 & _).
    eexists _, _. by apply serve_free.
Qed.

(** ** Clients that write into their blocks *)

(** Allocators that keep their lists in the free memory itself share it with
    their clients: [overwrite live a a'] says that memory changed from [a] to
    [a'] inside of the blocks [live]. *)
Section writing_client.
Context `{Allocator A} (overwrite : list block → A → A → Prop).

Inductive uses : A → list block → list request → A → list block → Prop :=
  | uses_nil a live : uses a live [] a live
  | uses_request a live r a1 live1 rs a' live' :
      serve a live r a1 live1 → uses a1 live1 rs a' live' → uses a live (r :: rs) a' live'
  | uses_write a live a1 rs a' live' :
      overwrite live a a1 → uses a1 live rs a' live' → uses a live rs a' live'.

Context (lo hi : Z) `{S : !AllocatorSafe A lo hi}.
Context (Hwrite : ∀ live a a', inv lo hi a live → overwrite live a a' → inv lo hi a' live).

Lemma uses_ok a live rs a' live' :
  Forall (request_ok lo hi) rs → client_ok lo hi a live → uses a live rs a' live' → client_ok lo hi a' live'.
Proof.
  move=> Hr Hc Hs. elim: Hs Hr Hc => {a live rs a' live'} [//| |].
  - move=> a live r a1 live1 rs a' live' Hs _ IH /Forall_cons [Hr Hrs] Hc. apply IH; [done|]. by eapply serve_ok.
  - move=> a live a1 rs a' live' Hw _ IH Hr [Hi Hb]. apply IH; [done|]. split; [by eapply Hwrite|done].
Qed.
End writing_client.

(** ** Simulation *)

(** An allocator [A] that follows an allocator [B] with a proved contract: [R]
    relates their states, and clients may write to the blocks of [A]. *)
Section simulation.
Context `{Allocator A} `{Allocator B} (overwrite : list block → A → A → Prop) (R : A → B → Prop).
Context (lo hi : Z) `{S : !AllocatorSafe B lo hi}.
Context (Halloc : ∀ a b live l a' r, R a b → inv lo hi b live → layout_ok l → accepts lo hi l →
  alloc l a = Done (a', r) → ∃ b', alloc l b = Done (b', r) ∧ R a' b').
Context (Hdealloc : ∀ a b live p l a', R a b → inv lo hi b ((p, l) :: live) →
  dealloc p l a = Done a' → ∃ b', dealloc p l b = Done b' ∧ R a' b').
Context (Hwrite : ∀ a b live a', R a b → inv lo hi b live → overwrite live a a' → R a' b).

(** Both serve the same requests with the same blocks. *)
Lemma uses_simulated a live rs a' live' b :
  Forall (request_ok lo hi) rs → client_ok lo hi b live → R a b → uses overwrite a live rs a' live' →
  ∃ b', serves b live rs b' live' ∧ R a' b' ∧ client_ok lo hi b' live'.
Proof.
  move=> Hr Hc HR Hs. elim: Hs b Hr Hc HR => {a live rs a' live'} [a live| |] b.
  - move=> *. exists b. by split; [constructor|].
  - move=> live r a1 live1 rs a' live' Hs _ IH b0 /Forall_cons [Hr Hrs] Hc HR.
    have [b1 [Hb1 HR1]] : ∃ b1, serve b0 live r b1 live1 ∧ R a1 b1.
    { destruct Hs as [a live l a1 E|a live l a1 p E|a l1 p l l2 a1 i Ei E].
      - destruct (Halloc a b0 live l a1 None HR (proj1 Hc) (proj1 Hr) (proj2 Hr) E) as (b1 & Eb & HR1).
        exists b1. by split; [constructor|].
      - destruct (Halloc a b0 live l a1 (Some p) HR (proj1 Hc) (proj1 Hr) (proj2 Hr) E) as (b1 & Eb & HR1).
        exists b1. by split; [constructor|].
      - destruct (Hdealloc a b0 (l1 ++ l2) p l a1 HR (inv_extract lo hi _ _ _ _ _ (proj1 Hc)) E) as (b1 & Eb & HR1).
        exists b1. by split; [constructor|]. }
    destruct (IH b1 Hrs (serve_ok lo hi _ _ _ _ _ Hr Hc Hb1) HR1) as (b' & ? & ? & ?).
    exists b'. by split; [econstructor|].
  - move=> live a1 rs a' live' Hw _ IH b0 Hr Hc HR. apply IH; [done|done|]. by eapply Hwrite, Hw; [|apply Hc].
Qed.
End simulation.

#[export] Instance apart_dec r s : Decision (apart r s).
Proof. rw /apart. apply _. Defined.

(** Objects of [k] bytes in memory, by address: writing one destroys those that
    it overlaps. *)
Definition store {X} (k p : Z) (x : X) (m : gmap Z X) : gmap Z X :=
  <[p := x]> (filter (λ qy, apart (qy.1, k) (p, k)) m).

Lemma store_eq {X} k p (x : X) m : store k p x m !! p = Some x.
Proof. apply lookup_insert_eq. Qed.

Lemma store_apart {X} k p (x : X) m q : 0 < k → apart (q, k) (p, k) → store k p x m !! q = m !! q.
Proof.
  move=> Hk Hq. rw /store lookup_insert_ne; [by move=> ?; subst; destruct Hq; cbn in *; lia|].
  rw map_lookup_filter. by case: (m !! q) => [y|] //=; rw option_guard_True.
Qed.

(** The objects outside of the live blocks are as before. *)
Definition overwritten {X} (k : Z) (live : list block) (m m' : gmap Z X) : Prop :=
  ∀ q x, m !! q = Some x → Forall (λ b, apart (q, k) (extent b)) live → m' !! q = Some x.

(** ** Allocators behind a lock *)

(** [Locked]: [GlobalAlloc] works on a shared reference, so every allocator is
    kept in a mutex and each call holds its lock from start to end. *)
Record Locked (A : Type) := mkLocked { mutex : Mutex A }.
Arguments mkLocked {A} mutex.
Arguments mutex {A} l.

Definition Locked_new {A} (a : A) : Locked A := mkLocked (mkMutex false a).

(** [Locked::lock], with what the caller does before the guard is dropped. *)
Definition Locked_lock {A B} (body : A → outcome (A * B)) (l : Locked A) : outcome (Locked A * B) :=
  r ← with_lock body (mutex l);
  Done (mkLocked r.1, r.2).

(** The same for a body that returns nothing. *)
Definition Locked_lock_unit {A} (body : A → outcome A) (l : Locked A) : outcome (Locked A) :=
  r ← Locked_lock (λ a, a ← body a; Done (a, tt)) l;
  Done r.1.

#[export] Instance locked_allocator `{Allocator A} : Allocator (Locked A) := {
  alloc layout := Locked_lock (alloc layout);
  dealloc ptr layout := Locked_lock_unit (dealloc ptr layout);
}.

(** The lock is free and the allocator behind it is in a good state. *)
Definition unlocked {A} (P : A → Prop) (l : Locked A) : Prop :=
  held (mutex l) = false ∧ P (inner (mutex l)).

Lemma lock_Done {A B} (body : A → outcome (A * B)) l l' b :
  Locked_lock body l = Done (l', b) →
  held (mutex l') = false ∧ body (inner (mutex l)) = Done (inner (mutex l'), b).
Proof.
  rw /Locked_lock bind_Done_inv => -[[m x] [E]]. destruct (with_lock_Done _ _ _ _ E) as [_ [Hf Hb]].
  by move=> [<- <-].
Qed.

Lemma lock_free {A B} (body : A → outcome (A * B)) l a b :
  held (mutex l) = false → body (inner (mutex l)) = Done (a, b) → Locked_lock body l = Done (Locked_new a, b).
Proof. move=> Hf Hb. by rw /Locked_lock (with_lock_free _ _ _ _ Hf Hb). Qed.

Lemma lock_unit_free {A} (body : A → outcome A) l a :
  held (mutex l) = false → body (inner (mutex l)) = Done a → Locked_lock_unit body l = Done (Locked_new a).
Proof. move=> Hf Hb. by rw /Locked_lock_unit (lock_free _ _ a tt Hf) // Hb. Qed.

(** The lock keeps the contract of the allocator behind it. *)
#[export] Instance locked_safe `{AllocatorSafe A lo hi} : AllocatorSafe (Locked A) lo hi.
Proof.
  refine {| inv l live := unlocked (λ a, inv lo hi a live) l; accepts := accepts lo hi |}.
  - move=> l live ly l' r [_ Hi] Hl Ha El. destruct (lock_Done _ _ _ _ El) as [Hf E].
    pose proof (alloc_safe _ _ _ _ _ Hi Hl Ha E) as Hs. rw /unlocked. destruct r; tauto.
  - move=> l live p ly [Hf Hi]. destruct (dealloc_spec _ _ _ _ Hi) as (a' & E & Hi').
    exists (Locked_new a'). split; [exact (lock_unit_free _ _ _ Hf E)|by split].
  - move=> l live live' Hp [Hf Hi]. split; [done|by eapply inv_Permutation].
Defined.

#[export] Instance locked_spec `{AllocatorSpec A lo hi} : AllocatorSpec (Locked A) lo hi.
Proof.
  refine {| spec_safe := locked_safe |}. move=> l live ly [Hf Hi] Hl Ha.
  destruct (alloc_total _ _ _ Hi Hl Ha) as (a' & r & E).
  exists (Locked_new a'), r. exact (lock_free _ _ _ _ Hf E).
Defined.
