(* ===== verification/Bump.v ===== *)
(** * The bump allocator

    Models [src/src/allocator/bump.rs] and shows that it keeps the contract of
    [GlobalAlloc]: the live blocks lie between the start of the heap and [next],
    and their number is [allocations]. *)

From S2P Require Import Prelude Machine Alloc.

Record BumpAllocator := mkBump {
  heap_start : Z;
  heap_end : Z;
  next : Z;
  allocations : Z;
}.

Section operations.
Context `{Profile}.

Definition bump_new : BumpAllocator := mkBump 0 0 0 0.

Definition bump_init (start heap_size : Z) (a : BumpAllocator) : outcome BumpAllocator :=
  stop ← usize_add start heap_size;
  Done (mkBump start stop start (allocations a)).

Definition bump_alloc (layout : Layout) (bump : BumpAllocator)
    : outcome (BumpAllocator * option Z) :=
  alloc_start ← align_up (next bump) (align layout);
  match checked_add alloc_start (size layout) with
  | None => Done (bump, None)
  | Some alloc_end =>
      if alloc_end >? heap_end bump then Done (bump, None)
      else
        n ← usize_add (allocations bump) 1;
        Done (mkBump (heap_start bump) (heap_end bump) alloc_end n, Some alloc_start)
  end.

Definition bump_dealloc (ptr : Z) (layout : Layout) (bump : BumpAllocator)
    : outcome BumpAllocator :=
  n ← usize_sub (allocations bump) 1;
  Done (mkBump (heap_start bump) (heap_end bump)
          (if n =? 0 then heap_start bump else next bump) n).

#[export] Instance bump_allocator : Allocator BumpAllocator := {
  alloc := bump_alloc;
  dealloc := bump_dealloc;
}.
End operations.

Section correctness.
Context `{Profile} (lo hi : Z) (Hheap : 0 < lo ∧ lo <= hi ∧ hi < 2 ^ 63).

(** The live blocks lie below [next]; there are no more of them than bytes. *)
Record bump_inv (a : BumpAllocator) (live : list block) : Prop := {
  bi_start : heap_start a = lo;
  bi_end : heap_end a = hi;
  bi_count : allocations a = zlen live;
  bi_room : lo + zlen live <= next a <= hi;
  bi_live : Forall (λ b, lo <= b.1 ∧ 0 < size b.2 ∧ b.1 + size b.2 <= next a) live;
}.

Lemma bump_alloc_spec a live l :
  bump_inv a live → layout_ok l →
  ∃ a' r, bump_alloc l a = Done (a', r)
    ∧ match r with
      | None => bump_inv a' live
      | Some p => bump_inv a' ((p, l) :: live)
          ∧ p mod align l = 0 ∧ inside lo hi (p, size l)
          ∧ Forall (λ b, apart (p, size l) (extent b)) live
      end.
Proof.
  move=> [Es Ee Ec Hr Hl] [Ha Hs Ho]. have Hp := power_of_two_pos _ Ha. rw /isize_max in Ho.
  have ? := zlen_nonneg live. have Hb := round_up_bounds (next a) (align l) ltac:(lia).
  have Hm := round_up_mod (next a) (align l) ltac:(lia).
  rw /bump_alloc align_up_ok; [lia..|]. rw bind_Done /checked_add.
  set p := round_up _ _ in Hb Hm *. case_test; [|by eexists a, None].
  rw Ee Z.gtb_ltb. case_test; [by eexists a, None|].
  rw arith_ok; [lia|]. rw bind_Done. eexists _, (Some p). split; [done|].
  split; [|split; [done|split; [rw /inside /=; lia|]]].
  - split; cbn [heap_start heap_end next allocations]; rw ?zlen_cons; [done|done|lia|lia|].
    constructor; [cbn; lia|]. eapply Forall_impl; [exact Hl|]. cbn. lia.
  - eapply Forall_impl; [exact Hl|]. rw /apart /=. lia.
Qed.

(** It is answered exactly when the aligned block fits. *)
Lemma bump_alloc_fits a live l :
  bump_inv a live → layout_ok l →
  ∃ a' r, bump_alloc l a = Done (a', r) ∧ (is_Some r ↔ round_up (next a) (align l) + size l <= hi).
Proof.
  move=> [Es Ee Ec Hr Hl] [Ha Hs Ho]. have Hp := power_of_two_pos _ Ha. rw /isize_max in Ho.
  have ? := zlen_nonneg live. have Hb := round_up_bounds (next a) (align l) ltac:(lia).
  rw /bump_alloc align_up_ok; [lia..|]. rw bind_Done /checked_add.
  have Hno : ∀ P, ¬ P → is_Some (@None Z) ↔ P by move=> P HP; split; [by case|done].
  case_test; [|eexists a, None; split; [done|]; apply Hno; lia].
  rw Ee Z.gtb_ltb. case_test; [eexists a, None; split; [done|]; apply Hno; lia|].
  rw arith_ok; [lia|]. rw bind_Done. eexists _, (Some _). split; [done|]. split; [lia|by eexists].
Qed.

Lemma bump_dealloc_spec a live p l :
  bump_inv a ((p, l) :: live) → ∃ a', bump_dealloc p l a = Done a' ∧ bump_inv a' live.
Proof.
  move=> [Es Ee Ec Hr Hl]. have ? := zlen_nonneg live. rw zlen_cons in Ec. rw zlen_cons in Hr.
  rw /bump_dealloc arith_ok; [lia|]. rw bind_Done. eexists. split; [done|].
  have -> : allocations a - 1 = zlen live by lia. apply Forall_cons in Hl as [_ Hl].
  split; cbn [heap_start heap_end next allocations]; [done|done|done| |].
  - case_test; lia.
  - case_test; [|done]. by have -> : live = [] by apply zlen_0.
Qed.

#[export] Instance bump_spec : AllocatorSpec BumpAllocator lo hi.
Proof.
  apply (make_spec lo hi bump_inv (λ _, True)).
  - move=> a live l ?? _. by apply bump_alloc_spec.
  - apply bump_dealloc_spec.
  - move=> a live live' E [????]. split; rw -?E //; by rw /zlen -E.
Defined.
End correctness.

Section theorems.
Context `{Profile}.

Lemma bump_init_ok lo heap_size : 0 < lo → 0 <= heap_size → lo + heap_size < 2 ^ 63 →
  ∃ a, bump_init lo heap_size bump_new = Done a ∧ bump_inv lo (lo + heap_size) a [].
Proof.
  move=> ???. rw /bump_init arith_ok; [lia|]. eexists. split; [done|].
  split; cbn [heap_start heap_end next allocations]; rw ?zlen_nil; [done|done|done|lia|constructor].
Qed.

(** The bump allocator gets its memory back only when the last live block
    is freed: then it is as after initialisation, and until then freeing
    leaves [next] alone. *)
Lemma bump_reset lo hi a p l live :
  0 < lo ∧ lo <= hi ∧ hi < 2 ^ 63 → bump_inv lo hi a ((p, l) :: live) →
  ∃ a', bump_dealloc p l a = Done a'
    ∧ next a' = (if bool_decide (live = []) then lo else next a).
Proof.
  move=> Hh [Es _ Ec Hr _]. have ? := zlen_nonneg live. rw zlen_cons in Ec. rw zlen_cons in Hr.
  rw /bump_dealloc arith_ok; [lia|]. eexists. split; [done|]. cbn.
  case_test; case_bool_decide as Hn; try done.
  - exfalso. apply Hn, zlen_0. lia.
  - exfalso. subst live. rw zlen_nil in Ec. lia.
Qed.

(** C20: After any sequence of requests to a freshly initialised bump
    allocator, the live blocks are aligned, inside the heap and pairwise
    disjoint.  The next request never panics: an allocation is answered with a
    block exactly when the aligned block fits between [next] and the end of the
    heap, and freeing any live block succeeds; it gives the memory back when the
    block was the last one, and leaves [next] alone otherwise. *)
Theorem bump_clients lo heap_size a0 rs a live :
  0 < lo → 0 <= heap_size → lo + heap_size < 2 ^ 63 →
  bump_init lo heap_size bump_new = Done a0 →
  Forall (λ r, match r with Alloc l => layout_ok l | Free _ => True end) rs →
  serves a0 [] rs a live →
  Forall (block_ok lo (lo + heap_size)) live ∧ pairwise_apart (extent <$> live)
  ∧ (∀ l, layout_ok l → ∃ a' r, bump_alloc l a = Done (a', r)
       ∧ (is_Some r ↔ round_up (next a) (align l) + size l <= lo + heap_size))
  ∧ (∀ live1 p l live2, live = live1 ++ (p, l) :: live2 → ∃ a', bump_dealloc p l a = Done a'
       ∧ next a' = (if bool_decide (live1 ++ live2 = []) then lo else next a)).
Proof.
  move=> H1 H2 H3 E Hr Hs. have Hh : 0 < lo ∧ lo <= lo + heap_size ∧ lo + heap_size < 2 ^ 63 by lia.
  destruct (bump_init_ok lo heap_size H1 H2 H3) as (a1 & E1 & Hi). rw E in E1. injection E1 as <-.
  pose (S := bump_spec lo (lo + heap_size) Hh).
  have [Hi' [Hb Hp]] : client_ok lo (lo + heap_size) a live.
  { eapply (serves_ok lo (lo + heap_size)); [|split; [exact Hi|split; constructor]|exact Hs].
    eapply Forall_impl; [exact Hr|]. by case. }
  split; [done|]. split; [done|]. split.
  - move=> l Hl. by apply (bump_alloc_fits lo _ Hh a live l).
  - move=> live1 p l live2 El. apply (bump_reset lo (lo + heap_size) a p l (live1 ++ live2) Hh).
    subst live. exact (inv_extract lo (lo + heap_size) (S := spec_safe) _ _ _ _ _ Hi').
Qed.
End theorems.
