(* ===== verification/LinkedList.v ===== *)
(** * The linked-list allocator

    Models [src/src/allocator/linked_list.rs].  The free list is threaded
    through the free regions themselves; the model keeps what the code reads
    from it: the start and the size of each region, in link order.  First fit,
    splitting and freeing keep the contract of [GlobalAlloc]. *)

From S2P Require Import Prelude Machine Alloc.

(** A free region: its start address and its size. *)
Record ListNode := mkNode { start_addr : Z; node_size : Z }.

Definition NODE_SIZE : Z := 16.
Definition NODE_ALIGN : Z := 8.

Section operations.
Context `{Profile}.

Definition end_addr (n : ListNode) : outcome Z := usize_add (start_addr n) (node_size n).

(** The allocator is the list that starts at [head.next]. *)
Record LinkedListAllocator := mkLinkedList { head_next : list ListNode }.

Definition ll_new : LinkedListAllocator := mkLinkedList [].

Definition add_free_region (addr sz : Z) (a : LinkedListAllocator)
    : outcome LinkedListAllocator :=
  up ← align_up addr NODE_ALIGN;
  if negb (up =? addr) then Panic AssertionFailed
  else if negb (NODE_SIZE <=? sz) then Panic AssertionFailed
  else Done (mkLinkedList (mkNode addr sz :: head_next a)).

Definition ll_init (heap_start heap_size : Z) (a : LinkedListAllocator)
    : outcome LinkedListAllocator := add_free_region heap_start heap_size a.

(** [None] stands for [Err(())]. *)
Definition alloc_from_region (region : ListNode) (sz al : Z) : outcome (option Z) :=
  alloc_start ← align_up (start_addr region) al;
  match checked_add alloc_start sz with
  | None => Done None
  | Some alloc_end =>
      stop ← end_addr region;
      if alloc_end >? stop then Done None
      else
        excess_size ← usize_sub stop alloc_end;
        if (excess_size >? 0) && (excess_size <? NODE_SIZE) then Done None
        else Done (Some alloc_start)
  end.

(** The loop of [find_region]: the region it unlinks, if any, and the list
    that is left. *)
Fixpoint find_region (sz al : Z) (regions : list ListNode)
    : outcome (option (ListNode * Z) * list ListNode) :=
  match regions with
  | [] => Done (None, [])
  | region :: rest =>
      fit ← alloc_from_region region sz al;
      match fit with
      | Some alloc_start => Done (Some (region, alloc_start), rest)
      | None =>
          r ← find_region sz al rest;
          Done (r.1, region :: r.2)
      end
  end.

(** [Layout::align_to] and [Layout::pad_to_align] *)
Definition layout_align_to (l : Layout) (al : Z) : option Layout :=
  let a := Z.max (align l) al in
  if size l + (a - 1) <=? isize_max then Some (mkLayout (size l) a) else None.
Definition layout_pad (l : Layout) : Layout := mkLayout (round_up (size l) (align l)) (align l).

Definition size_align (layout : Layout) : outcome (Z * Z) :=
  match layout_align_to layout NODE_ALIGN with
  | None => Panic UnwrapFailed
  | Some l =>
      let l := layout_pad l in
      Done (Z.max (size l) NODE_SIZE, align l)
  end.

Definition ll_alloc (layout : Layout) (a : LinkedListAllocator)
    : outcome (LinkedListAllocator * option Z) :=
  sa ← size_align layout;
  r ← find_region sa.1 sa.2 (head_next a);
  match r.1 with
  | Some (region, alloc_start) =>
      match checked_add alloc_start sa.1 with
      | None => Panic UnwrapFailed
      | Some alloc_end =>
          stop ← end_addr region;
          excess_size ← usize_sub stop alloc_end;
          a ← (if excess_size >? 0 then add_free_region alloc_end excess_size (mkLinkedList r.2)
               else Done (mkLinkedList r.2));
          Done (a, Some alloc_start)
      end
  | None => Done (mkLinkedList r.2, None)
  end.

Definition ll_dealloc (ptr : Z) (layout : Layout) (a : LinkedListAllocator)
    : outcome LinkedListAllocator :=
  sa ← size_align layout;
  add_free_region ptr sa.1 a.

#[export] Instance ll_allocator : Allocator LinkedListAllocator := {
  alloc := ll_alloc;
  dealloc := ll_dealloc;
}.
End operations.

(** ** Correctness *)

(** The space a layout takes. *)
Definition ll_align (l : Layout) : Z := Z.max (align l) NODE_ALIGN.
Definition ll_size (l : Layout) : Z := Z.max (round_up (size l) (ll_align l)) NODE_SIZE.

Definition ll_accepts (l : Layout) : Prop := size l + (ll_align l - 1) <= isize_max.

Definition node_range (n : ListNode) : Z * Z := (start_addr n, node_size n).
Definition ll_extent (b : block) : Z * Z := (b.1, ll_size b.2).

(** A region fits a request: there is room after the alignment, and what is
    left over is nothing or a region of its own. *)
Definition fits (sz al : Z) (n : ListNode) : Prop :=
  let e := round_up (start_addr n) al + sz in
  e = start_addr n + node_size n ∨ e + NODE_SIZE <= start_addr n + node_size n.

Lemma power_of_two_8 : power_of_two 8.
Proof. by exists 3. Qed.

Lemma ll_align_pow l : layout_ok l → power_of_two (ll_align l).
Proof. move=> [? _ _]. apply power_of_two_max; [done|apply power_of_two_8]. Qed.

(** Multiples of the padded alignment are multiples of 8 and of the alignment. *)
Lemma ll_align_mod l p : layout_ok l → p mod ll_align l = 0 → p mod 8 = 0 ∧ p mod align l = 0.
Proof.
  move=> Hl Hp. have Ha := ll_align_pow l Hl. have ? := power_of_two_pos _ Ha.
  have ? := power_of_two_pos _ (lo_align _ Hl).
  apply Z.mod_divide in Hp; [|lia].
  have D8 : (8 | ll_align l)
    by apply power_of_two_divide; [apply power_of_two_8|done|rw /ll_align /NODE_ALIGN; lia].
  have Da : (align l | ll_align l)
    by apply power_of_two_divide; [apply Hl|done|rw /ll_align; lia].
  split; apply Z.mod_divide; [lia| |lia|]; by eapply Z.divide_trans; [|exact Hp].
Qed.

Lemma ll_size_bounds l : layout_ok l → size l <= ll_size l ∧ 16 <= ll_size l ∧ ll_size l mod 8 = 0
  ∧ (ll_accepts l → ll_size l <= isize_max).
Proof.
  move=> Hl. have Ha := ll_align_pow l Hl. have ? := power_of_two_pos _ Ha.
  have Hb := round_up_bounds (size l) (ll_align l) ltac:(lia).
  have [H8 _] := ll_align_mod l _ Hl (round_up_mod (size l) (ll_align l) ltac:(lia)).
  rw /ll_size /NODE_SIZE /ll_accepts /isize_max. split; [lia|]. split; [lia|]. split; [|lia].
  by destruct (Z.max_spec (round_up (size l) (ll_align l)) 16) as [[_ ->]|[_ ->]].
Qed.

Section correctness.
Context `{Profile} (lo hi : Z) (Hheap : 0 < lo ∧ lo <= hi ∧ hi < 2 ^ 63).

Definition region_ok (n : ListNode) : Prop :=
  start_addr n mod 8 = 0 ∧ 16 <= node_size n ∧ inside lo hi (node_range n).

Lemma size_align_ok l : layout_ok l → ll_accepts l → size_align l = Done (ll_size l, ll_align l).
Proof. rw /ll_accepts => _ ?. rw /size_align /layout_align_to -/(ll_align l). by ztrue. Qed.

Lemma add_free_region_ok addr sz a :
  0 <= addr < 2 ^ 63 → addr mod 8 = 0 → 16 <= sz →
  add_free_region addr sz a = Done (mkLinkedList (mkNode addr sz :: head_next a)).
Proof.
  move=> ? Hm ?. rw /add_free_region /NODE_ALIGN align_up_ok; [lia..|].
  have ? := round_up_bounds addr 8 ltac:(lia). have ? := round_up_least addr 8 addr ltac:(lia) ltac:(lia) Hm.
  have -> : round_up addr 8 = addr by lia. rw bind_Done /NODE_SIZE. by ztrue.
Qed.

Lemma alloc_from_region_ok n sz al :
  region_ok n → power_of_two al → 0 < sz < 2 ^ 63 →
  (fits sz al n ∧ alloc_from_region n sz al = Done (Some (round_up (start_addr n) al)))
  ∨ (¬ fits sz al n ∧ alloc_from_region n sz al = Done None).
Proof.
  move=> [_ [? [Hi1 Hi2]]] /power_of_two_pos Ha ?. rw /= in Hi1 Hi2.
  have Hb := round_up_bounds (start_addr n) al ltac:(lia).
  rw /fits /alloc_from_region /end_addr align_up_ok; [lia..|]. rw bind_Done /checked_add /NODE_SIZE.
  set s := round_up _ _ in Hb *. case_test; [|right; split; [lia|done]].
  rw arith_ok; [lia|]. rw bind_Done Z.gtb_ltb. case_test; [right; split; [lia|done]|].
  rw arith_ok; [lia|]. rw bind_Done Z.gtb_ltb.
  destruct (Z.ltb_spec 0 (start_addr n + node_size n - (s + sz))),
    (Z.ltb_spec (start_addr n + node_size n - (s + sz)) 16); cbn [andb];
    [right|left|left|left]; (split; [lia|done]).
Qed.

(** First fit: the first region that fits is unlinked. *)
Lemma find_region_ok sz al ns :
  Forall region_ok ns → power_of_two al → 0 < sz < 2 ^ 63 →
  (∃ pre n post, ns = pre ++ n :: post ∧ Forall (λ m, ¬ fits sz al m) pre ∧ fits sz al n
     ∧ find_region sz al ns = Done (Some (n, round_up (start_addr n) al), pre ++ post))
  ∨ (Forall (λ m, ¬ fits sz al m) ns ∧ find_region sz al ns = Done (None, ns)).
Proof.
  move=> Hns Ha Hs. elim: Hns => [|n ns' Hn _ IH]; [by right|]. cbn [find_region].
  destruct (alloc_from_region_ok n sz al Hn Ha Hs) as [[Hf ->]|[Hf ->]]; rw bind_Done.
  - left. by exists [], n, ns'.
  - destruct IH as [(pre & m & post & -> & Hp & Hm & ->)|[Hp ->]]; rw bind_Done.
    + left. exists (n :: pre), m, post. split; [done|]. split; [by constructor|done].
    + right. split; [by constructor|done].
Qed.

(** The free regions and the live blocks, with their padding, are pairwise
    disjoint and inside the heap. *)
Record ll_inv (a : LinkedListAllocator) (live : list block) : Prop := {
  li_free : Forall region_ok (head_next a);
  li_live : Forall (λ b, layout_ok b.2 ∧ ll_accepts b.2 ∧ b.1 mod ll_align b.2 = 0
                        ∧ inside lo hi (ll_extent b)) live;
  li_apart : pairwise_apart ((node_range <$> head_next a) ++ (ll_extent <$> live));
}.

(** What a suitable region turns into: the block and, after it, the rest. *)
Lemma split_region l n (rest : list (Z * Z)) :
  layout_ok l → ll_accepts l → region_ok n → fits (ll_size l) (ll_align l) n →
  Forall (apart (node_range n)) rest → pairwise_apart rest →
  let p := round_up (start_addr n) (ll_align l) in
  let e := start_addr n + node_size n - (p + ll_size l) in
  p mod ll_align l = 0 ∧ inside lo hi (p, ll_size l) ∧ 0 <= e
  ∧ (0 < e → region_ok (mkNode (p + ll_size l) e))
  ∧ pairwise_apart ((if 0 <? e then [(p + ll_size l, e)] else []) ++ (p, ll_size l) :: rest).
Proof.
  move=> Hl Hacc [_ [? [Hi1 Hi2]]] Hf Hr Hp p e. rw /= in Hi1 Hi2.
  have Ha := ll_align_pow l Hl. have ? := power_of_two_pos _ Ha.
  have Hb := round_up_bounds (start_addr n) (ll_align l) ltac:(lia).
  have Hm := round_up_mod (start_addr n) (ll_align l) ltac:(lia).
  have [? [? [H8 _]]] := ll_size_bounds l Hl. have [H8' _] := ll_align_mod l _ Hl Hm.
  rw -/p in Hb Hm H8'. rw /fits /NODE_SIZE -/p in Hf.
  have He : 0 <= e by rw /e; lia.
  have Hpart : ∀ q k, start_addr n <= q → q + k <= start_addr n + node_size n →
    Forall (apart (q, k)) rest.
  { move=> q k ??. eapply Forall_impl; [exact Hr|]. move=> s. by apply apart_within. }
  split; [done|]. split; [rw /inside /=; lia|]. split; [done|]. split.
  - move=> ?. rw /region_ok /inside /=. split; [|lia].
    have H1 := Z.div_mod p 8 ltac:(lia). have H2 := Z.div_mod (ll_size l) 8 ltac:(lia).
    have -> : p + ll_size l = (p / 8 + ll_size l / 8) * 8 by lia. by apply Z.mod_mul.
  - have Hblk : pairwise_apart ((p, ll_size l) :: rest).
    { apply pairwise_apart_cons. split; [apply Hpart; lia|done]. }
    case_test; [|done]. apply pairwise_apart_cons. split; [|done].
    constructor; [right; cbn; lia|apply Hpart; rw /e; lia].
Qed.

(** The state after a suitable region has been found, and its invariant. *)
Lemma ll_alloc_effect a live l pre n post :
  ll_inv a live → layout_ok l → ll_accepts l → head_next a = pre ++ n :: post →
  fits (ll_size l) (ll_align l) n →
  find_region (ll_size l) (ll_align l) (head_next a) =
    Done (Some (n, round_up (start_addr n) (ll_align l)), pre ++ post) →
  let p := round_up (start_addr n) (ll_align l) in
  let e := start_addr n + node_size n - (p + ll_size l) in
  let a' := mkLinkedList ((if 0 <? e then [mkNode (p + ll_size l) e] else []) ++ pre ++ post) in
  ll_alloc l a = Done (a', Some p) ∧ ll_inv a' ((p, l) :: live).
Proof.
  move=> [Hfree Hlive Hap] Hl Hacc En Hf Efind. rw En in Hfree. rw En in Hap.
  have [Hn Hrest] : region_ok n ∧ Forall region_ok (pre ++ post).
  { apply Forall_app in Hfree as [? [? ?]%Forall_cons]. by rw Forall_app. }
  have [Hapn Haprest] : Forall (apart (node_range n)) ((node_range <$> pre ++ post) ++ (ll_extent <$> live))
    ∧ pairwise_apart ((node_range <$> pre ++ post) ++ (ll_extent <$> live)).
  { apply pairwise_apart_cons. move: Hap. apply pairwise_apart_Permutation.
    by rw !fmap_app fmap_cons -!app_assoc /= -Permutation_middle. }
  destruct (split_region l n _ Hl Hacc Hn Hf Hapn Haprest) as (Hm & Hin & He & Hreg & Hpw).
  move=> p e. rw -/p -/e in Efind Hm Hin He Hreg Hpw.
  have [? [? [H8 Hmax]]] := ll_size_bounds l Hl. have {}Hmax := Hmax Hacc. rw /isize_max in Hmax.
  destruct Hn as [_ [_ [Hi1 Hi2]]]. rw /= in Hi1 Hi2. destruct Hin as [Hin1 Hin2]. rw /= in Hin1 Hin2.
  split.
  - rw /ll_alloc size_align_ok // bind_Done Efind bind_Done /checked_add /end_addr. cbn [fst snd].
    ztrue. rw arith_ok; [lia|]. rw bind_Done arith_ok; [rw -/e; lia|]. rw bind_Done -/e Z.gtb_ltb.
    case_test; [|by rw bind_Done]. rw add_free_region_ok ?bind_Done //; [lia| |].
    + by destruct Hreg as [? _].
    + destruct Hreg as [_ [? _]]; [done|]. done.
  - split; cbn [head_next].
    + apply Forall_app; split; [|done]. case_test; [|constructor]. by constructor; [apply Hreg|constructor].
    + constructor; [|done]. split; [done|]. split; [done|]. by split.
    + move: Hpw. apply pairwise_apart_Permutation. rw !fmap_app fmap_cons /= -!app_assoc.
      case_test; cbn [app fmap list_fmap]; rw ?app_assoc -?Permutation_middle //.
Qed.

Lemma ll_alloc_found a live l pre n post :
  ll_inv a live → layout_ok l → ll_accepts l → head_next a = pre ++ n :: post →
  fits (ll_size l) (ll_align l) n →
  find_region (ll_size l) (ll_align l) (head_next a) =
    Done (Some (n, round_up (start_addr n) (ll_align l)), pre ++ post) →
  ∃ a' p, ll_alloc l a = Done (a', Some p) ∧ ll_inv a' ((p, l) :: live).
Proof. move=> *. eexists _, _. by apply ll_alloc_effect. Qed.

Lemma ll_alloc_spec a live l :
  ll_inv a live → layout_ok l → ll_accepts l →
  ∃ a' r, ll_alloc l a = Done (a', r)
    ∧ match r with
      | None => ll_inv a' live
      | Some p => ll_inv a' ((p, l) :: live)
          ∧ p mod align l = 0 ∧ inside lo hi (p, size l)
          ∧ Forall (λ b, apart (p, size l) (extent b)) live
      end.
Proof.
  move=> I Hl Hacc. have [? [? [_ Hmax]]] := ll_size_bounds l Hl.
  have {}Hmax := Hmax Hacc. rw /isize_max in Hmax.
  destruct (find_region_ok (ll_size l) (ll_align l) (head_next a)) as
    [(pre & n & post & En & _ & Hf & Ef)|[_ Ef]]; [apply I|by apply ll_align_pow|lia| |].
  - destruct (ll_alloc_found a live l pre n post I Hl Hacc En Hf Ef) as (a' & p & E & I').
    exists a', (Some p). split; [done|]. split; [done|]. destruct I' as [_ Hlive Hap].
    apply Forall_cons in Hlive as [(_ & _ & Hm & Hin1 & Hin2) Hlive]. rw /= in Hin1 Hin2.
    split; [by eapply ll_align_mod|]. split; [rw /inside /=; lia|].
    apply pairwise_apart_app in Hap as (_ & Hap & _). rw fmap_cons pairwise_apart_cons in Hap.
    apply Forall_forall => -[q k] Hq. have [Hk _] := proj1 (Forall_forall _ _) Hlive _ Hq.
    have [? _] := ll_size_bounds k Hk.
    have := proj1 (Forall_forall _ _) (proj1 (Forall_fmap _ _ _) (proj1 Hap)) _ Hq.
    rw /apart /=. lia.
  - exists (mkLinkedList (head_next a)), None. rw /ll_alloc size_align_ok // bind_Done Ef. by destruct I.
Qed.

Lemma ll_dealloc_spec a live p l :
  ll_inv a ((p, l) :: live) → ∃ a', ll_dealloc p l a = Done a' ∧ ll_inv a' live.
Proof.
  move=> [Hfree Hlive Hap]. apply Forall_cons in Hlive as [(Hl & Hacc & Hm & Hin) Hlive]. rw /= in Hl Hacc Hm.
  have [? [? _]] := ll_size_bounds l Hl. have [H8 _] := ll_align_mod l p Hl Hm.
  have [Hin1 Hin2] := Hin. rw /= in Hin1 Hin2.
  rw /ll_dealloc size_align_ok // bind_Done add_free_region_ok //; [lia|].
  eexists. split; [done|]. split; cbn [head_next]; [by constructor|done|].
  move: Hap. apply pairwise_apart_Permutation. by rw !fmap_cons /= -Permutation_middle.
Qed.

#[export] Instance ll_spec : AllocatorSpec LinkedListAllocator lo hi.
Proof.
  apply (make_spec lo hi ll_inv ll_accepts).
  - apply ll_alloc_spec.
  - apply ll_dealloc_spec.
  - move=> a live live' E [H1 H2 H3]. split; [done|by rw -E|by rw -E].
Defined.
End correctness.

Section theorems.
Context `{Profile}.

Lemma ll_init_ok lo heap_size :
  0 < lo → lo mod 8 = 0 → 16 <= heap_size → lo + heap_size < 2 ^ 63 →
  ∃ a, ll_init lo heap_size ll_new = Done a ∧ ll_inv lo (lo + heap_size) a [].
Proof.
  move=> ? Hm ??. rw /ll_init add_free_region_ok; [lia|done|done|]. eexists. split; [done|].
  split; cbn [head_next ll_new fmap list_fmap app]; [|constructor|].
  - constructor; [|constructor]. rw /region_ok /inside /=. lia.
  - repeat constructor.
Qed.

(** After any sequence of requests to a freshly initialised linked-list
    allocator, the live blocks are aligned, inside the heap and pairwise
    disjoint, and the next request is answered without a failed assertion. *)
Lemma linked_list_clients lo heap_size a0 rs a live :
  0 < lo → lo mod 8 = 0 → 16 <= heap_size → lo + heap_size < 2 ^ 63 →
  ll_init lo heap_size ll_new = Done a0 →
  Forall (λ r, match r with Alloc l => layout_ok l ∧ ll_accepts l | Free _ => True end) rs →
  serves a0 [] rs a live →
  Forall (block_ok lo (lo + heap_size)) live ∧ pairwise_apart (extent <$> live)
  ∧ (∀ l, layout_ok l → ll_accepts l → ∃ a' r, ll_alloc l a = Done (a', r)).
Proof.
  move=> H1 Hm H2 H3 E Hr Hs.
  have Hh : 0 < lo ∧ lo <= lo + heap_size ∧ lo + heap_size < 2 ^ 63 by lia.
  destruct (ll_init_ok lo heap_size H1 Hm H2 H3) as (a1 & E1 & Hi). rw E in E1. injection E1 as <-.
  pose S := ll_spec lo (lo + heap_size) Hh.
  have [Hi' [Hb Hp]] : client_ok lo (lo + heap_size) a live.
  { eapply (serves_ok lo (lo + heap_size)); [|split; [exact Hi|split; constructor]|exact Hs].
    eapply Forall_impl; [exact Hr|]. by case. }
  split; [done|]. split; [done|]. move=> l Hl Ha.
  destruct (ll_alloc_spec lo _ Hh a live l Hi' Hl Ha) as (a' & r & E' & _). by exists a', r.
Qed.

(** The linked-list allocator is first fit: it fails exactly when no free
    region fits the request, and otherwise takes the first that does, returns
    the first aligned address in it and puts what is left after the block at
    the front of the free list. *)
Lemma linked_list_first_fit lo hi a live l :
  0 < lo ∧ lo <= hi ∧ hi < 2 ^ 63 → ll_inv lo hi a live → layout_ok l → ll_accepts l →
  (Forall (λ m, ¬ fits (ll_size l) (ll_align l) m) (head_next a) ∧ ll_alloc l a = Done (a, None))
  ∨ ∃ pre n post, head_next a = pre ++ n :: post
      ∧ Forall (λ m, ¬ fits (ll_size l) (ll_align l) m) pre ∧ fits (ll_size l) (ll_align l) n
      ∧ let p := round_up (start_addr n) (ll_align l) in
        let e := start_addr n + node_size n - (p + ll_size l) in
        ll_alloc l a = Done (mkLinkedList ((if 0 <? e then [mkNode (p + ll_size l) e] else [])
                                           ++ pre ++ post), Some p).
Proof.
  move=> Hh I Hl Hacc. have [? [? [_ Hmax]]] := ll_size_bounds l Hl.
  have {}Hmax := Hmax Hacc. rw /isize_max in Hmax.
  destruct (find_region_ok lo hi Hh (ll_size l) (ll_align l) (head_next a)) as
    [(pre & n & post & En & Hpre & Hf & Ef)|[Hn Ef]]; [apply I|by apply ll_align_pow|lia| |].
  - right. exists pre, n, post. split; [done|]. split; [done|]. split; [done|].
    exact (proj1 (ll_alloc_effect lo hi Hh a live l pre n post I Hl Hacc En Hf Ef)).
  - left. split; [done|]. rw /ll_alloc size_align_ok // bind_Done Ef. by case: a {I Hn Ef}.
Qed.
End theorems.
