(* ===== verification/LinkedMem.v ===== *)
(** * The linked-list allocator, pointer by pointer

    [LinkedList] keeps the free list as a list of regions.  Here the nodes are
    where [src/src/allocator/linked_list.rs] puts them: at the start of the free
    regions, in the memory that the allocator shares with its clients.  The
    operations walk and change the links; they are shown to implement those of
    [LinkedList], also while clients overwrite the blocks that they hold. *)

From S2P Require Import Prelude Machine Alloc LinkedList.

(** ** Data *)

(** [ListNode]: the size of the region and the link to the next one. *)
Record FreeNode := mkFreeNode { fn_size : Z; fn_next : option Z }.

(** [LinkedListAllocator], with the nodes in memory by address. *)
Record MemList := mkMemList { ml_head : FreeNode; ml_mem : gmap Z FreeNode }.

(** ** Operations *)

Section operations.
Context `{Profile}.

(** A reference to a node: [None] is the field [head]. *)
Definition get_node (p : option Z) (a : MemList) : outcome FreeNode :=
  match p with
  | None => Done (ml_head a)
  | Some p => match ml_mem a !! p with Some n => Done n | None => Panic InvalidPointer end
  end.

(** [p.next = x] *)
Definition set_link (p : option Z) (x : option Z) (a : MemList) : outcome MemList :=
  n ← get_node p a;
  let n := mkFreeNode (fn_size n) x in
  match p with
  | None => Done (mkMemList n (ml_mem a))
  | Some p => Done (mkMemList (ml_head a) (<[p := n]> (ml_mem a)))
  end.

Definition mem_new : MemList := mkMemList (mkFreeNode 0 None) ∅.

Definition mem_add_free_region (addr sz : Z) (a : MemList) : outcome MemList :=
  up ← align_up addr NODE_ALIGN;
  if negb (up =? addr) then Panic AssertionFailed
  else if negb (NODE_SIZE <=? sz) then Panic AssertionFailed
  else
    let node := mkFreeNode sz (fn_next (ml_head a)) in
    a ← set_link None None a;
    let a := mkMemList (ml_head a) (store NODE_SIZE addr node (ml_mem a)) in
    set_link None (Some addr) a.

Definition mem_init (heap_start heap_size : Z) (a : MemList) : outcome MemList :=
  mem_add_free_region heap_start heap_size a.

(** The loop of [find_region] from the node [current] on: the region that it
    unlinks, by its address, and the start of the block in it. *)
Fixpoint mem_find_region (fuel : nat) (current : option Z) (sz al : Z) (a : MemList)
    : outcome (MemList * option (Z * Z)) :=
  match fuel with
  | O => Diverge
  | S fuel =>
      cur ← get_node current a;
      match fn_next cur with
      | None => Done (a, None)
      | Some p =>
          region ← get_node (Some p) a;
          fit ← alloc_from_region (mkNode p (fn_size region)) sz al;
          match fit with
          | Some alloc_start =>
              let next := fn_next region in
              a ← set_link (Some p) None a;
              a ← set_link current None a;
              a ← set_link current next a;
              Done (a, Some (p, alloc_start))
          | None => mem_find_region fuel (Some p) sz al a
          end
      end
  end.

(** A list without a cycle has at most as many nodes as there are in memory. *)
Definition mem_alloc (layout : Layout) (a : MemList) : outcome (MemList * option Z) :=
  sa ← size_align layout;
  r ← mem_find_region (S (base.size (ml_mem a))) None sa.1 sa.2 a;
  match r.2 with
  | Some (p, alloc_start) =>
      match checked_add alloc_start sa.1 with
      | None => Panic UnwrapFailed
      | Some alloc_end =>
          region ← get_node (Some p) r.1;
          stop ← end_addr (mkNode p (fn_size region));
          excess_size ← usize_sub stop alloc_end;
          a ← (if excess_size >? 0 then mem_add_free_region alloc_end excess_size r.1 else Done r.1);
          Done (a, Some alloc_start)
      end
  | None => Done (r.1, None)
  end.

Definition mem_dealloc (ptr : Z) (layout : Layout) (a : MemList) : outcome MemList :=
  sa ← size_align layout;
  mem_add_free_region ptr sa.1 a.

#[export] Instance mem_allocator : Allocator MemList := {
  alloc := mem_alloc;
  dealloc := mem_dealloc;
}.
End operations.

(** ** Representation *)

(** The links lead from [p] through the regions [rs] to [q]. *)
Fixpoint segment (m : gmap Z FreeNode) (p : option Z) (rs : list ListNode) (q : option Z) : Prop :=
  match rs with
  | [] => p = q
  | r :: rs => p = Some (start_addr r)
      ∧ ∃ x, m !! start_addr r = Some (mkFreeNode (node_size r) x) ∧ segment m x rs q
  end.

(** The free list holds the regions [rs]. *)
Definition spells (a : MemList) (rs : list ListNode) : Prop :=
  segment (ml_mem a) (fn_next (ml_head a)) rs None.

(** The node whose link comes after the regions [rs]. *)
Definition cursor (rs : list ListNode) : option Z := start_addr <$> last rs.

Lemma segment_app m p rs1 rs2 q :
  segment m p (rs1 ++ rs2) q ↔ ∃ x, segment m p rs1 x ∧ segment m x rs2 q.
Proof.
  elim: rs1 p => [|r rs1 IH] p /=; [naive_solver|]. setoid_rewrite IH. naive_solver.
Qed.

Lemma segment_frame m m' p rs q :
  (∀ r, r ∈ rs → m' !! start_addr r = m !! start_addr r) → segment m p rs q → segment m' p rs q.
Proof.
  elim: rs p => [|r rs IH] p Hm //= [-> [x [Hx Hs]]]. split; [done|]. exists x.
  split; [rw Hm; [by left|done]|]. apply IH; [|done]. move=> r' ?. apply Hm. by right.
Qed.

Lemma segment_lookup m p rs q r : segment m p rs q → r ∈ rs → is_Some (m !! start_addr r).
Proof.
  elim: rs p => [|r' rs IH] p; [by move=> _ /elem_of_nil|].
  move=> [_ [x [Hx Hs]]] /elem_of_cons [->|Hr]; [by rw Hx; eexists|by eapply IH].
Qed.

Section simulation.
Context `{Profile}.

(** The link after the regions [pre] can be read and changed. *)
Lemma get_cursor a pre p :
  segment (ml_mem a) (fn_next (ml_head a)) pre p →
  ∃ n, get_node (cursor pre) a = Done n ∧ fn_next n = p.
Proof.
  rw /cursor. destruct pre as [|r pre _] using rev_ind; [by move=> <-; eexists|].
  rw last_snoc segment_app => -[x [_ [_ [y [Hy <-]]]]]. cbn. rw Hy. by eexists.
Qed.

Lemma set_cursor a pre p x :
  NoDup (start_addr <$> pre) → segment (ml_mem a) (fn_next (ml_head a)) pre p →
  ∃ a', set_link (cursor pre) x a = Done a'
    ∧ segment (ml_mem a') (fn_next (ml_head a')) pre x
    ∧ ∀ q, q ∉ start_addr <$> pre → ml_mem a' !! q = ml_mem a !! q.
Proof.
  rw /cursor. destruct pre as [|r pre _] using rev_ind.
  { move=> _ _. eexists. by split_and!. }
  rw last_snoc fmap_app /= => /NoDup_app [_ [Hd _]].
  have Hr : start_addr r ∉ start_addr <$> pre by move=> /Hd; rw list_elem_of_singleton. rw segment_app => -[y [Hs [Ey [z [Hz _]]]]]. subst y.
  rw /set_link /= Hz. eexists. split; [done|]. cbn [ml_mem ml_head fn_size].
  split; [|move=> q; rw elem_of_app list_elem_of_singleton => Hq; rw lookup_insert_ne //; naive_solver].
  rw segment_app. exists (Some (start_addr r)). split.
  - eapply segment_frame; [|exact Hs]. move=> r' Hr'. rw lookup_insert_ne //.
    move=> E. apply Hr. rw E. by apply list_elem_of_fmap_2.
  - split; [done|]. exists x. by rw lookup_insert_eq.
Qed.

(** One pass of the loop: [pre] has been walked over, [ns] lies ahead. *)
Lemma mem_find_region_ok fuel pre ns sz al a r ns' p :
  segment (ml_mem a) (fn_next (ml_head a)) pre p → segment (ml_mem a) p ns None →
  NoDup (start_addr <$> pre ++ ns) → (length ns < fuel)%nat →
  find_region sz al ns = Done (r, ns') →
  ∃ a', mem_find_region fuel (cursor pre) sz al a = Done (a', (λ ns, (start_addr ns.1, ns.2)) <$> r)
    ∧ spells a' (pre ++ ns')
    ∧ ∀ n s, r = Some (n, s) → fn_size <$> ml_mem a' !! start_addr n = Some (node_size n).
Proof.
  elim: ns fuel pre p a r ns' => [|n ns IH] [|fuel] pre p a r ns' Hpre Hns Hnd Hf; [lia| |lia|].
  { move=> [<- <-]. cbn in Hns. subst p. cbn [mem_find_region].
    destruct (get_cursor _ _ _ Hpre) as [c [-> Ec]]. rw bind_Done Ec. exists a. split; [done|]. split; [|done].
    rw /spells app_nil_r. done. }
  cbn [find_region]. destruct Hns as [-> [x [Hx Hns]]]. rw bind_Done_inv => -[fit [Efit]].
  cbn [mem_find_region]. destruct (get_cursor _ _ _ Hpre) as [c [-> Ec]]. rw bind_Done Ec.
  cbn [get_node]. rw Hx bind_Done. cbn [fn_size fn_next]. have -> : mkNode (start_addr n) (node_size n) = n by case: n {Hnd Hx Hns Efit IH Hf Ec Hpre}.
  rw Efit bind_Done.
  have [Hnpre [Hnns [Hndp Hdisj]]] : start_addr n ∉ start_addr <$> pre ∧ start_addr n ∉ start_addr <$> ns
    ∧ NoDup (start_addr <$> pre) ∧ (∀ y, y ∈ start_addr <$> ns → y ∉ start_addr <$> pre).
  { rw fmap_app in Hnd. apply NoDup_app in Hnd as (H1 & H2 & H3). apply NoDup_cons in H3 as [H3 _].
    split; [move=> /H2 []; by left|]. split; [done|]. split; [done|]. move=> y Hy /H2 []. by right. }
  destruct fit as [s|].
  - move=> [<- <-]. rw /set_link. cbn [get_node]. rw Hx bind_Done. cbn [fn_size]. rw bind_Done.
    set a1 := mkMemList (ml_head a) _.
    have Hpre1 : segment (ml_mem a1) (fn_next (ml_head a1)) pre (Some (start_addr n)).
    { eapply segment_frame; [|exact Hpre]. move=> r' Hr'. rw /a1 /= lookup_insert_ne //.
      move=> E. apply Hnpre. rw E. by apply list_elem_of_fmap_2. }
    rw -/(set_link (cursor pre) None a1). destruct (set_cursor a1 pre _ None Hndp Hpre1) as (a2 & -> & Hpre2 & Hk2).
    rw bind_Done -/(set_link (cursor pre) x a2). destruct (set_cursor a2 pre _ x Hndp Hpre2) as (a3 & -> & Hpre3 & Hk3).
    rw bind_Done. exists a3. split; [done|]. split.
    + rw /spells segment_app. exists x. split; [done|]. eapply segment_frame; [|exact Hns].
      move=> r' Hr'. have Hr2 : start_addr r' ∈ start_addr <$> ns by apply list_elem_of_fmap_2.
      rw Hk3; [by apply Hdisj|]. rw Hk2; [by apply Hdisj|]. rw /a1 /= lookup_insert_ne //. congruence.
    + move=> n' s' [<- _]. rw Hk3 // Hk2 // /a1 /= lookup_insert_eq. done.
  - rw bind_Done_inv => -[[r1 ns1] [Efind]] [<- <-]. cbn [fst snd].
    have Hc : cursor (pre ++ [n]) = Some (start_addr n) by rw /cursor last_snoc.
    have Hpre' : segment (ml_mem a) (fn_next (ml_head a)) (pre ++ [n]) x.
    { rw segment_app. exists (Some (start_addr n)). split; [done|]. split; [done|]. by exists x. }
    rw -Hc. destruct (IH fuel (pre ++ [n]) x a r1 ns1 Hpre' Hns) as (a' & E & Hs & Hn).
    + by rw -app_assoc.
    + cbn in Hf. lia.
    + exact Efind.
    + exists a'. split; [done|]. split; [|done]. by rw -app_assoc in Hs.
Qed.

(** Adding a region that shares no node with the others. *)
Lemma mem_add_free_region_ok addr sz a rs b :
  spells a rs → (∀ r, r ∈ rs → apart (start_addr r, NODE_SIZE) (addr, NODE_SIZE)) →
  add_free_region addr sz (mkLinkedList rs) = Done b →
  ∃ a', mem_add_free_region addr sz a = Done a' ∧ spells a' (head_next b).
Proof.
  move=> Hs Ha. rw /add_free_region /mem_add_free_region.
  case: (align_up _ _) => [up|p|] //. rw !bind_Done. case: (negb _) => //. case: (negb _) => // -[<-].
  rw /set_link. cbn [get_node]. rw !bind_Done. eexists. split; [done|]. split; [done|].
  eexists. split; [apply store_eq|]. eapply segment_frame; [|exact Hs].
  move=> r Hr. cbn [ml_mem]. apply store_apart; [done|by apply Ha].
Qed.
End simulation.

(** ** Refinement *)

Section refinement.
Context `{Profile} (lo hi : Z) (Hheap : 0 < lo ∧ lo <= hi ∧ hi < 2 ^ 63).

(** Memory spells the free list of a state of [LinkedList]. *)
Definition mem_inv (a : MemList) (live : list block) : Prop :=
  ∃ rs, spells a rs ∧ ll_inv lo hi (mkLinkedList rs) live.

Lemma regions_NoDup rs :
  Forall (region_ok lo hi) rs → pairwise_apart (node_range <$> rs) → NoDup (start_addr <$> rs).
Proof.
  elim=> {rs} [|r rs [_ [Hr _]] Hrs IH]; [constructor|]. rw !fmap_cons pairwise_apart_cons => -[Ha Hp].
  constructor; [|by apply IH]. move=> /list_elem_of_fmap [r' [E Hr']].
  have [_ [? _]] := proj1 (Forall_forall _ _) Hrs r' Hr'.
  have := proj1 (Forall_forall _ _) (proj1 (Forall_fmap _ _ _) Ha) r' Hr'. rw /apart /=. lia.
Qed.

(** A list that memory spells has a node in memory for each region. *)
Lemma spells_length a rs : spells a rs → NoDup (start_addr <$> rs) → (length rs <= base.size (ml_mem a))%nat.
Proof.
  move=> Hs Hnd. rw -(length_fmap start_addr) -size_dom -(size_list_to_set (C := gset Z) _ Hnd).
  apply subseteq_size. move=> x. rw elem_of_list_to_set => /list_elem_of_fmap [r [-> Hr]].
  apply elem_of_dom. by eapply segment_lookup.
Qed.

(** Ranges of sixteen bytes at the start of two regions. *)
Lemma nodes_apart r s : 16 <= r.2 → 16 <= s.2 → apart r s → apart (s.1, NODE_SIZE) (r.1, NODE_SIZE).
Proof. rw /apart /NODE_SIZE /=. lia. Qed.

Lemma mem_add_refines addr sz a rs live :
  spells a rs → ll_inv lo hi (mkLinkedList (mkNode addr sz :: rs)) live →
  ∃ a', mem_add_free_region addr sz a = Done a' ∧ spells a' (mkNode addr sz :: rs).
Proof.
  move=> Hs [Hfree _ Hap]. cbn [head_next] in Hfree, Hap. apply Forall_cons in Hfree as [Hn Hrs].
  have Hn' := Hn. destruct Hn' as [H8 [H16 [Hi1 Hi2]]]. cbn in H8, H16, Hi1, Hi2.
  apply (mem_add_free_region_ok addr sz a rs (mkLinkedList (mkNode addr sz :: rs)) Hs).
  - move=> r Hr. have [_ [? _]] := proj1 (Forall_forall _ _) Hrs r Hr.
    apply (nodes_apart (addr, sz) (node_range r)); [done|done|].
    rw fmap_cons in Hap. apply pairwise_apart_cons in Hap as [Hap _]. apply Forall_app in Hap as [Hap _].
    exact (proj1 (Forall_forall _ _) (proj1 (Forall_fmap _ _ _) Hap) r Hr).
  - apply add_free_region_ok; [lia|done|done].
Qed.

Lemma mem_alloc_refines a rs live l :
  spells a rs → ll_inv lo hi (mkLinkedList rs) live → layout_ok l → ll_accepts l →
  ∃ a' rs' r, mem_alloc l a = Done (a', r) ∧ ll_alloc l (mkLinkedList rs) = Done (mkLinkedList rs', r)
    ∧ spells a' rs'.
Proof.
  move=> Hs I Hl Hacc. have [? [? [_ Hmax]]] := ll_size_bounds l Hl.
  have {}Hmax := Hmax Hacc. rw /isize_max in Hmax.
  have Hnd : NoDup (start_addr <$> rs).
  { apply regions_NoDup; [apply I|]. exact (proj1 (proj1 (pairwise_apart_app _ _) (li_apart _ _ _ _ I))). }
  have Hlen := spells_length a rs Hs Hnd.
  have Hfind : ∀ r rs', find_region (ll_size l) (ll_align l) rs = Done (r, rs') → _ :=
    λ r rs', mem_find_region_ok (S (base.size (ml_mem a))) [] rs (ll_size l) (ll_align l) a r rs' _
      eq_refl Hs Hnd ltac:(lia).
  rw /mem_alloc size_align_ok // bind_Done. cbn [fst snd].
  destruct (find_region_ok lo hi Hheap (ll_size l) (ll_align l) rs) as
    [(pre & n & post & En & _ & Hf & Ef)|[_ Ef]]; [apply I|by apply ll_align_pow|lia| |].
  - destruct (ll_alloc_effect lo hi Hheap _ live l pre n post I Hl Hacc En Hf Ef) as [Ea I'].
    destruct (Hfind _ _ Ef) as (a1 & E1 & Hs1 & Hn1). have {}Hn1 := Hn1 _ _ eq_refl.
    rw Ea E1 bind_Done. cbn [fst snd fmap option_fmap option_map].
    have Hn : region_ok lo hi n by apply (proj1 (Forall_forall _ _) (li_free _ _ _ _ I)); rw En; set_solver.
    destruct Hn as [_ [_ [Hi1 Hi2]]]. rw /= in Hi1 Hi2.
    set p := round_up (start_addr n) (ll_align l) in Ea I' E1 *.
    have Hp : lo <= p ∧ p + ll_size l <= start_addr n + node_size n ∧ start_addr n <= p.
    { rw /fits /NODE_SIZE -/p in Hf. have := power_of_two_pos _ (ll_align_pow l Hl).
      have := round_up_bounds (start_addr n) (ll_align l). rw -/p. lia. }
    rw /checked_add. ztrue. case Hl1: (ml_mem a1 !! start_addr n) Hn1 => [[sz x]|] //= [Esz].
    subst sz. rw Hl1 bind_Done /end_addr /= arith_ok; [lia|]. rw bind_Done arith_ok; [lia|]. rw bind_Done Z.gtb_ltb.
    set e := start_addr n + node_size n - (p + ll_size l) in Ea I' *. rw -/e.
    case: (Z.ltb_spec 0 e) Ea I' => He Ea I'; [|by rw bind_Done; eexists _, _, _].
    destruct (mem_add_refines (p + ll_size l) e a1 (pre ++ post) _ Hs1 I') as (a2 & -> & Hs2).
    rw bind_Done. by eexists _, _, _.
  - destruct (Hfind _ _ Ef) as (a1 & E1 & Hs1 & _). rw E1 bind_Done. cbn [fst snd fmap option_fmap option_map].
    eexists a1, rs, None. split; [done|]. split; [|done].
    by rw /ll_alloc size_align_ok // bind_Done Ef.
Qed.

Lemma mem_dealloc_refines a rs live p l :
  spells a rs → ll_inv lo hi (mkLinkedList rs) ((p, l) :: live) →
  ∃ a', mem_dealloc p l a = Done a'
    ∧ ll_dealloc p l (mkLinkedList rs) = Done (mkLinkedList (mkNode p (ll_size l) :: rs))
    ∧ spells a' (mkNode p (ll_size l) :: rs).
Proof.
  move=> Hs I. destruct (ll_dealloc_spec lo hi Hheap _ _ _ _ I) as ([rs'] & E & I').
  have [Hl [Hacc [Hm Hin]]] := Forall_inv (li_live _ _ _ _ I). cbn [fst snd] in Hl, Hacc, Hm.
  have [? [? _]] := ll_size_bounds l Hl. have [H8 _] := ll_align_mod l p Hl Hm.
  destruct Hin as [Hin1 Hin2]. cbn in Hin1, Hin2.
  rw /ll_dealloc size_align_ok // bind_Done add_free_region_ok // in E; [lia|]. injection E as <-.
  destruct (mem_add_refines p (ll_size l) a rs live Hs I') as (a' & Ea & Hs').
  exists a'. split; [by rw /mem_dealloc size_align_ok // bind_Done|].
  split; [|done]. rw /ll_dealloc size_align_ok // bind_Done add_free_region_ok //; lia.
Qed.

#[export] Instance mem_spec : AllocatorSpec MemList lo hi.
Proof.
  apply (make_spec lo hi mem_inv ll_accepts).
  - move=> a live l [rs [Hs I]] Hl Ha. destruct (mem_alloc_refines a rs live l Hs I Hl Ha) as (a' & rs' & r & E & El & Hs').
    destruct (ll_alloc_spec lo hi Hheap _ live l I Hl Ha) as (b & r' & El' & Hr). rw El in El'. injection El' as <- <-.
    exists a', r. split; [done|]. destruct r as [p|]; [destruct Hr as (Hi & Hr); split; [by exists rs'|done]|by exists rs'].
  - move=> a live p l [rs [Hs I]]. destruct (mem_dealloc_refines a rs live p l Hs I) as (a' & E & El & Hs').
    exists a'. split; [done|]. eexists. split; [done|].
    destruct (ll_dealloc_spec lo hi Hheap _ _ _ _ I) as (b & El' & I'). rw El in El'. by injection El' as <-.
  - move=> a live live' E [rs [Hs [H1 H2 H3]]]. exists rs. split; [done|]. split; [done|by rw -E|by rw -E].
Defined.

(** What clients write into their blocks leaves the free list alone. *)
Lemma spells_overwritten live a a' rs :
  spells a rs → ll_inv lo hi (mkLinkedList rs) live →
  ml_head a' = ml_head a → overwritten NODE_SIZE live (ml_mem a) (ml_mem a') → spells a' rs.
Proof.
  move=> Hs I Eh Ho. rw /spells Eh. eapply segment_frame; [|exact Hs].
  move=> r Hr. destruct (segment_lookup _ _ _ _ _ Hs Hr) as [nd Hn]. rw Hn. apply Ho; [done|].
  destruct I as [Hfree Hlive Hap]. cbn [head_next] in *.
  have [_ [? _]] := proj1 (Forall_forall _ _) Hfree r Hr.
  apply Forall_forall => b Hb. have [Hl _] := proj1 (Forall_forall _ _) Hlive b Hb.
  have [? _] := ll_size_bounds _ Hl. apply pairwise_apart_app in Hap as (_ & _ & Hap).
  have Hap' : Forall (apart (node_range r)) (ll_extent <$> live)
    := proj1 (Forall_forall _ _) (proj1 (Forall_fmap _ _ _) Hap) r Hr.
  have := proj1 (Forall_forall _ _) (proj1 (Forall_fmap _ _ _) Hap') b Hb. rw /apart /NODE_SIZE /=. lia.
Qed.

(** The writes of clients: anything, but only inside of their blocks. *)
Definition mem_overwrite (live : list block) (a a' : MemList) : Prop :=
  ml_head a' = ml_head a ∧ overwritten NODE_SIZE live (ml_mem a) (ml_mem a').

(** The allocator in memory follows the one on lists, request by request. *)
Lemma mem_simulated a live rs a' live' b :
  Forall (λ r, match r with Alloc l => layout_ok l ∧ ll_accepts l | Free _ => True end) rs →
  ll_inv lo hi b live → Forall (block_ok lo hi) live → pairwise_apart (extent <$> live) →
  spells a (head_next b) → uses mem_overwrite a live rs a' live' →
  ∃ b', serves b live rs b' live' ∧ spells a' (head_next b')
    ∧ ll_inv lo hi b' live' ∧ Forall (block_ok lo hi) live' ∧ pairwise_apart (extent <$> live').
Proof.
  move=> Hr I Hb Hp Hs Hu. pose (S := ll_spec lo hi Hheap).
  unshelve epose proof (uses_simulated mem_overwrite (λ a b, spells a (head_next b)) lo hi (S := @spec_safe _ _ _ _ S)
    _ _ _ a live rs a' live' b _ _ Hs Hu) as (b' & ? & ? & [? [? ?]]); [| | | | |by exists b'].
  - move=> a0 [regions] ? l a1 r Hs0 I0 Hl Ha E.
    destruct (mem_alloc_refines a0 regions _ l Hs0 I0 Hl Ha) as (a2 & rs' & r' & E2 & El & Hs2).
    cbn in E. rw E in E2. injection E2 as <- <-. by exists (mkLinkedList rs').
  - move=> a0 [regions] ? p l a1 Hs0 I0 E.
    destruct (mem_dealloc_refines a0 regions _ p l Hs0 I0) as (a2 & E2 & El & Hs2).
    cbn in E. rw E in E2. injection E2 as <-. by exists (mkLinkedList (mkNode p (ll_size l) :: regions)).
  - move=> a0 [regions] ? a1 Hs0 I0 [Eh Ho]. by eapply spells_overwritten.
  - eapply Forall_impl; [exact Hr|]. by case.
  - by split.
Qed.
End refinement.

Section theorems.
Context `{Profile}.

(** C18: The linked-list allocator with its nodes in the free memory itself:
    clients request and free blocks and overwrite the blocks they hold as they
    please.  It answers exactly as the allocator that keeps its free regions as
    a list: that one serves the same requests with the same blocks, and the
    nodes in memory spell its free list.  The live blocks are aligned, inside
    the heap and pairwise disjoint.  The next request succeeds as well, without
    a failed assertion, a dangling link or an endless walk: an allocation gives
    the answer of the list, and freeing any live block puts its padded range at
    the front of the free list. *)
Theorem linked_mem_clients lo heap_size a0 rs a live :
  0 < lo → lo mod 8 = 0 → 16 <= heap_size → lo + heap_size < 2 ^ 63 →
  mem_init lo heap_size mem_new = Done a0 →
  Forall (λ r, match r with Alloc l => layout_ok l ∧ ll_accepts l | Free _ => True end) rs →
  uses mem_overwrite a0 [] rs a live →
  Forall (block_ok lo (lo + heap_size)) live ∧ pairwise_apart (extent <$> live)
  ∧ ∃ b0 b, ll_init lo heap_size ll_new = Done b0 ∧ serves b0 [] rs b live ∧ spells a (head_next b)
    ∧ (∀ l, layout_ok l → ll_accepts l → ∃ a' r b',
        mem_alloc l a = Done (a', r) ∧ ll_alloc l b = Done (b', r) ∧ spells a' (head_next b'))
    ∧ (∀ live1 p l live2, live = live1 ++ (p, l) :: live2 → ∃ a',
        mem_dealloc p l a = Done a' ∧ spells a' (mkNode p (ll_size l) :: head_next b)).
Proof.
  move=> H1 Hm H2 H3 E Hr Hs.
  have Hh : 0 < lo ∧ lo <= lo + heap_size ∧ lo + heap_size < 2 ^ 63 by lia.
  destruct (ll_init_ok lo heap_size H1 Hm H2 H3) as (b0 & Eb & Hi).
  have Hs0 : spells a0 (head_next b0).
  { have Eb' := Eb. rw /ll_init add_free_region_ok in Eb'; [lia|done|done|]. injection Eb' as <-.
    destruct (mem_add_refines lo (lo + heap_size) Hh lo heap_size mem_new [] [] eq_refl Hi) as (a1 & E1 & Hs1).
    rw /mem_init E1 in E. by injection E as <-. }
  destruct (mem_simulated lo (lo + heap_size) Hh a0 [] rs a live b0 Hr Hi) as ([regions] & Hsv & Hsp & I & Hb & Hp);
    [constructor|constructor|done|done|].
  split; [done|]. split; [done|]. exists b0, (mkLinkedList regions). do 3 (split; [done|]). split.
  - move=> l Hl Ha. destruct (mem_alloc_refines lo _ Hh a regions live l Hsp I Hl Ha) as (a' & rs' & r & ? & ? & ?).
    by exists a', r, (mkLinkedList rs').
  - move=> l1 p l l2 El. subst live. pose (S := ll_spec lo (lo + heap_size) Hh).
    destruct (mem_dealloc_refines lo (lo + heap_size) Hh a regions (l1 ++ l2) p l Hsp
      (inv_extract lo (lo + heap_size) (S := @spec_safe _ _ _ _ S) _ _ _ _ _ I)) as (a' & ? & _ & ?).
    by exists a'.
Qed.
End theorems.
