(* ===== verification/FixedBlock.v ===== *)
(** * The fixed-size-block allocator

    Models [src/src/allocator/fixed_size_block.rs]: one free list per block
    size, refilled from a fallback heap.  The heap comes from another crate: it
    is a parameter, of which only the contract of [GlobalAlloc] is assumed, and
    from that contract the allocator's own is derived.  As in [LinkedList], the
    links are threaded through the free blocks and the model keeps the list of
    addresses that they spell out. *)

From S2P Require Import Prelude Machine Alloc.

Definition BLOCK_SIZES : list Z := [8; 16; 32; 64; 128; 256; 512; 1024; 2048].

(** [size_of::<ListNode>()] and [align_of::<ListNode>()] *)
Definition BLOCK_NODE : Z := 8.
Definition BLOCK_NODE_ALIGN : Z := 8.

Record FixedSizeBlockAllocator (H : Type) := mkFixed {
  list_heads : list (list Z);
  fallback_allocator : H;
}.
Arguments mkFixed {H} list_heads fallback_allocator.
Arguments list_heads {H} f.
Arguments fallback_allocator {H} f.

(** [BLOCK_SIZES.iter().position(|&s| s >= required_block_size)] *)
Definition list_index (layout : Layout) : option Z :=
  let required_block_size := Z.max (size layout) (align layout) in
  (λ r, Z.of_nat r.1) <$> list_find (λ s, required_block_size <= s) BLOCK_SIZES.

Section operations.
Context `{Allocator H}.

(** [Heap::empty] and [Heap::init] of the fallback heap. *)
Context (heap_empty : H) (heap_init : Z → Z → H → outcome H).

Definition fixed_new : FixedSizeBlockAllocator H :=
  mkFixed (replicate (length BLOCK_SIZES) []) heap_empty.

Definition fixed_init (heap_start heap_size : Z) (a : FixedSizeBlockAllocator H)
    : outcome (FixedSizeBlockAllocator H) :=
  h ← heap_init heap_start heap_size (fallback_allocator a);
  Done (mkFixed (list_heads a) h).

Definition fallback_alloc (layout : Layout) (a : FixedSizeBlockAllocator H)
    : outcome (FixedSizeBlockAllocator H * option Z) :=
  r ← alloc layout (fallback_allocator a);
  Done (mkFixed (list_heads a) r.1, r.2).

Definition fixed_alloc (layout : Layout) (a : FixedSizeBlockAllocator H)
    : outcome (FixedSizeBlockAllocator H * option Z) :=
  match list_index layout with
  | Some idx =>
      head ← index (list_heads a) idx;
      match head with
      | node :: rest =>
          heads ← set_index (list_heads a) idx rest;
          Done (mkFixed heads (fallback_allocator a), Some node)
      | [] =>
          block_size ← index BLOCK_SIZES idx;
          let block_align := block_size in
          fallback_alloc (mkLayout block_size block_align) a
      end
  | None => fallback_alloc layout a
  end.

Definition fixed_dealloc (ptr : Z) (layout : Layout) (a : FixedSizeBlockAllocator H)
    : outcome (FixedSizeBlockAllocator H) :=
  match list_index layout with
  | Some idx =>
      head ← index (list_heads a) idx;
      block_size ← index BLOCK_SIZES idx;
      if negb (BLOCK_NODE <=? block_size) then Panic AssertionFailed
      else if negb (BLOCK_NODE_ALIGN <=? block_size) then Panic AssertionFailed
      else
        heads ← set_index (list_heads a) idx (ptr :: head);
        Done (mkFixed heads (fallback_allocator a))
  | None =>
      if ptr =? 0 then Panic UnwrapFailed
      else
        h ← dealloc ptr layout (fallback_allocator a);
        Done (mkFixed (list_heads a) h)
  end.

#[export] Instance fixed_allocator : Allocator (FixedSizeBlockAllocator H) := {
  alloc := fixed_alloc;
  dealloc := fixed_dealloc;
}.
End operations.

(** ** Size classes *)

(** The layout that the fallback heap sees for a request. *)
Definition block_layout (l : Layout) : Layout :=
  match list_index l with
  | Some idx => let bs := default 0 (BLOCK_SIZES !! Z.to_nat idx) in mkLayout bs bs
  | None => l
  end.

Lemma block_sizes_pow bs : bs ∈ BLOCK_SIZES → power_of_two bs ∧ 8 <= bs <= 2048.
Proof.
  rw /BLOCK_SIZES !elem_of_cons elem_of_nil.
  move=> [->|[->|[->|[->|[->|[->|[->|[->|[->|[]]]]]]]]]]; (split; [|lia]);
    by [exists 3|exists 4|exists 5|exists 6|exists 7|exists 8|exists 9|exists 10|exists 11].
Qed.

(** The class of a request is the first block size that it fits into. *)
Lemma list_index_Some l idx :
  list_index l = Some idx →
  ∃ i bs, idx = Z.of_nat i ∧ BLOCK_SIZES !! i = Some bs ∧ (i < 9)%nat
    ∧ Z.max (size l) (align l) <= bs ∧ block_layout l = mkLayout bs bs.
Proof.
  move=> E. have E' := E. move: E'.
  rw {1}/list_index => /fmap_Some [[i bs] [/list_find_Some [Hi [Hs _]] Ei]].
  rw /= in Ei. exists i, bs. split; [done|]. split; [done|]. split; [by apply lookup_lt_Some in Hi|].
  split; [done|]. by rw /block_layout E Ei Nat2Z.id Hi.
Qed.

Lemma block_layout_None l : list_index l = None → block_layout l = l.
Proof. by rw /block_layout => ->. Qed.

(** A block of the class serves the request. *)
Lemma block_layout_ok l : layout_ok l →
  layout_ok (block_layout l) ∧ size l <= size (block_layout l)
  ∧ (align l | align (block_layout l)).
Proof.
  move=> Hl. case E: (list_index l) => [idx|].
  - destruct (list_index_Some l idx E) as (i & bs & _ & Hi & _ & Hm & ->).
    destruct (block_sizes_pow bs) as [Hp ?]; [by eapply list_elem_of_lookup_2|].
    split; [split; [done|cbn; lia|rw /isize_max /=; lia]|]. split; [cbn; lia|].
    apply power_of_two_divide; [apply Hl|done|cbn; lia].
  - by rw block_layout_None.
Qed.

(** The blocks on the free lists, as the fallback heap sees them. *)
Fixpoint heads_blocks (sizes : list Z) (heads : list (list Z)) : list block :=
  match sizes, heads with
  | bs :: sizes, ps :: heads => ((λ p, (p, mkLayout bs bs)) <$> ps) ++ heads_blocks sizes heads
  | _, _ => []
  end.

Lemma heads_blocks_push sizes heads i bs ps p :
  sizes !! i = Some bs → heads !! i = Some ps →
  heads_blocks sizes (<[i := p :: ps]> heads) ≡ₚ (p, mkLayout bs bs) :: heads_blocks sizes heads.
Proof.
  elim: i sizes heads => [|i IH] [|s sizes] [|h heads] //; cbn [lookup list_lookup].
  - by move=> [<-] [<-].
  - move=> Hs Hh. cbn [insert list_insert heads_blocks]. rw (IH sizes heads Hs Hh).
    by rw -Permutation_middle.
Qed.

Lemma heads_blocks_pop sizes heads i bs ps p :
  sizes !! i = Some bs → heads !! i = Some (p :: ps) →
  heads_blocks sizes heads ≡ₚ (p, mkLayout bs bs) :: heads_blocks sizes (<[i := ps]> heads).
Proof.
  move=> Hs Hh. have ? := lookup_lt_Some _ _ _ Hh.
  rw -(heads_blocks_push sizes _ i bs ps p Hs); [by rw list_lookup_insert_eq|].
  by rw list_insert_insert_eq list_insert_id.
Qed.

(** ** Correctness *)

Section correctness.
Context `{Allocator H} (lo hi : Z) `{!AllocatorSpec H lo hi} (Hlo : 0 < lo).

(** The fallback heap can be asked for every block size. *)
Context (Hblocks : ∀ bs, bs ∈ BLOCK_SIZES → accepts lo hi (mkLayout bs bs)).

Definition fixed_accepts (l : Layout) : Prop := accepts lo hi (block_layout l).

Definition as_block (b : block) : block := (b.1, block_layout b.2).

(** For the heap, the free blocks and the live ones are all live. *)
Record fixed_inv (a : FixedSizeBlockAllocator H) (live : list block) : Prop := {
  fi_heads : length (list_heads a) = 9%nat;
  fi_layouts : Forall (λ b, layout_ok b.2) live;
  fi_heap : client_ok lo hi (fallback_allocator a)
              (heads_blocks BLOCK_SIZES (list_heads a) ++ (as_block <$> live));
}.

Lemma client_ok_Permutation h bs bs' :
  bs ≡ₚ bs' → client_ok lo hi h bs → client_ok lo hi h bs'.
Proof.
  move=> E [Hi [Hb Hp]]. split; [by eapply inv_Permutation|]. by rw -E.
Qed.

(** What the client gets from a block that the heap counts as live. *)
Lemma fixed_block h p l frees live :
  layout_ok l → Forall (λ b, layout_ok b.2) live →
  client_ok lo hi h (as_block (p, l) :: frees ++ (as_block <$> live)) →
  p mod align l = 0 ∧ inside lo hi (p, size l)
  ∧ Forall (λ b, apart (p, size l) (extent b)) live.
Proof.
  move=> Hl Hlive [_ [Hb Hp]]. apply Forall_cons in Hb as [[Hm [Hi1 Hi2]] _].
  destruct (block_layout_ok l Hl) as (Hbl & Hsz & Hdiv). rw /= in Hm Hi1 Hi2.
  have Ha := power_of_two_pos _ (lo_align _ Hl). have Hba := power_of_two_pos _ (lo_align _ Hbl).
  split.
  { apply Z.mod_divide; [lia|]. eapply Z.divide_trans; [exact Hdiv|]. apply Z.mod_divide; [lia|done]. }
  split; [rw /inside /=; lia|].
  rw fmap_cons pairwise_apart_cons fmap_app Forall_app in Hp. destruct Hp as [[_ Hp] _].
  apply Forall_forall => b Hbin.
  have Hk := proj1 (Forall_forall _ _) Hlive b Hbin. destruct (block_layout_ok b.2 Hk) as (_ & ? & _).
  have := proj1 (Forall_forall _ _) Hp (extent (as_block b)).
  have Hin : extent (as_block b) ∈ extent <$> (as_block <$> live)
    by apply list_elem_of_fmap_2, list_elem_of_fmap_2.
  move=> /(_ Hin). rw /apart /=. lia.
Qed.

(** Asking the fallback heap. *)
Lemma fallback_alloc_spec a live l :
  fixed_inv a live → layout_ok l → fixed_accepts l →
  ∃ a' r, fallback_alloc (block_layout l) a = Done (a', r)
    ∧ match r with
      | None => fixed_inv a' live
      | Some p => fixed_inv a' ((p, l) :: live)
          ∧ client_ok lo hi (fallback_allocator a')
              (as_block (p, l) :: heads_blocks BLOCK_SIZES (list_heads a') ++ (as_block <$> live))
      end.
Proof.
  move=> [Hh Hll Hc] Hl Hacc. destruct (block_layout_ok l Hl) as (Hbl & _).
  have Hreq : request_ok lo hi (Alloc (block_layout l)) by [].
  destruct (alloc_total _ _ _ (proj1 Hc) Hbl Hacc) as (h' & r & E).
  exists (mkFixed (list_heads a) h'), r. rw /fallback_alloc E. split; [done|].
  case: r E => [p|] E.
  - have Hc' := serve_ok lo hi _ _ _ _ _ Hreq Hc (serve_block _ _ _ _ _ E).
    split; [|done]. split; [done|by constructor|].
    eapply client_ok_Permutation; [|exact Hc']. by rw fmap_cons -Permutation_middle.
  - split; [done|done|]. exact (serve_ok lo hi _ _ _ _ _ Hreq Hc (serve_null _ _ _ _ E)).
Qed.

Lemma fixed_alloc_spec a live l :
  fixed_inv a live → layout_ok l → fixed_accepts l →
  ∃ a' r, fixed_alloc l a = Done (a', r)
    ∧ match r with
      | None => fixed_inv a' live
      | Some p => fixed_inv a' ((p, l) :: live)
          ∧ p mod align l = 0 ∧ inside lo hi (p, size l)
          ∧ Forall (λ b, apart (p, size l) (extent b)) live
      end.
Proof.
  move=> I Hl Hacc. have Hll := fi_layouts _ _ I.
  have Hfb : ∃ a' r, fallback_alloc (block_layout l) a = Done (a', r)
    ∧ match r with
      | None => fixed_inv a' live
      | Some p => fixed_inv a' ((p, l) :: live)
          ∧ p mod align l = 0 ∧ inside lo hi (p, size l)
          ∧ Forall (λ b, apart (p, size l) (extent b)) live
      end.
  { destruct (fallback_alloc_spec a live l I Hl Hacc) as (a' & r & E & Hr). exists a', r.
    split; [done|]. case: r E Hr => [p|] E // [I' Hc']. split; [done|]. by eapply fixed_block. }
  rw /fixed_alloc. case E: (list_index l) => [idx|]; [|by rw block_layout_None in Hfb].
  destruct (list_index_Some l idx E) as (i & bs & -> & Hi & Hi9 & _ & Ebl). rw Ebl in Hfb.
  destruct I as [Hh _ Hc]. destruct (lookup_lt_is_Some_2 (list_heads a) i) as [ps Hps]; [lia|].
  rw (index_ok _ _ ps); [lia|by rw Nat2Z.id|]. rw bind_Done. case: ps Hps => [|p ps] Hps.
  { rw (index_ok BLOCK_SIZES _ bs); [lia|by rw Nat2Z.id|]. exact Hfb. }
  have ? : Z.of_nat i < zlen (list_heads a) by zlia.
  rw /set_index. ztrue. rw bind_Done Nat2Z.id. eexists _, (Some p). split; [done|].
  have Hc' : client_ok lo hi (fallback_allocator a)
    (as_block (p, l) :: heads_blocks BLOCK_SIZES (<[i := ps]> (list_heads a)) ++ (as_block <$> live)).
  { eapply client_ok_Permutation; [|exact Hc].
    have -> : as_block (p, l) = (p, mkLayout bs bs) by rw /as_block /= Ebl.
    by rw (heads_blocks_pop _ _ i bs ps p). }
  split; [|by eapply fixed_block]. split; cbn [list_heads fallback_allocator].
  - by rw length_insert.
  - by constructor.
  - eapply client_ok_Permutation; [|exact Hc']. by rw fmap_cons -Permutation_middle.
Qed.

Lemma fixed_dealloc_spec a live p l :
  fixed_inv a ((p, l) :: live) → ∃ a', fixed_dealloc p l a = Done a' ∧ fixed_inv a' live.
Proof.
  move=> [Hh Hll Hc]. apply Forall_cons in Hll as [Hl Hll]. rw /= in Hl.
  have {}Hc : client_ok lo hi (fallback_allocator a)
    ([] ++ as_block (p, l) :: heads_blocks BLOCK_SIZES (list_heads a) ++ (as_block <$> live)).
  { eapply client_ok_Permutation; [|exact Hc]. by rw fmap_cons -Permutation_middle. }
  rw /fixed_dealloc. case E: (list_index l) => [idx|].
  - destruct (list_index_Some l idx E) as (i & bs & -> & Hi & Hi9 & _ & Ebl).
    destruct (block_sizes_pow bs) as [_ ?]; [by eapply list_elem_of_lookup_2|].
    destruct (lookup_lt_is_Some_2 (list_heads a) i) as [ps Hps]; [lia|].
    rw (index_ok _ _ ps); [lia|by rw Nat2Z.id|]. rw bind_Done (index_ok BLOCK_SIZES _ bs); [lia|by rw Nat2Z.id|].
    have ? : Z.of_nat i < zlen (list_heads a) by zlia.
    rw bind_Done /set_index /BLOCK_NODE /BLOCK_NODE_ALIGN. ztrue. rw bind_Done Nat2Z.id. eexists. split; [done|].
    split; cbn [list_heads fallback_allocator]; [by rw length_insert|done|].
    eapply client_ok_Permutation; [|exact Hc].
    have -> : as_block (p, l) = (p, mkLayout bs bs) by rw /as_block /= Ebl.
    by rw (heads_blocks_push _ _ i bs ps p).
  - have Eb : as_block (p, l) = (p, l) by rw /as_block /= block_layout_None. rw Eb in Hc.
    have [_ [Hb _]] := Hc. apply Forall_cons in Hb as [[_ [Hi1 _]] _]. rw /= in Hi1. ztrue.
    destruct (dealloc_spec _ _ p l (proj1 Hc)) as (h' & E' & _). rw E' bind_Done.
    eexists. split; [done|]. split; [done|done|].
    exact (serve_ok lo hi _ _ (Free 0) _ _ I Hc (serve_free _ [] p l _ _ 0 eq_refl E')).
Qed.

#[export] Instance fixed_spec : AllocatorSpec (FixedSizeBlockAllocator H) lo hi.
Proof.
  apply (make_spec lo hi fixed_inv fixed_accepts).
  - apply fixed_alloc_spec.
  - apply fixed_dealloc_spec.
  - move=> a live live' E [H1 H2 H3]. split; [done|by rw -E|].
    eapply client_ok_Permutation; [|exact H3]. by rw E.
Defined.
End correctness.

Section theorems.
Context `{Allocator H} (heap_empty : H) (heap_init : Z → Z → H → outcome H).

Lemma heads_blocks_empty : heads_blocks BLOCK_SIZES (replicate 9 []) = [].
Proof. done. Qed.

(** Over any fallback heap that keeps the contract of [GlobalAlloc], so
    does the fixed-size-block allocator: after any sequence of requests the
    live blocks are aligned, inside the heap and pairwise disjoint, and the
    next request is answered without panicking. *)
Lemma fixed_block_clients lo hi `{!AllocatorSpec H lo hi} h0 heap_size a0 rs a live :
  0 < lo → (∀ bs, bs ∈ BLOCK_SIZES → accepts lo hi (mkLayout bs bs)) →
  heap_init lo heap_size heap_empty = Done h0 → inv lo hi h0 [] →
  fixed_init heap_init lo heap_size (fixed_new heap_empty) = Done a0 →
  Forall (λ r, match r with Alloc l => layout_ok l ∧ fixed_accepts lo hi l | Free _ => True end) rs →
  serves a0 [] rs a live →
  Forall (block_ok lo hi) live ∧ pairwise_apart (extent <$> live)
  ∧ (∀ l, layout_ok l → fixed_accepts lo hi l → ∃ a' r, fixed_alloc l a = Done (a', r)).
Proof.
  move=> Hlo Hbs E0 I0 E Hr Hs. rw /fixed_init /= E0 /= in E. injection E as <-.
  pose S := fixed_spec lo hi Hlo.
  have Hi0 : fixed_inv lo hi (mkFixed (replicate 9 []) h0) [].
  { split; [done|constructor|]. rw heads_blocks_empty. split; [done|]. split; constructor. }
  have [Hi' [Hb Hp]] : client_ok lo hi a live.
  { eapply (serves_ok lo hi); [|split; [exact Hi0|split; constructor]|exact Hs].
    eapply Forall_impl; [exact Hr|]. by case. }
  split; [done|]. split; [done|]. move=> l Hl Ha.
  destruct (fixed_alloc_spec lo hi a live l Hi' Hl Ha) as (a' & r & E' & _). by exists a', r.
Qed.

(** A freed block is the next one handed out for its size class: freeing a
    block and allocating in the same class gives the block back, restores the
    allocator and never asks the fallback heap. *)
Lemma fixed_block_reuse (a : FixedSizeBlockAllocator H) p l l' idx :
  length (list_heads a) = 9%nat → list_index l = Some idx → list_index l' = Some idx →
  ∃ a', fixed_dealloc p l a = Done a' ∧ fixed_alloc l' a' = Done (a, Some p).
Proof.
  move=> Hh E E'. destruct (list_index_Some l idx E) as (i & bs & -> & Hi & Hi9 & _).
  destruct (block_sizes_pow bs) as [_ ?]; [by eapply list_elem_of_lookup_2|].
  destruct (lookup_lt_is_Some_2 (list_heads a) i) as [ps Hps]; [lia|].
  have ? : Z.of_nat i < zlen (list_heads a) by zlia.
  rw /fixed_dealloc E (index_ok _ _ ps); [lia|by rw Nat2Z.id|].
  rw bind_Done (index_ok BLOCK_SIZES _ bs); [lia|by rw Nat2Z.id|].
  rw bind_Done /set_index /BLOCK_NODE /BLOCK_NODE_ALIGN. ztrue. rw bind_Done Nat2Z.id. eexists. split; [done|].
  rw /fixed_alloc E'. cbn [list_heads fallback_allocator].
  rw (index_ok _ _ (p :: ps)); [lia|rw Nat2Z.id list_lookup_insert_eq //; lia|]. rw bind_Done /set_index.
  have ? : Z.of_nat i < zlen (<[i := p :: ps]> (list_heads a)) by rw /zlen length_insert; zlia.
  ztrue. rw bind_Done Nat2Z.id list_insert_insert_eq list_insert_id //. clear; by case: a.
Qed.
End theorems.
