(* ===== verification/FixedMem.v ===== *)
(** * The fixed-size-block allocator, pointer by pointer

    [FixedBlock] keeps each free list as a list of addresses.  Here the links
    are where [src/src/allocator/fixed_size_block.rs] puts them: in the free
    blocks.  The operations are shown to implement those of [FixedBlock], also
    while clients overwrite the blocks that they hold. *)

From S2P Require Import Prelude Machine Alloc FixedBlock.

(** ** Data and operations *)

(** The heads of the lists, the nodes in memory ([ListNode] is its link) and
    the fallback heap. *)
Record FixedMem (H : Type) := mkFixedMem {
  fm_heads : list (option Z);
  fm_mem : gmap Z (option Z);
  fm_heap : H;
}.
Arguments mkFixedMem {H} fm_heads fm_mem fm_heap.
Arguments fm_heads {H} f.
Arguments fm_mem {H} f.
Arguments fm_heap {H} f.

Section operations.
Context `{Allocator H}.
Context (heap_empty : H) (heap_init : Z → Z → H → outcome H).

Definition fm_new : FixedMem H := mkFixedMem (replicate (length BLOCK_SIZES) None) ∅ heap_empty.

Definition fm_init (heap_start heap_size : Z) (a : FixedMem H) : outcome (FixedMem H) :=
  h ← heap_init heap_start heap_size (fm_heap a);
  Done (mkFixedMem (fm_heads a) (fm_mem a) h).

Definition fm_fallback_alloc (layout : Layout) (a : FixedMem H) : outcome (FixedMem H * option Z) :=
  r ← alloc layout (fm_heap a);
  Done (mkFixedMem (fm_heads a) (fm_mem a) r.1, r.2).

Definition fm_alloc (layout : Layout) (a : FixedMem H) : outcome (FixedMem H * option Z) :=
  match list_index layout with
  | Some idx =>
      head ← index (fm_heads a) idx;
      heads ← set_index (fm_heads a) idx None;
      match head with
      | Some node =>
          match fm_mem a !! node with
          | None => Panic InvalidPointer
          | Some next =>
              heads ← set_index heads idx next;
              Done (mkFixedMem heads (<[node := None]> (fm_mem a)) (fm_heap a), Some node)
          end
      | None =>
          block_size ← index BLOCK_SIZES idx;
          let block_align := block_size in
          fm_fallback_alloc (mkLayout block_size block_align) (mkFixedMem heads (fm_mem a) (fm_heap a))
      end
  | None => fm_fallback_alloc layout a
  end.

Definition fm_dealloc (ptr : Z) (layout : Layout) (a : FixedMem H) : outcome (FixedMem H) :=
  match list_index layout with
  | Some idx =>
      head ← index (fm_heads a) idx;
      heads ← set_index (fm_heads a) idx None;
      block_size ← index BLOCK_SIZES idx;
      if negb (BLOCK_NODE <=? block_size) then Panic AssertionFailed
      else if negb (BLOCK_NODE_ALIGN <=? block_size) then Panic AssertionFailed
      else
        let m := store BLOCK_NODE ptr head (fm_mem a) in
        heads ← set_index heads idx (Some ptr);
        Done (mkFixedMem heads m (fm_heap a))
  | None =>
      if ptr =? 0 then Panic UnwrapFailed
      else
        h ← dealloc ptr layout (fm_heap a);
        Done (mkFixedMem (fm_heads a) (fm_mem a) h)
  end.

#[export] Instance fm_allocator : Allocator (FixedMem H) := {
  alloc := fm_alloc;
  dealloc := fm_dealloc;
}.
End operations.

(** ** Representation *)

(** From [o] the links spell out the addresses [ps]. *)
Fixpoint thread (m : gmap Z (option Z)) (o : option Z) (ps : list Z) : Prop :=
  match ps with
  | [] => o = None
  | p :: ps => o = Some p ∧ ∃ x, m !! p = Some x ∧ thread m x ps
  end.

Definition threads {H} (a : FixedMem H) (lists : list (list Z)) : Prop :=
  Forall2 (thread (fm_mem a)) (fm_heads a) lists.

Lemma thread_frame m m' o ps :
  (∀ p, p ∈ ps → m' !! p = m !! p) → thread m o ps → thread m' o ps.
Proof.
  elim: ps o => [|p ps IH] o Hm //= [-> [x [Hx Ht]]]. split; [done|]. exists x.
  split; [rw Hm; [by left|done]|]. apply IH; [|done]. move=> q ?. apply Hm. by right.
Qed.

Lemma thread_lookup m o ps p : thread m o ps → p ∈ ps → is_Some (m !! p).
Proof.
  elim: ps o => [|q ps IH] o; [by move=> _ /elem_of_nil|].
  move=> [_ [x [Hx Ht]]] /elem_of_cons [->|Hp]; [by rw Hx; eexists|by eapply IH].
Qed.

Lemma threads_frame m m' heads lists :
  (∀ ps p, ps ∈ lists → p ∈ ps → m' !! p = m !! p) →
  Forall2 (thread m) heads lists → Forall2 (thread m') heads lists.
Proof.
  move=> Hm Ht. elim: Ht Hm => {heads lists} [|o ps heads lists Ht _ IH] Hm; constructor.
  - eapply thread_frame; [|done]. move=> p Hp. apply (Hm ps); [by left|done].
  - apply IH. move=> ps' p ??. apply (Hm ps'); [by right|done].
Qed.

(** The block behind an address on the free lists. *)
Lemma heads_blocks_elem sizes lists ps p :
  length lists = length sizes → ps ∈ lists → p ∈ ps →
  ∃ bs, bs ∈ sizes ∧ (p, mkLayout bs bs) ∈ heads_blocks sizes lists.
Proof.
  elim: sizes lists => [|bs sizes IH] [|qs lists] //; [by move=> _ /elem_of_nil|].
  move=> [Hl] /elem_of_cons [->|Hps] Hp.
  - exists bs. split; [by left|]. cbn. apply elem_of_app. left. by apply list_elem_of_fmap; exists p.
  - destruct (IH lists Hl Hps Hp) as (bs' & ? & ?). exists bs'. split; [by right|].
    cbn. apply elem_of_app. by right.
Qed.

Lemma zlen_insert {A} i (x : A) (l : list A) : zlen (<[i := x]> l) = zlen l.
Proof. by rw /zlen length_insert. Qed.

(** A block that is apart from the free ones shares no node with them. *)
Lemma nodes_disjoint p l lists rest ps q :
  pairwise_apart (extent <$> (p, l) :: heads_blocks BLOCK_SIZES lists ++ rest) →
  BLOCK_NODE <= size l → length lists = 9%nat → ps ∈ lists → q ∈ ps →
  apart (q, BLOCK_NODE) (p, BLOCK_NODE).
Proof.
  move=> Hp Hs Hl Hps Hq. destruct (heads_blocks_elem BLOCK_SIZES lists ps q Hl Hps Hq) as (bs & Hbs & Hin).
  destruct (block_sizes_pow bs Hbs) as [_ ?].
  rw fmap_cons fmap_app pairwise_apart_cons Forall_app in Hp. destruct Hp as [[Hp _] _].
  have := proj1 (Forall_forall _ _) (proj1 (Forall_fmap _ _ _) Hp) _ Hin. rw /apart /BLOCK_NODE /= in Hs |- *. lia.
Qed.

(** ** Refinement *)

Section refinement.
Context `{Allocator H} (lo hi : Z) `{!AllocatorSpec H lo hi} (Hlo : 0 < lo).

Abbreviation with_lists lists a := (mkFixed lists (fm_heap a)).

Definition fm_inv (a : FixedMem H) (live : list block) : Prop :=
  ∃ lists, threads a lists ∧ fixed_inv lo hi (with_lists lists a) live.

Lemma fm_alloc_refines a lists live l :
  threads a lists → fixed_inv lo hi (with_lists lists a) live → layout_ok l → fixed_accepts lo hi l →
  ∃ a' lists' r, fm_alloc l a = Done (a', r)
    ∧ fixed_alloc l (with_lists lists a) = Done (with_lists lists' a', r) ∧ threads a' lists'.
Proof.
  move=> Ht I Hl Hacc. destruct (fixed_alloc_spec lo hi _ live l I Hl Hacc) as (b & r & E & _).
  have Hlen := Forall2_length _ _ _ Ht. have H9 := fi_heads _ _ _ _ I. cbn [list_heads] in H9.
  have Hfb : ∀ ly heads, threads (mkFixedMem heads (fm_mem a) (fm_heap a)) lists →
    fallback_alloc ly (with_lists lists a) = Done (b, r) →
    ∃ a' lists' r', fm_fallback_alloc ly (mkFixedMem heads (fm_mem a) (fm_heap a)) = Done (a', r')
      ∧ Done (b, r) = Done (with_lists lists' a', r') ∧ threads a' lists'.
  { move=> ly heads Ht'. rw /fallback_alloc /fm_fallback_alloc. cbn [fallback_allocator fm_heap list_heads].
    case: (alloc _ _) => [[h x]|p|] //= [<- <-]. by eexists _, lists, _. }
  rw E. move: E. rw /fixed_alloc /fm_alloc. case Ei: (list_index l) => [idx|].
  2: { move=> Ef. destruct a as [heads m h]. exact (Hfb l heads Ht Ef). }
  destruct (list_index_Some l idx Ei) as (i & bs & -> & Hi & Hi9 & _ & Ebl). cbn [list_heads].
  destruct (lookup_lt_is_Some_2 lists i) as [ps Hps]; [lia|].
  destruct (Forall2_lookup_r _ _ _ _ _ Ht Hps) as (o & Ho & Hth).
  have ? : Z.of_nat i < zlen (fm_heads a) by zlia. have ? : Z.of_nat i < zlen lists by zlia.
  rw (index_ok lists _ ps); [lia|by rw Nat2Z.id|]. rw (index_ok (fm_heads a) _ o); [lia|by rw Nat2Z.id|].
  rw !bind_Done /set_index Nat2Z.id. ztrue. rw bind_Done.
  destruct ps as [|p ps].
  - cbn in Hth. subst o. rw (index_ok BLOCK_SIZES _ bs); [lia|by rw Nat2Z.id|]. rw !bind_Done.
    rw list_insert_id //. move=> Ef. destruct a as [heads m h]. exact (Hfb _ heads Ht Ef).
  - destruct Hth as [-> [x [Hx Hth]]]. rw Hx zlen_insert. ztrue. rw !bind_Done list_insert_insert_eq => -[<- <-].
    eexists _, (<[i := ps]> lists), _. split; [done|]. split; [done|]. rw /threads. cbn [fm_mem fm_heads].
    have Hother : ∀ qs q, qs ∈ <[i := ps]> lists → q ∈ qs → <[p := None]> (fm_mem a) !! q = fm_mem a !! q.
    { move=> qs q Hqs Hq. rw lookup_insert_ne //. move=> ?; subst q.
      destruct (block_sizes_pow bs) as [_ ?]; [by eapply list_elem_of_lookup_2|].
      have Hc := proj2 (proj2 (fi_heap _ _ _ _ I)). cbn [list_heads] in Hc.
      rw (heads_blocks_pop _ _ i bs ps p Hi Hps) in Hc.
      have := nodes_disjoint p (mkLayout bs bs) (<[i := ps]> lists) _ qs p Hc.
      rw length_insert /BLOCK_NODE /apart /=. move=> Hd. have := Hd ltac:(lia) H9 Hqs Hq. lia. }
    apply (threads_frame (fm_mem a)); [done|]. by apply Forall2_insert.
Qed.

Lemma fm_dealloc_refines a lists live p l :
  threads a lists → fixed_inv lo hi (with_lists lists a) ((p, l) :: live) →
  ∃ a' lists', fm_dealloc p l a = Done a'
    ∧ fixed_dealloc p l (with_lists lists a) = Done (with_lists lists' a') ∧ threads a' lists'.
Proof.
  move=> Ht I. destruct (fixed_dealloc_spec lo hi Hlo _ _ _ _ I) as (b & E & _). rw E. move: E.
  have Hlen := Forall2_length _ _ _ Ht. have H9 := fi_heads _ _ _ _ I. cbn [list_heads] in H9.
  rw /fixed_dealloc /fm_dealloc. case Ei: (list_index l) => [idx|].
  2: { case: (p =? 0) => //. cbn [fallback_allocator]. case: (dealloc _ _ _) => [h|pn|] //= [<-].
       by eexists _, lists. }
  destruct (list_index_Some l idx Ei) as (i & bs & -> & Hi & Hi9 & _ & Ebl). cbn [list_heads].
  destruct (block_sizes_pow bs) as [_ ?]; [by eapply list_elem_of_lookup_2|].
  destruct (lookup_lt_is_Some_2 lists i) as [ps Hps]; [lia|].
  destruct (Forall2_lookup_r _ _ _ _ _ Ht Hps) as (o & Ho & Hth).
  have ? : Z.of_nat i < zlen (fm_heads a) by zlia. have ? : Z.of_nat i < zlen lists by zlia.
  rw (index_ok lists _ ps); [lia|by rw Nat2Z.id|]. rw (index_ok (fm_heads a) _ o); [lia|by rw Nat2Z.id|].
  rw !bind_Done (index_ok BLOCK_SIZES _ bs); [lia|by rw Nat2Z.id|].
  rw /set_index Nat2Z.id. ztrue. rw !bind_Done /BLOCK_NODE /BLOCK_NODE_ALIGN. ztrue. rw zlen_insert. ztrue.
  rw !bind_Done list_insert_insert_eq => -[<-]. eexists _, _. split; [done|]. split; [done|].
  rw /threads. cbn [fm_mem fm_heads].
  have Hother : ∀ qs q, qs ∈ lists → q ∈ qs → store 8 p o (fm_mem a) !! q = fm_mem a !! q.
  { move=> qs q Hqs Hq. apply store_apart; [done|].
    apply (nodes_disjoint p (block_layout l) lists (as_block <$> live) qs); [|rw Ebl /BLOCK_NODE /=; lia|done..].
    have Hc := proj2 (proj2 (fi_heap _ _ _ _ I)). cbn [list_heads] in Hc.
    move: Hc. apply pairwise_apart_Permutation. apply fmap_Permutation. by rw fmap_cons -Permutation_middle. }
  apply Forall2_insert; [by eapply threads_frame|]. split; [done|]. exists o. split; [apply store_eq|].
  eapply thread_frame; [|exact Hth]. move=> q Hq. apply (Hother ps); [by eapply list_elem_of_lookup_2|done].
Qed.

#[export] Instance fm_spec : AllocatorSpec (FixedMem H) lo hi.
Proof.
  apply (make_spec lo hi fm_inv (fixed_accepts lo hi)).
  - move=> a live l [lists [Ht I]] Hl Ha. destruct (fm_alloc_refines a lists live l Ht I Hl Ha) as (a' & ls' & r & E & Ef & Ht').
    destruct (fixed_alloc_spec lo hi _ live l I Hl Ha) as (b & r' & Ef' & Hr). rw Ef in Ef'. injection Ef' as <- <-.
    exists a', r. split; [done|]. destruct r as [p|]; [destruct Hr as (Hi & Hr); split; [by exists ls'|done]|by exists ls'].
  - move=> a live p l [lists [Ht I]]. destruct (fm_dealloc_refines a lists live p l Ht I) as (a' & ls' & E & Ef & Ht').
    exists a'. split; [done|]. exists ls'. split; [done|].
    destruct (fixed_dealloc_spec lo hi Hlo _ _ _ _ I) as (b & Ef' & I'). rw Ef in Ef'. by injection Ef' as <-.
  - move=> a live live' E [lists [Ht [H1 H2 H3]]]. exists lists. split; [done|]. split; [done|by rw -E|].
    eapply client_ok_Permutation; [|exact H3]. by rw E.
Defined.

(** What clients write into their blocks leaves the free lists alone. *)
Lemma threads_overwritten live (a a' : FixedMem H) lists :
  threads a lists → fixed_inv lo hi (with_lists lists a) live →
  fm_heads a' = fm_heads a → overwritten BLOCK_NODE live (fm_mem a) (fm_mem a') → threads a' lists.
Proof.
  move=> Ht I Eh Ho. rw /threads Eh.
  eapply threads_frame; [|exact Ht]. move=> ps q Hps Hq.
  destruct (list_elem_of_lookup_1 _ _ Hps) as [i Hi]. destruct (Forall2_lookup_r _ _ _ _ _ Ht Hi) as (o & _ & Hth).
  destruct (thread_lookup _ _ _ _ Hth Hq) as [x Hx]. rw Hx. apply Ho; [done|].
  destruct I as [H9 Hll [_ [_ Hp]]]. cbn [list_heads] in *.
  destruct (heads_blocks_elem BLOCK_SIZES lists ps q H9 Hps Hq) as (bs & Hbs & Hin).
  destruct (block_sizes_pow bs Hbs) as [_ ?]. rw fmap_app in Hp. apply pairwise_apart_app in Hp as (_ & _ & Hp).
  apply Forall_forall => b Hb. have Hl := proj1 (Forall_forall _ _) Hll b Hb.
  destruct (block_layout_ok b.2 Hl) as (_ & ? & _).
  have Hp' : Forall (apart (q, bs)) (extent <$> (as_block <$> live))
    := proj1 (Forall_forall _ _) (proj1 (Forall_fmap _ _ _) Hp) _ Hin.
  have := proj1 (Forall_forall _ _) (proj1 (Forall_fmap _ _ _) (proj1 (Forall_fmap _ _ _) Hp')) b Hb.
  rw /apart /BLOCK_NODE /=. lia.
Qed.

(** The writes of clients: anything, but only inside of their blocks. *)
Definition fm_overwrite (live : list block) (a a' : FixedMem H) : Prop :=
  fm_heads a' = fm_heads a ∧ fm_heap a' = fm_heap a
  ∧ overwritten BLOCK_NODE live (fm_mem a) (fm_mem a').

(** The links in memory spell the free lists, over the same fallback heap. *)
Definition represents (a : FixedMem H) (b : FixedSizeBlockAllocator H) : Prop :=
  threads a (list_heads b) ∧ fallback_allocator b = fm_heap a.

(** The allocator in memory follows the one on lists, request by request. *)
Lemma fm_simulated a live rs a' live' b :
  Forall (λ r, match r with Alloc l => layout_ok l ∧ fixed_accepts lo hi l | Free _ => True end) rs →
  fixed_inv lo hi b live → Forall (block_ok lo hi) live → pairwise_apart (extent <$> live) →
  represents a b → uses fm_overwrite a live rs a' live' →
  ∃ b', serves b live rs b' live' ∧ represents a' b'
    ∧ fixed_inv lo hi b' live' ∧ Forall (block_ok lo hi) live' ∧ pairwise_apart (extent <$> live').
Proof.
  move=> Hr I Hb Hp Hs Hu. pose (S := fixed_spec lo hi Hlo).
  unshelve epose proof (uses_simulated fm_overwrite represents lo hi (S := @spec_safe _ _ _ _ S)
    _ _ _ a live rs a' live' b _ _ Hs Hu) as (b' & ? & ? & [? [? ?]]); [| | | | |by exists b'].
  - move=> a0 [lists h] ? l a1 r [Ht Eh] I0 Hl Ha E. cbn in Ht, Eh. subst h.
    destruct (fm_alloc_refines a0 lists _ l Ht I0 Hl Ha) as (a2 & ls & r' & E2 & El & Ht2).
    cbn in E. rw E in E2. injection E2 as <- <-. by exists (with_lists ls a1).
  - move=> a0 [lists h] ? p l a1 [Ht Eh] I0 E. cbn in Ht, Eh. subst h.
    destruct (fm_dealloc_refines a0 lists _ p l Ht I0) as (a2 & ls & E2 & El & Ht2).
    cbn in E. rw E in E2. injection E2 as <-. by exists (with_lists ls a1).
  - move=> a0 [lists h] ? a1 [Ht Eh] I0 [Ehd [Eph Ho]]. cbn in Ht, Eh. subst h.
    split; [by eapply threads_overwritten|by rw Eph].
  - eapply Forall_impl; [exact Hr|]. by case.
  - by split.
Qed.

(** Freeing a small block makes it the next one handed out for its size. *)
Lemma fm_free a lists live p l :
  threads a lists → fixed_inv lo hi (with_lists lists a) ((p, l) :: live) →
  ∃ a' b', fm_dealloc p l a = Done a' ∧ fixed_dealloc p l (with_lists lists a) = Done b' ∧ represents a' b'
    ∧ ∀ l', layout_ok l' → fixed_accepts lo hi l' → is_Some (list_index l) → list_index l' = list_index l →
        ∃ a2, fm_alloc l' a' = Done (a2, Some p).
Proof.
  move=> Ht I. destruct (fm_dealloc_refines a lists live p l Ht I) as (a' & ls & E & Ef & Ht').
  destruct (fixed_dealloc_spec lo hi Hlo _ _ _ _ I) as (b' & Ef' & I'). rw Ef in Ef'. injection Ef' as <-.
  exists a', (with_lists ls a'). split_and!; [done|done|done|]. move=> l' Hl Ha [idx Ei] Ei'. rw Ei in Ei'.
  destruct (fm_alloc_refines a' ls live l' Ht' I' Hl Ha) as (a2 & ls2 & r & E2 & Ef2 & _). exists a2. rw E2.
  destruct (fixed_block_reuse (with_lists lists a) p l l' idx (fi_heads _ _ _ _ I) Ei Ei') as (c & Ec & Ec').
  rw Ef in Ec. injection Ec as <-. rw Ef2 in Ec'. by injection Ec' as _ _ ->.
Qed.
End refinement.

Section theorems.
Context `{Allocator H} (heap_empty : H) (heap_init : Z → Z → H → outcome H).

(** C19: The fixed-size-block allocator with its links in the free blocks, over
    any fallback heap that keeps the contract of [GlobalAlloc]: clients request
    and free blocks and overwrite the blocks they hold as they please.  It
    answers exactly as the allocator that keeps its free lists as lists: that
    one serves the same requests with the same blocks, and the links in memory
    spell its lists.  The live blocks are aligned, inside the heap and pairwise
    disjoint.  The next request succeeds as well, with the same answer and lists
    again; and a block of one of the nine sizes that is freed is the next one
    handed out for that size. *)
Theorem fixed_mem_clients lo hi `{!AllocatorSpec H lo hi} h0 heap_size a0 rs a live :
  0 < lo → heap_init lo heap_size heap_empty = Done h0 → inv lo hi h0 [] →
  fm_init heap_init lo heap_size (fm_new heap_empty) = Done a0 →
  Forall (λ r, match r with Alloc l => layout_ok l ∧ fixed_accepts lo hi l | Free _ => True end) rs →
  uses fm_overwrite a0 [] rs a live →
  Forall (block_ok lo hi) live ∧ pairwise_apart (extent <$> live)
  ∧ ∃ b0 b, fixed_init heap_init lo heap_size (fixed_new heap_empty) = Done b0
    ∧ serves b0 [] rs b live ∧ represents a b
    ∧ (∀ l, layout_ok l → fixed_accepts lo hi l → ∃ a' r b',
        fm_alloc l a = Done (a', r) ∧ fixed_alloc l b = Done (b', r) ∧ represents a' b')
    ∧ (∀ live1 p l live2, live = live1 ++ (p, l) :: live2 → ∃ a' b',
        fm_dealloc p l a = Done a' ∧ fixed_dealloc p l b = Done b' ∧ represents a' b'
        ∧ ∀ l', layout_ok l' → fixed_accepts lo hi l' → is_Some (list_index l) → list_index l' = list_index l →
            ∃ a2, fm_alloc l' a' = Done (a2, Some p)).
Proof.
  move=> Hlo E0 I0 E Hr Hs. rw /fm_init /= E0 /= in E. injection E as <-.
  set b0 := mkFixed (replicate 9 []) h0.
  have Hi0 : fixed_inv lo hi b0 [].
  { split; [done|constructor|]. rw heads_blocks_empty. split; [done|]. split; constructor. }
  destruct (fm_simulated lo hi Hlo (mkFixedMem (replicate 9 None) ∅ h0) [] rs a live b0 Hr Hi0) as ([lists h] & Hsv & [Ht Eh] & I & Hb & Hp);
    [constructor|constructor|by split; [repeat constructor|]|done|]. cbn in Ht, Eh. subst h.
  split; [done|]. split; [done|]. exists b0, (mkFixed lists (fm_heap a)).
  split; [by rw /fixed_init /= E0|]. do 2 (split; [done|]). split.
  - move=> l Hl Ha. destruct (fm_alloc_refines lo hi a lists live l Ht I Hl Ha) as (a' & ls' & r & ? & ? & ?).
    by exists a', r, (mkFixed ls' (fm_heap a')).
  - move=> l1 p l l2 El. subst live. pose (S := fixed_spec lo hi Hlo).
    exact (fm_free lo hi Hlo a lists (l1 ++ l2) p l Ht (inv_extract lo hi (S := @spec_safe _ _ _ _ S) _ _ _ _ _ I)).
Qed.
End theorems.
