(* ===== verification/DList.v ===== *)
(** * Circular doubly linked lists

    Models [ListNode], [list_add], [list_del] and [list_empty] of
    [src/src/allocator/slab.rs] on a memory of nodes, pointer by pointer, and
    shows that they implement insertion at the front, removal and the emptiness
    test of a list of addresses. *)

From S2P Require Import Prelude Machine.

(** ** Memory *)

Record ListNode := mkListNode { next : Z; prev : Z }.

(** The nodes in memory, by address. *)
Abbreviation nodes := (gmap Z ListNode).

(** [ListNode::new] *)
Definition ListNode_new : ListNode := mkListNode 0 0.

(** The fields of the node that [p] points to, and the assignments to them. *)
Definition get_next (m : nodes) (p : Z) : outcome Z :=
  match m !! p with Some n => Done (next n) | None => Panic InvalidPointer end.
Definition get_prev (m : nodes) (p : Z) : outcome Z :=
  match m !! p with Some n => Done (prev n) | None => Panic InvalidPointer end.
Definition set_next (p x : Z) (m : nodes) : outcome nodes :=
  match m !! p with
  | Some n => Done (<[p := mkListNode x (prev n)]> m)
  | None => Panic InvalidPointer
  end.
Definition set_prev (p x : Z) (m : nodes) : outcome nodes :=
  match m !! p with
  | Some n => Done (<[p := mkListNode (next n) x]> m)
  | None => Panic InvalidPointer
  end.

(** ** Operations *)

Definition list_init (node : Z) (m : nodes) : outcome nodes :=
  m ← set_next node node m;
  set_prev node node m.

Definition list_add (entry head : Z) (m : nodes) : outcome nodes :=
  n ← get_next m head;
  m ← set_next entry n m;
  m ← set_prev entry head m;
  n ← get_next m head;
  m ← set_prev n entry m;
  set_next head entry m.

Definition list_del (entry : Z) (m : nodes) : outcome nodes :=
  p ← get_prev m entry;
  n ← get_next m entry;
  m ← set_next p n m;
  n ← get_next m entry;
  p ← get_prev m entry;
  set_prev n p m.

Definition list_empty (m : nodes) (head : Z) : outcome bool :=
  n ← get_next m head; Done (n =? head).

(** ** Representation *)

(** [b] follows [a]. *)
Definition link (m : nodes) (a b : Z) : Prop :=
  next <$> m !! a = Some b ∧ prev <$> m !! b = Some a.

(** From [a] the links lead through [l] to [b]. *)
Fixpoint chain (m : nodes) (a : Z) (l : list Z) (b : Z) : Prop :=
  match l with
  | [] => link m a b
  | x :: l => link m a x ∧ chain m x l b
  end.

(** The circular list with the sentinel [h] holds the nodes [l]. *)
Definition dlist (m : nodes) (h : Z) (l : list Z) : Prop := NoDup (h :: l) ∧ chain m h l h.

(** [m'] is [m] with some successors and predecessors changed. *)
Definition redirect (m m' : nodes) (nexts prevs : gmap Z Z) : Prop :=
  ∀ x, next <$> m' !! x = (match nexts !! x with Some y => Some y | None => next <$> m !! x end)
     ∧ prev <$> m' !! x = (match prevs !! x with Some y => Some y | None => prev <$> m !! x end).

Lemma redirect_refl m : redirect m m ∅ ∅.
Proof. by move=> x; rw !lookup_empty. Qed.

Lemma get_next_ok m p x : next <$> m !! p = Some x → get_next m p = Done x.
Proof. rw /get_next. by case: (m !! p) => //= n [->]. Qed.

Lemma get_prev_ok m p x : prev <$> m !! p = Some x → get_prev m p = Done x.
Proof. rw /get_prev. by case: (m !! p) => //= n [->]. Qed.

Lemma set_next_ok m0 m p x N P :
  redirect m0 m N P → is_Some (m !! p) →
  ∃ m', set_next p x m = Done m' ∧ redirect m0 m' (<[p := x]> N) P.
Proof.
  move=> R [n E]. rw /set_next E. eexists. split; [done|]. move=> y. have [R1 R2] := R y.
  destruct (decide (y = p)) as [->|].
  - rw !lookup_insert_eq /=. split; [done|]. by rw -R2 E.
  - by rw !lookup_insert_ne //.
Qed.

Lemma set_prev_ok m0 m p x N P :
  redirect m0 m N P → is_Some (m !! p) →
  ∃ m', set_prev p x m = Done m' ∧ redirect m0 m' N (<[p := x]> P).
Proof.
  move=> R [n E]. rw /set_prev E. eexists. split; [done|]. move=> y. have [R1 R2] := R y.
  destruct (decide (y = p)) as [->|].
  - rw !lookup_insert_eq /=. split; [|done]. by rw -R1 E.
  - by rw !lookup_insert_ne //.
Qed.

(** No node disappears. *)
Lemma redirect_dom m m' N P p : redirect m m' N P → is_Some (m !! p) → is_Some (m' !! p).
Proof.
  move=> R [n E]. have [R1 _] := R p. move: R1. rw E /=. case: (m' !! p); [done|].
  by case: (N !! p).
Qed.

Lemma link_dom m a b : link m a b → is_Some (m !! a) ∧ is_Some (m !! b).
Proof. by rw /link => -[/fmap_Some [? [-> _]] /fmap_Some [? [-> _]]]. Qed.

Lemma chain_dom m a l b : chain m a l b → Forall (λ x, is_Some (m !! x)) (a :: b :: l).
Proof.
  elim: l a => [|x l IH] a /=.
  - move=> /link_dom [??]. by repeat constructor.
  - move=> [/link_dom [??] /IH /Forall_cons [? /Forall_cons [??]]]. by repeat constructor.
Qed.

(** A chain depends on the successors of its nodes and the predecessors of
    those that follow. *)
Lemma chain_redirect m m' N P a l b :
  redirect m m' N P → (∀ x, x ∈ a :: l → N !! x = None) → (∀ x, x ∈ b :: l → P !! x = None) →
  chain m a l b → chain m' a l b.
Proof.
  move=> R. elim: l a => [|x l IH] a HN HP /=.
  - move=> [E1 E2]. have [R1 _] := R a. have [_ R2] := R b.
    rw HN in R1; [by left|]. rw HP in R2; [by left|]. by rw /link R1 R2.
  - move=> [[E1 E2] Hc]. have [R1 _] := R a. have [_ R2] := R x.
    rw HN in R1; [by left|]. rw HP in R2; [by right; left|]. split; [by rw /link R1 R2|].
    apply IH; [|by move=> y /elem_of_cons [->|?]; apply HP; [left|right; right]|done].
    move=> y Hy. apply HN. by right.
Qed.

Lemma chain_app m a l1 x l2 b :
  chain m a (l1 ++ x :: l2) b ↔ chain m a l1 x ∧ chain m x l2 b.
Proof. elim: l1 a => [|y l1 IH] a //=. rw IH. tauto. Qed.

(** The chain up to [e], when its last link is bent to lead to [q]. *)
Lemma chain_bend m m' a l e q :
  redirect m m' {[default a (last l) := q]} {[q := default a (last l)]} →
  NoDup (a :: l) → q ∉ l → chain m a l e → chain m' a l q.
Proof.
  elim: l a => [|x l IH] a R Hd Hq /=.
  - move=> _. have [R1 _] := R a. have [_ R2] := R q. rw /= !lookup_singleton_eq in R1 R2. by split.
  - apply NoDup_cons in Hd as [Ha Hd]. rw last_cons in R.
    have El : default a (match last l with Some y => Some y | None => Some x end) = default x (last l)
      by case: (last l).
    rw El in R. move=> [[E1 E2] Hc]. split; [|apply IH; [done|done|set_solver|done]].
    have Hp : default x (last l) ∈ x :: l.
    { case Ey: (last l) => [y|] /=; [|by left]. right. by apply last_Some_elem_of in Ey. }
    have [R1 _] := R a. have [_ R2] := R x. rw !lookup_singleton_ne in R1 R2; [set_solver..|].
    by rw /link R1 R2.
Qed.

(** ** Refinement *)

(** What an operation on one list leaves alone: no node disappears, and lists
    that share no node with [xs] keep their content. *)
Definition frame (m m' : nodes) (xs : list Z) : Prop :=
  (∀ x, is_Some (m !! x) → is_Some (m' !! x))
  ∧ ∀ h l, (∀ x, x ∈ h :: l → x ∉ xs) → dlist m h l → dlist m' h l.

Lemma redirect_frame m m' N P xs :
  redirect m m' N P → (∀ x, x ∉ xs → N !! x = None ∧ P !! x = None) → frame m m' xs.
Proof.
  move=> R Hx. split; [move=> x; by eapply redirect_dom|]. move=> h l Hd [Hn Hc].
  split; [done|]. eapply chain_redirect; [done|..|done]; move=> x /Hd /Hx [] //.
Qed.

Lemma list_init_ok m x : is_Some (m !! x) →
  ∃ m', list_init x m = Done m' ∧ dlist m' x [] ∧ redirect m m' {[x := x]} {[x := x]}.
Proof.
  move=> Hx. rw /list_init.
  destruct (set_next_ok m m x x ∅ ∅ (redirect_refl m) Hx) as (m1 & -> & R1). rw bind_Done.
  destruct (set_prev_ok m m1 x x _ _ R1) as (m2 & E2 & R2); [by eapply redirect_dom|].
  exists m2. split; [done|]. rw insert_empty in R2. split; [|done].
  split; [apply NoDup_singleton|]. have [Rn Rp] := R2 x. by rw !lookup_singleton_eq in Rn Rp.
Qed.

(** The first node, or the sentinel. *)
Lemma chain_first m a l b : chain m a l b →
  next <$> m !! a = Some (default b (head l)) ∧ default b (head l) ∈ b :: l.
Proof. case: l => [|x l] /=; [by move=> [? _]; split; [|left]|by move=> [[? _] _]; split; [|right; left]]. Qed.

Lemma list_add_ok m h l e :
  dlist m h l → is_Some (m !! e) → e ∉ h :: l →
  ∃ m', list_add e h m = Done m' ∧ dlist m' h (e :: l) ∧ frame m m' (e :: h :: l).
Proof.
  move=> [Hn Hc] He Hne. destruct (chain_first m h l h Hc) as [Ef Hf].
  set f := default h (head l) in Ef Hf. have Hdom := chain_dom m h l h Hc.
  have Hh : is_Some (m !! h) by inversion Hdom.
  have Hfd : is_Some (m !! f).
  { apply Forall_cons in Hdom as [_ Hdom]. exact (proj1 (Forall_forall _ _) Hdom f Hf). }
  have Heh : e ≠ h by move=> E; apply Hne; rw E; left. have Hef : e ≠ f by move=> E; apply Hne; rw E.
  rw /list_add (get_next_ok m h f Ef) bind_Done.
  destruct (set_next_ok m m e f ∅ ∅ (redirect_refl m) He) as (m1 & -> & R1). rw bind_Done.
  destruct (set_prev_ok m m1 e h _ _ R1) as (m2 & -> & R2); [by eapply redirect_dom|]. rw bind_Done.
  have Ef2 : next <$> m2 !! h = Some f.
  { have [-> _] := R2 h. by rw lookup_insert_ne // lookup_empty. }
  rw (get_next_ok m2 h f Ef2) bind_Done.
  destruct (set_prev_ok m m2 f e _ _ R2) as (m3 & -> & R3); [by eapply redirect_dom|]. rw bind_Done.
  destruct (set_next_ok m m3 h e _ _ R3) as (m4 & -> & R4); [by eapply redirect_dom|].
  exists m4. split; [done|]. split.
  - split.
    { apply NoDup_cons in Hn as [Hh' Hl]. rw not_elem_of_cons in Hne.
      apply NoDup_cons; split; [rw not_elem_of_cons; naive_solver|]. apply NoDup_cons. naive_solver. }
    have [Rh _] := R4 h. have [Re Re'] := R4 e. have [_ Rf] := R4 f.
    rw lookup_insert_eq in Rh. rw lookup_insert_ne // lookup_insert_eq in Re.
    rw lookup_insert_ne // lookup_insert_eq in Re'. rw lookup_insert_eq in Rf.
    split; [done|]. move: R4 Hc Hn Hne Rf Re Hef. rw /f {R1 R2 R3 Ef Hf Hfd Ef2 Hdom f}.
    case: l => [|x l] /= R4 Hc Hn Hne Rf Re Hef.
    + done.
    + split; [done|]. destruct Hc as [_ Hc]. rw !NoDup_cons in Hn. destruct Hn as (Hh' & Hx & _).
      eapply chain_redirect; [exact R4| | |exact Hc].
      * move=> y Hy. rw !lookup_insert_ne ?lookup_empty //; [move=> E; subst y|move=> E; subst y].
        -- by apply Hh'.
        -- apply Hne. by right.
      * move=> y. rw elem_of_cons => Hy. rw !not_elem_of_cons in Hne. rw not_elem_of_cons in Hh'.
        rw !lookup_insert_ne ?lookup_empty //; naive_solver.
  - eapply redirect_frame; [exact R4|]. move=> x. rw !not_elem_of_cons => -[H1 [H2 H3]].
    have ? : f ≠ x by move=> E; subst x; rw elem_of_cons in Hf; naive_solver.
    by split; rw !lookup_insert_ne ?lookup_empty.
Qed.

Lemma list_del_ok m h l1 e l2 :
  dlist m h (l1 ++ e :: l2) →
  ∃ m', list_del e m = Done m' ∧ dlist m' h (l1 ++ l2) ∧ frame m m' (h :: l1 ++ l2).
Proof.
  move=> [Hn Hc]. apply chain_app in Hc as [Hc1 Hc2].
  have Hn' : NoDup (e :: h :: l1 ++ l2)
    by move: Hn; rw -Permutation_middle; apply NoDup_Permutation_proper; constructor.
  apply NoDup_cons in Hn' as [Hne Hn'].
  set p := default h (last l1). destruct (chain_first m e l2 h Hc2) as [En Hq].
  set q := default h (head l2) in En Hq.
  have Hp : p ∈ h :: l1.
  { rw /p. case Ey: (last l1) => [y|] /=; [|by left]. right. by apply last_Some_elem_of in Ey. }
  have Ep : prev <$> m !! e = Some p.
  { move: Hc1. rw /p. clear. elim: l1 h => [|x l1 IH] h /=; [by move=> []|]. move=> [_ /IH ->].
    rw last_cons. by case: (last l1). }
  have Hd1 := chain_dom _ _ _ _ Hc1. have Hd2 := chain_dom _ _ _ _ Hc2.
  have Hpd : is_Some (m !! p).
  { apply (proj1 (Forall_forall _ _) Hd1). set_solver. }
  have Hqd : is_Some (m !! q).
  { apply (proj1 (Forall_forall _ _) Hd2). set_solver. }
  have Hep : e ≠ p by set_solver.
  rw /list_del (get_prev_ok m e p Ep) bind_Done (get_next_ok m e q En) bind_Done.
  destruct (set_next_ok m m p q ∅ ∅ (redirect_refl m) Hpd) as (m1 & -> & R1). rw bind_Done.
  have En1 : next <$> m1 !! e = Some q by have [-> _] := R1 e; rw lookup_insert_ne // lookup_empty.
  have Ep1 : prev <$> m1 !! e = Some p by have [_ ->] := R1 e; rw lookup_empty.
  rw (get_next_ok m1 e q En1) bind_Done (get_prev_ok m1 e p Ep1) bind_Done.
  destruct (set_prev_ok m m1 q p _ _ R1) as (m2 & -> & R2); [by eapply redirect_dom|].
  rw !insert_empty in R2. exists m2. split; [done|]. split.
  - split; [done|]. rw app_comm_cons NoDup_app in Hn'. destruct Hn' as (Hn1 & Hdis & Hn2).
    move: R2 Hc2 Hdis Hn2. rw /q {R1 En Hqd En1 Hd2 Hq q Hn Hne}. case: l2 => [|y l2] /= R2 Hc2 Hdis Hn2.
    + rw app_nil_r. eapply chain_bend; [exact R2|done| |exact Hc1]. by inversion Hn1.
    + apply chain_app. rw NoDup_cons in Hn2. destruct Hn2 as [Hy _]. split.
      * eapply chain_bend; [exact R2|done| |exact Hc1]. move=> Hy1. apply (Hdis y); [by right|by left].
      * destruct Hc2 as [_ Hc2]. eapply chain_redirect; [exact R2| | |exact Hc2].
        -- move=> x Hx. apply lookup_singleton_ne. move=> E. subst x. by apply (Hdis p).
        -- move=> x Hx. apply lookup_singleton_ne. move=> E. subst x.
           apply elem_of_cons in Hx as [->|?]; [by apply (Hdis h); left|done].
  - eapply redirect_frame; [exact R2|]. move=> x. rw not_elem_of_cons not_elem_of_app => -[H1 [H2 H3]].
    rw elem_of_cons in Hp. rw elem_of_cons in Hq.
    split; apply lookup_singleton_ne => E; subst x; naive_solver.
Qed.

Lemma list_empty_ok m h l : dlist m h l → list_empty m h = Done (bool_decide (l = [])).
Proof.
  move=> [Hn Hc]. destruct (chain_first m h l h Hc) as [E _].
  rw /list_empty (get_next_ok _ _ _ E) bind_Done. f_equal. case: l Hn {Hc E} => [|x l] Hn /=.
  - by ztrue.
  - apply Z.eqb_neq. apply NoDup_cons in Hn as [Hh _]. move=> E. apply Hh. rw E. left.
Qed.

