(* ===== verification/Rings.v ===== *)
(** * Families of circular lists

    The slab allocator keeps all its slabs in a family of circular lists, three
    for each cache, that share one memory of nodes.  The operations of [DList]
    on one list of such a family act on it as on a map from sentinels to lists
    of addresses. *)

From S2P Require Import Prelude Machine DList.

(** The lists of the family, by sentinel. *)
Abbreviation family := (gmap Z (list Z)).

(** [e] is a node or a sentinel of no list of the family. *)
Definition outside (L : family) (e : Z) : Prop := ∀ h l, L !! h = Some l → e ∉ h :: l.

(** The memory represents the family, whose lists have no node in common. *)
Record rings (m : nodes) (L : family) : Prop := {
  rg_dlist h l : L !! h = Some l → dlist m h l;
  rg_apart h1 l1 h2 l2 x : L !! h1 = Some l1 → L !! h2 = Some l2 →
    x ∈ h1 :: l1 → x ∈ h2 :: l2 → h1 = h2;
}.

(** Nodes never disappear. *)
Definition grows (m m' : nodes) : Prop := ∀ x, is_Some (m !! x) → is_Some (m' !! x).

#[export] Instance grows_preorder : PreOrder grows.
Proof. split; [by move=> m x|by move=> m1 m2 m3 H1 H2 x /H1 /H2]. Qed.

Lemma grows_insert m e n : grows m (<[e := n]> m).
Proof. move=> x [y Hy]. destruct (decide (x = e)) as [->|]; [by rw lookup_insert_eq; eexists|]. by rw lookup_insert_ne. Qed.

Lemma rings_empty m : rings m ∅.
Proof. by split; [move=> h l; rw lookup_empty|move=> h1 l1 h2 l2 x; rw lookup_empty]. Qed.

Lemma rings_node m L h l x : rings m L → L !! h = Some l → x ∈ h :: l → is_Some (m !! x).
Proof.
  move=> R E Hx. destruct (rg_dlist _ _ R h l E) as [_ Hc].
  apply (proj1 (Forall_forall _ _) (chain_dom _ _ _ _ Hc)). rw !elem_of_cons. rw elem_of_cons in Hx. tauto.
Qed.

(** An operation that changes the list of [h] to [l'], with nodes from [xs]
    that no other list has, keeps the family. *)
Lemma rings_update m m' L h l' xs :
  rings m L → frame m m' xs → dlist m' h l' → (∀ x, x ∈ h :: l' → x ∈ xs) →
  (∀ h2 l2 x, h2 ≠ h → L !! h2 = Some l2 → x ∈ h2 :: l2 → x ∉ xs) →
  rings m' (<[h := l']> L) ∧ grows m m'.
Proof.
  move=> R [Hg Hf] Hd Hin Hout. split; [|done]. split.
  - move=> h2 l2. destruct (decide (h2 = h)) as [->|Hne]; [by rw lookup_insert_eq => -[<-]|].
    rw lookup_insert_ne // => E. apply Hf; [|by eapply rg_dlist]. move=> x. by apply Hout.
  - move=> h1 l1 h2 l2 x. destruct (decide (h1 = h)) as [->|H1], (decide (h2 = h)) as [->|H2] => //.
    + rw lookup_insert_eq lookup_insert_ne // => -[<-] E /Hin Hx Hx'. by destruct (Hout h2 l2 x).
    + rw lookup_insert_eq lookup_insert_ne // => E [<-] Hx' /Hin Hx. by destruct (Hout h1 l1 x).
    + rw !lookup_insert_ne //. by eapply rg_apart.
Qed.

Lemma rings_add m L h l e :
  rings m L → L !! h = Some l → is_Some (m !! e) → outside L e →
  ∃ m', list_add e h m = Done m' ∧ rings m' (<[h := e :: l]> L) ∧ grows m m'.
Proof.
  move=> R E He Ho. destruct (list_add_ok m h l e (rg_dlist _ _ R h l E) He (Ho h l E)) as (m' & Ea & Hd & Hf).
  exists m'. split; [done|]. eapply rings_update; [done|exact Hf|done| |].
  - move=> x. rw !elem_of_cons. tauto.
  - move=> h2 l2 x Hne E2 Hx. rw elem_of_cons => -[?|Hx'].
    + subst x. by destruct (Ho h2 l2 E2).
    + by apply Hne, (rg_apart _ _ R h2 l2 h l x).
Qed.

Lemma rings_del m L h l1 e l2 :
  rings m L → L !! h = Some (l1 ++ e :: l2) →
  ∃ m', list_del e m = Done m' ∧ rings m' (<[h := l1 ++ l2]> L) ∧ grows m m'.
Proof.
  move=> R E. destruct (list_del_ok m h l1 e l2 (rg_dlist _ _ R h _ E)) as (m' & Ed & Hd & Hf).
  exists m'. split; [done|]. eapply rings_update; [done|exact Hf|done|done|].
  move=> h2 l2' x Hne E2 Hx Hx'. apply Hne, (rg_apart _ _ R h2 l2' h (l1 ++ e :: l2) x); [done..|].
  move: Hx'. rw !elem_of_cons !elem_of_app elem_of_cons. tauto.
Qed.

Lemma rings_init m L h : rings m L → is_Some (m !! h) → outside L h →
  ∃ m', list_init h m = Done m' ∧ rings m' (<[h := []]> L) ∧ grows m m'.
Proof.
  move=> R Hh Ho. destruct (list_init_ok m h Hh) as (m' & Ei & Hd & Hr). exists m'. split; [done|].
  eapply (rings_update m m' L h [] [h]); [done| |done|done|].
  - eapply redirect_frame; [exact Hr|]. move=> x Hx. rw !lookup_singleton_ne //; set_solver.
  - move=> h2 l2 x _ E2 Hx Hx'. apply list_elem_of_singleton in Hx' as ->. by apply (Ho h2 l2 E2).
Qed.

(** A write to an address that no list uses. *)
Lemma rings_fresh m L e n : rings m L → outside L e → rings (<[e := n]> m) L.
Proof.
  move=> R Ho. split; [|exact (rg_apart _ _ R)]. move=> h l E.
  destruct (rg_dlist _ _ R h l E) as [Hn Hc]. split; [done|]. have He := Ho h l E.
  eapply (chain_redirect m _ {[e := next n]} {[e := prev n]}); [| | |exact Hc].
  - move=> x. destruct (decide (x = e)) as [->|]; [by rw lookup_insert_eq !lookup_singleton_eq|].
    by rw lookup_insert_ne // !lookup_singleton_ne.
  - move=> x Hx. rw lookup_singleton_ne //. by move=> ?; subst x.
  - move=> x Hx. rw lookup_singleton_ne //. by move=> ?; subst x.
Qed.

(** A node moves from one list to the front of another. *)
Lemma rings_move m L h l1 e l2 h' l' :
  rings m L → L !! h = Some (l1 ++ e :: l2) → L !! h' = Some l' → h ≠ h' →
  ∃ m', (n ← list_del e m; list_add e h' n) = Done m'
    ∧ rings m' (<[h' := e :: l']> (<[h := l1 ++ l2]> L)) ∧ grows m m'.
Proof.
  move=> R E E' Hne. destruct (rings_del m L h l1 e l2 R E) as (m1 & -> & R1 & G1). rw bind_Done.
  have He : e ∈ h :: l1 ++ e :: l2 by rw elem_of_cons elem_of_app elem_of_cons; tauto.
  destruct (rings_add m1 _ h' l' e R1) as (m2 & -> & R2 & G2).
  - by rw lookup_insert_ne.
  - by apply G1, (rings_node m L h _ e R E).
  - move=> h2 l2'. destruct (decide (h2 = h)) as [->|Hh].
    + rw lookup_insert_eq => -[<-]. destruct (rg_dlist _ _ R h _ E) as [Hn _].
      rw -Permutation_middle in Hn. move: Hn. rw !NoDup_cons !elem_of_cons. naive_solver.
    + rw lookup_insert_ne // => E2 Hx. by apply Hh, (rg_apart _ _ R h2 l2' h _ e E2 E Hx He).
  - exists m2. split; [done|]. split; [done|]. by transitivity m1.
Qed.

(** The emptiness test and the first node of a list of the family. *)
Lemma rings_empty_test m L h l : rings m L → L !! h = Some l →
  list_empty m h = Done (bool_decide (l = [])).
Proof. move=> R E. by apply list_empty_ok, (rg_dlist _ _ R). Qed.

Lemma rings_first m L h x l : rings m L → L !! h = Some (x :: l) → get_next m h = Done x.
Proof.
  move=> R E. destruct (rg_dlist _ _ R h _ E) as [_ Hc]. apply get_next_ok.
  by destruct (chain_first _ _ _ _ Hc) as [-> _].
Qed.

Lemma outside_insert L h l e : outside L e → e ∉ h :: l → outside (<[h := l]> L) e.
Proof. by move=> Ho He h' l' /lookup_insert_Some [[<- <-]|[_ /Ho]]. Qed.
