(* ===== verification/Slab.v ===== *)
(** * The slab allocator

    Models [src/src/allocator/slab.rs], the global allocator of the kernel: a
    page allocator that only grows, one cache of slabs per size class, and in
    each slab a table of free-object indices.  The objects that the code writes
    through raw pointers are kept in a typed memory, one map per kind of object;
    a dereference that misses is [InvalidPointer].

    [VirtAddr] belongs to another crate: its constructor is a parameter. *)

From S2P Require Import Prelude Machine Str Alloc DList.

(** ** Data *)

Definition PAGE_SIZE : Z := 4096.
Definition MAX_SLAB_SIZE : Z := 2048.
Definition MAX_CLASSES : Z := 9.

(** [BufCtl::END] *)
Definition BUFCTL_END : Z := 2 ^ 32 - 1.

(** [size_of::<Slab>()] and [size_of::<BufCtl>()] under [repr(C)], and the
    offsets of the list heads of a [Cache]. *)
Definition SLAB_SIZE : Z := 40.
Definition BUFCTL_SIZE : Z := 4.
Definition PARTIAL : Z := 16.
Definition FREE : Z := 32.

(** The fields of a [Slab] after its list node. *)
Record Slab := mkSlab { s_mem : Z; free : Z; inuse : Z }.

(** The fields of a [Cache] after its list heads. *)
Record Cache := mkCache { obj_size : Z; num : Z; name : string }.

Record PageAllocator := mkPages { pg_next : Z; pg_end : Z }.

(** The objects in the pages of the heap, by address. *)
Record memory := mkMemory {
  m_nodes : nodes;
  m_caches : gmap Z Cache;
  m_slabs : gmap Z Slab;
  m_bufctls : gmap Z Z;
}.

Record SlabAllocator := mkSlabAllocator {
  page_alloc : option PageAllocator;
  node_caches : list Z;
  mem : memory;
}.

Definition CACHE_NAMES : list string :=
  ["size-8"; "size-16"; "size-32"; "size-64"; "size-128"; "size-256"; "size-512"; "size-1024";
   "size-2048"]%string.

Definition set_nodes (n : nodes) (m : memory) : memory :=
  mkMemory n (m_caches m) (m_slabs m) (m_bufctls m).
Definition set_slab (p : Z) (s : Slab) (m : memory) : memory :=
  mkMemory (m_nodes m) (m_caches m) (<[p := s]> (m_slabs m)) (m_bufctls m).
Definition set_bufctl (p v : Z) (m : memory) : memory :=
  mkMemory (m_nodes m) (m_caches m) (m_slabs m) (<[p := v]> (m_bufctls m)).

Definition deref {A} (o : option A) : outcome A :=
  match o with Some x => Done x | None => Panic InvalidPointer end.

(** [Option::unwrap] and [Option::expect] *)
Definition unwrap {A} (o : option A) : outcome A :=
  match o with Some x => Done x | None => Panic UnwrapFailed end.
Definition expect {A} (o : option A) (msg : string) : outcome A :=
  match o with Some x => Done x | None => Panic (Explicit msg) end.

(** ** Integers *)

Fixpoint pos_trailing_zeros (p : positive) : Z :=
  match p with xO p => 1 + pos_trailing_zeros p | _ => 0 end.

(** [usize::trailing_zeros], [usize::saturating_sub] and [usize::next_power_of_two] *)
Definition trailing_zeros (z : Z) : Z :=
  match z with Zpos p => pos_trailing_zeros p | _ => 64 end.
Definition saturating_sub (a b : Z) : Z := Z.max 0 (a - b).
Definition next_power_of_two (z : Z) : Z := 2 ^ Z.log2_up z.

(** [VirtAddr::new] *)
Class VirtAddr := virt_new : Z → outcome Z.

(** Addresses of the lower half are taken as they are. *)
Class VirtAddrOk `{VirtAddr} : Prop := virt_new_low a : 0 <= a < 2 ^ 47 → virt_new a = Done a.

Section operations.
Context `{Profile} `{VirtAddr}.

(** [VirtAddr + u64] *)
Definition virt_add (a b : Z) : outcome Z := s ← usize_add a b; virt_new s.

Definition alloc_pages (n : Z) (pa : PageAllocator) : outcome (PageAllocator * option Z) :=
  b ← usize_mul n PAGE_SIZE;
  limit ← virt_add (pg_next pa) b;
  if limit >? pg_end pa then Done (pa, None)
  else
    let addr := pg_next pa in
    nx ← virt_add (pg_next pa) b;
    Done (mkPages nx (pg_end pa), Some addr).

Definition slab_new : SlabAllocator :=
  mkSlabAllocator None (replicate (Z.to_nat MAX_CLASSES) 0) (mkMemory ∅ ∅ ∅ ∅).

Definition slab_init (heap_start heap_size : Z) (a : SlabAllocator) : outcome SlabAllocator :=
  nx ← virt_new heap_start;
  stop ← usize_add heap_start heap_size;
  stop ← virt_new stop;
  Done (mkSlabAllocator (Some (mkPages nx stop)) (node_caches a) (mem a)).

(** The write of a new [Cache] and the initialisation of its lists. *)
Definition write_cache (p : Z) (c : Cache) (m : memory) : outcome memory :=
  let n := <[p := ListNode_new]> (<[p + PARTIAL := ListNode_new]>
             (<[p + FREE := ListNode_new]> (m_nodes m))) in
  n ← list_init p n;
  n ← list_init (p + PARTIAL) n;
  n ← list_init (p + FREE) n;
  Done (mkMemory n (<[p := c]> (m_caches m)) (m_slabs m) (m_bufctls m)).

Definition get_or_create_cache (sz : Z) (a : SlabAllocator) : outcome (SlabAllocator * Z) :=
  let idx := saturating_sub (trailing_zeros sz) 3 in
  if negb (0 <? sz) then Panic AssertionFailed
  else
    cname ← (if idx <? zlen CACHE_NAMES then index CACHE_NAMES idx else Done "size-large"%string);
    ptr ← index (node_caches a) idx;
    if ptr =? 0 then
      pa ← unwrap (page_alloc a);
      r ← alloc_pages 1 pa;
      page ← expect r.2 "OOM Cache";
      let obj := next_power_of_two (Z.max sz 8) in
      let n := (PAGE_SIZE - SLAB_SIZE) / (obj + BUFCTL_SIZE) in
      m ← write_cache page (mkCache obj n cname) (mem a);
      ncs ← set_index (node_caches a) idx page;
      Done (mkSlabAllocator (Some r.1) ncs m, page)
    else Done (a, ptr).

(** The loop that fills the table of free indices, [k] entries to go. *)
Fixpoint fill_bufctls (k : nat) (i n bufctl_ptr : Z) (m : memory) : memory :=
  match k with
  | O => m
  | S k =>
      let nx := if i + 1 =? n then BUFCTL_END else as_u32 (i + 1) in
      fill_bufctls k (i + 1) n bufctl_ptr (set_bufctl (bufctl_ptr + BUFCTL_SIZE * i) nx m)
  end.

(** The start of the objects: [x & !(8 - 1)] clears the low three bits. *)
Definition object_start (bufctl_ptr table_size : Z) : outcome Z :=
  s ← usize_add bufctl_ptr table_size;
  s ← usize_add s 8;
  s ← usize_sub s 1;
  Done (Z.land s (Z.lnot 7)).

Definition cache_grow (cache : Z) (a : SlabAllocator) : outcome SlabAllocator :=
  pa ← unwrap (page_alloc a);
  r ← alloc_pages 1 pa;
  page ← expect r.2 "OOM Slab";
  bufctl_ptr ← usize_add page SLAB_SIZE;
  c ← deref (m_caches (mem a) !! cache);
  table ← usize_mul (num c) BUFCTL_SIZE;
  obj_start ← object_start bufctl_ptr table;
  let m := set_slab page (mkSlab obj_start 0 0)
             (set_nodes (<[page := ListNode_new]> (m_nodes (mem a))) (mem a)) in
  let m := fill_bufctls (Z.to_nat (num c)) 0 (num c) bufctl_ptr m in
  n ← list_add page (cache + FREE) (m_nodes m);
  Done (mkSlabAllocator (Some r.1) (node_caches a) (set_nodes n m)).

(** The slab that an allocation uses: a partial one, or a free one, new if
    there is none, that becomes partial. *)
Definition choose_slab (cache : Z) (a : SlabAllocator) : outcome (SlabAllocator * Z) :=
  no_partial ← list_empty (m_nodes (mem a)) (cache + PARTIAL);
  if negb no_partial then
    node ← get_next (m_nodes (mem a)) (cache + PARTIAL);
    Done (a, node)
  else
    no_free ← list_empty (m_nodes (mem a)) (cache + FREE);
    a ← (if no_free then cache_grow cache a else Done a);
    node ← get_next (m_nodes (mem a)) (cache + FREE);
    n ← list_del node (m_nodes (mem a));
    n ← list_add node (cache + PARTIAL) n;
    Done (mkSlabAllocator (page_alloc a) (node_caches a) (set_nodes n (mem a)), node).

(** Unlink a slab and put it at the front of another list of its cache. *)
Definition move_slab (slab head : Z) (m : memory) : outcome memory :=
  n ← list_del slab (m_nodes m);
  n ← list_add slab head n;
  Done (set_nodes n m).

Definition slab_alloc (layout : Layout) (a : SlabAllocator)
    : outcome (SlabAllocator * option Z) :=
  let sz := size layout in
  if sz >? MAX_SLAB_SIZE then
    s ← usize_add sz PAGE_SIZE;
    s ← usize_sub s 1;
    let num_pages := s / PAGE_SIZE in
    pa ← unwrap (page_alloc a);
    r ← alloc_pages num_pages pa;
    Done (mkSlabAllocator (Some r.1) (node_caches a) (mem a), r.2)
  else
    r ← get_or_create_cache sz a;
    let '(a, cache) := r in
    r ← choose_slab cache a;
    let '(a, slab) := r in
    s ← deref (m_slabs (mem a) !! slab);
    c ← deref (m_caches (mem a) !! cache);
    let obj_idx := free s in
    off ← usize_mul obj_idx (obj_size c);
    let obj := s_mem s + off in
    bufctl_ptr ← usize_add slab SLAB_SIZE;
    nx ← deref (m_bufctls (mem a) !! (bufctl_ptr + BUFCTL_SIZE * obj_idx));
    u ← usize_add (inuse s) 1;
    let m := set_slab slab (mkSlab (s_mem s) nx u) (mem a) in
    m ← (if u =? num c then move_slab slab cache m else Done m);
    Done (mkSlabAllocator (page_alloc a) (node_caches a) m, Some obj).

Definition slab_dealloc (ptr : Z) (layout : Layout) (a : SlabAllocator) : outcome SlabAllocator :=
  let sz := size layout in
  if (sz >? MAX_SLAB_SIZE) || (ptr =? 0) then Done a
  else
    r ← get_or_create_cache sz a;
    let '(a, cache) := r in
    let slab := Z.land ptr (Z.lnot (PAGE_SIZE - 1)) in
    s ← deref (m_slabs (mem a) !! slab);
    c ← deref (m_caches (mem a) !! cache);
    d ← usize_sub ptr (s_mem s);
    obj_idx ← u_div d (obj_size c);
    bufctl_ptr ← usize_add slab SLAB_SIZE;
    let m := set_bufctl (bufctl_ptr + BUFCTL_SIZE * obj_idx) (free s) (mem a) in
    u ← usize_sub (inuse s) 1;
    let m := set_slab slab (mkSlab (s_mem s) (as_u32 obj_idx) u) m in
    u1 ← usize_add u 1;
    m ← (if u1 =? num c then move_slab slab (cache + PARTIAL) m
         else if u =? 0 then move_slab slab (cache + FREE) m
         else Done m);
    Done (mkSlabAllocator (page_alloc a) (node_caches a) m).

#[export] Instance slab_allocator : Allocator SlabAllocator := {
  alloc := slab_alloc;
  dealloc := slab_dealloc;
}.
End operations.
