(* ===== verification/SlabRep.v ===== *)
(** * The slab allocator: size classes and the representation of the heap

    Which sizes the caches serve, how a page is divided into objects, and the
    invariant that ties the memory of the allocator to an abstract map of the
    pages of the heap: which page holds a cache, a slab or a large block, and
    which objects of a slab are in use. *)

From S2P Require Import Prelude Machine Str Alloc DList Rings Slab.

(** ** Size classes *)

(** The index of the cache that serves a size. *)
Definition class_of (sz : Z) : Z := saturating_sub (trailing_zeros sz) 3.

(** The size of the objects of a class, their number in a slab, and the offset
    of the first one. *)
Definition class_size (k : Z) : Z := 2 ^ (k + 3).
Definition class_num (k : Z) : Z := (PAGE_SIZE - SLAB_SIZE) / (class_size k + BUFCTL_SIZE).
Definition class_off (k : Z) : Z := (SLAB_SIZE + class_num k * BUFCTL_SIZE + 7) / 8 * 8.

(** The sizes that fit the class they are mapped to. *)
Definition regular (sz : Z) : Prop := 0 < sz <= MAX_SLAB_SIZE ∧ sz <= class_size (class_of sz).

#[export] Instance regular_dec sz : Decision (regular sz).
Proof. rw /regular. apply _. Defined.

(** A statement about the sizes up to [MAX_SLAB_SIZE] or about the classes is
    checked by running through them. *)
Lemma sizes_ind (P : Z → Prop) `{∀ z, Decision (P z)} :
  forallb (λ z, bool_decide (P z)) (seqZ 1 MAX_SLAB_SIZE) = true →
  ∀ z, 0 < z <= MAX_SLAB_SIZE → P z.
Proof.
  move=> /forallb_forall Hf z Hz. eapply bool_decide_eq_true, Hf, list_elem_of_In, elem_of_seqZ. lia.
Qed.

Lemma classes_ind (P : Z → Prop) `{∀ z, Decision (P z)} :
  forallb (λ z, bool_decide (P z)) (seqZ 0 MAX_CLASSES) = true → ∀ k, 0 <= k < MAX_CLASSES → P k.
Proof.
  move=> /forallb_forall Hf z Hz. eapply bool_decide_eq_true, Hf, list_elem_of_In, elem_of_seqZ. lia.
Qed.

Ltac check_sizes :=
  match goal with
  | |- ∀ z, 0 < z <= MAX_SLAB_SIZE → @?P z => apply (sizes_ind P); vm_compute; reflexivity
  end.
Ltac check_classes :=
  match goal with
  | |- ∀ k, 0 <= k < MAX_CLASSES → @?P k => apply (classes_ind P); vm_compute; reflexivity
  end.

Lemma class_of_bounds sz : 0 < sz <= MAX_SLAB_SIZE → 0 <= class_of sz < MAX_CLASSES.
Proof. move: sz. check_sizes. Qed.

(** The regular sizes are those up to 8 and the powers of two. *)
Lemma regular_iff sz : 0 < sz <= MAX_SLAB_SIZE → regular sz ↔ sz <= 8 ∨ sz = 2 ^ Z.log2 sz.
Proof. move: sz. check_sizes. Qed.

Lemma regular_object sz : regular sz → next_power_of_two (Z.max sz 8) = class_size (class_of sz).
Proof.
  move=> R. have [Hb _] := R. move: sz Hb R. check_sizes.
Qed.

Lemma class_layout k : 0 <= k < MAX_CLASSES →
  1 <= class_num k <= 338 ∧ 8 <= class_size k <= 2048 ∧ class_size k mod 8 = 0
  ∧ class_off k mod 8 = 0 ∧ SLAB_SIZE + class_num k * BUFCTL_SIZE <= class_off k
  ∧ class_off k + class_num k * class_size k <= PAGE_SIZE.
Proof. move: k. check_classes. Qed.

(** ** Addresses *)

Lemma land_lnot_ones x n : 0 <= n → Z.land x (Z.lnot (2 ^ n - 1)) = x / 2 ^ n * 2 ^ n.
Proof.
  move=> ?. have -> : 2 ^ n - 1 = Z.ones n by rw Z.ones_equiv; lia.
  by rw -Z.ldiff_land Z.ldiff_ones_r // Z.shiftr_div_pow2 // Z.shiftl_mul_pow2.
Qed.

(** The address of an object. *)
Definition object (s k i : Z) : Z := s + class_off k + i * class_size k.

Lemma object_page s k i : 0 <= k < MAX_CLASSES → 0 <= i < class_num k → s mod PAGE_SIZE = 0 →
  s + SLAB_SIZE + class_num k * BUFCTL_SIZE <= object s k i
  ∧ object s k i + class_size k <= s + PAGE_SIZE
  ∧ Z.land (object s k i) (Z.lnot (PAGE_SIZE - 1)) = s
  ∧ object s k i mod 8 = 0.
Proof.
  move=> Hk Hi Hs. destruct (class_layout k Hk) as (Hn & Hc & Hc8 & Ho8 & Hlo & Hhi).
  have ? : 0 <= i * class_size k by apply Z.mul_nonneg_nonneg; lia.
  have ? : (i + 1) * class_size k <= class_num k * class_size k by apply Z.mul_le_mono_nonneg_r; lia.
  rw /object. split; [lia|]. split; [lia|]. split.
  - have -> : PAGE_SIZE - 1 = 2 ^ 12 - 1 by []. rw land_lnot_ones //.
    rw /PAGE_SIZE /SLAB_SIZE /BUFCTL_SIZE in Hs Hlo Hhi |- *.
    have Es := Z.div_mod s 4096 ltac:(lia). rw Hs in Es.
    have -> : s + class_off k + i * class_size k = class_off k + i * class_size k + s / 4096 * 4096 by lia.
    rw (Z.div_add _ _ (2 ^ 12)); [lia|]. rw Z.div_small; lia.
  - have [q Eq] : (8 | s) by apply (Z.divide_trans _ PAGE_SIZE); [by exists 512|by apply Z.mod_divide].
    apply Z.mod_divide in Hc8 as [r Er]; [|lia]. apply Z.mod_divide in Ho8 as [t Et]; [|lia].
    apply Z.mod_divide; [lia|]. exists (q + t + i * r). rw Eq Er Et. lia.
Qed.

(** Different objects of a slab have no byte in common. *)
Lemma object_apart s k i j : 0 <= k < MAX_CLASSES → i ≠ j →
  apart (object s k i, class_size k) (object s k j, class_size k).
Proof.
  move=> Hk Hij. destruct (class_layout k Hk) as (_ & Hc & _). rw /apart /object /=. nia.
Qed.

(** ** The map of the heap *)

(** A slab: its class, the sentinel of the list it is in, the indices of its
    free objects in the order of the table, and the layouts of the others. *)
Record slab_use := mkSlabUse {
  su_class : Z;
  su_head : Z;
  su_frees : list Z;
  su_used : gmap Z Layout;
}.

(** What the pages from an address on are used for.  A large block that was
    freed keeps its pages. *)
Inductive page_use :=
  | CacheUse (k : Z)
  | SlabUse (u : slab_use)
  | LargeUse (n : Z) (l : option Layout).

Abbreviation heap_map := (gmap Z page_use).

Definition use_bytes (u : page_use) : Z :=
  match u with LargeUse n _ => n * PAGE_SIZE | _ => PAGE_SIZE end.

(** The live blocks in some pages, and in the heap. *)
Definition use_blocks (pu : Z * page_use) : list block :=
  match pu.2 with
  | SlabUse u => (λ il, (object pu.1 (su_class u) il.1, il.2)) <$> map_to_list (su_used u)
  | LargeUse _ (Some l) => [(pu.1, l)]
  | _ => []
  end.

Definition heap_blocks (G : heap_map) : list block := map_to_list G ≫= use_blocks.

(** The table of a slab links its free objects in this order. *)
Definition first_index (fs : list Z) : Z := default BUFCTL_END (head fs).

Definition entry_addr (s i : Z) : Z := s + SLAB_SIZE + BUFCTL_SIZE * i.

Fixpoint free_chain (B : gmap Z Z) (s : Z) (fs : list Z) : Prop :=
  match fs with
  | [] => True
  | i :: fs => B !! entry_addr s i = Some (first_index fs) ∧ free_chain B s fs
  end.

(** A layout served from a slab of class [k], or by [n] pages. *)
Definition small_layout (k : Z) (l : Layout) : Prop :=
  regular (size l) ∧ class_of (size l) = k ∧ (align l | 8).
Definition large_layout (n : Z) (l : Layout) : Prop :=
  MAX_SLAB_SIZE < size l <= n * PAGE_SIZE ∧ (align l | PAGE_SIZE).

(** The contents of a slab. *)
Record slab_ok (m : memory) (s : Z) (u : slab_use) : Prop := {
  so_class : 0 <= su_class u < MAX_CLASSES;
  so_slab : m_slabs m !! s =
    Some (mkSlab (s + class_off (su_class u)) (first_index (su_frees u)) (Z.of_nat (base.size (su_used u))));
  so_chain : free_chain (m_bufctls m) s (su_frees u);
  so_frees : NoDup (su_frees u);
  so_index i : i ∈ su_frees u → 0 <= i < class_num (su_class u) ∧ su_used u !! i = None;
  so_used i l : su_used u !! i = Some l →
    0 <= i < class_num (su_class u) ∧ small_layout (su_class u) l;
  so_count : zlen (su_frees u) + Z.of_nat (base.size (su_used u)) = class_num (su_class u);
}.

(** The list a slab belongs to, by what it has free. *)
Definition place_ok (c : Z) (u : slab_use) : Prop :=
  su_head u = c ∧ su_frees u = []
  ∨ su_head u = c + PARTIAL ∧ su_frees u ≠ []
  ∨ su_head u = c + FREE ∧ su_used u = ∅.

(** [x] is in the list of [h]. *)
Definition memb (L : family) (x h : Z) : Prop := ∃ l, L !! h = Some l ∧ x ∈ l.

Definition head_of (c h : Z) : Prop := h = c ∨ h = c + PARTIAL ∨ h = c + FREE.

Record cache_ok (m : memory) (L : family) (k c : Z) : Prop := {
  co_cache : ∃ nm, m_caches m !! c = Some (mkCache (class_size k) (class_num k) nm);
  co_heads h : head_of c h → is_Some (L !! h);
}.

(** ** Live blocks *)

Lemma heap_blocks_delete G p u : G !! p = Some u →
  heap_blocks G ≡ₚ use_blocks (p, u) ++ heap_blocks (delete p G).
Proof. move=> E. by rw /heap_blocks -(map_to_list_delete G p u E) bind_cons. Qed.

Lemma heap_blocks_fresh G p u : G !! p = None →
  heap_blocks (<[p := u]> G) ≡ₚ use_blocks (p, u) ++ heap_blocks G.
Proof. move=> E. by rw /heap_blocks map_to_list_insert // bind_cons. Qed.

Lemma heap_blocks_update G p u : 
  heap_blocks (<[p := u]> G) ≡ₚ use_blocks (p, u) ++ heap_blocks (delete p G).
Proof. rw -(insert_delete_eq G). apply heap_blocks_fresh, lookup_delete_eq. Qed.

Lemma elem_of_heap_blocks G b :
  b ∈ heap_blocks G ↔ ∃ p u, G !! p = Some u ∧ b ∈ use_blocks (p, u).
Proof.
  rw /heap_blocks list_elem_of_bind. split.
  - move=> [[p u] [Hb /elem_of_map_to_list E]]. by exists p, u.
  - move=> [p [u [E Hb]]]. exists (p, u). split; [done|by apply elem_of_map_to_list].
Qed.

Lemma elem_of_slab_blocks s u b :
  b ∈ use_blocks (s, SlabUse u) ↔
    ∃ i l, su_used u !! i = Some l ∧ b = (object s (su_class u) i, l).
Proof.
  rw /use_blocks list_elem_of_fmap. split.
  - move=> [[i l] [-> /elem_of_map_to_list E]]. by exists i, l.
  - move=> [i [l [E ->]]]. exists (i, l). split; [done|by apply elem_of_map_to_list].
Qed.

(** An object that is taken or given back. *)
Lemma slab_blocks_insert s k h h' fs fs' used i l : used !! i = None →
  use_blocks (s, SlabUse (mkSlabUse k h fs (<[i := l]> used))) ≡ₚ
    (object s k i, l) :: use_blocks (s, SlabUse (mkSlabUse k h' fs' used)).
Proof. move=> E. by rw /use_blocks /= map_to_list_insert. Qed.

Lemma small_layout_size k l : small_layout k l → size l <= class_size k.
Proof. by move=> [[_ ?] [<- _]]. Qed.

(** A live block lies in the pages it belongs to, behind the table of a slab,
    and is aligned. *)
Lemma slab_block_ok m s u b : slab_ok m s u → s mod PAGE_SIZE = 0 → b ∈ use_blocks (s, SlabUse u) →
  inside (s + class_off (su_class u)) (s + PAGE_SIZE) (extent b) ∧ b.1 mod align b.2 = 0
  ∧ 0 < size b.2 <= MAX_SLAB_SIZE.
Proof.
  move=> S Hs /elem_of_slab_blocks [i [l [E ->]]]. destruct (so_used _ _ _ S i l E) as [Hi Hl].
  have Hk := so_class _ _ _ S. destruct (object_page s (su_class u) i Hk Hi Hs) as (H1 & H2 & _ & H8).
  have ? := small_layout_size _ _ Hl. destruct Hl as [[??] [_ Ha]].
  destruct (class_layout _ Hk) as (_ & Hc & _).
  split; [rw /inside /= /object in H2 |- *; nia|]. split; [|done]. cbn.
  apply Z.mod_divide; [by move: Ha => /[swap] -> /Z.divide_0_l|].
  etransitivity; [exact Ha|]. by apply Z.mod_divide.
Qed.

(** ** Frames *)

Lemma entry_addr_page s k i : 0 <= k < MAX_CLASSES → 0 <= i < class_num k →
  s <= entry_addr s i < s + PAGE_SIZE.
Proof.
  move=> Hk Hi. destruct (class_layout k Hk) as (Hn & Hc & _ & _ & Ho & Hh).
  have ? : 0 <= class_num k * class_size k by apply Z.mul_nonneg_nonneg; lia.
  rw /entry_addr /SLAB_SIZE /BUFCTL_SIZE in Ho |- *. lia.
Qed.

Lemma free_chain_frame B B' s fs : (∀ i, i ∈ fs → B' !! entry_addr s i = B !! entry_addr s i) →
  free_chain B s fs → free_chain B' s fs.
Proof.
  elim: fs => [|i fs IH] //= HB [E Hc]. split; [by rw HB //; left|].
  apply IH; [|done]. move=> j Hj. apply HB. by right.
Qed.

(** A slab depends on its header and on the table in its page. *)
Lemma slab_ok_frame m m' s u :
  m_slabs m' !! s = m_slabs m !! s →
  (∀ x, s <= x < s + PAGE_SIZE → m_bufctls m' !! x = m_bufctls m !! x) →
  slab_ok m s u → slab_ok m' s u.
Proof.
  move=> Es Eb [H1 H2 H3 H4 H5 H6 H7]. split; [done|by rw Es| |done..].
  eapply free_chain_frame; [|exact H3]. move=> i /H5 [Hi _]. by eapply Eb, entry_addr_page.
Qed.

Lemma memb_move m L h l1 e l2 h' l' x g :
  rings m L → L !! h = Some (l1 ++ e :: l2) → L !! h' = Some l' → h ≠ h' →
  memb (<[h' := e :: l']> (<[h := l1 ++ l2]> L)) x g ↔ x = e ∧ g = h' ∨ x ≠ e ∧ memb L x g.
Proof.
  move=> R E E' Hne. have [Hn _] := rg_dlist _ _ R h _ E.
  rw -Permutation_middle !NoDup_cons in Hn. destruct Hn as (_ & He & _).
  have Huniq : ∀ g l, L !! g = Some l → e ∈ l → g = h.
  { move=> g0 l Eg Hl. apply (rg_apart _ _ R g0 l h _ e Eg E); [by right|right].
    rw elem_of_app elem_of_cons. tauto. }
  rw /memb. destruct (decide (g = h')) as [->|Hg]; [|rw lookup_insert_ne //; destruct (decide (g = h)) as [->|Hg']].
  - rw lookup_insert_eq. split.
    + move=> [l [[<-] /elem_of_cons [->|Hx]]]; [by left|]. right. split; [|by exists l'].
      move=> ?; subst x. by apply Hne, eq_sym, (Huniq h' l').
    + move=> [[-> _]|[_ [l [El Hx]]]]; eexists; (split; [done|]); [by left|right]. congruence.
  - rw lookup_insert_eq. split.
    + move=> [l [[<-] Hx]]. right. split; [by move=> ?; subst x|]. eexists. split; [done|].
      move: Hx. rw !elem_of_app elem_of_cons. tauto.
    + move=> [[_ ?]|[Hx [l [El Hl]]]]; [done|]. eexists. split; [done|].
      have Eq : l = l1 ++ e :: l2 by congruence. subst l. move: Hl. rw !elem_of_app elem_of_cons. tauto.
  - rw lookup_insert_ne //. split.
    + move=> [l [El Hl]]. right. split; [|by exists l]. move=> ?; subst x. by apply Hg', (Huniq g l).
    + by move=> [[_ ?]|[_ ?]].
Qed.

Lemma is_Some_insert_same {A} (L : gmap Z A) h l l' x :
  L !! h = Some l → is_Some (<[h := l']> L !! x) ↔ is_Some (L !! x).
Proof.
  move=> E. destruct (decide (x = h)) as [->|]; [|by rw lookup_insert_ne].
  by rw lookup_insert_eq E; split; eexists.
Qed.

(** ** The invariant *)

Section rep.
Context (lo hi : Z).

(** The allocator [a] has handed out the pages below [nx]; [G] says what they
    are used for and [L] which slabs are in which list. *)
Record slab_rep (a : SlabAllocator) (G : heap_map) (L : family) (nx : Z) : Prop := {
  sr_pages : page_alloc a = Some (mkPages nx hi);
  sr_next : nx mod PAGE_SIZE = 0 ∧ lo <= nx <= hi;
  sr_length : length (node_caches a) = Z.to_nat MAX_CLASSES;
  sr_in p u : G !! p = Some u →
    p mod PAGE_SIZE = 0 ∧ lo <= p ∧ PAGE_SIZE <= use_bytes u ∧ p + use_bytes u <= nx;
  sr_apart p u q v : G !! p = Some u → G !! q = Some v → p ≠ q →
    apart (p, use_bytes u) (q, use_bytes v);
  sr_rings : rings (m_nodes (mem a)) L;
  sr_cache k c : 0 <= k → node_caches a !! Z.to_nat k = Some c → c ≠ 0 →
    G !! c = Some (CacheUse k) ∧ cache_ok (mem a) L k c;
  sr_cache_of c k : G !! c = Some (CacheUse k) →
    0 <= k < MAX_CLASSES ∧ node_caches a !! Z.to_nat k = Some c;
  sr_heads h : is_Some (L !! h) → ∃ c k, G !! c = Some (CacheUse k) ∧ head_of c h;
  sr_memb x h : memb L x h ↔ ∃ u, G !! x = Some (SlabUse u) ∧ su_head u = h;
  sr_slab s u : G !! s = Some (SlabUse u) →
    slab_ok (mem a) s u ∧ ∃ c, G !! c = Some (CacheUse (su_class u)) ∧ place_ok c u;
  sr_large p n l : G !! p = Some (LargeUse n (Some l)) → large_layout n l;
  sr_caches c v : m_caches (mem a) !! c = Some v → ∃ k, G !! c = Some (CacheUse k);
  sr_slabs s v : m_slabs (mem a) !! s = Some v → ∃ u, G !! s = Some (SlabUse u);
}.

(** The blocks [live] are allocated. *)
Definition slab_inv (a : SlabAllocator) (live : list block) : Prop :=
  ∃ G L nx, slab_rep a G L nx ∧ heap_blocks G ≡ₚ live.

Section facts.
Context (Hlo : 0 < lo) (a : SlabAllocator) (G : heap_map) (L : family) (nx : Z).
Context (R : slab_rep a G L nx).

Lemma rep_fresh p : nx <= p → G !! p = None.
Proof.
  move=> Hp. case E: (G !! p) => [u|//]. destruct (sr_in _ _ _ _ R p u E) as (_ & _ & H1 & H2).
  rw /PAGE_SIZE in H1. lia.
Qed.

(** A page that is used for one thing is not inside another. *)
Lemma rep_page_eq p u q v x :
  G !! p = Some u → G !! q = Some v → p <= x < p + use_bytes u → q <= x < q + use_bytes v → p = q.
Proof.
  move=> Ep Eq H1 H2. destruct (decide (p = q)) as [->|Hne]; [done|].
  have := sr_apart _ _ _ _ R p u q v Ep Eq Hne. rw /apart /=. lia.
Qed.

Lemma head_of_bounds c h : head_of c h → c <= h < c + PAGE_SIZE.
Proof. rw /head_of /PARTIAL /FREE /PAGE_SIZE. lia. Qed.

(** The nodes of the lists lie in the pages in use. *)
Lemma rep_node_bound h l x : L !! h = Some l → x ∈ h :: l → x < nx.
Proof.
  move=> E /elem_of_cons [->|Hx].
  - destruct (sr_heads _ _ _ _ R h) as (c & k & Ec & Hh); [by eexists|].
    destruct (sr_in _ _ _ _ R c _ Ec) as (_ & _ & _ & H). have := head_of_bounds c h Hh. cbn in H. lia.
  - destruct (proj1 (sr_memb _ _ _ _ R x h)) as (u & Eu & _); [by exists l|].
    destruct (sr_in _ _ _ _ R x _ Eu) as (_ & _ & H1 & H). rw /PAGE_SIZE /= in H1 H. lia.
Qed.

Lemma rep_outside e : nx <= e → outside L e.
Proof. move=> He h l E Hx. have := rep_node_bound h l e E Hx. lia. Qed.

(** The sentinels of a cache. *)
Lemma rep_head c k h : G !! c = Some (CacheUse k) → head_of c h → ∃ l, L !! h = Some l.
Proof.
  move=> Ec Hh. destruct (sr_cache_of _ _ _ _ R c k Ec) as [Hk En].
  destruct (sr_in _ _ _ _ R c _ Ec) as (_ & ? & _).
  destruct (sr_cache _ _ _ _ R k c) as [_ C]; [lia|done|lia|]. exact (co_heads _ _ _ _ C h Hh).
Qed.

Lemma rep_cache c k : G !! c = Some (CacheUse k) →
  ∃ nm, m_caches (mem a) !! c = Some (mkCache (class_size k) (class_num k) nm).
Proof.
  move=> Ec. destruct (sr_cache_of _ _ _ _ R c k Ec) as [Hk En].
  destruct (sr_in _ _ _ _ R c _ Ec) as (_ & ? & _).
  destruct (sr_cache _ _ _ _ R k c) as [_ C]; [lia|done|lia|]. exact (co_cache _ _ _ _ C).
Qed.

(** A class has one cache. *)
Lemma rep_cache_unique c c' k :
  G !! c = Some (CacheUse k) → G !! c' = Some (CacheUse k) → c = c'.
Proof.
  move=> /(sr_cache_of _ _ _ _ R) [_ E] /(sr_cache_of _ _ _ _ R) [_ E']. rw E in E'. by injection E'.
Qed.

(** A live block lies in the pages it belongs to. *)
Lemma rep_block p u b : G !! p = Some u → b ∈ use_blocks (p, u) →
  inside p (p + use_bytes u) (extent b) ∧ b.1 mod align b.2 = 0.
Proof.
  move=> E Hb. destruct (sr_in _ _ _ _ R p u E) as (Hm & _).
  case: u E Hb => [k|u|n [l|]] E Hb; [by apply elem_of_nil in Hb| | |by apply elem_of_nil in Hb].
  - destruct (sr_slab _ _ _ _ R p u E) as [S _]. destruct (slab_block_ok _ _ _ _ S Hm Hb) as ([H1 H2] & H3 & _).
    destruct (class_layout _ (so_class _ _ _ S)) as (Hn & _ & _ & _ & Ho & _).
    split; [|done]. rw /SLAB_SIZE /BUFCTL_SIZE in Ho. split; cbn [use_bytes]; lia.
  - apply list_elem_of_singleton in Hb as ->. have [Hs Ha] := sr_large _ _ _ _ R p n l E.
    split; [rw /inside /=; lia|]. cbn. apply Z.mod_divide; [by move: Ha => /[swap] -> /Z.divide_0_l|].
    etransitivity; [exact Ha|]. by apply Z.mod_divide.
Qed.
End facts.

(** ** Live blocks are disjoint *)

Lemma ForallOrdPairs_NoDup {A} (P : A → A → Prop) xs :
  NoDup xs → (∀ x y, x ∈ xs → y ∈ xs → x ≠ y → P x y) → ForallOrdPairs P xs.
Proof.
  elim: xs => [|x xs IH]; [by constructor|]. move=> /NoDup_cons [Hx Hn] HP. constructor.
  - apply Forall_forall => y Hy. apply HP; [by left|by right|]. by move=> ?; subst y.
  - apply IH; [done|]. move=> y z ???. apply HP; [by right|by right|done].
Qed.

Lemma pairwise_apart_bind {A} (f : A → list block) xs :
  (∀ x, x ∈ xs → pairwise_apart (extent <$> f x)) →
  ForallOrdPairs (λ x y, ∀ b b', b ∈ f x → b' ∈ f y → apart (extent b) (extent b')) xs →
  pairwise_apart (extent <$> (xs ≫= f)).
Proof.
  elim: xs => [|x xs IH] Hf Hp /=; [constructor|]. inversion_clear Hp as [|?? Hx Hxs].
  rw fmap_app pairwise_apart_app. split; [apply Hf; by left|].
  split; [apply IH; [move=> y ?; apply Hf; by right|done]|].
  apply Forall_fmap, Forall_forall => b Hb. apply Forall_fmap, Forall_forall => b' Hb'.
  apply list_elem_of_bind in Hb' as [y [Hb' Hy]]. exact (proj1 (Forall_forall _ _) Hx y Hy b b' Hb Hb').
Qed.

Lemma slab_blocks_apart m s u : slab_ok m s u → pairwise_apart (extent <$> use_blocks (s, SlabUse u)).
Proof.
  move=> S. rw /use_blocks /=.
  have -> : ((λ il : Z * Layout, (object s (su_class u) il.1, il.2)) <$> map_to_list (su_used u)) =
    map_to_list (su_used u) ≫= λ il, [(object s (su_class u) il.1, il.2)].
  { elim: (map_to_list _) => [|il ils IH] //=. }
  apply pairwise_apart_bind; [by move=> *; repeat constructor|].
  apply ForallOrdPairs_NoDup; [apply NoDup_map_to_list|].
  move=> [i l] [j l'] /elem_of_map_to_list Ei /elem_of_map_to_list Ej Hne b b'.
  move=> /list_elem_of_singleton -> /list_elem_of_singleton ->.
  have Hij : i ≠ j by move=> ?; subst j; rw Ei in Ej; injection Ej as <-.
  destruct (so_used _ _ _ S i l Ei) as [_ Hl]. destruct (so_used _ _ _ S j l' Ej) as [_ Hl'].
  have := object_apart s (su_class u) i j (so_class _ _ _ S) Hij.
  have := small_layout_size _ _ Hl. have := small_layout_size _ _ Hl'. rw /apart /=. lia.
Qed.

Lemma rep_blocks_apart a G L nx : slab_rep a G L nx → pairwise_apart (extent <$> heap_blocks G).
Proof.
  move=> R. apply pairwise_apart_bind.
  - move=> [p u] /elem_of_map_to_list E. case: u E => [k|u|n [l|]] E; [constructor| |by repeat constructor|constructor].
    eapply slab_blocks_apart, R, E.
  - apply ForallOrdPairs_NoDup; [apply NoDup_map_to_list|].
    move=> [p u] [q v] /elem_of_map_to_list Ep /elem_of_map_to_list Eq Hne b b' Hb Hb'.
    have Hpq : p ≠ q by move=> ?; subst q; rw Ep in Eq; injection Eq as <-.
    have [[? ?] _] := rep_block a G L nx R p u b Ep Hb. have [[? ?] _] := rep_block a G L nx R q v b' Eq Hb'.
    have := sr_apart _ _ _ _ R p u q v Ep Eq Hpq. rw /apart. cbn in *. lia.
Qed.

(** All live blocks are aligned and in the heap. *)
Lemma rep_block_ok a G L nx b : slab_rep a G L nx → b ∈ heap_blocks G → block_ok lo hi b.
Proof.
  move=> R /elem_of_heap_blocks [p [u [E Hb]]]. have [[? ?] ?] := rep_block a G L nx R p u b E Hb.
  have ? := sr_in _ _ _ _ R p u E. have ? := sr_next _ _ _ _ R. split; [done|]. rw /inside. lia.
Qed.

(** ** Changes of the representation *)

(** One slab changes: its header, its table and the list it is in. *)
Lemma rep_update a G L nx s u u' L' m' :
  slab_rep a G L nx → G !! s = Some (SlabUse u) → su_class u' = su_class u →
  (∃ c, G !! c = Some (CacheUse (su_class u)) ∧ place_ok c u') →
  slab_ok m' s u' → rings (m_nodes m') L' → m_caches m' = m_caches (mem a) →
  (∀ t, t ≠ s → m_slabs m' !! t = m_slabs (mem a) !! t) →
  (∀ x, ¬ (s <= x < s + PAGE_SIZE) → m_bufctls m' !! x = m_bufctls (mem a) !! x) →
  (∀ h, is_Some (L' !! h) ↔ is_Some (L !! h)) →
  (∀ x h, memb L' x h ↔ x = s ∧ h = su_head u' ∨ x ≠ s ∧ memb L x h) →
  slab_rep (mkSlabAllocator (page_alloc a) (node_caches a) m') (<[s := SlabUse u']> G) L' nx.
Proof.
  move=> R Es Ek [c [Ec Hpl]] S HR HC HS HB HL HM.
  have Hin : ∀ p v, <[s := SlabUse u']> G !! p = Some v → ∃ w, G !! p = Some w ∧ use_bytes v = use_bytes w.
  { move=> p v. destruct (decide (p = s)) as [->|]; [rw lookup_insert_eq => -[<-]; by eexists|].
    rw lookup_insert_ne // => E. by exists v. }
  have Hcache : ∀ d k, <[s := SlabUse u']> G !! d = Some (CacheUse k) ↔ G !! d = Some (CacheUse k).
  { move=> d k. destruct (decide (d = s)) as [->|]; [by rw lookup_insert_eq Es|by rw lookup_insert_ne]. }
  destruct R. split; cbn [page_alloc node_caches mem]; try done.
  - move=> p v /Hin [w [/sr_in0 H ->]]. exact H.
  - move=> p v q w /Hin [v' [Ep ->]] /Hin [w' [Eq ->]]. by apply sr_apart0.
  - move=> k d Hk En Hd. destruct (sr_cache0 k d Hk En Hd) as [Eg [C1 C2]].
    split; [by apply Hcache|]. split; [by rw HC|]. move=> h /C2. by rw HL.
  - move=> d k /Hcache. apply sr_cache_of0.
  - move=> h. rw HL => /sr_heads0 [d [k [Ed Hh]]]. exists d, k. split; [by apply Hcache|done].
  - move=> x h. rw HM sr_memb0. destruct (decide (x = s)) as [->|Hx].
    + rw lookup_insert_eq. naive_solver.
    + rw lookup_insert_ne //. naive_solver.
  - move=> t v. destruct (decide (t = s)) as [->|Ht].
    + rw lookup_insert_eq => -[<-]. split; [done|]. exists c. rw Ek. split; [by apply Hcache|done].
    + rw lookup_insert_ne // => Et. destruct (sr_slab0 t v Et) as [S' [d [Ed Hp]]]. split.
      * eapply slab_ok_frame; [by apply HS| |exact S']. move=> x Hx. apply HB.
        have Ha := sr_apart0 t _ s _ Et Es Ht. rw /apart /= in Ha. lia.
      * exists d. split; [by apply Hcache|done].
  - move=> p n l. destruct (decide (p = s)) as [->|]; [by rw lookup_insert_eq|].
    rw lookup_insert_ne //. apply sr_large0.
  - move=> d v. rw HC => /sr_caches0 [k Ed]. exists k. by apply Hcache.
  - move=> t v. destruct (decide (t = s)) as [->|Ht]; [by rw lookup_insert_eq; eexists|].
    rw HS // => /sr_slabs0. by rw lookup_insert_ne.
Qed.

(** What the pages from [nx] on are used for after they were handed out: the
    changes that the use [v] makes to the caches, the slabs and the lists. *)
Record extension (a a' : SlabAllocator) (G : heap_map) (L L' : family) (nx : Z) (v : page_use) : Prop := {
  ex_pages : page_alloc a' = Some (mkPages (nx + use_bytes v) hi);
  ex_bytes : PAGE_SIZE <= use_bytes v ∧ use_bytes v mod PAGE_SIZE = 0 ∧ nx + use_bytes v <= hi;
  ex_length : length (node_caches a') = Z.to_nat MAX_CLASSES;
  ex_rings : rings (m_nodes (mem a')) L';
  ex_cache k c : 0 <= k → node_caches a' !! Z.to_nat k = Some c → c ≠ 0 →
    c = nx ∧ v = CacheUse k ∧ cache_ok (mem a') L' k nx ∨ node_caches a !! Z.to_nat k = Some c;
  ex_kept k c : node_caches a !! Z.to_nat k = Some c → c ≠ 0 →
    node_caches a' !! Z.to_nat k = Some c;
  ex_new k : v = CacheUse k → 0 <= k < MAX_CLASSES ∧ node_caches a' !! Z.to_nat k = Some nx;
  ex_heads h : is_Some (L' !! h) ↔ is_Some (L !! h) ∨ head_of nx h ∧ ∃ k, v = CacheUse k;
  ex_memb x h : memb L' x h ↔ x = nx ∧ (∃ u, v = SlabUse u ∧ su_head u = h) ∨ memb L x h;
  ex_slab u : v = SlabUse u →
    slab_ok (mem a') nx u ∧ ∃ c, G !! c = Some (CacheUse (su_class u)) ∧ place_ok c u;
  ex_large n l : v = LargeUse n (Some l) → large_layout n l;
  ex_caches c : c ≠ nx → m_caches (mem a') !! c = m_caches (mem a) !! c;
  ex_slabs s : s ≠ nx → m_slabs (mem a') !! s = m_slabs (mem a) !! s;
  ex_bufctls x : x < nx → m_bufctls (mem a') !! x = m_bufctls (mem a) !! x;
  ex_caches_new c : m_caches (mem a') !! nx = Some c → ∃ k, v = CacheUse k;
  ex_slabs_new s : m_slabs (mem a') !! nx = Some s → ∃ u, v = SlabUse u;
}.

Lemma rep_extend a a' G L L' nx v : 0 < lo →
  slab_rep a G L nx → extension a a' G L L' nx v →
  slab_rep a' (<[nx := v]> G) L' (nx + use_bytes v).
Proof.
  move=> Hlo R [X1 X2 X3 X4 X5 X6 X7 X8 X9 X10 X11 X12 X13 X14 X15 X16].
  have Hfr := rep_fresh a G L nx R nx ltac:(lia).
  have Hnew : ∀ p u, G !! p = Some u → p ≠ nx by move=> p u E ?; subst p; rw Hfr in E.
  have Hkeep : ∀ p u, G !! p = Some u → <[nx := v]> G !! p = Some u.
  { move=> p u E. rw lookup_insert_ne //. by apply not_eq_sym, (Hnew p u). }
  have HP : PAGE_SIZE = 4096 by []. destruct R. destruct sr_next0 as [Hm Hb]. split; try done.
  - split; [|lia]. rw Z.add_mod ?Hm; [by rw /PAGE_SIZE|]. by rw (proj1 (proj2 X2)).
  - move=> p u /lookup_insert_Some [[<- <-]|[_ /sr_in0 H]]; lia.
  - move=> p u q w /lookup_insert_Some [[<- <-]|[Hp Ep]] /lookup_insert_Some [[<- <-]|[Hq Eq]] Hne //.
    + right. cbn. by destruct (sr_in0 q w Eq) as (_ & _ & _ & ?).
    + left. cbn. by destruct (sr_in0 p u Ep) as (_ & _ & _ & ?).
    + by apply sr_apart0.
  - move=> k c Hk En Hc. destruct (X5 k c Hk En Hc) as [(-> & -> & C)|Eo]; [by rw lookup_insert_eq|].
    destruct (sr_cache0 k c Hk Eo Hc) as [Eg [C1 C2]]. split; [by apply Hkeep|]. split.
    + rw X12 //. by apply (Hnew c _ Eg).
    + move=> h /C2. rw X8. tauto.
  - move=> c k /lookup_insert_Some [[<- Ev]|[_ Eg]]; [by apply X7|].
    destruct (sr_cache_of0 c k Eg) as [Hk En]. split; [done|]. apply X6; [done|].
    destruct (sr_in0 c _ Eg) as (_ & ? & _). lia.
  - move=> h. rw X8 => -[/sr_heads0 [c [k [Ec Hh]]]|[Hh [k Ev]]].
    + exists c, k. split; [by apply Hkeep|done].
    + exists nx, k. by rw lookup_insert_eq Ev.
  - move=> x h. rw X9 sr_memb0. split.
    + move=> [[-> [u [-> <-]]]|[u [Eu <-]]]; exists u; [by rw lookup_insert_eq|].
      split; [by apply Hkeep|done].
    + move=> [u [/lookup_insert_Some [[<- ->]|[_ Eu]] <-]]; [left|right; by exists u].
      split; [done|]. by exists u.
  - move=> s u /lookup_insert_Some [[<- Ev]|[_ Es]].
    + destruct (X10 u Ev) as [S [c [Ec Hp]]]. split; [done|]. exists c. split; [by apply Hkeep|done].
    + destruct (sr_slab0 s u Es) as [S [c [Ec Hp]]]. split; [|exists c; split; [by apply Hkeep|done]].
      eapply slab_ok_frame; [|move=> x Hx|exact S]; [by apply X13, (Hnew s _ Es)|].
      apply X14. destruct (sr_in0 s _ Es) as (_ & _ & _ & H). cbn in H. lia.
  - move=> p n l /lookup_insert_Some [[_ Ev]|[_ Ep]]; [by apply X11|by eapply sr_large0].
  - move=> c w. destruct (decide (c = nx)) as [->|Hc].
    + move=> /X15 [k ->]. exists k. by rw lookup_insert_eq.
    + rw X12 // => /sr_caches0 [k Ec]. exists k. by apply Hkeep.
  - move=> s w. destruct (decide (s = nx)) as [->|Hc].
    + move=> /X16 [u ->]. exists u. by rw lookup_insert_eq.
    + rw X13 // => /sr_slabs0 [u Ec]. exists u. by apply Hkeep.
Qed.

(** What a step on the slab [s] may change before the slab moves. *)
Record slab_step (a : SlabAllocator) (s : Z) (m : memory) : Prop := {
  ss_nodes : m_nodes m = m_nodes (mem a);
  ss_caches : m_caches m = m_caches (mem a);
  ss_slabs t : t ≠ s → m_slabs m !! t = m_slabs (mem a) !! t;
  ss_bufctls x : ¬ (s <= x < s + PAGE_SIZE) → m_bufctls m !! x = m_bufctls (mem a) !! x;
}.

(** The slab stays in its list. *)
Lemma rep_stay a G L nx s u u' c m :
  slab_rep a G L nx → G !! s = Some (SlabUse u) → su_class u' = su_class u →
  su_head u' = su_head u → G !! c = Some (CacheUse (su_class u)) → place_ok c u' →
  slab_step a s m → slab_ok m s u' →
  slab_rep (mkSlabAllocator (page_alloc a) (node_caches a) m) (<[s := SlabUse u']> G) L nx.
Proof.
  move=> R Es Ek Eh Ec Hp [H1 H2 H3 H4] S. eapply rep_update; try done.
  - by exists c.
  - rw H1. apply R.
  - move=> x h. rw Eh !(sr_memb _ _ _ _ R). destruct (decide (x = s)) as [->|]; [|naive_solver].
    rw Es. naive_solver.
Qed.

(** The slab moves to another list of its cache. *)
Lemma rep_move a G L nx s u u' c m : 0 < lo →
  slab_rep a G L nx → G !! s = Some (SlabUse u) → su_class u' = su_class u →
  su_head u ≠ su_head u' → G !! c = Some (CacheUse (su_class u)) →
  head_of c (su_head u') → place_ok c u' → slab_step a s m → slab_ok m s u' →
  ∃ n L', move_slab s (su_head u') m = Done (set_nodes n m)
    ∧ slab_rep (mkSlabAllocator (page_alloc a) (node_caches a) (set_nodes n m))
        (<[s := SlabUse u']> G) L' nx.
Proof.
  move=> Hlo R Es Ek Hne Ec Hh Hp [H1 H2 H3 H4] S.
  destruct (proj2 (sr_memb _ _ _ _ R s (su_head u))) as (l & El & Hl); [by exists u|].
  apply list_elem_of_split in Hl as (l1 & l2 & ->).
  destruct (rep_head Hlo a G L nx R c _ _ Ec Hh) as [l' El'].
  destruct (rings_move _ L _ l1 s l2 _ l' (sr_rings _ _ _ _ R) El El' Hne) as (n & En & Rn & _).
  eexists n, _. split.
  - rw /move_slab H1. destruct (list_del s (m_nodes (mem a))) as [n1| |]; [|done..].
    move: En. rw !bind_Done => ->. done.
  - eapply rep_update; try done.
    + by exists c.
    + by apply (slab_ok_frame m).
    + move=> h. rw (is_Some_insert_same _ _ l'); [by rw lookup_insert_ne|]. by eapply is_Some_insert_same.
    + move=> x h. apply (memb_move _ _ _ l1 s l2 _ l' x h (sr_rings _ _ _ _ R) El El' Hne).
Qed.

(** A large block is forgotten; its pages stay in use. *)
Lemma rep_forget a G L nx p n l : slab_rep a G L nx → G !! p = Some (LargeUse n (Some l)) →
  slab_rep a (<[p := LargeUse n None]> G) L nx.
Proof.
  move=> R Ep. have Hsame : ∀ q v, (∀ n l, v ≠ LargeUse n l) →
    <[p := LargeUse n None]> G !! q = Some v ↔ G !! q = Some v.
  { move=> q v Hv. destruct (decide (q = p)) as [->|]; [|by rw lookup_insert_ne].
    rw lookup_insert_eq Ep. split; move=> [?]; by subst v; edestruct Hv. }
  have Hin : ∀ q v, <[p := LargeUse n None]> G !! q = Some v → ∃ w, G !! q = Some w ∧ use_bytes v = use_bytes w.
  { move=> q v. destruct (decide (q = p)) as [->|]; [rw lookup_insert_eq => -[<-]; by eexists|].
    rw lookup_insert_ne // => E. by exists v. }
  destruct R. split; try done.
  - move=> q v /Hin [w [/sr_in0 H ->]]. exact H.
  - move=> q v r w /Hin [v' [Eq ->]] /Hin [w' [Er ->]]. by apply sr_apart0.
  - move=> k c ???. rw Hsame //. by apply sr_cache0.
  - move=> c k. rw Hsame //. by apply sr_cache_of0.
  - move=> h /sr_heads0 [c [k [Ec Hh]]]. exists c, k. by rw Hsame.
  - move=> x h. rw sr_memb0. split; move=> [u [Eu ?]]; exists u; by rw Hsame // in Eu |- *.
  - move=> s u. rw Hsame // => /sr_slab0 [S [c [Ec Hp]]]. split; [done|]. exists c. by rw Hsame.
  - move=> q n0 l0. destruct (decide (q = p)) as [->|]; [by rw lookup_insert_eq|].
    rw lookup_insert_ne //. apply sr_large0.
  - move=> c v /sr_caches0 [k Ek]. exists k. by rw Hsame.
  - move=> s v /sr_slabs0 [u Eu]. exists u. by rw Hsame.
Qed.
End rep.
