(* ===== verification/SlabSpec.v ===== *)
(** * The slab allocator: correctness

    For the sizes that fit the cache they are mapped to and alignments up to 8
    (up to a page for large blocks) the slab allocator keeps the contract of
    [GlobalAlloc], except that it panics when it needs a page for its own use
    and the heap has none left.  Requests outside of these bounds break it:
    two live blocks can overlap, and the alignment of a layout is never read. *)

From S2P Require Import Prelude Machine Str Alloc DList Rings Slab SlabRep.

Lemma page_size_eq : PAGE_SIZE = 4096.
Proof. done. Qed.

Section operations.
Context `{Profile} `{!VirtAddr} `{!VirtAddrOk} (lo hi : Z) (Hlo : 0 < lo) (Hhi : hi + 4096 < 2 ^ 47).

(** ** Pages *)

Lemma alloc_pages_ok n nx : 0 <= n → 0 <= nx → nx + n * PAGE_SIZE < 2 ^ 47 →
  alloc_pages n (mkPages nx hi) = Done
    (if nx + n * PAGE_SIZE >? hi then (mkPages nx hi, None)
     else (mkPages (nx + n * PAGE_SIZE) hi, Some nx)).
Proof.
  rw page_size_eq => ???. rw /alloc_pages page_size_eq (arith_ok 64 (n * 4096)); [lia|].
  rw bind_Done /virt_add arith_ok /=; [lia|]. rw virt_new_low; [lia|]. cbn. by case: (_ >? _).
Qed.

(** One page for a cache or a slab. *)
Lemma one_page_ok a G L nx : slab_rep lo hi a G L nx →
  alloc_pages 1 (mkPages nx hi) =
    Done (if nx + PAGE_SIZE >? hi then (mkPages nx hi, None) else (mkPages (nx + PAGE_SIZE) hi, Some nx)).
Proof.
  move=> R. destruct (sr_next _ _ _ _ _ _ R) as [_ ?].
  rw alloc_pages_ok ?page_size_eq; [lia..|done].
Qed.

(** ** Caches *)

Lemma write_cache_ok p c m L :
  rings (m_nodes m) L → (∀ e, p <= e → outside L e) →
  ∃ n, write_cache p c m = Done (mkMemory n (<[p := c]> (m_caches m)) (m_slabs m) (m_bufctls m))
    ∧ rings n (<[p + FREE := []]> (<[p + PARTIAL := []]> (<[p := []]> L))).
Proof.
  move=> R Ho. rw /write_cache. set n0 := (<[p := ListNode_new]> _).
  have R0 : rings n0 L by do 3 (apply rings_fresh; [|apply Ho; rw /PARTIAL /FREE; lia]).
  have D0 : ∀ h, head_of p h → is_Some (n0 !! h).
  { move=> h Hh. rw /n0. destruct (decide (h = p)) as [->|]; [by rw lookup_insert_eq; eexists|].
    apply grows_insert. destruct (decide (h = p + PARTIAL)) as [->|]; [by rw lookup_insert_eq; eexists|].
    apply grows_insert. have -> : h = p + FREE by rw /head_of in Hh; tauto. rw lookup_insert_eq. by eexists. }
  destruct (rings_init n0 L p R0) as (n1 & -> & R1 & G1); [apply D0; by left|apply Ho; lia|]. rw bind_Done.
  destruct (rings_init n1 _ (p + PARTIAL) R1) as (n2 & -> & R2 & G2).
  { apply G1, D0. by right; left. }
  { apply outside_insert; [apply Ho; rw /PARTIAL; lia|]. rw list_elem_of_singleton /PARTIAL. lia. }
  rw bind_Done. destruct (rings_init n2 _ (p + FREE) R2) as (n3 & -> & R3 & _).
  { apply G2, G1, D0. by right; right. }
  { do 2 (apply outside_insert; [|rw list_elem_of_singleton /PARTIAL /FREE; lia]). apply Ho. rw /FREE. lia. }
  by exists n3.
Qed.

(** The lists of a new cache. *)
Lemma new_heads p (L : family) h :
  is_Some (<[p + FREE := []]> (<[p + PARTIAL := []]> (<[p := []]> L)) !! h) ↔
    is_Some (L !! h) ∨ head_of p h.
Proof.
  rw /head_of !lookup_insert_is_Some.
  destruct (decide (h = p)), (decide (h = p + PARTIAL)), (decide (h = p + FREE)); naive_solver.
Qed.

Lemma new_memb p (L : family) x h : (∀ e, p <= e → outside L e) →
  memb (<[p + FREE := []]> (<[p + PARTIAL := []]> (<[p := []]> L))) x h ↔ memb L x h.
Proof.
  move=> Ho. have Hnone : ∀ e, p <= e → L !! e = None.
  { move=> e He. case E: (L !! e) => [l|//]. destruct (Ho e He e l E). by left. }
  rw /memb. destruct (decide (head_of p h)) as [Hh|Hh].
  - rw Hnone; [rw /head_of /PARTIAL /FREE in Hh; lia|]. split; [|by move=> [? []]].
    move=> [l [El Hx]]. exfalso. move: El. rw !lookup_insert_Some => El.
    have El' : l = [] by have E := Hnone h ltac:(rw /head_of /PARTIAL /FREE in Hh; lia); naive_solver.
    subst l. by apply elem_of_nil in Hx.
  - rw /head_of in Hh. rw !lookup_insert_ne //; naive_solver.
Qed.

Lemma class_name k : 0 <= k < MAX_CLASSES → ∃ nm, index CACHE_NAMES k = Done nm.
Proof. move=> Hk. destruct (index_Done CACHE_NAMES k) as (nm & _ & E); [exact Hk|by exists nm]. Qed.

(** Some slab of the class has a free object. *)
Definition has_room (G : heap_map) (k : Z) : Prop :=
  ∃ s u, G !! s = Some (SlabUse u) ∧ su_class u = k ∧ su_frees u ≠ [].

(** A slab of the class with these free objects. *)
Definition slab_at (G : heap_map) (k s : Z) (fs : list Z) : Prop :=
  ∃ u, G !! s = Some (SlabUse u) ∧ su_class u = k ∧ su_frees u = fs.

(** The slabs other than [s] are the same. *)
Definition others (G G' : heap_map) (s : Z) : Prop :=
  ∀ t u, t ≠ s → G' !! t = Some (SlabUse u) ↔ G !! t = Some (SlabUse u).

Lemma others_insert G s v : others G (<[s := v]> G) s.
Proof. move=> t u ?. by rw lookup_insert_ne. Qed.

(** A cache that exists is found. *)
Lemma find_cache a G L nx sz c : slab_rep lo hi a G L nx → 0 < sz <= MAX_SLAB_SIZE →
  G !! c = Some (CacheUse (class_of sz)) → get_or_create_cache sz a = Done (a, c).
Proof.
  move=> R Hsz Ec. have Hk := class_of_bounds sz Hsz. destruct (class_name _ Hk) as [nm En].
  destruct (sr_cache_of _ _ _ _ _ _ R c _ Ec) as [_ Ei]. destruct (sr_in _ _ _ _ _ _ R c _ Ec) as (_ & ? & _).
  rw /get_or_create_cache -/(class_of sz). ztrue. change (zlen CACHE_NAMES) with MAX_CLASSES. ztrue.
  rw En bind_Done (index_ok _ _ c); [lia|done|]. rw bind_Done. by ztrue.
Qed.

(** A cache is found or created; creating it takes a page. *)
Lemma get_or_create_cache_ok a G L nx sz : slab_rep lo hi a G L nx → regular sz →
  (hi < nx + PAGE_SIZE ∧ ¬ has_room G (class_of sz)) ∧ get_or_create_cache sz a = Panic (Explicit "OOM Cache")
  ∨ ∃ a' G' L' nx' c, get_or_create_cache sz a = Done (a', c) ∧ slab_rep lo hi a' G' L' nx'
      ∧ G' !! c = Some (CacheUse (class_of sz)) ∧ heap_blocks G' ≡ₚ heap_blocks G
      ∧ nx' <= nx + PAGE_SIZE ∧ (has_room G (class_of sz) → G' = G ∧ nx' = nx)
      ∧ ∀ t u, G' !! t = Some (SlabUse u) ↔ G !! t = Some (SlabUse u).
Proof.
  move=> R Hr. have [Hsz Hfit] := Hr. have Hk := class_of_bounds sz Hsz.
  destruct (lookup_lt_is_Some_2 (node_caches a) (Z.to_nat (class_of sz))) as [c Ec].
  { rw (sr_length _ _ _ _ _ _ R). lia. }
  destruct (decide (c = 0)) as [->|Hc]; last first.
  { destruct (sr_cache _ _ _ _ _ _ R _ c (proj1 Hk) Ec Hc) as [Eg _]. right. exists a, G, L, nx, c.
    rw (find_cache a G L nx sz c R Hsz Eg). rw page_size_eq. split_and!; try done. lia. }
  have Hno : ¬ has_room G (class_of sz).
  { move=> [s [u [Es [Ek _]]]]. destruct (sr_slab _ _ _ _ _ _ R s u Es) as [_ [d [Ed _]]]. rw Ek in Ed.
    destruct (sr_cache_of _ _ _ _ _ _ R d _ Ed) as [_ Ed']. rw Ec in Ed'. injection Ed' as <-.
    destruct (sr_in _ _ _ _ _ _ R 0 _ Ed) as (_ & ? & _). lia. }
  destruct (class_name _ Hk) as [nm En]. have Hnx := sr_next _ _ _ _ _ _ R.
  rw /get_or_create_cache -/(class_of sz). ztrue. change (zlen CACHE_NAMES) with MAX_CLASSES. ztrue.
  rw En bind_Done (index_ok _ _ 0); [lia|done|]. cbn [Z.eqb].
  rw bind_Done (sr_pages _ _ _ _ _ _ R) /= (one_page_ok a G L nx R) bind_Done.
  destruct (Z.gtb_spec (nx + PAGE_SIZE) hi) as [?|?]; [left; split; [split; [lia|done]|done]|right]. cbn [snd fst expect].
  rw bind_Done. have Ho := rep_outside lo hi a G L nx R.
  destruct (write_cache_ok nx (mkCache (next_power_of_two (Z.max sz 8))
    ((PAGE_SIZE - SLAB_SIZE) / (next_power_of_two (Z.max sz 8) + BUFCTL_SIZE)) nm) (mem a) L
    (sr_rings _ _ _ _ _ _ R) Ho) as (n & -> & Rn).
  rw regular_object // in Rn |- *. rw bind_Done /set_index /zlen (sr_length _ _ _ _ _ _ R).
  change (Z.of_nat (Z.to_nat MAX_CLASSES)) with MAX_CLASSES. ztrue. rw bind_Done.
  eexists _, (<[nx := CacheUse (class_of sz)]> G), _, (nx + PAGE_SIZE), nx. split; [done|].
  have Hfr := rep_fresh lo hi a G L nx R nx ltac:(lia).
  split; [|split; [by rw lookup_insert_eq|split; [by rw heap_blocks_fresh|split; [lia|split; [done|]]]]].
  2: { move=> t u. destruct (decide (t = nx)) as [->|]; [by rw lookup_insert_eq Hfr|by rw lookup_insert_ne]. }
  apply (rep_extend lo hi a _ G L _ nx (CacheUse (class_of sz)) Hlo R).
  have Hl9 : (Z.to_nat (class_of sz) < length (node_caches a))%nat by rw (sr_length _ _ _ _ _ _ R); lia.
  split; cbn [page_alloc node_caches mem m_nodes m_caches m_slabs m_bufctls use_bytes]; try done.
  - by rw length_insert; apply (sr_length _ _ _ _ _ _ R).
  - move=> k c Hk0 Eck Hc. destruct (decide (Z.to_nat k = Z.to_nat (class_of sz))) as [Ek|Hne].
    + rw Ek list_lookup_insert_eq // in Eck. injection Eck as <-. left.
      have -> : k = class_of sz by lia. split; [done|]. split; [done|]. split.
      * exists nm. by rw /= lookup_insert_eq.
      * move=> h Hh. apply new_heads. by right.
    + right. by rw list_lookup_insert_ne // in Eck.
  - move=> k c Eck Hc. rw list_lookup_insert_ne //. move=> Ek. rw -Ek Ec in Eck. congruence.
  - move=> k [<-]. split; [done|]. by rw list_lookup_insert_eq.
  - move=> h. rw new_heads. naive_solver.
  - move=> x h. rw new_memb //. naive_solver.
  - move=> c Hc. by rw lookup_insert_ne.
  - move=> c _. by eexists.
  - move=> s E. destruct (sr_slabs _ _ _ _ _ _ R nx s E) as [u Eu]. by rw Hfr in Eu.
Qed.

(** ** New slabs *)

(** The table of free indices. *)
Lemma fill_bufctls_ok k i n p m :
  let m' := fill_bufctls k i n p m in
  m_nodes m' = m_nodes m ∧ m_caches m' = m_caches m ∧ m_slabs m' = m_slabs m
  ∧ (∀ j, i <= j < i + Z.of_nat k → m_bufctls m' !! (p + BUFCTL_SIZE * j) =
       Some (if j + 1 =? n then BUFCTL_END else as_u32 (j + 1)))
  ∧ (∀ x, (∀ j, i <= j < i + Z.of_nat k → x ≠ p + BUFCTL_SIZE * j) →
       m_bufctls m' !! x = m_bufctls m !! x).
Proof.
  elim: k i m => [|k IH] i m; cbn [fill_bufctls]; [split_and!; try done; lia|].
  set m1 := set_bufctl _ _ _. destruct (IH (i + 1) m1) as (-> & -> & -> & Hin & Hout).
  split_and!; try done.
  - move=> j Hj. destruct (decide (j = i)) as [->|]; [|apply Hin; lia].
    rw Hout; [rw /BUFCTL_SIZE; lia|]. by rw /m1 /= lookup_insert_eq.
  - move=> x Hx. rw Hout; [move=> j Hj; apply Hx; lia|]. rw /m1 /= lookup_insert_ne //.
    apply not_eq_sym, Hx. lia.
Qed.

Lemma fresh_chain B s n : 0 <= n < 2 ^ 32 →
  (∀ j, 0 <= j < n → B !! entry_addr s j = Some (if j + 1 =? n then BUFCTL_END else as_u32 (j + 1))) →
  free_chain B s (seqZ 0 n).
Proof.
  move=> Hn HB. suff Hd : ∀ d i, 0 <= i → i + Z.of_nat d = n → free_chain B s (seqZ i (Z.of_nat d)).
  { have := Hd (Z.to_nat n) 0 ltac:(lia) ltac:(lia). rw Z2Nat.id //. lia. }
  elim=> [|d IH] i Hi Hd //. rw seqZ_cons; [lia|]. have -> : Z.pred (Z.of_nat (S d)) = Z.of_nat d by lia.
  split; [|apply IH; lia]. rw HB; [lia|]. f_equal. case_test.
  - by have -> : d = 0%nat by lia.
  - rw seqZ_cons; [lia|]. rw /as_u32 Z.mod_small; [lia|]. rw /first_index /=. lia.
Qed.

Lemma object_start_ok s k : 0 <= k < MAX_CLASSES → s mod PAGE_SIZE = 0 → 0 <= s < 2 ^ 47 →
  object_start (s + SLAB_SIZE) (class_num k * BUFCTL_SIZE) = Done (s + class_off k).
Proof.
  move=> Hk Hs ?. destruct (class_layout k Hk) as (Hn & _).
  have [q Eq] : (8 | s) by apply (Z.divide_trans _ PAGE_SIZE); [by exists 512|by apply Z.mod_divide].
  rw /object_start /SLAB_SIZE /BUFCTL_SIZE. do 3 (rw arith_ok; [lia|]; rw bind_Done).
  have -> : Z.lnot 7 = Z.lnot (2 ^ 3 - 1) by []. rw land_lnot_ones // /class_off /SLAB_SIZE /BUFCTL_SIZE.
  f_equal. change (2 ^ 3) with 8. rw Eq.
  have -> : q * 8 + 40 + class_num k * 4 + 8 - 1 = 40 + class_num k * 4 + 7 + q * 8 by lia.
  rw Z.div_add; [lia|]. lia.
Qed.

(** A slab of class [k] with all its objects free, in the list of [h]. *)
Definition empty_slab (k h : Z) : slab_use := mkSlabUse k h (seqZ 0 (class_num k)) ∅.

Lemma empty_slab_ok m s k h : 0 <= k < MAX_CLASSES →
  m_slabs m !! s = Some (mkSlab (s + class_off k) 0 0) →
  (∀ j, 0 <= j < class_num k → m_bufctls m !! entry_addr s j =
     Some (if j + 1 =? class_num k then BUFCTL_END else as_u32 (j + 1))) →
  slab_ok m s (empty_slab k h).
Proof.
  move=> Hk Es Eb. destruct (class_layout k Hk) as (Hn & _).
  split; cbn [su_class su_frees su_used empty_slab]; [done| | |apply NoDup_seqZ|..].
  - rw Es map_size_empty seqZ_cons //; lia.
  - apply fresh_chain; [lia|done].
  - move=> i /elem_of_seqZ ?. rw lookup_empty. split; [lia|done].
  - by move=> i l; rw lookup_empty.
  - rw map_size_empty /zlen length_seqZ. lia.
Qed.

Lemma cache_grow_ok a G L nx c k : slab_rep lo hi a G L nx → G !! c = Some (CacheUse k) →
  hi < nx + PAGE_SIZE ∧ cache_grow c a = Panic (Explicit "OOM Slab")
  ∨ ∃ a' l, cache_grow c a = Done a' ∧ L !! (c + FREE) = Some l
      ∧ slab_rep lo hi a' (<[nx := SlabUse (empty_slab k (c + FREE))]> G)
          (<[c + FREE := nx :: l]> L) (nx + PAGE_SIZE).
Proof.
  move=> R Ec. have [Hnx Hb] := sr_next _ _ _ _ _ _ R.
  have Hk := proj1 (sr_cache_of _ _ _ _ _ _ R c k Ec). have Ho := rep_outside lo hi a G L nx R.
  have Hcn : c ≠ nx. { move=> ?; subst c. by rw (rep_fresh lo hi a G L nx R) // in Ec. }
  destruct (rep_cache lo hi Hlo a G L nx R c k Ec) as [nm Em]. destruct (class_layout k Hk) as (Hn & _).
  destruct (rep_head lo hi Hlo a G L nx R c k (c + FREE) Ec) as [l El]; [by right; right|].
  rw /cache_grow (sr_pages _ _ _ _ _ _ R) /= (one_page_ok a G L nx R) bind_Done.
  destruct (Z.gtb_spec (nx + PAGE_SIZE) hi) as [?|?]; [left; split; [lia|done]|right]. cbn [snd fst expect].
  rw bind_Done arith_ok; [rw /SLAB_SIZE; lia|]. rw bind_Done Em /= arith_ok; [rw /BUFCTL_SIZE; lia|].
  rw bind_Done object_start_ok //; [lia|]. rw bind_Done.
  set m0 := set_slab _ _ _.
  destruct (fill_bufctls_ok (Z.to_nat (class_num k)) 0 (class_num k) (nx + SLAB_SIZE) m0)
    as (-> & Efc & Efs & Hin & Hout). 
  have Hz : Z.of_nat (Z.to_nat (class_num k)) = class_num k by lia. rw Hz in Hin Hout.
  set m1 := fill_bufctls _ _ _ _ _ in Efc Efs Hin Hout |- *.
  destruct (rings_add (m_nodes m0) L (c + FREE) l nx) as (n & -> & Rn & _); [|done| |by apply Ho|].
  { apply rings_fresh; [apply R|by apply Ho]. }
  { rw /m0 /= lookup_insert_eq. by eexists. }
  rw bind_Done. eexists _, l. split; [done|]. split; [done|].
  apply (rep_extend lo hi a _ G L _ nx (SlabUse (empty_slab k (c + FREE))) Hlo R).
  split; cbn [page_alloc node_caches mem set_nodes m_nodes m_caches m_slabs m_bufctls use_bytes]; try done.
  - apply R.
  - by move=> ? ? ? ? ?; right.
  - move=> h. rw (is_Some_insert_same L _ l) //. naive_solver.
  - move=> x h. rw /memb. destruct (decide (h = c + FREE)) as [->|Hh].
    + rw lookup_insert_eq El. split.
      * move=> [l0 [[<-] /elem_of_cons [->|Hx]]]; [left; split; [done|by eexists]|right; by exists l].
      * move=> [[-> _]|[l0 [[<-] Hx]]]; eexists; (split; [done|]); [by left|by right].
    + rw lookup_insert_ne //. split; [by right|]. move=> [[-> [u [[<-] Eu]]]|//]. by cbn in Eu.
  - move=> u [<-]. split; [|exists c; split; [done|by right; right]]. apply empty_slab_ok; [done| |].
    + by rw /= Efs /m0 /= lookup_insert_eq.
    + move=> j Hj. exact (Hin j Hj).
  - move=> d Hd. by rw Efc.
  - move=> s Hs. by rw Efs /m0 /= lookup_insert_ne.
  - move=> x Hx. rw Hout //. move=> j Hj. rw /SLAB_SIZE /BUFCTL_SIZE. lia.
  - rw Efc => v E. destruct (sr_caches _ _ _ _ _ _ R nx v E) as [k' E']. by rw (rep_fresh lo hi a G L nx R) // in E'.
  - move=> s _. by eexists.
Qed.

(** ** Choosing a slab *)

Lemma slab_step_refl a s : slab_step a s (mem a).
Proof. by split. Qed.

(** The slabs in the lists of a cache are of its class. *)
Lemma listed_slab a G L nx c k h s :
  slab_rep lo hi a G L nx → G !! c = Some (CacheUse k) → head_of c h → memb L s h →
  ∃ u, G !! s = Some (SlabUse u) ∧ su_class u = k ∧ su_head u = h ∧ slab_ok (mem a) s u ∧ place_ok c u.
Proof.
  move=> R Ec Hh /(sr_memb _ _ _ _ _ _ R) [u [Es Eh]].
  destruct (sr_slab _ _ _ _ _ _ R s u Es) as [S [d [Ed Hp]]].
  have Hd : head_of d h by rw /place_ok Eh in Hp; rw /head_of; tauto.
  have ? : d = c.
  { eapply (rep_page_eq lo hi a G L nx R d _ c _ h Ed Ec); by apply head_of_bounds. }
  subst d. exists u. rw Ec in Ed. by injection Ed as ->.
Qed.

(** A free slab becomes partial. *)
Lemma take_free a G L nx c k s l :
  slab_rep lo hi a G L nx → G !! c = Some (CacheUse k) → L !! (c + FREE) = Some (s :: l) →
  ∃ u n L', G !! s = Some (SlabUse u) ∧ su_class u = k ∧ su_frees u ≠ [] ∧ su_used u = ∅
    ∧ move_slab s (c + PARTIAL) (mem a) = Done (set_nodes n (mem a))
    ∧ slab_rep lo hi (mkSlabAllocator (page_alloc a) (node_caches a) (set_nodes n (mem a)))
        (<[s := SlabUse (mkSlabUse k (c + PARTIAL) (su_frees u) ∅)]> G) L' nx.
Proof.
  move=> R Ec El. destruct (listed_slab a G L nx c k (c + FREE) s R Ec) as (u & Es & Ek & Eh & S & Hp).
  { by right; right. }
  { exists (s :: l). split; [done|by left]. }
  have Hu : su_used u = ∅.
  { rw /place_ok Eh /PARTIAL /FREE in Hp. by destruct Hp as [[? _]|[[? _]|[_ ?]]]; [lia..|]. }
  have Hf : su_frees u ≠ [].
  { destruct (class_layout _ (so_class _ _ _ S)) as (Hn & _).
    move=> E. have := so_count _ _ _ S. rw E Hu map_size_empty zlen_nil. lia. }
  have S' : slab_ok (mem a) s (mkSlabUse k (c + PARTIAL) (su_frees u) ∅).
  { destruct S as [S1 S2 S3 S4 S5 S6 S7]. rw Ek Hu in S1 S2 S5 S6 S7. by split. }
  destruct (rep_move lo hi a G L nx s u (mkSlabUse k (c + PARTIAL) (su_frees u) ∅) c (mem a) Hlo R Es)
    as (n & L' & Em & R'); cbn [su_class su_head]; try done.
  - rw Eh /FREE /PARTIAL. lia.
  - by rw Ek.
  - by right; left.
  - by right; left.
  - by exists u, n, L'.
Qed.

(** The rest of [choose_slab], in a state with a free slab. *)
Lemma take_free_ok a G L nx c k s l :
  slab_rep lo hi a G L nx → G !! c = Some (CacheUse k) → L !! (c + FREE) = Some (s :: l) →
  ∃ a' G' L' u, (node ← get_next (m_nodes (mem a)) (c + FREE);
      n ← list_del node (m_nodes (mem a)); n ← list_add node (c + PARTIAL) n;
      Done (mkSlabAllocator (page_alloc a) (node_caches a) (set_nodes n (mem a)), node)) = Done (a', s)
    ∧ slab_rep lo hi a' G' L' nx
    ∧ G' !! s = Some (SlabUse u) ∧ su_class u = k ∧ su_head u = c + PARTIAL ∧ su_frees u ≠ []
    ∧ G' !! c = Some (CacheUse k) ∧ heap_blocks G' ≡ₚ heap_blocks G
    ∧ others G G' s ∧ slab_at G k s (su_frees u).
Proof.
  move=> R Ec El. rw (rings_first _ L (c + FREE) s l) //; [apply R|]. rw bind_Done.
  destruct (take_free a G L nx c k s l R Ec El) as (u & n & L' & Es & Ek & Hf & Hu & Em & R').
  move: Em. rw /move_slab. destruct (list_del s _) as [n1| |] => //. rw !bind_Done.
  destruct (list_add s _ n1) as [n2| |] => //. rw !bind_Done => -[En]. rw En.
  eexists _, _, L', _. split; [done|]. split; [exact R'|]. rw lookup_insert_eq.
  split; [done|]. split_and!; try done.
  - rw lookup_insert_ne //. by move=> ?; subst s; rw Es in Ec.
  - rw heap_blocks_update (heap_blocks_delete G s _ Es) /use_blocks /= Hu map_to_list_empty //.
  - apply others_insert.
  - by exists u.
Qed.

(** The slab that is chosen is partial, and no block moves. *)
Lemma choose_slab_ok a G L nx c k : slab_rep lo hi a G L nx → G !! c = Some (CacheUse k) →
  (hi < nx + PAGE_SIZE ∧ ¬ has_room G k) ∧ choose_slab c a = Panic (Explicit "OOM Slab")
  ∨ ∃ a' G' L' nx' s u, choose_slab c a = Done (a', s) ∧ slab_rep lo hi a' G' L' nx'
      ∧ G' !! s = Some (SlabUse u) ∧ su_class u = k ∧ su_head u = c + PARTIAL ∧ su_frees u ≠ []
      ∧ G' !! c = Some (CacheUse k) ∧ heap_blocks G' ≡ₚ heap_blocks G ∧ (has_room G k → nx' = nx)
      ∧ others G G' s ∧ (slab_at G k s (su_frees u) ∨ ¬ has_room G k ∧ su_frees u = seqZ 0 (class_num k)).
Proof.
  move=> R Ec. destruct (rep_head lo hi Hlo a G L nx R c k (c + PARTIAL) Ec) as [lp Ep]; [by right; left|].
  rw /choose_slab (rings_empty_test _ L (c + PARTIAL) lp) //; [apply R|]. rw bind_Done. case: lp Ep => [|s lp] Ep.
  2: { right. rw /= (rings_first _ L (c + PARTIAL) s lp) //; [apply R|].
    destruct (listed_slab a G L nx c k (c + PARTIAL) s R Ec) as (u & Es & Ek & Eh & S & Hp).
    { by right; left. }
    { exists (s :: lp). split; [done|by left]. }
    exists a, G, L, nx, s, u. split_and!; try done; [|by left; exists u].
    rw /place_ok Eh /PARTIAL /FREE in Hp. by destruct Hp as [[? _]|[[_ ?]|[? _]]]; [lia| |lia]. }
  cbn [negb bool_decide]. destruct (rep_head lo hi Hlo a G L nx R c k (c + FREE) Ec) as [lf Ef]; [by right; right|].
  rw (rings_empty_test _ L (c + FREE) lf) //; [apply R|]. rw bind_Done.
  case: lf Ef => [|s lf] Ef; cbn [bool_decide].
  - have Hno : ¬ has_room G k.
    { move=> [s [u [Es [Ek Hf]]]]. destruct (sr_slab _ _ _ _ _ _ R s u Es) as [_ [d [Ed Hp]]]. rw Ek in Ed.
      have Edc := rep_cache_unique lo hi a G L nx R _ _ _ Ed Ec. subst d.
      have Hm : ∀ h, su_head u = h → ∃ l, L !! h = Some l ∧ s ∈ l
        by move=> h Eh; apply (sr_memb _ _ _ _ _ _ R s h); exists u.
      destruct Hp as [[_ ?]|[[Eh _]|[Eh _]]]; [done| |]; destruct (Hm _ Eh) as (l & El & Hin).
      - rw Ep in El. injection El as <-. by apply elem_of_nil in Hin.
      - rw Ef in El. injection El as <-. by apply elem_of_nil in Hin. }
    destruct (cache_grow_ok a G L nx c k R Ec) as [[? E]|(a1 & l & E & _ & R1)]; [by left; rw E|right].
    have Hfr := rep_fresh lo hi a G L nx R nx ltac:(lia).
    destruct (take_free_ok a1 _ _ _ c k nx l R1) as (a' & G' & L' & u & Et & R' & E1 & E2 & E3 & E4 & E5 & E6 & E7 & u0 & Eu0 & _ & E8).
    { rw lookup_insert_ne //. by move=> ?; subst c; rw Hfr in Ec. }
    { by rw lookup_insert_eq. }
    rw E bind_Done Et. eexists a', G', L', _, nx, u. split_and!; try done.
    + rw E6 heap_blocks_fresh //.
    + move=> t v Ht. by rw (E7 t v Ht) lookup_insert_ne.
    + right. rw lookup_insert_eq in Eu0. injection Eu0 as <-. by rw -E8.
  - right. rw bind_Done.
    destruct (take_free_ok a G L nx c k s lf R Ec Ef) as (a' & G' & L' & u & Et & R' & ? & ? & ? & ? & ? & ? & ? & ?).
    rw Et. exists a', G', L', nx, s, u. split_and!; try done. by left.
Qed.

(** ** Taking an object *)

Lemma take_object a G L nx c k s u i fs l :
  slab_rep lo hi a G L nx → G !! c = Some (CacheUse k) → G !! s = Some (SlabUse u) →
  su_class u = k → su_head u = c + PARTIAL → su_frees u = i :: fs → small_layout k l →
  let n := Z.of_nat (base.size (su_used u)) + 1 in
  let m := set_slab s (mkSlab (s + class_off k) (first_index fs) n) (mem a) in
  ∃ m' G' L', (if n =? class_num k then move_slab s c m else Done m) = Done m'
    ∧ slab_rep lo hi (mkSlabAllocator (page_alloc a) (node_caches a) m') G' L' nx
    ∧ heap_blocks G' ≡ₚ (object s k i, l) :: heap_blocks G ∧ others G G' s ∧ slab_at G' k s fs.
Proof.
  move=> R Ec Es Ek Eh Ef Hl n m. destruct (sr_slab _ _ _ _ _ _ R s u Es) as [[S1 S2 S3 S4 S5 S6 S7] _].
  rw Ef Ek in S1 S3 S4 S5 S6 S7. apply NoDup_cons in S4 as [Hi Hfs].
  destruct (S5 i) as [Hin Hiu]; [by left|]. rw zlen_cons in S7.
  set u' := λ h, mkSlabUse k h fs (<[i := l]> (su_used u)).
  have S' : ∀ h, slab_ok m s (u' h).
  { move=> h. split; cbn [su_class su_frees su_used u']; [done| |by apply S3|done|..].
    - rw /m /= lookup_insert_eq map_size_insert_None //. do 2 f_equal. lia.
    - move=> j Hj. destruct (S5 j) as [? ?]; [by right|]. split; [done|].
      rw lookup_insert_ne //. by move=> ?; subst j.
    - move=> j l'. destruct (decide (j = i)) as [->|]; [by rw lookup_insert_eq => -[<-]|].
      rw lookup_insert_ne //. apply S6.
    - rw map_size_insert_None //. lia. }
  have Hst : slab_step a s m.
  { split; [done|done| |done]. move=> t ?. by rw /m /= lookup_insert_ne. }
  have Hb : ∀ h, heap_blocks (<[s := SlabUse (u' h)]> G) ≡ₚ (object s k i, l) :: heap_blocks G.
  { move=> h. rw heap_blocks_update (heap_blocks_delete G s _ Es).
    rw (slab_blocks_insert s k h (su_head u) fs (su_frees u) (su_used u) i l Hiu).
    destruct u as [k0 h0 fs0 us0]. cbn in Ek. by subst k0. }
  case_test.
  - have Hnil : fs = [] by apply zlen_0; lia.
    destruct (rep_move lo hi a G L nx s u (u' c) c m Hlo R Es) as (nn & L' & Em & R'); cbn [su_class su_head u']; try done.
    + rw Eh /PARTIAL. lia.
    + by rw Ek.
    + by left.
    + by left.
    + eexists _, _, L'. split; [exact Em|]. split; [exact R'|].
      split; [apply Hb|]. split; [apply others_insert|by exists (u' c); rw lookup_insert_eq].
  - eexists _, _, L. split; [done|]. split.
    2: { split; [apply (Hb (c + PARTIAL))|]. split; [apply others_insert|]. by exists (u' (c + PARTIAL)); rw lookup_insert_eq. }
    apply (rep_stay lo hi a G L nx s u (u' (c + PARTIAL)) c m R Es); cbn [su_class su_head u']; try done.
    + by rw Ek.
    + right; left. split; [done|]. cbn. move=> E0. rw E0 zlen_nil in S7. lia.
Qed.

(** ** Requests *)

Definition out_of_memory (r : outcome (SlabAllocator * option Z)) : Prop :=
  r = Panic (Explicit "OOM Cache") ∨ r = Panic (Explicit "OOM Slab").

(** A request for a small block. *)
Lemma alloc_small a G L nx l : slab_rep lo hi a G L nx → small_layout (class_of (size l)) l →
  (hi < nx + 2 * PAGE_SIZE ∧ ¬ has_room G (class_of (size l))) ∧ out_of_memory (slab_alloc l a)
  ∨ ∃ a' p G' L' nx', slab_alloc l a = Done (a', Some p) ∧ slab_rep lo hi a' G' L' nx'
      ∧ heap_blocks G' ≡ₚ (p, l) :: heap_blocks G ∧ (has_room G (class_of (size l)) → nx' = nx)
      ∧ ∃ s i fs, p = object s (class_of (size l)) i ∧ slab_at G' (class_of (size l)) s fs ∧ others G G' s
        ∧ (slab_at G (class_of (size l)) s (i :: fs)
           ∨ ¬ has_room G (class_of (size l)) ∧ i :: fs = seqZ 0 (class_num (class_of (size l)))).
Proof.
  move=> R Hl. have [Hr _] := Hl. have [Hsz _] := Hr. rw /slab_alloc.
  have -> : (size l >? MAX_SLAB_SIZE) = false by rw Z.gtb_ltb; apply Z.ltb_ge; lia.
  destruct (get_or_create_cache_ok a G L nx (size l) R Hr)
    as [[[Hfull Hno] E]|(a1 & G1 & L1 & nx1 & c & E & R1 & Ec & Hb1 & Hnx1 & Hroom & Hsame)]; rw E.
  { left. rw page_size_eq in Hfull |- *. split; [split; [lia|done]|by left]. }
  rw bind_Done. destruct (choose_slab_ok a1 G1 L1 nx1 c _ R1 Ec)
    as [[[Hfull Hno] E']|(a2 & G2 & L2 & nx2 & s & u & E' & R2 & Es & Ek & Eh & Hf & Ec2 & Hb2 & Hroom2 & Hoth & Hfrom)]; rw E'.
  { left. rw page_size_eq in Hfull Hnx1 |- *. split; [split; [lia|]|by right].
    move=> Hr'. destruct (Hroom Hr') as [-> _]. by apply Hno. }
  rw bind_Done. destruct (sr_slab _ _ _ _ _ _ R2 s u Es) as [S _]. have Hk := so_class _ _ _ S.
  rw (so_slab _ _ _ S) /=. destruct (rep_cache lo hi Hlo a2 G2 L2 nx2 R2 c _ Ec2) as [nm ->]. rw /=.
  case Ef : (su_frees u) Hf => [|i fs] // _. change (first_index (i :: fs)) with i.
  destruct (so_index _ _ _ S i) as [Hi _]; [rw Ef; by left|]. rw Ek in Hi Hk |- *.
  destruct (class_layout _ Hk) as (Hn & Hc & _). destruct (sr_in _ _ _ _ _ _ R2 s _ Es) as (Hs & ? & _ & Hse).
  have ? := sr_next _ _ _ _ _ _ R2. cbn [use_bytes] in Hse. rw page_size_eq in Hse.
  rw (arith_ok 64 (i * _)); [nia|]. rw bind_Done (arith_ok 64 (s + _)); [rw /SLAB_SIZE; lia|]. rw bind_Done.
  have Hc1 := so_chain _ _ _ S. rw Ef in Hc1. destruct Hc1 as [En _]. rw -/(entry_addr s i) En /=.
  have Hcnt := so_count _ _ _ S. have ? := zlen_nonneg (su_frees u). rw Ek in Hcnt.
  rw arith_ok; [lia|]. rw bind_Done.
  destruct (take_object a2 G2 L2 nx2 c _ s u i fs l R2 Ec2 Es Ek Eh Ef Hl) as (m' & G' & L' & Em & R' & Hb & Hoth' & Hat).
  right. rw /= in Em. rw Em bind_Done. eexists _, _, G', L', nx2. split; [done|]. split; [exact R'|].
  split; [by rw Hb Hb2 Hb1|]. split.
  { move=> Hr'. destruct (Hroom Hr') as [EG ?]. subst nx1 G1. by apply Hroom2. }
  exists s, i, fs. split; [rw /object; lia|]. split; [done|].
  split; [move=> t v Ht; by rw (Hoth' t v Ht) (Hoth t v Ht) Hsame|]. rw Ef in Hfrom.
  destruct Hfrom as [(v & Ev & ? & ?)|[Hno ?]]; [left; exists v; by rw -Hsame|right].
  split; [|done]. move=> [t [v [Ev ?]]]. apply Hno. exists t, v. by rw Hsame.
Qed.

(** ** Giving an object back *)

Lemma used_size (used : gmap Z Layout) i l : used !! i = Some l →
  base.size used = S (base.size (delete i used)).
Proof.
  move=> Ei. rw map_size_delete_Some //. have : base.size used ≠ 0%nat; [|lia].
  move=> /map_size_empty_iff E0. by rw E0 lookup_empty in Ei.
Qed.

(** The slab after its object [i] was put at the front of the free ones. *)
Lemma returned_slab_ok m s u i l h :
  slab_ok m s u → su_used u !! i = Some l →
  slab_ok (set_slab s (mkSlab (s + class_off (su_class u)) i (Z.of_nat (base.size (su_used u)) - 1))
             (set_bufctl (entry_addr s i) (first_index (su_frees u)) m))
    s (mkSlabUse (su_class u) h (i :: su_frees u) (delete i (su_used u))).
Proof.
  move=> [S1 S2 S3 S4 S5 S6 S7] Ei. destruct (S6 i l Ei) as [Hin Hl].
  have Hif : i ∉ su_frees u by move=> /S5 [_]; rw Ei. have Hsz := used_size _ _ _ Ei.
  split; cbn [su_class su_frees su_used]; [done| | |by apply NoDup_cons|..].
  - rw /= lookup_insert_eq Hsz. do 2 f_equal. lia.
  - split; [by rw /= lookup_insert_eq|]. eapply free_chain_frame; [|exact S3]. move=> j Hj.
    rw /= lookup_insert_ne //. rw /entry_addr /BUFCTL_SIZE. move=> ?. have ? : i = j by lia. by subst j.
  - move=> j /elem_of_cons [->|Hj]; [by rw lookup_delete_eq|]. destruct (S5 j Hj) as [? ?].
    split; [done|]. rw lookup_delete_None. by right.
  - move=> j l' /lookup_delete_Some [_ ?]. by apply S6.
  - rw zlen_cons. lia.
Qed.

Lemma put_object a G L nx c k s u i l :
  slab_rep lo hi a G L nx → G !! c = Some (CacheUse k) → G !! s = Some (SlabUse u) →
  su_class u = k → su_used u !! i = Some l →
  let n := Z.of_nat (base.size (su_used u)) in
  let m := set_slab s (mkSlab (s + class_off k) i (n - 1))
             (set_bufctl (entry_addr s i) (first_index (su_frees u)) (mem a)) in
  ∃ m' G' L', (if n =? class_num k then move_slab s (c + PARTIAL) m
               else if n - 1 =? 0 then move_slab s (c + FREE) m else Done m) = Done m'
    ∧ slab_rep lo hi (mkSlabAllocator (page_alloc a) (node_caches a) m') G' L' nx
    ∧ heap_blocks G ≡ₚ (object s k i, l) :: heap_blocks G' ∧ has_room G' k.
Proof.
  move=> R Ec Es Ek Ei n m. destruct (sr_slab _ _ _ _ _ _ R s u Es) as [S [d [Ed Hp]]].
  have Edc : d = c. { rw Ek in Ed. by eapply (rep_cache_unique lo hi a G L nx R). } subst d.
  set u' := λ h, mkSlabUse k h (i :: su_frees u) (delete i (su_used u)).
  have S' : ∀ h, slab_ok m s (u' h) by move=> h; rw /u' /m /n -Ek; apply (returned_slab_ok _ _ _ _ l).
  destruct S as [S1 S2 S3 S4 S5 S6 S7]. rw Ek in S1 S5 S6 S7. destruct (S6 i l Ei) as [Hin Hl].
  have Hsz := used_size _ _ _ Ei.
  have Hst : slab_step a s m.
  { split; [done|done| |].
    - move=> t ?. by rw /m /= lookup_insert_ne.
    - move=> x Hx. rw /m /= lookup_insert_ne //. have := entry_addr_page s k i S1 Hin. by move=> ? ?; subst x. }
  have Hb : ∀ h, heap_blocks G ≡ₚ (object s k i, l) :: heap_blocks (<[s := SlabUse (u' h)]> G).
  { move=> h. rw heap_blocks_update (heap_blocks_delete G s _ Es).
    destruct u as [k0 h0 fs0 us0]. cbn in Ek, Ei. subst k0.
    have Hd : delete i us0 !! i = None by apply lookup_delete_eq.
    have := slab_blocks_insert s k h0 h fs0 (i :: fs0) (delete i us0) i l Hd.
    have -> : <[i := l]> (delete i us0) = us0 by apply insert_delete_id.
    by move=> ->. }
  have Hroom : ∀ h, has_room (<[s := SlabUse (u' h)]> G) k by move=> h; exists s, (u' h); rw lookup_insert_eq.
  have Hne : su_used u ≠ ∅ by move=> E0; rw E0 lookup_empty in Ei.
  case_test; [|case_test].
  - have Hnil : su_frees u = [] by apply zlen_0; lia.
    destruct (rep_move lo hi a G L nx s u (u' (c + PARTIAL)) c m Hlo R Es) as (nn & L' & Em & R');
      cbn [su_class su_head u']; try done.
    + rw /PARTIAL. destruct Hp as [[-> _]|[[_ ?]|[_ ?]]]; [lia|done|done].
    + by right; left.
    + by right; left.
    + eexists _, _, L'. split; [exact Em|]. split; [exact R'|]. by split; [apply Hb|].
  - destruct (rep_move lo hi a G L nx s u (u' (c + FREE)) c m Hlo R Es) as (nn & L' & Em & R');
      cbn [su_class su_head u']; try done.
    + destruct Hp as [[_ E0]|[[-> _]|[_ ?]]]; [rw E0 zlen_nil in S7; lia|rw /PARTIAL /FREE; lia|done].
    + by right; right.
    + right; right. split; [done|]. cbn. apply map_size_empty_inv. lia.
    + eexists _, _, L'. split; [exact Em|]. split; [exact R'|]. by split; [apply Hb|].
  - have Eh : su_head u = c + PARTIAL.
    { destruct Hp as [[_ E0]|[[-> _]|[_ ?]]]; [rw E0 zlen_nil in S7; lia|done|done]. }
    eexists _, _, L. split; [done|]. split; [|by split; [apply (Hb (c + PARTIAL))|]].
    apply (rep_stay lo hi a G L nx s u (u' (c + PARTIAL)) c m R Es); cbn [su_class su_head u']; try done.
    by right; left.
Qed.

(** ** Large blocks *)

Lemma alloc_large a G L nx l : slab_rep lo hi a G L nx → MAX_SLAB_SIZE < size l →
  (align l | PAGE_SIZE) → hi + size l + PAGE_SIZE < 2 ^ 47 →
  ∃ a' r, slab_alloc l a = Done (a', r)
    ∧ match r with
      | None => slab_rep lo hi a' G L nx
      | Some p => ∃ G' L' nx', slab_rep lo hi a' G' L' nx' ∧ heap_blocks G' ≡ₚ (p, l) :: heap_blocks G
      end.
Proof.
  move=> R Hsz Ha Hm. have [Hnx Hb] := sr_next _ _ _ _ _ _ R. rw /slab_alloc.
  have -> : (size l >? MAX_SLAB_SIZE) = true by rw Z.gtb_ltb; apply Z.ltb_lt.
  rw /MAX_SLAB_SIZE in Hsz. rw page_size_eq in Hm Hnx |- *.
  rw arith_ok; [lia|]. rw bind_Done arith_ok; [lia|]. rw bind_Done (sr_pages _ _ _ _ _ _ R).
  have Hd := Z.div_mod (size l + 4096 - 1) 4096 ltac:(lia).
  have Hr := Z.mod_pos_bound (size l + 4096 - 1) 4096 ltac:(lia).
  set n := (size l + 4096 - 1) / 4096 in Hd |- *. cbn [unwrap]. rw bind_Done.
  rw alloc_pages_ok ?page_size_eq; [lia..|]. rw bind_Done. eexists _, _. split; [done|].
  destruct (Z.gtb_spec (nx + n * 4096) hi) as [?|?]; cbn [fst snd].
  { rw -(sr_pages _ _ _ _ _ _ R). clear -R. by destruct a. }
  exists (<[nx := LargeUse n (Some l)]> G), L, (nx + n * 4096).
  have Hfr := rep_fresh lo hi a G L nx R nx ltac:(lia). split; [|by rw heap_blocks_fresh].
  apply (rep_extend lo hi a _ G L L nx (LargeUse n (Some l)) Hlo R).
  split; cbn [page_alloc node_caches mem use_bytes]; rw ?page_size_eq; try done; try apply R.
  - split; [lia|]. split; [by apply Z.mod_mul|lia].
  - by move=> ? ? ? ? ?; right.
  - naive_solver.
  - naive_solver.
  - move=> n0 l0 [<- <-]. split; [|done]. rw page_size_eq /MAX_SLAB_SIZE. lia.
  - move=> c E. destruct (sr_caches _ _ _ _ _ _ R nx c E) as [k Ek]. by rw Hfr in Ek.
  - move=> s E. destruct (sr_slabs _ _ _ _ _ _ R nx s E) as [k Ek]. by rw Hfr in Ek.
Qed.

(** ** Releases *)

Lemma dealloc_ok a live p l : slab_inv lo hi a ((p, l) :: live) →
  ∃ a', slab_dealloc p l a = Done a' ∧ slab_inv lo hi a' live
    ∧ (size l <= MAX_SLAB_SIZE → ∃ G L nx, slab_rep lo hi a' G L nx ∧ heap_blocks G ≡ₚ live
        ∧ has_room G (class_of (size l)))
    ∧ (MAX_SLAB_SIZE < size l → a' = a).
Proof.
  move=> [G [L [nx [R Hb]]]]. have Hin : (p, l) ∈ heap_blocks G by rw Hb; left.
  apply elem_of_heap_blocks in Hin as (s & v & Es & Hv). rw /slab_dealloc.
  destruct (sr_in _ _ _ _ _ _ R s v Es) as (Hs & ? & _ & Hse). have Hnx := sr_next _ _ _ _ _ _ R.
  case: v Es Hv Hse => [k|u|n [l'|]] Es Hv Hse; [by apply elem_of_nil in Hv| | |by apply elem_of_nil in Hv].
  - destruct (sr_slab _ _ _ _ _ _ R s u Es) as [S [c [Ec Hp]]]. have Hk := so_class _ _ _ S.
    apply elem_of_slab_blocks in Hv as (i & l' & Ei & [= Ep El]). subst l'.
    destruct (so_used _ _ _ S i l Ei) as [Hi Hl]. have [[Hsz _] [Hcl _]] := Hl.
    have -> : (size l >? MAX_SLAB_SIZE) = false by rw Z.gtb_ltb; apply Z.ltb_ge; lia.
    destruct (object_page s (su_class u) i Hk Hi Hs) as (Hp1 & Hp2 & Hland & _).
    destruct (class_layout _ Hk) as (Hn & Hc & _). cbn [use_bytes] in Hse. rw page_size_eq in Hse Hp2.
    rw /SLAB_SIZE /BUFCTL_SIZE in Hp1. rw -Ep in Hp1 Hp2 Hland. ztrue.
    rw (find_cache a G L nx (size l) c R Hsz); [by rw Hcl|]. rw bind_Done Hland (so_slab _ _ _ S) /=.
    destruct (rep_cache lo hi Hlo a G L nx R c _ Ec) as [nm ->]. rw /=.
    have Hoff : p - (s + class_off (su_class u)) = i * class_size (su_class u) by rw Ep /object; lia.
    rw Hoff (arith_ok 64 (i * _)); [nia|]. rw bind_Done u_div_ok; [lia|]. rw bind_Done Z.div_mul; [lia|].
    rw (arith_ok 64 (s + _)); [rw /SLAB_SIZE; lia|]. rw bind_Done. have Hcnt := so_count _ _ _ S.
    have ? := zlen_nonneg (su_frees u). set n := Z.of_nat (base.size (su_used u)) in Hcnt |- *.
    have ? : n ≠ 0.
    { rw /n => E0. have E1 : su_used u = ∅ by apply map_size_empty_inv; lia. by rw E1 lookup_empty in Ei. }
    rw (arith_ok 64 (n - 1)); [lia|]. rw bind_Done (arith_ok 64 (n - 1 + 1)); [lia|]. rw bind_Done.
    have -> : n - 1 + 1 = n by lia. rw /as_u32 Z.mod_small; [lia|].
    destruct (put_object a G L nx c _ s u i l R Ec Es eq_refl Ei) as (m' & G' & L' & Em & R' & Hb' & Hroom).
    rw -/n -/(entry_addr s i) /= in Em |- *. rw Em bind_Done. eexists. split; [done|].
    have Hb2 : heap_blocks G' ≡ₚ live by apply (Permutation_cons_inv (a := (p, l))); rw -Hb Hb' -Ep.
    split; [by exists G', L', nx|]. split; [|lia]. move=> _. exists G', L', nx. by rw Hcl.
  - apply list_elem_of_singleton in Hv as [= Ep El]. subst p l'.
    have [[Hsz _] _] := sr_large _ _ _ _ _ _ R s n l Es.
    have -> : (size l >? MAX_SLAB_SIZE) = true by rw Z.gtb_ltb; apply Z.ltb_lt.
    exists a. split; [done|]. split; [|by split; [lia|]].
    exists (<[s := LargeUse n None]> G), L, nx. split; [by eapply rep_forget|].
    rw heap_blocks_update /=. apply (Permutation_cons_inv (a := (s, l))). by rw -Hb (heap_blocks_delete G s _ Es).
Qed.

(** ** The contract *)

(** The layouts that the allocator serves correctly. *)
Definition slab_accepts (l : Layout) : Prop :=
  (size l <= MAX_SLAB_SIZE → regular (size l) ∧ align l <= 8)
  ∧ (MAX_SLAB_SIZE < size l → align l <= PAGE_SIZE ∧ hi + size l + PAGE_SIZE < 2 ^ 47).

Lemma accepts_small l : layout_ok l → slab_accepts l → size l <= MAX_SLAB_SIZE →
  small_layout (class_of (size l)) l.
Proof.
  move=> [Ha _ _] [Hs _] Hsz. destruct (Hs Hsz) as [Hr H8]. split; [done|].
  split; [done|]. apply power_of_two_divide; [done|by exists 3|done].
Qed.

(** A request is answered unless a page for the allocator itself is missing. *)
Lemma slab_alloc_spec a live l : slab_inv lo hi a live → layout_ok l → slab_accepts l →
  (∃ pa, page_alloc a = Some pa ∧ pg_end pa < pg_next pa + 2 * PAGE_SIZE) ∧ out_of_memory (slab_alloc l a)
  ∨ ∃ a' r, slab_alloc l a = Done (a', r)
      ∧ match r with
        | None => slab_inv lo hi a' live
        | Some p => slab_inv lo hi a' ((p, l) :: live)
        end ∧ (size l <= MAX_SLAB_SIZE → is_Some r).
Proof.
  move=> [G [L [nx [R Hb]]]] Hl Hacc. destruct (decide (size l <= MAX_SLAB_SIZE)) as [Hsz|Hsz].
  - destruct (alloc_small a G L nx l R (accepts_small l Hl Hacc Hsz))
      as [[[Hfull _] Ho]|(a' & p & G' & L' & nx' & E & R' & Hb' & _)].
    + left. split; [|done]. exists (mkPages nx hi). by split; [apply R|].
    + right. exists a', (Some p). split; [done|]. split; [|by eexists]. exists G', L', nx'. by rw Hb' Hb.
  - destruct Hacc as [_ Hacc]. destruct Hacc as [Hal Hm]; [lia|].
    destruct (alloc_large a G L nx l R) as (a' & r & E & Hr); [lia| |done|].
    { apply power_of_two_divide; [apply Hl|by exists 12|done]. }
    right. exists a', r. split; [done|]. split; [|lia]. case: r E Hr => [p|] E Hr; [|by exists G, L, nx].
    destruct Hr as (G' & L' & nx' & R' & Hb'). exists G', L', nx'. by rw Hb' Hb.
Qed.

Lemma slab_inv_client a live : slab_inv lo hi a live →
  Forall (block_ok lo hi) live ∧ pairwise_apart (extent <$> live).
Proof.
  move=> [G [L [nx [R Hb]]]]. split.
  - apply Forall_forall => b. rw -Hb. by eapply rep_block_ok.
  - rw -Hb. by eapply rep_blocks_apart.
Qed.

#[export] Instance slab_safe : AllocatorSafe SlabAllocator lo hi.
Proof.
  unshelve refine {| inv := slab_inv lo hi; accepts := slab_accepts |}.
  - move=> a live l a' r Hi Hl Ha E. cbn [alloc slab_allocator] in E.
    destruct (slab_alloc_spec a live l Hi Hl Ha) as [[_ [Ho|Ho]]|(a1 & r1 & E1 & Hr & _)]; [by rw E in Ho..|].
    rw E in E1. injection E1 as <- <-. case: r E Hr => [p|] // E Hi'. split; [done|].
    destruct (slab_inv_client a' _ Hi') as [Hbl Hp]. apply Forall_cons in Hbl as [[? ?] _].
    split; [done|]. split; [done|]. rw fmap_cons in Hp. apply pairwise_apart_cons in Hp as [Hp _].
    exact (proj1 (Forall_fmap _ _ _) Hp).
  - move=> a live p l Hi. destruct (dealloc_ok a live p l Hi) as (a' & ? & ? & _). by exists a'.
  - move=> a live live' E [G [L [nx [R Hb]]]]. exists G, L, nx. by rw -E.
Defined.

(** An object that was freed serves the next request of its class, without a
    new page. *)
Lemma slab_reuse a live p l l' : slab_inv lo hi a ((p, l) :: live) →
  ∃ a', slab_dealloc p l a = Done a' ∧ (MAX_SLAB_SIZE < size l → a' = a)
    ∧ (layout_ok l' → slab_accepts l' → size l <= MAX_SLAB_SIZE → size l' <= MAX_SLAB_SIZE →
       class_of (size l') = class_of (size l) →
       ∃ a2 q, slab_alloc l' a' = Done (a2, Some q) ∧ page_alloc a2 = page_alloc a').
Proof.
  move=> Hi. destruct (dealloc_ok a live p l Hi) as (a' & E & _ & Hs & Hbig). exists a'. do 2 (split; [done|]).
  move=> Hl Ha Hsz Hsz' Ek. destruct (Hs Hsz) as (G & L & nx & R & _ & Hroom). rw -Ek in Hroom.
  destruct (alloc_small a' G L nx l' R (accepts_small l' Hl Ha Hsz'))
    as [[[_ Hno] _]|(a2 & q & G2 & L2 & nx2 & E2 & R2 & _ & Hnx & _)]; [done|].
  exists a2, q. split; [done|]. by rw (sr_pages _ _ _ _ _ _ R) (sr_pages _ _ _ _ _ _ R2) (Hnx Hroom).
Qed.

(** What the allocator keeps in the heap for itself: the page of a cache, and
    the header and the table of a slab. *)
Definition metadata_apart (a : SlabAllocator) (b : block) : Prop :=
  (∀ c v, m_caches (mem a) !! c = Some v → apart (c, PAGE_SIZE) (extent b))
  ∧ (∀ s v, m_slabs (mem a) !! s = Some v → apart (s, s_mem v - s) (extent b)).

Lemma slab_metadata a live : slab_inv lo hi a live → Forall (metadata_apart a) live.
Proof.
  move=> [G [L [nx [R Hb]]]]. apply Forall_forall => b. rw -Hb => /elem_of_heap_blocks [p [u [Ep Hin]]].
  have Hb' := rep_block lo hi a G L nx R p u b Ep Hin. destruct Hb' as [[Hb1 Hb2] _].
  split.
  - move=> c v /(sr_caches _ _ _ _ _ _ R) [k Ec].
    have Hne : c ≠ p. { move=> ?; subst c. rw Ec in Ep. injection Ep as <-. by apply elem_of_nil in Hin. }
    have := sr_apart _ _ _ _ _ _ R c _ p u Ec Ep Hne. rw /apart /=. cbn in Hb1, Hb2. lia.
  - move=> s v Ev. destruct (sr_slabs _ _ _ _ _ _ R s v Ev) as [w Es].
    destruct (sr_slab _ _ _ _ _ _ R s w Es) as [S _]. rw (so_slab _ _ _ S) in Ev. injection Ev as <-.
    destruct (class_layout _ (so_class _ _ _ S)) as (Hn & Hc & _ & _ & Hlo1 & Hhi1). cbn [s_mem].
    destruct (decide (s = p)) as [->|Hne].
    + rw Es in Ep. injection Ep as <-.
      destruct (slab_block_ok _ _ _ _ S (proj1 (sr_in _ _ _ _ _ _ R p _ Es)) Hin) as ([? _] & _).
      left. cbn in *. lia.
    + have := sr_apart _ _ _ _ _ _ R s _ p u Es Ep Hne. rw /apart /=. cbn in Hb1, Hb2. nia.
Qed.
End operations.

Section theorems.
Context `{Profile} `{!VirtAddr} `{!VirtAddrOk}.

Lemma slab_init_rep lo heap_size a0 :
  0 < lo → lo mod PAGE_SIZE = 0 → 0 <= heap_size → lo + heap_size + 4096 < 2 ^ 47 →
  slab_init lo heap_size slab_new = Done a0 → slab_rep lo (lo + heap_size) a0 ∅ ∅ lo.
Proof.
  move=> ????. rw /slab_init virt_new_low; [lia|]. rw bind_Done arith_ok; [lia|].
  rw bind_Done virt_new_low; [lia|]. rw bind_Done => -[<-].
  have Hnull : ∀ k c, replicate (Z.to_nat MAX_CLASSES) 0 !! k = Some c → c = 0
    by move=> k c Hk; apply lookup_replicate in Hk as [-> _].
  split; cbn [page_alloc node_caches mem slab_new m_nodes m_caches m_slabs m_bufctls]; try done.
  - split; [done|lia].
  - by move=> k c _ /Hnull ->.
  - by move=> h; rw lookup_empty => -[].
  - move=> x h. rw /memb. split; [move=> [l [E _]]|move=> [u [E _]]]; by rw lookup_empty in E.
Qed.

Lemma slab_init_ok lo heap_size a0 :
  0 < lo → lo mod PAGE_SIZE = 0 → 0 <= heap_size → lo + heap_size + 4096 < 2 ^ 47 →
  slab_init lo heap_size slab_new = Done a0 → slab_inv lo (lo + heap_size) a0 [].
Proof. move=> ?????. exists ∅, ∅, lo. by split; [apply slab_init_rep|]. Qed.


(** ** Requests that break the allocator *)

(** Two ranges, as start and length, that share bytes. *)
Definition overlap (r s : Z * Z) : Prop := ∃ x, r.1 <= x < r.1 + r.2 ∧ s.1 <= x < s.1 + s.2.

(** Irregular sizes are served by caches with at least three objects. *)
Lemma irregular_num : ∀ z, 0 < z <= MAX_SLAB_SIZE → regular z ∨ 3 <= class_num (class_of z).
Proof. check_sizes. Qed.

(** The only slab of a class with a free object is the one that is used. *)
Lemma alloc_sole lo hi a G L nx l s i fs :
  0 < lo → hi + 4096 < 2 ^ 47 → slab_rep lo hi a G L nx → small_layout (class_of (size l)) l →
  slab_at G (class_of (size l)) s (i :: fs) →
  (∀ t u, G !! t = Some (SlabUse u) → t = s) →
  ∃ a' G' L', slab_alloc l a = Done (a', Some (object s (class_of (size l)) i)) ∧ slab_rep lo hi a' G' L' nx
    ∧ slab_at G' (class_of (size l)) s fs ∧ ∀ t u, G' !! t = Some (SlabUse u) → t = s.
Proof.
  move=> Hlo Hhi R Hl [u [Eu [Ek Ef]]] Hsole.
  have Hroom : has_room G (class_of (size l)) by exists s, u; rw Ef.
  destruct (alloc_small lo hi Hlo Hhi a G L nx l R Hl) as
    [[[_ Hno] _]|(a' & p & G' & L' & nx' & E & R' & _ & Hnx & t & j & gs & Ep & Hat & Hoth & Hfrom)]; [done|].
  destruct Hfrom as [(v & Ev & _ & Efv)|[Hno _]]; [|done].
  have ? := Hsole t v Ev. subst t. rw Eu in Ev. injection Ev as <-. rw Ef in Efv. injection Efv as <- <-.
  rw (Hnx Hroom) in R'. exists a', G', L'. rw -Ep. split_and!; try done.
  move=> t v Ev. destruct (decide (t = s)) as [|Hne]; [done|]. apply (Hsole t v). by rw -(Hoth t v Hne).
Qed.

(** When the cache exists only the class of a size matters. *)
Lemma alloc_same_class lo hi a G L nx l l' s fs :
  slab_rep lo hi a G L nx → 0 < lo → 0 < size l <= MAX_SLAB_SIZE → 0 < size l' <= MAX_SLAB_SIZE →
  class_of (size l') = class_of (size l) → slab_at G (class_of (size l)) s fs → slab_alloc l' a = slab_alloc l a.
Proof.
  move=> R Hlo Hl Hl' Ek [u [Eu [Eku _]]].
  destruct (sr_slab _ _ _ _ _ _ R s u Eu) as [_ [c [Ec _]]]. rw Eku in Ec.
  have Hn : ∀ z, z <= MAX_SLAB_SIZE → (z >? MAX_SLAB_SIZE) = false by move=> z ?; rw Z.gtb_ltb; apply Z.ltb_ge.
  rw /slab_alloc !Hn; [lia..|]. rw (find_cache lo hi Hlo a G L nx _ c R Hl Ec) (find_cache lo hi Hlo a G L nx _ c R Hl') //.
  by rw Ek.
Qed.

(** C34: The slab allocator hands out overlapping blocks when sizes that are not
    powers of two are mixed with others.  On every heap of at least two pages,
    for every size that has a cache of objects of its own size or more, and
    every size that is mapped to the same cache but does not fit its objects:
    the three requests for the first, the second and the first size again are
    all answered, and the second block overlaps the third. *)
Theorem slab_irregular_overlap lo heap_size a0 l0 l1 :
  0 < lo → lo mod PAGE_SIZE = 0 → 2 * PAGE_SIZE <= heap_size → lo + heap_size + 4096 < 2 ^ 47 →
  slab_init lo heap_size slab_new = Done a0 →
  regular (size l0) → (align l0 | 8) →
  0 < size l1 <= MAX_SLAB_SIZE → ¬ regular (size l1) → class_of (size l1) = class_of (size l0) →
  ∃ a1 a2 a3 p q r, slab_alloc l0 a0 = Done (a1, Some p) ∧ slab_alloc l1 a1 = Done (a2, Some q)
    ∧ slab_alloc l0 a2 = Done (a3, Some r) ∧ overlap (q, size l1) (r, size l0).
Proof.
  move=> Hlo Hm Hs Hhi E Hr0 Ha0 Hz1 Hirr Ek. have [Hz0 _] := Hr0.
  have R0 := slab_init_rep lo heap_size a0 Hlo Hm ltac:(rw page_size_eq in Hs; lia) Hhi E.
  have Hl0 : small_layout (class_of (size l0)) l0 by [].
  destruct (irregular_num (size l1) Hz1) as [?|Hn]; [done|]. rw Ek in Hn.
  destruct (alloc_small lo _ Hlo Hhi a0 ∅ ∅ lo l0 R0 Hl0) as
    [[[Hfull _] _]|(a1 & p & G1 & L1 & nx1 & E1 & R1 & _ & _ & s & i & fs & _ & Hat & Hoth & Hfrom)]; [lia|].
  destruct Hfrom as [(u & Eu & _)|[_ Efs]]; [by rw lookup_empty in Eu|].
  have Hsole : ∀ t u, G1 !! t = Some (SlabUse u) → t = s.
  { move=> t u Et. destruct (decide (t = s)) as [|Hne]; [done|]. apply (Hoth t u Hne) in Et. by rw lookup_empty in Et. }
  have Ef : fs = 1 :: 2 :: seqZ 3 (class_num (class_of (size l0)) - 3).
  { rw seqZ_cons in Efs; [lia|]. rw (seqZ_cons (Z.succ 0)) in Efs; [lia|].
    rw (seqZ_cons (Z.succ (Z.succ 0))) in Efs; [lia|]. injection Efs as _ ->. do 3 f_equal. lia. }
  rw Ef in Hat. have Hsame := alloc_same_class lo _ a1 G1 L1 nx1 l0 l1 s _ R1 Hlo Hz0 Hz1 Ek Hat.
  destruct (alloc_sole lo _ a1 G1 L1 nx1 l0 s 1 _ Hlo Hhi R1 Hl0 Hat Hsole) as (a2 & G2 & L2 & E2 & R2 & Hat2 & Hsole2).
  destruct (alloc_sole lo _ a2 G2 L2 nx1 l0 s 2 _ Hlo Hhi R2 Hl0 Hat2 Hsole2) as (a3 & _ & _ & E3 & _).
  exists a1, a2, a3, p, (object s (class_of (size l0)) 1), (object s (class_of (size l0)) 2).
  split; [done|]. split; [by rw Hsame|]. split; [done|].
  have : class_size (class_of (size l0)) < size l1.
  { apply Z.nle_gt => Hle. apply Hirr. split; [done|]. by rw Ek. }
  have : 0 < class_size (class_of (size l0)).
  { destruct (class_layout _ (class_of_bounds _ Hz0)) as (_ & Hc & _). lia. }
  move=> ??. exists (object s (class_of (size l0)) 2). rw /object /=. lia.
Qed.
End theorems.
