(* ===== verification/Memory.v ===== *)
(** * Physical frames and the kernel heap

    Models [BootInfoFrameAllocator] and [EmptyFrameAllocator] of
    [src/src/memory.rs], and the global allocator and [init_heap] of
    [src/src/allocator.rs].  The memory map of the bootloader and the page tables belong to other crates: their
    types and operations are parameters, and what the kernel relies on is
    stated as type classes. *)

From S2P Require Import Prelude Machine Str Alloc DList Slab.

(** ** Frame allocators *)

(** The trait [FrameAllocator] of the paging crate. *)
Class FrameAllocator (A Frame : Type) := allocate_frame : A → outcome (A * option Frame).

(** What a frame allocator promises: [supply a] are the frames it still has, in
    the order in which it hands them out; [ready n a] says that [n] more calls
    are safe. *)
Class FrameSupply (A Frame : Type) `{FrameAllocator A Frame} := {
  supply : A → list Frame;
  ready : nat → A → Prop;
  allocate_supply n a : ready (S n) a →
    ∃ a', allocate_frame a = Done (a', head (supply a)) ∧ supply a' = tail (supply a) ∧ ready n a';
}.

(** [EmptyFrameAllocator] *)
Record EmptyFrameAllocator := mkEmpty {}.

#[export] Instance empty_allocate_frame {Frame} : FrameAllocator EmptyFrameAllocator Frame :=
  λ a, Done (a, None).

#[export, program] Instance empty_supply {Frame} : FrameSupply EmptyFrameAllocator Frame := {
  supply _ := [];
  ready _ _ := True;
}.
Next Obligation. move=> Frame n a _. by exists a. Qed.

(** ** The frames of the memory map *)

(** The regions of the bootloader's memory map. *)
Class MemoryRegions (Region : Type) := {
  RegionType : Type;
  #[global] region_type_eq_dec :: EqDecision RegionType;
  Usable : RegionType;
  region_type : Region → RegionType;
  start_addr : Region → Z;
  end_addr : Region → Z;
}.

(** The frame that contains a physical address: [PhysFrame::containing_address]
    of [PhysAddr::new]. *)
Class PhysFrames (Frame : Type) := containing_frame : Z → outcome Frame.

Record BootInfoFrameAllocator (Region : Type) := mkBootInfo { memory_map : list Region; fa_next : Z }.
Arguments mkBootInfo {Region} memory_map fa_next.
Arguments memory_map {Region} b.
Arguments fa_next {Region} b.

(** [(lo..hi).step_by(4096)] *)
Definition step_by (lo hi : Z) : list Z := (λ i, lo + 4096 * i) <$> seqZ 0 ((hi - lo + 4095) / 4096).

Section frames.
Context `{Profile} `{MemoryRegions Region} `{PhysFrames Frame}.

(** [BootInfoFrameAllocator::init] *)
Definition frames_init (map : list Region) : BootInfoFrameAllocator Region := mkBootInfo map 0.

(** The addresses that [usable_frame] turns into frames. *)
Definition usable_addresses (map : list Region) : list Z :=
  filter (λ r, region_type r = Usable) map ≫= λ r, step_by (start_addr r) (end_addr r).

(** [Iterator::nth] on the frames: those before the [n]-th are computed too. *)
Fixpoint usable_frame_nth (addrs : list Z) (n : nat) : outcome (option Frame) :=
  match addrs with
  | [] => Done None
  | x :: addrs =>
      f ← containing_frame x;
      match n with
      | O => Done (Some f)
      | S n => usable_frame_nth addrs n
      end
  end.

#[export] Instance boot_allocate_frame : FrameAllocator (BootInfoFrameAllocator Region) Frame := λ a,
  frame ← usable_frame_nth (usable_addresses (memory_map a)) (Z.to_nat (fa_next a));
  nx ← usize_add (fa_next a) 1;
  Done (mkBootInfo (memory_map a) nx, frame).

(** The frames of a memory map. *)
Context (frame_at : Z → Frame).

Definition usable_frames (map : list Region) : list Frame := frame_at <$> usable_addresses map.

(** The addresses of the map are physical addresses. *)
Definition map_ok (map : list Region) : Prop :=
  ∀ x, x ∈ usable_addresses map → containing_frame x = Done (frame_at x).

Lemma usable_frame_nth_ok addrs n :
  (∀ x, x ∈ addrs → containing_frame x = Done (frame_at x)) →
  usable_frame_nth addrs n = Done ((frame_at <$> addrs) !! n).
Proof.
  elim: addrs n => [|x addrs IH] n Hx //=. rw Hx; [by left|]. rw bind_Done.
  case: n => [|n] //=. apply IH. move=> y ?. apply Hx. by right.
Qed.

Lemma tail_drop {A} n (l : list A) : tail (drop n l) = drop (S n) l.
Proof. elim: n l => [|n IH] [|x l] //=. Qed.

#[export, program] Instance boot_supply : FrameSupply (BootInfoFrameAllocator Region) Frame := {
  supply a := drop (Z.to_nat (fa_next a)) (usable_frames (memory_map a));
  ready n a := 0 <= fa_next a ∧ fa_next a + Z.of_nat n < 2 ^ 64 ∧ map_ok (memory_map a);
}.
Next Obligation.
  move=> n a [? [? ?]]. rw /allocate_frame /boot_allocate_frame usable_frame_nth_ok // bind_Done.
  rw arith_ok; [lia|]. rw bind_Done. eexists. split; [by rw head_lookup lookup_drop Nat.add_0_r|].
  cbn [fa_next memory_map]. split; [|split; [lia|split; [lia|done]]].
  rw tail_drop. f_equal. lia.
Qed.

(** ** Distinct frames *)

(** The regions of a memory map: whole pages, none of which is in two regions. *)
Definition region_range (r : Region) : Z * Z := (start_addr r, end_addr r - start_addr r).

Record disjoint_regions (map : list Region) : Prop := {
  dr_aligned r : r ∈ map → start_addr r mod 4096 = 0 ∧ end_addr r mod 4096 = 0 ∧ 0 <= start_addr r <= end_addr r;
  dr_apart : pairwise_apart (region_range <$> map);
}.

Lemma elem_of_step_by lo hi x : x ∈ step_by lo hi ↔ ∃ i, 0 <= i ∧ x = lo + 4096 * i ∧ x < hi.
Proof.
  rw /step_by list_elem_of_fmap. split.
  - move=> [i [-> /elem_of_seqZ Hi]]. exists i. split; [lia|]. split; [done|].
    have := Z.mul_div_le (hi - lo + 4095) 4096. lia.
  - move=> [i [Hi [-> Hx]]]. exists i. split; [done|]. apply elem_of_seqZ. split; [lia|].
    have : i + 1 <= (hi - lo + 4095) / 4096; [|lia]. apply Z.div_le_lower_bound; lia.
Qed.

(** Every usable page is listed once. *)
Lemma usable_addresses_NoDup map : disjoint_regions map → NoDup (usable_addresses map).
Proof.
  move=> [Ha Hp]. rw /usable_addresses. elim: map Ha Hp => [|r map IH] Ha Hp; [constructor|].
  rw fmap_cons in Hp. apply pairwise_apart_cons in Hp as [Hr Hp].
  have Hrest : NoDup (filter (λ r, region_type r = Usable) map ≫= λ r, step_by (start_addr r) (end_addr r)).
  { apply IH; [|done]. move=> r' ?. apply Ha. by right. }
  destruct (decide (region_type r = Usable)) as [Hu|Hu]; [|by rw filter_cons_False].
  rw filter_cons_True // bind_cons. apply NoDup_app. split; [|split; [|done]].
  - apply NoDup_fmap_2; [|apply NoDup_seqZ]. move=> i j ?. lia.
  - move=> x /elem_of_step_by [i [Hi [Ex Hx]]] /list_elem_of_bind [r' [/elem_of_step_by [j [Hj [Ey Hy]]] Hr']].
    apply list_elem_of_filter in Hr' as [_ Hr'].
    have := proj1 (Forall_forall _ _) (proj1 (Forall_fmap _ _ _) Hr) r' Hr'. rw /= /apart /=. lia.
Qed.

(** C32: Successive calls of [allocate_frame] hand out the frames of the usable
    regions of the memory map in order, each once, and then none: the [n]-th
    call returns the [n]-th usable frame, whatever was asked before. *)
Theorem frames_enumerate map n :
  disjoint_regions map → map_ok map → Z.of_nat n < 2 ^ 64 - 1 →
  (∃ a, allocate_frame (mkBootInfo map (Z.of_nat n)) = Done (a, usable_frames map !! n)
     ∧ a = mkBootInfo map (Z.of_nat n + 1))
  ∧ NoDup (usable_addresses map)
  ∧ (∀ x, x ∈ usable_addresses map ↔
       x mod 4096 = 0 ∧ ∃ r, r ∈ map ∧ region_type r = Usable ∧ start_addr r <= x < end_addr r).
Proof.
  move=> D M Hn. split; [|split; [by apply usable_addresses_NoDup|]].
  - rw /allocate_frame /boot_allocate_frame usable_frame_nth_ok // bind_Done arith_ok; [cbn; lia|].
    rw bind_Done Nat2Z.id. by eexists.
  - move=> x. rw /usable_addresses list_elem_of_bind. split.
    + move=> [r [/elem_of_step_by [i [Hi [-> Hx]]] /list_elem_of_filter [Hu Hr]]].
      destruct (dr_aligned _ D r Hr) as (Hs & _). split; [|exists r; split; [done|split; [done|lia]]].
      by rw (Z.mul_comm 4096) Z.mod_add.
    + move=> [Hm [r [Hr [Hu Hx]]]]. destruct (dr_aligned _ D r Hr) as (Hs & _).
      exists r. split; [|by apply list_elem_of_filter]. apply elem_of_step_by.
      exists ((x - start_addr r) / 4096). split; [apply Z.div_pos; lia|]. split; [|lia].
      have Hz : (x - start_addr r) mod 4096 = 0 by rw Zminus_mod Hm Hs.
      set y := x - start_addr r in Hz |- *. have := Z.div_mod y 4096 ltac:(lia). lia.
Qed.
End frames.

(** ** The heap *)

(** The page tables, another crate's: [map_to] maps a page to a frame and may
    take frames for new tables; its error type has a value for a failed frame
    allocation. *)
Class Paging (M A Page Frame E : Type) := {
  containing_page : Z → Page;
  range_inclusive : Page → Page → list Page;
  map_to : Page → Frame → Z → M → A → outcome (M * A * result unit E);
  FrameAllocationFailed : E;
}.

(** The bits of [PageTableFlags]. *)
Definition PRESENT : Z := 1.
Definition WRITABLE : Z := 2.

(** [OffsetPageTable::new] of a level 4 table at a virtual address and the
    offset of the physical memory. *)
Class OffsetPageTables (M : Type) := offset_page_table_new : Z → Z → M.

(** [ALLOCATOR], the global allocator. *)
Definition ALLOCATOR : Locked SlabAllocator := Locked_new slab_new.

Section heap.
Context `{Profile} `{VirtAddr} `{FrameAllocator A Frame} `{!Paging M A Page Frame E}.

(** [VirtAddr - u64] *)
Definition virt_sub (a b : Z) : outcome Z := d ← usize_sub a b; virt_new d.

(** [active_level_4_table], where [cr3] is the physical address of the table. *)
Definition active_level_4_table (cr3 physical_memory_offset : Z) : outcome Z :=
  virt_add physical_memory_offset cr3.

(** [memory::init] *)
Definition memory_init `{!OffsetPageTables M} (cr3 physical_memory_offset : Z) : outcome M :=
  level_4_table ← active_level_4_table cr3 physical_memory_offset;
  Done (offset_page_table_new level_4_table physical_memory_offset).

(** The pages of the heap. *)
Definition heap_pages : outcome (list Page) :=
  heap_start ← virt_new HEAP_START;
  heap_end ← virt_add heap_start HEAP_SIZE;
  heap_end ← virt_sub heap_end 1;
  Done (range_inclusive (containing_page heap_start) (containing_page heap_end)).

(** The loop of [init_heap]. *)
Fixpoint map_pages (pages : list Page) (m : M) (fa : A) : outcome (M * A * result unit E) :=
  match pages with
  | [] => Done (m, fa, Ok tt)
  | page :: pages =>
      r ← allocate_frame fa;
      match r.2 with
      | None => Done (m, r.1, Err FrameAllocationFailed)
      | Some frame =>
          r ← map_to page frame (Z.lor PRESENT WRITABLE) m r.1;
          match r.2 with
          | Err e => Done (r.1, Err e)
          | Ok _ => map_pages pages r.1.1 r.1.2
          end
      end
  end.

Definition init_heap (m : M) (fa : A) (allocator : Locked SlabAllocator)
    : outcome (M * A * Locked SlabAllocator * result unit E) :=
  pages ← heap_pages;
  r ← map_pages pages m fa;
  match r.2 with
  | Err e => Done (r.1, allocator, Err e)
  | Ok _ =>
      allocator ← Locked_lock_unit (slab_init HEAP_START HEAP_SIZE) allocator;
      Done (r.1, allocator, Ok tt)
  end.

(** The mapping of a page to the text buffer. *)
Definition crate_example_mapping `{PhysFrames Frame} (page : Page) (m : M) (fa : A) : outcome (M * A) :=
  frame ← containing_frame 0xb8000;
  r ← map_to page frame (Z.lor PRESENT WRITABLE) m fa;
  match r.2 with
  | Ok _ => Done r.1
  | Err _ => Panic (Explicit "map_to failed")
  end.

(** What [map_to] promises on a page that is not mapped: it maps the page, and
    no other, and takes at most three frames for tables. *)
Class PagingSpec `{!FrameSupply A Frame} := {
  translate : M → Page → option Frame;
  map_to_spec n page frame flags m fa :
    translate m page = None → ready (n + 3) fa → (3 <= length (supply fa))%nat →
    ∃ m' fa' d, map_to page frame flags m fa = Done (m', fa', Ok tt)
      ∧ translate m' page = Some frame ∧ (∀ q, q ≠ page → translate m' q = translate m q)
      ∧ (d <= 3)%nat ∧ supply fa' = drop d (supply fa) ∧ ready n fa';
}.
End heap.

Section heap_theorems.
Context `{Profile} `{VirtAddr} `{!VirtAddrOk} `{FrameAllocator A Frame} `{!FrameSupply A Frame}.
Context `{!Paging M A Page Frame E} `{!PagingSpec}.

Lemma map_pages_ok pages m fa k :
  NoDup pages → Forall (λ p, translate m p = None) pages → NoDup (supply fa) →
  ready (4 * length pages + k) fa → (4 * length pages <= length (supply fa))%nat →
  ∃ m' fa', map_pages pages m fa = Done (m', fa', Ok tt)
    ∧ (∀ p, p ∈ pages → ∃ f, translate m' p = Some f ∧ f ∈ supply fa)
    ∧ (∀ p q, p ∈ pages → q ∈ pages → translate m' p = translate m' q → p = q)
    ∧ (∀ q, q ∉ pages → translate m' q = translate m q).
Proof.
  elim: pages m fa => [|p pages IH] m fa Hnd Hnone Hs Hr Hl.
  { exists m, fa. split; [done|]. split; [by move=> p /elem_of_nil|]. split; [by move=> p q /elem_of_nil|done]. }
  apply NoDup_cons in Hnd as [Hp Hnd]. apply Forall_cons in Hnone as [Hpn Hnone]. cbn [length] in Hr, Hl.
  destruct (allocate_supply (4 * length pages + k + 3) fa) as (fa1 & E1 & Hs1 & Hr1).
  { by have -> : S (4 * length pages + k + 3) = (4 * S (length pages) + k)%nat by lia. }
  case Ef: (supply fa) Hs Hl Hs1 E1 => [|f fs] Hs Hl Hs1 E1; [cbn in Hl; lia|]. cbn [head tail] in Hs1, E1.
  apply NoDup_cons in Hs as [Hf Hfs]. cbn [length] in Hl.
  cbn [map_pages]. rw E1 bind_Done. cbn [fst snd].
  destruct (map_to_spec (4 * length pages + k) p f (Z.lor PRESENT WRITABLE) m fa1 Hpn Hr1)
    as (m1 & fa2 & d & E2 & Ht & Hother & Hd & Hs2 & Hr2); [rw Hs1; lia|].
  rw E2 bind_Done. cbn [fst snd]. rw Hs1 in Hs2.
  destruct (IH m1 fa2 Hnd) as (m' & fa' & E3 & I1 & I2 & I3); [| |done| |].
  { apply Forall_forall => q Hq. rw Hother; [by move=> ?; subst q|]. by apply (proj1 (Forall_forall _ _) Hnone). }
  { rw Hs2. rw -(take_drop d fs) in Hfs. by apply NoDup_app in Hfs as (_ & _ & ?). }
  { rw Hs2 length_drop. lia. }
  have Hsub : ∀ x, x ∈ supply fa2 → x ∈ fs by move=> x; rw Hs2 -{2}(take_drop d fs) elem_of_app; right.
  exists m', fa'. split; [done|]. have Hp' : translate m' p = Some f by rw I3.
  split; [|split].
  - move=> q /elem_of_cons [->|Hq]; [exists f; split; [done|by left]|].
    destruct (I1 q Hq) as (g & Eg & Hg). exists g. split; [done|]. right. by apply Hsub.
  - move=> q r /elem_of_cons [->|Hq] /elem_of_cons [->|Hr'] Eqr; [done| | |by apply I2].
    + destruct (I1 r Hr') as (g & Eg & Hg). rw Hp' Eg in Eqr. injection Eqr as ->. by destruct Hf; apply Hsub.
    + destruct (I1 q Hq) as (g & Eg & Hg). rw Hp' Eg in Eqr. injection Eqr as ->. by destruct Hf; apply Hsub.
  - move=> q. rw not_elem_of_cons => -[Hq Hq']. rw I3 //. by apply Hother.
Qed.

Lemma heap_bounds : 0 <= HEAP_START ∧ 0 < HEAP_SIZE ∧ HEAP_START + HEAP_SIZE < 2 ^ 47.
Proof. done. Qed.

Lemma heap_pages_ok : heap_pages =
  Done (range_inclusive (containing_page HEAP_START) (containing_page (HEAP_START + HEAP_SIZE - 1))).
Proof.
  have ? := heap_bounds. rw /heap_pages virt_new_low; [lia|]. rw bind_Done /virt_add arith_ok; [lia|].
  rw bind_Done virt_new_low; [lia|]. rw bind_Done /virt_sub arith_ok; [lia|].
  rw bind_Done virt_new_low; [lia|]. done.
Qed.

Lemma init_heap_ok pages m fa allocator :
  heap_pages = Done pages → NoDup pages → Forall (λ p, translate m p = None) pages →
  NoDup (supply fa) → ready (4 * length pages) fa → (4 * length pages <= length (supply fa))%nat →
  held (mutex allocator) = false →
  ∃ m' fa' a', init_heap m fa allocator = Done (m', fa', Locked_new a', Ok tt)
    ∧ (∀ p, p ∈ pages → ∃ f, translate m' p = Some f ∧ f ∈ supply fa)
    ∧ (∀ p q, p ∈ pages → q ∈ pages → translate m' p = translate m' q → p = q)
    ∧ (∀ q, q ∉ pages → translate m' q = translate m q)
    ∧ slab_init HEAP_START HEAP_SIZE (inner (mutex allocator)) = Done a'
    ∧ page_alloc a' = Some (mkPages HEAP_START (HEAP_START + HEAP_SIZE)).
Proof.
  move=> Ep Hnd Hnone Hs Hr Hl Hf. have ? := heap_bounds.
  destruct (map_pages_ok pages m fa 0 Hnd Hnone Hs) as (m' & fa' & E1 & H1' & H2' & H3'); [by rw Nat.add_0_r|done|].
  have [a' [Ea Hp]] : ∃ a', slab_init HEAP_START HEAP_SIZE (inner (mutex allocator)) = Done a'
    ∧ page_alloc a' = Some (mkPages HEAP_START (HEAP_START + HEAP_SIZE)).
  { rw /slab_init virt_new_low; [lia|]. rw bind_Done arith_ok; [lia|]. rw bind_Done virt_new_low; [lia|].
    rw bind_Done. by eexists. }
  exists m', fa', a'. split_and!; [|done..].
  rw /init_heap Ep bind_Done E1 bind_Done. cbn [fst snd]. by rw (lock_unit_free _ _ _ Hf Ea).
Qed.

(** Without a frame nothing is mapped and the allocator stays as it is. *)
Lemma init_heap_no_frames p pages m fa allocator :
  heap_pages = Done (p :: pages) → supply fa = [] → ready 1 fa →
  ∃ fa', init_heap m fa allocator = Done (m, fa', allocator, Err FrameAllocationFailed).
Proof.
  move=> Ep Hs Hr. destruct (allocate_supply 0 fa Hr) as (fa' & E1 & _). rw Hs in E1.
  exists fa'. by rw /init_heap Ep bind_Done /= E1.
Qed.

(** The page of the example is mapped to the frame of the text buffer. *)
Lemma crate_example_mapping_ok `{PhysFrames Frame} page frame m fa :
  containing_frame 0xb8000 = Done frame → translate m page = None → ready 3 fa →
  (3 <= length (supply fa))%nat →
  ∃ m' fa', crate_example_mapping page m fa = Done (m', fa') ∧ translate m' page = Some frame.
Proof.
  move=> Ef Hn Hr Hl. destruct (map_to_spec 0 page frame (Z.lor PRESENT WRITABLE) m fa Hn Hr Hl)
    as (m' & fa' & d & E1 & Ht & _). exists m', fa'. split; [|done].
  rw /crate_example_mapping Ef bind_Done E1. done.
Qed.

(** Pages of the paging crate, for addresses of the lower half: 4096 bytes each,
    and an inclusive range of pages has exactly the pages between its bounds,
    once. *)
Class PageLaws : Prop := {
  page_eq a b : 0 <= a < 2 ^ 47 → 0 <= b < 2 ^ 47 → containing_page a = containing_page b ↔ a / 4096 = b / 4096;
  page_range lo hi p : 0 <= lo → lo <= hi → hi < 2 ^ 47 →
    p ∈ range_inclusive (containing_page lo) (containing_page hi) ↔
    ∃ a, lo / 4096 <= a / 4096 <= hi / 4096 ∧ p = containing_page a;
  page_NoDup p q : NoDup (range_inclusive p q);
}.

Context `{!PageLaws}.

(** An address of the heap. *)
Definition in_heap (x : Z) : Prop := HEAP_START <= x < HEAP_START + HEAP_SIZE.

Abbreviation pages := (range_inclusive (containing_page HEAP_START) (containing_page (HEAP_START + HEAP_SIZE - 1))).

(** The pages of the heap are not mapped yet and there are frames for them. *)
Record heap_ready (m : M) (fa : A) : Prop := {
  hr_unmapped : Forall (λ p, translate m p = None) pages;
  hr_frames : NoDup (supply fa);
  hr_ready : ready (4 * length pages) fa;
  hr_enough : (4 * length pages <= length (supply fa))%nat;
}.

(** The pages of the heap are those of its addresses. *)
Lemma elem_of_pages p : p ∈ pages ↔ ∃ x, in_heap x ∧ p = containing_page x.
Proof.
  have ? := heap_bounds. rw page_range; [lia..|]. split; move=> [x [Hx ->]]; exists x; (split; [|done]).
  - have E1 : HEAP_START / 4096 * 4096 = HEAP_START by []. have := Z.div_mod x 4096 ltac:(lia).
    have := Z.mod_pos_bound x 4096 ltac:(lia). rw /in_heap.
    have E2 : (HEAP_START + HEAP_SIZE - 1) / 4096 * 4096 = HEAP_START + HEAP_SIZE - 4096 by []. lia.
  - rw /in_heap in Hx. split; apply Z.div_le_mono; lia.
Qed.

(** What [init_heap] does to the page tables, address by address. *)
Definition heap_mapped (m m' : M) (fa : A) : Prop :=
  (∀ x, in_heap x → ∃ f, translate m' (containing_page x) = Some f ∧ f ∈ supply fa)
  ∧ (∀ x y, in_heap x → in_heap y →
      translate m' (containing_page x) = translate m' (containing_page y) → x / 4096 = y / 4096)
  ∧ (∀ q, (∀ x, in_heap x → q ≠ containing_page x) → translate m' q = translate m q).

Lemma init_heap_mapped m fa : heap_ready m fa →
  ∃ m' fa' a', init_heap m fa ALLOCATOR = Done (m', fa', Locked_new a', Ok tt) ∧ heap_mapped m m' fa
    ∧ slab_init HEAP_START HEAP_SIZE slab_new = Done a'
    ∧ page_alloc a' = Some (mkPages HEAP_START (HEAP_START + HEAP_SIZE)).
Proof.
  move=> [Hu Hs Hr Hl]. have ? := heap_bounds.
  destruct (init_heap_ok pages m fa ALLOCATOR heap_pages_ok (page_NoDup _ _) Hu Hs Hr Hl eq_refl)
    as (m' & fa' & a' & Eh & Hm & Hi & Ho & Ea & Hp).
  have Hin : ∀ x, in_heap x → containing_page x ∈ pages by move=> x Hx; apply elem_of_pages; exists x.
  exists m', fa', a'. split; [done|]. split; [|done]. split; [|split].
  - move=> x /Hin. apply Hm.
  - move=> x y Hx Hy Et. apply page_eq; [rw /in_heap in Hx; lia|rw /in_heap in Hy; lia|]. apply Hi; auto.
  - move=> q Hq. apply Ho. move=> /elem_of_pages [x [Hx ?]]. by apply (Hq x).
Qed.

(** C25: [init_heap] with enough frames maps the page of every address between
    [HEAP_START] and [HEAP_START + HEAP_SIZE] to a frame of the supply, different
    pages to different frames, and leaves every other page as it was; then it
    hands exactly these addresses to the slab allocator and leaves its lock
    free. *)
Theorem init_heap_maps m fa : heap_ready m fa →
  ∃ m' fa' a', init_heap m fa ALLOCATOR = Done (m', fa', Locked_new a', Ok tt)
    ∧ (∀ x, HEAP_START <= x < HEAP_START + HEAP_SIZE →
        ∃ f, translate m' (containing_page x) = Some f ∧ f ∈ supply fa)
    ∧ (∀ x y, HEAP_START <= x < HEAP_START + HEAP_SIZE → HEAP_START <= y < HEAP_START + HEAP_SIZE →
        translate m' (containing_page x) = translate m' (containing_page y) → x / 4096 = y / 4096)
    ∧ (∀ q, (∀ x, HEAP_START <= x < HEAP_START + HEAP_SIZE → q ≠ containing_page x) →
        translate m' q = translate m q)
    ∧ page_alloc a' = Some (mkPages HEAP_START (HEAP_START + HEAP_SIZE)).
Proof.
  move=> Hr. destruct (init_heap_mapped m fa Hr) as (m' & fa' & a' & Eh & (H1' & H2' & H3') & _ & Hp).
  by exists m', fa', a'.
Qed.
End heap_theorems.
