(* ===== verification/Heap.v ===== *)
(** * The kernel heap, from requests to physical memory

    Composes [init_heap] of [src/src/allocator.rs] with the global allocator
    that it initialises: the blocks that clients hold after any sequence of
    requests through the lock are backed by mapped pages, and no two of them
    share a byte of physical memory. *)

From S2P Require Import Prelude Machine Str Alloc DList Slab SlabRep SlabSpec Memory.

Section heap.
Context `{Profile} `{VirtAddr} `{!VirtAddrOk} `{FrameAllocator A Frame} `{!FrameSupply A Frame}.
Context `{!Paging M A Page Frame E} `{!PagingSpec}.

(** The physical byte behind a virtual address: its frame and the offset. *)
Definition physical (m : M) (x : Z) : option (Frame * Z) :=
  (λ f, (f, x mod 4096)) <$> translate m (containing_page x).

(** The bytes of a block. *)
Definition covers (b : block) (x : Z) : Prop := b.1 <= x < b.1 + size b.2.

Context `{!PageLaws}.

(** Distinct addresses of the heap are distinct bytes of physical memory. *)
Lemma physical_inj m m' fa x y :
  heap_mapped m m' fa → in_heap x → in_heap y →
  is_Some (physical m' x) ∧ (physical m' x = physical m' y → x = y).
Proof.
  move=> [Hm [Hi _]] Hx Hy. rw /physical.
  destruct (Hm x Hx) as (f & Ef & _). destruct (Hm y Hy) as (g & Eg & _). rw Ef Eg. split; [by eexists|].
  cbn. move=> [Efg Eo]. have Ep : x / 4096 = y / 4096 by apply Hi; [done|done|]; rw Ef Eg Efg.
  have := Z.div_mod x 4096. have := Z.div_mod y 4096. lia.
Qed.

Lemma covers_apart (b c : block) x : apart (extent b) (extent c) → covers b x → covers c x → False.
Proof. rw /apart /covers /=. lia. Qed.

Lemma pairwise_apart_lookup (live : list block) i j b c :
  pairwise_apart (extent <$> live) → live !! i = Some b → live !! j = Some c → i ≠ j →
  apart (extent b) (extent c).
Proof.
  move=> Hp Hi Hj Hne. elim: live i j Hp Hi Hj Hne => [//|d live IH] [|i] [|j]; rw fmap_cons pairwise_apart_cons => -[Hd Hp].
  - done.
  - move=> [<-] Hj _. move: Hd => /Forall_forall. apply. apply list_elem_of_fmap. exists c. split; [done|].
    by eapply list_elem_of_lookup_2.
  - move=> Hi [<-] _. symmetry. move: Hd => /Forall_forall. apply. apply list_elem_of_fmap. exists b.
    split; [done|]. by eapply list_elem_of_lookup_2.
  - move=> Hi Hj Hne. apply (IH i j); [done..|]. congruence.
Qed.

(** C21: The kernel heap is sound down to physical memory.  After [init_heap] the
    clients of the global allocator send any sequence of requests that it
    accepts through its lock: the lock is free again, every byte of every live
    block is backed by a frame of its own page, and two different live blocks
    never share a byte of physical memory. *)
Theorem heap_physical m fa : heap_ready m fa →
  ∃ m' fa' l0, init_heap m fa ALLOCATOR = Done (m', fa', l0, Ok tt)
    ∧ ∀ rs l live,
        Forall (λ r, match r with
          Alloc ly => layout_ok ly ∧ slab_accepts (HEAP_START + HEAP_SIZE) ly | Free _ => True end) rs →
        serves l0 [] rs l live →
        held (mutex l) = false
        ∧ (∀ b x, b ∈ live → covers b x → is_Some (physical m' x))
        ∧ ∀ i j b c x y, live !! i = Some b → live !! j = Some c → i ≠ j →
            covers b x → covers c y → physical m' x ≠ physical m' y.
Proof.
  move=> Hr. destruct (init_heap_mapped m fa Hr) as (m' & fa' & a0 & Eh & Hm & Ea & _).
  exists m', fa', (Locked_new a0). split; [done|]. move=> rs l live Hrs Hsv.
  have Hlo : 0 < HEAP_START by []. have Hhi : HEAP_START + HEAP_SIZE + 4096 < 2 ^ 47 by [].
  have I0 := slab_init_ok HEAP_START HEAP_SIZE a0 Hlo eq_refl ltac:(done) Hhi Ea.
  pose (S := @locked_safe SlabAllocator _ HEAP_START (HEAP_START + HEAP_SIZE)
    (slab_safe HEAP_START (HEAP_START + HEAP_SIZE) Hlo Hhi)).
  assert (client_ok HEAP_START (HEAP_START + HEAP_SIZE) (S := S) l live) as [[Hf _] [Hb Hp]].
  { eapply (serves_ok HEAP_START (HEAP_START + HEAP_SIZE) (S := S) (Locked_new a0) [] rs l live); [|split|exact Hsv].
    - eapply Forall_impl; [exact Hrs|]. by case.
    - exact (conj eq_refl I0).
    - split; constructor. }
  have Hin : ∀ b x, b ∈ live → covers b x → in_heap x.
  { move=> b x Hbl Hx. move: Hb => /Forall_forall Hb. destruct (Hb b Hbl) as [_ [G1 G2]].
    rw /covers in Hx. rw /in_heap. cbn in G1, G2. lia. }
  split; [done|]. split.
  - move=> b x Hbl Hx. eapply physical_inj; [done|by eapply Hin|by eapply Hin].
  - move=> i j b c x y Hbi Hcj Hij Hx Hy Eq.
    have Hxr := Hin b x (list_elem_of_lookup_2 _ _ _ Hbi) Hx. have Hyr := Hin c y (list_elem_of_lookup_2 _ _ _ Hcj) Hy.
    destruct (physical_inj m m' fa x y Hm Hxr Hyr) as [_ Hinj]. have Exy := Hinj Eq. subst y.
    exact (covers_apart b c x (pairwise_apart_lookup live i j b c Hp Hbi Hcj Hij) Hx Hy).
Qed.
End heap.
