(* ===== verification/Interrupts.v ===== *)
(** * Interrupts, exceptions and the console locks

    Models the handlers of [src/src/interrupts.rs], the critical sections of
    the two [_print] functions (in [src/src/vga_buffer.rs] and
    [src/src/serial.rs]) and the panic handler of [src/src/main.rs] as a
    machine that executes one instruction at a time and may be interrupted
    between any two of them while the interrupt flag is set.  The console, the
    serial port, the keyboard and the interrupt controller are each behind a
    spin lock; a handler that finds a lock held would spin for ever, because
    the holder cannot run before it returns.

    The decoding of scan codes and the formatting of stack frames belong to
    other crates and are parameters. *)

From S2P Require Import Prelude Machine Str Vga.

(** ** Code *)

Inductive lock := WRITER_LOCK | SERIAL1_LOCK | KEYBOARD_LOCK | PICS_LOCK.

#[export] Instance lock_eq_dec : EqDecision lock.
Proof. solve_decision. Defined.

#[export] Instance lock_countable : Countable lock.
Proof.
  refine (inj_countable' (λ l, match l with
      WRITER_LOCK => 0 | SERIAL1_LOCK => 1 | KEYBOARD_LOCK => 2 | PICS_LOCK => 3 end)%nat
    (λ n, match n with
      0 => WRITER_LOCK | 1 => SERIAL1_LOCK | 2 => KEYBOARD_LOCK | _ => PICS_LOCK end)%nat _).
  by case.
Defined.

(** [InterruptIndex] and its conversions. *)
Definition PIC_1_OFFSET : Z := 32.
Definition PIC_2_OFFSET : Z := PIC_1_OFFSET + 8.

Inductive InterruptIndex := Timer | Keyboard.

Definition as_u8 (i : InterruptIndex) : Z :=
  match i with Timer => PIC_1_OFFSET | Keyboard => PIC_1_OFFSET + 1 end.

Definition as_usize (i : InterruptIndex) : Z := as_u8 i.

(** Where text goes: the screen or the serial port. *)
Inductive device := Vga | Uart.

Definition device_lock (d : device) : lock :=
  match d with Vga => WRITER_LOCK | Uart => SERIAL1_LOCK end.

Inductive instr :=
  | Enter              (** [without_interrupts]: remember the flag, clear it *)
  | Leave              (** and set it again if it was set *)
  | Acquire (l : lock)
  | Release (l : lock)
  | Text (d : device) (s : str) (** one [write_str] on the locked device *)
  | Key (scancode : Z) (** decode a scan code and print the result *)
  | Eoi (irq : Z)      (** [notify_end_of_interrupt] *)
  | Int3 (frame : list str) (** a breakpoint, with its formatted stack frame *)
  | Iret
  | Hlt.               (** [hlt_loop] *)

(** [_print] of a device, with the pieces of its format string. *)
Definition print_code (d : device) (pieces : list str) : list instr :=
  [Enter; Acquire (device_lock d)] ++ (Text d <$> pieces) ++ [Release (device_lock d); Leave].

(** [println!] *)
Definition println_code (pieces : list str) : list instr := print_code Vga (pieces ++ [[10]]).

Definition timer_interrupt_handler : list instr :=
  [Acquire PICS_LOCK; Eoi (as_u8 Timer); Release PICS_LOCK; Iret].

(** The keyboard guard lives until the end of the handler. *)
Definition keyboard_interrupt_handler (scancode : Z) : list instr :=
  [Acquire KEYBOARD_LOCK; Key scancode; Acquire PICS_LOCK; Eoi (as_u8 Keyboard); Release PICS_LOCK;
   Release KEYBOARD_LOCK; Iret].

Definition breakpoint_handler (frame : list str) : list instr :=
  println_code (lit "EXCEPTION: BREAKPOINT" :: [10] :: frame) ++ [Iret].

Definition page_fault_handler (address error_code frame : list str) : list instr :=
  println_code [lit "EXCEPTION: PAGE FAULT"]
  ++ println_code (lit "Accessed Address: " :: address)
  ++ println_code (lit "Error Code: " :: error_code)
  ++ println_code frame
  ++ [Hlt].

(** The panic handler, with the formatted message and location. *)
Definition panic_handler (info : list str) : list instr := println_code info ++ [Hlt].

Definition double_fault_handler (location frame : list str) : list instr :=
  panic_handler (location ++ lit "EXCEPTION: DOUBLE FAULT" :: [10] :: lit " " :: frame).

(** ** The machine *)

(** The keyboard driver: the new state and the pieces to print, if any. *)
Class KeyboardDriver (K : Type) := decode : K → Z → K * option (list str).

(** An activation: the code to run and the flag remembered by [Enter]. *)
Record activation := mkActivation { code : list instr; saved : bool }.

(** Interrupted activations are kept with the interrupt flag they had. *)
Record cpu (K : Type) := mkCpu {
  enabled : bool;
  locks : gset lock;
  in_service : gset Z;
  screen : Writer;
  serial : str;
  kbd : K;
  running : activation;
  interrupted : list (bool * activation);
}.
Arguments mkCpu {K}.
Arguments enabled {K} c.
Arguments locks {K} c.
Arguments in_service {K} c.
Arguments screen {K} c.
Arguments serial {K} c.
Arguments kbd {K} c.
Arguments running {K} c.
Arguments interrupted {K} c.

Section machine.
Context `{Profile} `{KeyboardDriver K}.

(** One instruction of the running activation. *)
Inductive exec : cpu K → cpu K → Prop :=
  | exec_enter f L S w u b k sv st :
      exec (mkCpu f L S w u b (mkActivation (Enter :: k) sv) st)
           (mkCpu false L S w u b (mkActivation k f) st)
  | exec_leave f L S w u b k sv st :
      exec (mkCpu f L S w u b (mkActivation (Leave :: k) sv) st)
           (mkCpu (f || sv) L S w u b (mkActivation k sv) st)
  | exec_acquire f L S w u b l k sv st : l ∉ L →
      exec (mkCpu f L S w u b (mkActivation (Acquire l :: k) sv) st)
           (mkCpu f ({[l]} ∪ L) S w u b (mkActivation k sv) st)
  | exec_release f L S w u b l k sv st :
      exec (mkCpu f L S w u b (mkActivation (Release l :: k) sv) st)
           (mkCpu f (L ∖ {[l]}) S w u b (mkActivation k sv) st)
  | exec_text f L S w w' u b s k sv st : write_string s w = Done w' →
      exec (mkCpu f L S w u b (mkActivation (Text Vga s :: k) sv) st)
           (mkCpu f L S w' u b (mkActivation k sv) st)
  | exec_serial f L S w u b s k sv st :
      exec (mkCpu f L S w u b (mkActivation (Text Uart s :: k) sv) st)
           (mkCpu f L S w (u ++ s) b (mkActivation k sv) st)
  | exec_key f L S w u b c b' out k sv st : decode b c = (b', out) →
      exec (mkCpu f L S w u b (mkActivation (Key c :: k) sv) st)
           (mkCpu f L S w u b' (mkActivation (from_option (print_code Vga) [] out ++ k) sv) st)
  | exec_eoi f L S w u b irq k sv st :
      exec (mkCpu f L S w u b (mkActivation (Eoi irq :: k) sv) st)
           (mkCpu f L (S ∖ {[irq]}) w u b (mkActivation k sv) st)
  | exec_int3 f L S w u b fr k sv st :
      exec (mkCpu f L S w u b (mkActivation (Int3 fr :: k) sv) st)
           (mkCpu false L S w u b (mkActivation (breakpoint_handler fr) false)
              ((f, mkActivation k sv) :: st))
  | exec_iret f L S w u b k sv f' a st :
      exec (mkCpu f L S w u b (mkActivation (Iret :: k) sv) ((f', a) :: st))
           (mkCpu f' L S w u b a st).

(** An interrupt is delivered when the flag is set and the controller is not
    waiting for the end of an earlier one; the gate clears the flag. *)
Inductive deliver : cpu K → cpu K → Prop :=
  | deliver_timer L S w u b a st : as_u8 Timer ∉ S →
      deliver (mkCpu true L S w u b a st)
              (mkCpu false L ({[as_u8 Timer]} ∪ S) w u b
                 (mkActivation timer_interrupt_handler false) ((true, a) :: st))
  | deliver_keyboard L S w u b a st c : as_u8 Keyboard ∉ S →
      deliver (mkCpu true L S w u b a st)
              (mkCpu false L ({[as_u8 Keyboard]} ∪ S) w u b
                 (mkActivation (keyboard_interrupt_handler c) false) ((true, a) :: st)).

Definition cpu_step (s s' : cpu K) : Prop := exec s s' ∨ deliver s s'.

(** An exception may strike at any instruction, whatever the flag. *)
Definition raise (handler : list instr) (s : cpu K) : cpu K :=
  mkCpu false (locks s) (in_service s) (screen s) (serial s) (kbd s)
    (mkActivation handler false) ((enabled s, running s) :: interrupted s).
End machine.

(** What the interrupted program does: it prints, and may hit breakpoints. *)
Inductive action :=
  | Print (d : device) (pieces : list str)
  | Breakpoint (frame : list str).

Definition action_code (a : action) : list instr :=
  match a with
  | Print d pieces => print_code d pieces
  | Breakpoint frame => [Int3 frame]
  end.

Definition boot_cpu {K} (w : Writer) (u : str) (b : K) (program : list action) : cpu K :=
  mkCpu true ∅ ∅ w u b (mkActivation (program ≫= action_code) false) [].

(** ** Lock discipline *)

(** The code runs to its end from a state with the locks [L] held, the flag
    [on] and the remembered flag [sv]: locks are taken only while interrupts
    are off, never twice, and are released before interrupts are on again.  A
    handler ends with [Iret], the program at the end of its code. *)
Fixpoint disciplined (handler : bool) (k : list instr) (L : gset lock) (on sv : bool) : Prop :=
  match k with
  | [] => handler = false ∧ L = ∅ ∧ on = true
  | Enter :: k => disciplined handler k L false on
  | Leave :: k => (sv = true → L = ∅ ∧ handler = false) ∧ disciplined handler k L (on || sv) sv
  | Acquire l :: k => on = false ∧ l ∉ L ∧ disciplined handler k ({[l]} ∪ L) on sv
  | Release l :: k => disciplined handler k (L ∖ {[l]}) on sv
  | Key _ :: k => on = false ∧ sv = false ∧ WRITER_LOCK ∉ L ∧ disciplined handler k L on sv
  | Text _ _ :: k | Eoi _ :: k => disciplined handler k L on sv
  | Int3 _ :: k => handler = false ∧ L = ∅ ∧ on = true ∧ disciplined handler k L on sv
  | Iret :: _ => handler = true ∧ L = ∅ ∧ on = false
  | Hlt :: _ => False
  end.

Lemma disciplined_texts h d ps k L on sv :
  disciplined h k L on sv → disciplined h ((Text d <$> ps) ++ k) L on sv.
Proof. move=> Hk. by elim: ps. Qed.

Lemma disciplined_print h d ps k L on sv :
  device_lock d ∉ L → (on = true → L = ∅ ∧ h = false) → disciplined h k L on on →
  disciplined h (print_code d ps ++ k) L on sv.
Proof.
  move=> Hw Hon Hk. rw /print_code -!app_assoc. cbn [app disciplined]. split; [done|]. split; [done|].
  apply disciplined_texts. cbn [app disciplined].
  have -> : ({[device_lock d]} ∪ L) ∖ {[device_lock d]} = L by set_solver. done.
Qed.

Lemma disciplined_program p sv : disciplined false (p ≫= action_code) ∅ true sv.
Proof.
  elim: p sv => [|a p IH] sv; [done|]. rw bind_cons. case: a => [d ps|fr]; [|by split_and!].
  apply disciplined_print; [set_solver|done|apply IH].
Qed.

Lemma disciplined_timer : disciplined true timer_interrupt_handler ∅ false false.
Proof. by split_and!; [|set_solver|set_solver]. Qed.

Lemma disciplined_keyboard c : disciplined true (keyboard_interrupt_handler c) ∅ false false.
Proof. cbn. split_and!; try done; set_solver. Qed.

Lemma disciplined_breakpoint fr : disciplined true (breakpoint_handler fr) ∅ false false.
Proof. apply disciplined_print; [set_solver|done|done]. Qed.

(** What the instructions of a handler write to the screen. *)
Definition screen_text (k : list instr) : list str :=
  omap (λ i, match i with Text Vga s => Some s | _ => None end) k.

Lemma screen_text_breakpoint fr :
  screen_text (breakpoint_handler fr) = lit "EXCEPTION: BREAKPOINT" :: [10] :: fr ++ [[10]].
Proof.
  rw /breakpoint_handler /println_code /print_code /screen_text !omap_app /= !app_nil_r.
  do 2 f_equal. elim: (fr ++ _) => [|x l IH] //=. by f_equal.
Qed.

Section correctness.
Context `{Profile} `{KeyboardDriver K}.

(** At most one handler is active; it interrupted the program outside of its
    critical sections, and keeps interrupts off. *)
Definition stack_ok (handler on : bool) (st : list (bool * activation)) : Prop :=
  match st with
  | [] => handler = false
  | [(f, m)] => handler = true ∧ on = false ∧ f = true ∧ disciplined false (code m) ∅ true (saved m)
  | _ => False
  end.

Record cpu_ok (s : cpu K) : Prop := {
  cp_screen : ∃ sb, shows (screen s) sb;
  cp_locks : enabled s = true → locks s = ∅;
  cp_code : ∃ h, disciplined h (code (running s)) (locks s) (enabled s) (saved (running s))
    ∧ stack_ok h (enabled s) (interrupted s);
}.

Lemma boot_cpu_ok w sb u b p : shows w sb → cpu_ok (boot_cpu w u b p).
Proof. move=> S. split; [by exists sb|done|]. exists false. split; [apply disciplined_program|done]. Qed.

Lemma stack_ok_on h on on' st : stack_ok h on st → (on' = true → h = false) → stack_ok h on' st.
Proof.
  case: st => [|[f m] [|? ?]] // [-> [_ ?]] Hh. split; [done|]. split; [|done].
  case: on' Hh => // Hh. by have := Hh eq_refl.
Qed.

(** The program is running when no handler is. *)
Lemma stack_ok_program on st : stack_ok false on st → st = [].
Proof. case: st => [|[f m] [|? ?]] //. by move=> []. Qed.

Lemma stack_ok_enabled h st : stack_ok h true st → h = false ∧ st = [].
Proof. case: st => [|[f m] [|? ?]] //. by move=> [_ []]. Qed.

Lemma exec_ok s s' : cpu_ok s → exec s s' → cpu_ok s'.
Proof.
  move=> [[sb Hsb] Hl [h [Hd Hst]]] Hs.
  destruct Hs; cbn [screen enabled locks running interrupted code saved disciplined] in *.
  - split; [by exists sb|done|]. exists h. split; [done|]. by eapply stack_ok_on.
  - destruct Hd as [Hsv Hd]. split; [by exists sb| |].
    + move=> /orb_true_iff [?|?]; [by apply Hl|by apply Hsv].
    + exists h. split; [done|]. eapply stack_ok_on; [done|]. move=> /orb_true_iff [Hf|?]; [|by apply Hsv].
      subst f. by apply stack_ok_enabled in Hst as [? _].
  - destruct Hd as [-> [_ Hd]]. split; [by exists sb|done|]. by exists h.
  - split; [by exists sb| |by exists h]. move=> /Hl /= ->. set_solver.
  - split; [|done|by exists h]. destruct (write_string_shows s w sb Hsb) as (w1 & E1 & S1). cbn.
    have -> : w' = w1 by congruence. by eexists.
  - split; [by exists sb|done|]. by exists h.
  - destruct Hd as [-> [-> [Hw Hd]]]. split; [by exists sb|done|]. exists h. split; [|done].
    destruct out as [ps|]; [by apply disciplined_print|done].
  - split; [by exists sb|done|]. by exists h.
  - destruct Hd as [-> [-> [-> Hd]]]. apply stack_ok_program in Hst as ->.
    split; [by exists sb|done|]. exists true. split; [apply disciplined_breakpoint|]. by split_and!.
  - destruct Hd as [-> [-> ->]]. split; [by exists sb|done|]. exists false.
    case: st Hst => [|? ?] /=; [|done]. by move=> [_ [_ [-> ?]]].
Qed.

Lemma deliver_ok s s' : cpu_ok s → deliver s s' → cpu_ok s'.
Proof.
  move=> [[sb Hsb] Hl [h [Hd Hst]]] Hs.
  destruct Hs; cbn [screen enabled locks running interrupted code saved] in *;
    apply stack_ok_enabled in Hst as [-> ->]; rw Hl // in Hd |- *;
    (split; [by exists sb|done|]; exists true; split; [|by split_and!]).
  - apply disciplined_timer.
  - apply disciplined_keyboard.
Qed.

Lemma cpu_steps_ok s s' : cpu_ok s → rtc cpu_step s s' → cpu_ok s'.
Proof.
  move=> + Hs. elim: Hs => {s s'} [//|s s1 s' [Hs|Hs] _ IH] Ho; apply IH; [by eapply exec_ok|by eapply deliver_ok].
Qed.

(** ** Theorems *)

(** The program has printed its messages and no handler is active. *)
Definition finished (s : cpu K) : Prop := interrupted s = [] ∧ code (running s) = [].

(** The next instruction of a well-behaved machine can be executed: no lock it
    asks for is held. *)
Lemma exec_progress s : cpu_ok s → finished s ∨ ∃ s', exec s s'.
Proof.
  move=> [[sb Hsb] Hl [h [Hd Hst]]]. case: s Hsb Hl Hd Hst => f L S w u b [k sv] st.
  cbn [screen enabled locks running interrupted code saved]. move=> Hsb Hl Hd Hst.
  case: k Hd => [|[| |l|l|[] t|c|irq|fr| |] k] /=.
  - move=> [? _]; subst h. left. split; [by eapply stack_ok_program|done].
  - right. eexists. apply exec_enter.
  - right. eexists. apply exec_leave.
  - move=> [_ [? _]]. right. eexists. by apply exec_acquire.
  - right. eexists. apply exec_release.
  - destruct (write_string_shows t w sb Hsb) as (w1 & E1 & _). right. eexists. by apply exec_text.
  - right. eexists. apply exec_serial.
  - destruct (decode b c) as [b' out] eqn:Ed. right. eexists. by apply exec_key.
  - right. eexists. apply exec_eoi.
  - right. eexists. apply exec_int3.
  - move=> [? _]; subst h. right. case: st Hst => [|[g m] st] //= _. eexists. apply exec_iret.
  - done.
Qed.

(** The work left: the scan codes to decode, then the instructions, where a
    breakpoint stands for its handler. *)
Definition work_code (s : cpu K) : list instr :=
  code (running s) ++ (interrupted s ≫= λ fa, code fa.2).

Fixpoint keys (k : list instr) : nat :=
  match k with
  | [] => 0
  | Key _ :: k => S (keys k)
  | _ :: k => keys k
  end.

Fixpoint weight (k : list instr) : nat :=
  match k with
  | [] => 0
  | Int3 fr :: k => S (length (breakpoint_handler fr)) + weight k
  | _ :: k => S (weight k)
  end.

Lemma keys_app k1 k2 : keys (k1 ++ k2) = (keys k1 + keys k2)%nat.
Proof. elim: k1 => [|i k1 IH] //=. case: i => *; by rw IH. Qed.

Lemma weight_app k1 k2 : weight (k1 ++ k2) = (weight k1 + weight k2)%nat.
Proof. elim: k1 => [|i k1 IH] //=. case: i => *; rw IH; lia. Qed.

Lemma texts_work d ps : keys (Text d <$> ps) = 0%nat ∧ weight (Text d <$> ps) = length ps.
Proof. elim: ps => [|t ps [IH1 IH2]] //=. by rw IH1 IH2. Qed.

Lemma print_work d ps : keys (print_code d ps) = 0%nat ∧ weight (print_code d ps) = length (print_code d ps).
Proof.
  have [E1 E2] := texts_work d ps. rw /print_code !keys_app !weight_app E1 E2 !length_app length_fmap. done.
Qed.

Lemma breakpoint_work fr :
  keys (breakpoint_handler fr) = 0%nat
  ∧ weight (breakpoint_handler fr) = length (breakpoint_handler fr).
Proof.
  rw /breakpoint_handler /println_code keys_app weight_app length_app.
  by destruct (print_work Vga ((lit "EXCEPTION: BREAKPOINT" :: [10] :: fr) ++ [[10]])) as [-> ->].
Qed.

(** Each instruction leaves less work. *)
Lemma exec_less s s' : exec s s' →
  (keys (work_code s') < keys (work_code s))%nat
  ∨ (keys (work_code s') <= keys (work_code s))%nat ∧ (weight (work_code s') < weight (work_code s))%nat.
Proof.
  move=> Hs. destruct Hs as [| | | | | | f L S w u b c b' out k sv st _| |f L S w u b fr k sv st|];
    rw /work_code; cbn [running interrupted code].
  7: { left. rw -app_assoc !keys_app. have -> : keys (from_option (print_code Vga) [] out) = 0%nat
         by case: out => [ps|] //=; apply print_work. cbn [keys]. lia. }
  8: { right. destruct (breakpoint_work fr) as [E1 E2]. rw bind_cons.
       rw (keys_app (breakpoint_handler fr)) (weight_app (breakpoint_handler fr)) E1 E2.
       cbn [app keys weight code snd]. lia. }
  all: right; rw ?bind_cons !keys_app !weight_app; cbn [keys weight snd]; rw ?keys_app ?weight_app; lia.
Qed.

(** Without further interrupts a well-behaved machine finishes its work. *)
Lemma exec_finishes s : cpu_ok s → ∃ s', rtc exec s s' ∧ cpu_ok s' ∧ finished s'.
Proof.
  move En : (keys (work_code s)) => n. move El : (weight (work_code s)) => m.
  elim/lt_wf_ind: n m s En El => n IHn m. elim/lt_wf_ind: m => m IHm s En El Ho.
  destruct (exec_progress s Ho) as [?|[s1 Hs]]; [by exists s; split; [apply rtc_refl|]|].
  have Ho1 := exec_ok s s1 Ho Hs.
  have [s' [Hr ?]] : ∃ s', rtc exec s1 s' ∧ cpu_ok s' ∧ finished s'.
  { destruct (exec_less s s1 Hs) as [Hk|[Hk Hm]].
    - eapply (IHn _ _ _ s1 eq_refl eq_refl Ho1).
    - destruct (decide (keys (work_code s1) = n)) as [E1|]; [by eapply (IHm _ _ s1 E1 eq_refl Ho1)|].
      eapply (IHn _ _ _ s1 eq_refl eq_refl Ho1). }
  exists s'. split; [by eapply rtc_l|done].
  Unshelve. all: lia.
Qed.

(** C16: The locks cannot deadlock: while the program prints to the screen and
    the serial port and hits breakpoints, timer and keyboard interrupts may come
    between any two instructions, and still no activation ever asks for a lock
    that is held, and from every state that can be reached the program runs to
    its end with all locks released and interrupts enabled. *)
Theorem printing_never_deadlocks w sb u b program s :
  shows w sb → rtc cpu_step (boot_cpu w u b program) s →
  (∀ l k, code (running s) = Acquire l :: k → l ∉ locks s)
  ∧ (∃ s', rtc cpu_step s s' ∧ finished s' ∧ locks s' = ∅ ∧ enabled s' = true).
Proof.
  move=> Hw Hr. have Ho := cpu_steps_ok _ _ (boot_cpu_ok w sb u b program Hw) Hr. split.
  - move=> l k E. destruct (cp_code s Ho) as [h [Hd _]]. rw E in Hd. by destruct Hd as [_ [? _]].
  - destruct (exec_finishes s Ho) as (s' & Hs & Ho' & Hf). exists s'. split; [|split; [done|]].
    + eapply rtc_subrel; [|exact Hs]. by left.
    + destruct (cp_code s' Ho') as [h [Hd _]]. destruct Hf as [_ E]. rw E in Hd. by destruct Hd as [_ [? ?]].
Qed.
End correctness.

(** ** Fatal exceptions *)

Section exceptions.
Context `{Profile} `{KeyboardDriver K}.

(** The machine has stopped for good: halted with interrupts off. *)
Definition halted (s : cpu K) : Prop := enabled s = false ∧ ∃ k, code (running s) = Hlt :: k.

Lemma texts_run ps (f : bool) L S w w' u (b : K) k sv st :
  write_string (concat ps) w = Done w' →
  rtc exec (mkCpu f L S w u b (mkActivation ((Text Vga <$> ps) ++ k) sv) st)
           (mkCpu f L S w' u b (mkActivation k sv) st).
Proof.
  elim: ps w => [|t ps IH] w; [by move=> [->]|]. cbn [concat]. rw write_string_app.
  move=> /bind_Done_inv [w1 [E1 E]]. eapply rtc_l; [by apply exec_text|by apply IH].
Qed.

(** One message, with interrupts off and the console free. *)
Lemma print_run ps L S w w' u (b : K) k sv st :
  WRITER_LOCK ∉ L → print ps w = Done w' →
  rtc exec (mkCpu false L S w u b (mkActivation (print_code Vga ps ++ k) sv) st)
           (mkCpu false L S w' u b (mkActivation k false) st).
Proof.
  move=> Hl Hp. rw /print_code -!app_assoc. cbn [app device_lock].
  eapply rtc_l; [apply exec_enter|]. eapply rtc_l; [by apply exec_acquire|].
  etrans; [by apply texts_run|]. cbn [app]. eapply rtc_l; [apply exec_release|].
  have -> : ({[WRITER_LOCK]} ∪ L) ∖ {[WRITER_LOCK]} = L by set_solver.
  apply rtc_once, exec_leave.
Qed.

(** A breakpoint is reported and the program goes on. *)
Lemma breakpoint_returns fr L S w w' u (b : K) k sv f st :
  WRITER_LOCK ∉ L → print (screen_text (breakpoint_handler fr)) w = Done w' →
  rtc exec (mkCpu f L S w u b (mkActivation (Int3 fr :: k) sv) st)
           (mkCpu f L S w' u b (mkActivation k sv) st).
Proof.
  rw screen_text_breakpoint => Hl Hp. eapply rtc_l; [apply exec_int3|].
  etrans; [exact (print_run _ L S w w' u b [Iret] false _ Hl Hp)|]. apply rtc_once, exec_iret.
Qed.

(** A handler that prints its messages and halts. *)
Lemma fatal_run ms (s : cpu K) sb :
  shows (screen s) sb → WRITER_LOCK ∉ locks s →
  ∃ s', rtc exec (raise ((ms ≫= print_code Vga) ++ [Hlt]) s) s' ∧ halted s'
    ∧ print (concat ms) (screen s) = Done (screen s').
Proof.
  move=> Hs Hl. rw /raise. set st := (_, running s) :: _.
  assert (∀ w sb sv, shows w sb → ∃ w', print (concat ms) w = Done w' ∧
    rtc exec (mkCpu false (locks s) (in_service s) w (serial s) (kbd s)
                (mkActivation ((ms ≫= print_code Vga) ++ [Hlt]) sv) st)
             (mkCpu false (locks s) (in_service s) w' (serial s) (kbd s)
                (mkActivation [Hlt] (if ms is [] then sv else false)) st)) as G.
  { elim: ms => [|m ms IH] w sb' sv Hw; [by exists w|].
    destruct (write_string_shows (concat m) w sb' Hw) as (w1 & E1 & S1).
    destruct (IH w1 _ false S1) as (w' & E' & Hr). exists w'. split.
    - rw /print in E' |- *. cbn [concat]. by rw concat_app write_string_app E1.
    - rw bind_cons -app_assoc. etrans; [by apply print_run|]. by case: ms IH E' Hr => [|??] ???. }
  destruct (G (screen s) sb false Hs) as (w' & E & Hr). eexists. split; [exact Hr|].
  split; [|done]. split; [done|]. by eexists.
Qed.

(** While the console is locked, such a handler gets nowhere. *)
Lemma fatal_stuck m k (s s' : cpu K) :
  WRITER_LOCK ∈ locks s → rtc exec (raise (print_code Vga m ++ k) s) s' →
  ¬ halted s' ∧ screen s' = screen s.
Proof.
  move=> Hl Hr. apply rtc_inv in Hr as [<-|(s1 & H1 & Hr)].
  { split; [|done]. by move=> [_ [k' E]]. }
  inversion H1; subst. apply rtc_inv in Hr as [<-|(s2 & H2 & _)].
  { split; [|done]. by move=> [_ [k' E]]. }
  inversion H2; subst. done.
Qed.

(** C38: A page fault is reported on the console and the machine halts with
    interrupts off, unless the fault strikes while the console is locked: then
    the handler waits for the lock for ever and nothing is printed. *)
Theorem page_fault_reports (s : cpu K) sb address error_code frame :
  shows (screen s) sb →
  let s0 := raise (page_fault_handler address error_code frame) s in
  (WRITER_LOCK ∉ locks s →
     ∃ s', rtc exec s0 s' ∧ halted s'
       ∧ print ([lit "EXCEPTION: PAGE FAULT"; [10]; lit "Accessed Address: "] ++ address
           ++ [[10]; lit "Error Code: "] ++ error_code ++ [[10]] ++ frame ++ [[10]]) (screen s)
         = Done (screen s'))
  ∧ (WRITER_LOCK ∈ locks s → ∀ s', rtc exec s0 s' → ¬ halted s' ∧ screen s' = screen s).
Proof.
  move=> Hs s0. split; [|move=> Hl s'; by apply fatal_stuck]. move=> Hl.
  pose ms := [[lit "EXCEPTION: PAGE FAULT"; [10]]; (lit "Accessed Address: " :: address) ++ [[10]];
    (lit "Error Code: " :: error_code) ++ [[10]]; frame ++ [[10]]].
  destruct (fatal_run ms s sb Hs Hl) as (s' & Hr & Hh & E). exists s'. split; [|split; [done|]].
  - move: Hr. rw /s0 /page_fault_handler /println_code /ms. cbn [mbind list_bind app].
    by rw -!app_assoc app_nil_l.
  - move: E. rw /ms. cbn [concat app]. by rw app_nil_r -!app_assoc.
Qed.

(** Likewise for a double fault, which panics. *)
Lemma double_fault_reports (s : cpu K) sb location frame :
  shows (screen s) sb → WRITER_LOCK ∉ locks s →
  ∃ s', rtc exec (raise (double_fault_handler location frame) s) s' ∧ halted s'
    ∧ print (location ++ lit "EXCEPTION: DOUBLE FAULT" :: [10] :: lit " " :: frame ++ [[10]]) (screen s)
      = Done (screen s').
Proof.
  move=> Hs Hl. pose m := (location ++ lit "EXCEPTION: DOUBLE FAULT" :: [10] :: lit " " :: frame) ++ [[10]].
  destruct (fatal_run [m] s sb Hs Hl) as (s' & Hr & Hh & E). exists s'. split; [|split; [done|]].
  - move: Hr. rw bind_cons app_nil_r. done.
  - move: E. cbn [concat]. by rw app_nil_r /m -!app_assoc.
Qed.
End exceptions.
