(* ===== verification/Atomic.v ===== *)
(** * Messages are atomic

    Whatever interrupts strike while the program of [Interrupts.v] prints, the
    screen and the serial port always show whole messages: those of the program
    in order, with the output of the keyboard handler between them and never
    inside of one.  This is what the masking of interrupts and the locks in
    the two [_print] functions are for. *)

From S2P Require Import Prelude Machine Str Vga Interrupts.

(** ** Messages *)

#[export] Instance device_eq_dec : EqDecision device.
Proof. solve_decision. Defined.

(** A message: its device and the pieces of its text. *)
Definition msg : Type := device * list str.

Definition breakpoint_text (frame : list str) : list str :=
  (lit "EXCEPTION: BREAKPOINT" :: [10] :: frame) ++ [[10]].

(** What the program prints, breakpoint reports included. *)
Definition program_msgs (p : list action) : list msg :=
  (λ a, match a with Print d ps => (d, ps) | Breakpoint fr => (Vga, breakpoint_text fr) end) <$> p.

(** What has been printed, and by whom. *)
Inductive origin := Own | ByKey.

Definition own (log : list (origin * msg)) : list msg :=
  log ≫= λ e, match e.1 with Own => [e.2] | ByKey => [] end.

Definition by_key (log : list (origin * msg)) : list msg :=
  log ≫= λ e, match e.1 with Own => [] | ByKey => [e.2] end.

(** The text of a log on one device. *)
Definition pieces_of (d : device) (ms : list msg) : list str :=
  ms ≫= λ m, if bool_decide (m.1 = d) then m.2 else [].

(** ** The shape of code *)

(** Code is made of whole messages, breakpoints and other instructions, with
    at most the first message under way. *)
Inductive item :=
  | Message (m : msg)
  | Trap (frame : list str)
  | Plain (i : instr).

Definition expand (x : item) : list instr :=
  match x with
  | Message (d, m) => print_code d m
  | Trap fr => [Int3 fr]
  | Plain i => [i]
  end.

Definition item_msgs (x : item) : list msg :=
  match x with
  | Message m => [m]
  | Trap fr => [(Vga, breakpoint_text fr)]
  | Plain _ => []
  end.

(** Instructions of handlers that do not touch the devices. *)
Definition plain_instr (i : instr) : Prop :=
  match i with
  | Acquire l | Release l => ∀ d, l ≠ device_lock d
  | Key _ | Eoi _ => True
  | _ => False
  end.

Inductive who := Program | KeyHandler | TrapHandler.

(** What each kind of code consists of. *)
Definition item_of (k : who) (x : item) : Prop :=
  match x with
  | Message _ => True
  | Trap _ => k = Program
  | Plain i => k = KeyHandler ∧ plain_instr i
  end.

(** How it ends. *)
Definition ending (k : who) : list instr := match k with Program => [] | _ => [Iret] end.

(** [shape k code printed todo busy]: the messages [todo] are still to be
    printed, of the first one [printed] has been; [busy] tells whether the
    code is between [Enter] and [Leave]. *)
Inductive shape (k : who) : list instr → option msg → list msg → bool → Prop :=
  | shape_out items :
      Forall (item_of k) items →
      shape k ((items ≫= expand) ++ ending k) None (items ≫= item_msgs) false
  | shape_entered d m items :
      Forall (item_of k) items →
      shape k (Acquire (device_lock d) :: (Text d <$> m)
               ++ Release (device_lock d) :: Leave :: (items ≫= expand) ++ ending k)
        None ((d, m) :: (items ≫= item_msgs)) true
  | shape_locked d qs ps items :
      Forall (item_of k) items →
      shape k ((Text d <$> ps)
               ++ Release (device_lock d) :: Leave :: (items ≫= expand) ++ ending k)
        (Some (d, qs)) ((d, qs ++ ps) :: (items ≫= item_msgs)) true
  | shape_left items :
      Forall (item_of k) items →
      shape k (Leave :: (items ≫= expand) ++ ending k) None (items ≫= item_msgs) true.

(** A shape as an equation, for case analysis on the first item. *)
Lemma shape_items k items c :
  Forall (item_of k) items → c = (items ≫= expand) ++ ending k →
  shape k c None (items ≫= item_msgs) false.
Proof. move=> ? ->. by constructor. Qed.

Ltac items_cases items H :=
  destruct items as [|[[? ?]|?|[]] items]; cbn in H; simplify_list_eq;
  try match goal with HF : Forall _ (_ :: _) |- _ => apply Forall_cons in HF as [? HF]; simpl in * end;
  try match goal with E : ending ?k = _ |- _ => destruct k; try discriminate; simplify_eq end;
  try naive_solver.

(** Case analysis on the shape of code that starts with an instruction. *)
Ltac shape_cases H :=
  inversion H as [items HF E|d' m items HF E|d' qs ps items HF E|items HF E]; subst;
  try match goal with
  | E : (Text _ <$> ?ps) ++ _ = _ :: _ |- _ => destruct ps; simplify_list_eq
  | E : (Text _ <$> ?ps) ++ _ = [] |- _ => destruct ps; simplify_list_eq
  | E : (?items ≫= expand) ++ ending _ = _ |- _ => items_cases items E
  end.

Section shapes.
Context (k : who) (c : list instr) (pr : option msg) (todo : list msg) (b : bool).

Lemma shape_enter : shape k (Enter :: c) pr todo b → shape k c None todo true ∧ pr = None.
Proof. move=> H. shape_cases H. split; [by constructor|done]. Qed.

Lemma shape_leave : shape k (Leave :: c) pr todo b → shape k c None todo false ∧ pr = None.
Proof. move=> H. shape_cases H. split; [by constructor|done]. Qed.

Lemma shape_acquire l : shape k (Acquire l :: c) pr todo b →
  pr = None ∧ ((∃ d, l = device_lock d ∧ shape k c (Some (d, [])) todo b ∧ b = true)
    ∨ (∀ d, l ≠ device_lock d) ∧ shape k c None todo b).
Proof.
  move=> H. shape_cases H; (split; [done|]); [right|left].
  - split; [naive_solver|]. by constructor.
  - exists d'. split; [done|]. split; [|done]. by apply (shape_locked k d' [] m items).
Qed.

Lemma shape_text d t : shape k (Text d t :: c) pr todo b →
  ∃ qs, pr = Some (d, qs) ∧ shape k c (Some (d, qs ++ [t])) todo b ∧ b = true.
Proof.
  move=> H. shape_cases H. exists qs. split; [done|]. split; [|done].
  have -> : qs ++ t :: ps = (qs ++ [t]) ++ ps by rw -app_assoc. by constructor.
Qed.

Lemma shape_release l : shape k (Release l :: c) pr todo b →
  (∃ d qs todo', l = device_lock d ∧ pr = Some (d, qs) ∧ todo = (d, qs) :: todo' ∧ b = true
     ∧ shape k c None todo' b)
  ∨ pr = None ∧ (∀ d, l ≠ device_lock d) ∧ shape k c None todo b.
Proof.
  move=> H. shape_cases H; [right|left].
  - split; [done|]. split; [naive_solver|]. by constructor.
  - exists d', qs. eexists. do 4 (split; [done|]). by constructor.
Qed.

Lemma shape_plain i : shape k (i :: c) pr todo b →
  match i with Key _ | Eoi _ => True | _ => False end →
  pr = None ∧ b = false ∧ k = KeyHandler ∧ shape k c None todo b.
Proof.
  move=> H Hi. shape_cases H; try done; do 2 (split; [done|]);
    (split; [naive_solver|by apply (shape_out k items)]).
Qed.

Lemma shape_trap fr : shape k (Int3 fr :: c) pr todo b →
  pr = None ∧ b = false ∧ k = Program
  ∧ ∃ todo', todo = (Vga, breakpoint_text fr) :: todo' ∧ shape k c None todo' false.
Proof.
  move=> H. shape_cases H. do 3 (split; [done|]). eexists. split; [done|]. by constructor.
Qed.

Lemma shape_iret : shape k (Iret :: c) pr todo b →
  pr = None ∧ todo = [] ∧ b = false ∧ k ≠ Program.
Proof. move=> H. shape_cases H. Qed.

Lemma shape_nil : shape k [] pr todo b → todo = [] ∧ k = Program.
Proof. move=> H. shape_cases H. Qed.

(** A key adds its message to the work. *)
Lemma shape_add m : shape KeyHandler c None todo false →
  shape KeyHandler (print_code m.1 m.2 ++ c) None (m :: todo) false.
Proof.
  case: m => d m H. inversion H as [items HF| | |]; subst. cbn [fst snd].
  have -> : print_code d m ++ (items ≫= expand) ++ ending KeyHandler
    = ((Message (d, m) :: items) ≫= expand) ++ ending KeyHandler by rw bind_cons -app_assoc.
  apply (shape_out KeyHandler (Message (d, m) :: items)). by constructor.
Qed.
End shapes.

(** The code of a program prints its messages. *)
Lemma program_shape p : shape Program (p ≫= action_code) None (program_msgs p) false.
Proof.
  pose it a := match a with Print d ps => Message (d, ps) | Breakpoint fr => Trap fr end.
  have E1 : p ≫= action_code = ((it <$> p) ≫= expand) ++ ending Program.
  { rw app_nil_r. elim: p => [|a p IH] //. rw fmap_cons !bind_cons IH. by case: a. }
  have -> : program_msgs p = (it <$> p) ≫= item_msgs.
  { rw /program_msgs. elim: p {E1} => [|a p IH] //. rw !fmap_cons bind_cons IH. by case: a. }
  rw E1. constructor. apply Forall_fmap, Forall_true. by case.
Qed.

Lemma breakpoint_shape fr :
  shape TrapHandler (breakpoint_handler fr) None [(Vga, breakpoint_text fr)] false.
Proof.
  have -> : breakpoint_handler fr = ([Message (Vga, breakpoint_text fr)] ≫= expand) ++ ending TrapHandler
    by rw bind_cons app_nil_r.
  apply (shape_out TrapHandler [Message (Vga, breakpoint_text fr)]). by repeat constructor.
Qed.

(** Handlers that print nothing of their own. *)
Lemma handler_shape il : Forall plain_instr il → shape KeyHandler (il ++ [Iret]) None [] false.
Proof.
  move=> Hi. assert ((Plain <$> il) ≫= expand = il) as E1
    by (elim: il {Hi} => [|i l IH] //; by rw fmap_cons bind_cons IH).
  assert ((Plain <$> il) ≫= item_msgs = []) as E2
    by (elim: il {Hi E1} => [|i l IH] //; by rw fmap_cons bind_cons IH).
  pose proof (shape_out KeyHandler (Plain <$> il)) as Hs. rw E1 E2 in Hs. apply Hs.
  apply Forall_fmap. by eapply Forall_impl.
Qed.

(** ** The invariant *)

Section atomic.
Context `{Profile} `{KeyboardDriver K}.
Context (w0 : Writer) (u0 : str) (program : list action).

(** The output of the keyboard driver for some key. *)
Definition key_msg (m : msg) : Prop :=
  ∃ (b : K) c b' out, decode b c = (b', Some out) ∧ m = (Vga, out).

(** [interrupting k st tr todo]: code of kind [k], with the messages [tr] ahead,
    has interrupted [st], and [todo] is what the program still prints. *)
Inductive interrupting : who → list (bool * activation) → list msg → list msg → Prop :=
  | no_handler tr : interrupting Program [] tr tr
  | key_handler f p sv tr todo :
      Forall key_msg tr → shape Program p None todo false →
      interrupting KeyHandler [(f, mkActivation p sv)] tr todo
  | trap_handler f p sv tr rest :
      shape Program p None rest false →
      interrupting TrapHandler [(f, mkActivation p sv)] tr (tr ++ rest).

Definition origin_of (k : who) : origin := match k with KeyHandler => ByKey | _ => Own end.

(** What is on the devices: the messages of the log and the part of the one
    under way. *)
Record displayed (s : cpu K) (log : list (origin * msg)) (pr : option msg) : Prop := {
  dp_screen : print (pieces_of Vga (log.*2 ++ option_list pr)) w0 = Done (screen s);
  dp_serial : serial s = u0 ++ concat (pieces_of Uart (log.*2 ++ option_list pr));
  dp_locks : ∀ d, device_lock d ∈ locks s ↔ ∃ qs, pr = Some (d, qs);
  dp_keys : Forall key_msg (by_key log);
}.

Definition atomic (s : cpu K) : Prop :=
  ∃ log todo pr busy k tr,
    shape k (code (running s)) pr tr busy ∧ interrupting k (interrupted s) tr todo
    ∧ displayed s log pr
    ∧ program_msgs program = own log ++ todo
    ∧ (enabled s = true → busy = false).

Lemma boot_atomic b : atomic (boot_cpu w0 u0 b program).
Proof.
  exists [], (program_msgs program), None, false, Program, (program_msgs program).
  split; [apply program_shape|]. split; [constructor|]. split; [|done].
  split; cbn; try done; [by rw app_nil_r|]. move=> d. split; [set_solver|naive_solver].
Qed.

(** A message leaves the list when it has been printed. *)
Lemma interrupting_pop k st m tr todo log : interrupting k st (m :: tr) todo →
  Forall key_msg (by_key log) →
  ∃ todo', interrupting k st tr todo'
    ∧ own log ++ todo = own (log ++ [(origin_of k, m)]) ++ todo'
    ∧ Forall key_msg (by_key (log ++ [(origin_of k, m)])).
Proof.
  move=> Hi Hl.
  have Eo : own (log ++ [(origin_of k, m)]) = own log ++ match k with KeyHandler => [] | _ => [m] end.
  { rw /own bind_app bind_cons app_nil_r. by case: k {Hi}. }
  have Ek : by_key (log ++ [(origin_of k, m)]) = by_key log ++ match k with KeyHandler => [m] | _ => [] end.
  { rw /by_key bind_app bind_cons app_nil_r. by case: k {Hi Eo}. }
  rw Eo Ek. inversion Hi as [|f p sv tr' todo' Ht|]; subst.
  - exists tr. rw app_nil_r -app_assoc. split; [constructor|done].
  - apply Forall_cons in Ht as [? ?]. exists todo. rw app_nil_r. split; [by constructor|]. split; [done|].
    apply Forall_app; split; [done|by constructor].
  - exists (tr ++ rest). rw app_nil_r -app_assoc. split; [by constructor|done].
Qed.

Lemma pieces_of_app d ms ms' : pieces_of d (ms ++ ms') = pieces_of d ms ++ pieces_of d ms'.
Proof. apply bind_app. Qed.

(** Another piece of the message under way. *)
Lemma pieces_of_snoc d d' l qs t :
  pieces_of d (l ++ [(d', qs ++ [t])]) =
    pieces_of d (l ++ [(d', qs)]) ++ (if bool_decide (d' = d) then [t] else []).
Proof. rw !pieces_of_app -app_assoc. f_equal. cbn. case_bool_decide; by rw !app_nil_r. Qed.

(** An instruction that leaves the devices alone. *)
Lemma displayed_same (s s' : cpu K) log pr pr' :
  displayed s log pr → screen s' = screen s → serial s' = serial s →
  (∀ d, pieces_of d (option_list pr') = pieces_of d (option_list pr)) →
  (∀ d, device_lock d ∈ locks s' ↔ ∃ qs, pr' = Some (d, qs)) → displayed s' log pr'.
Proof.
  move=> [H1 H2 _ H4] Ew Eu Ep Hl.
  split; rw ?Ew ?Eu ?pieces_of_app ?Ep -?pieces_of_app //.
Qed.

(** The log grows by the message that was under way. *)
Lemma displayed_log (s s' : cpu K) log o d qs :
  displayed s log (Some (d, qs)) → screen s' = screen s → serial s' = serial s →
  (∀ d, device_lock d ∉ locks s') → Forall key_msg (by_key (log ++ [(o, (d, qs))])) →
  displayed s' (log ++ [(o, (d, qs))]) None.
Proof.
  move=> [H1 H2 _ _] Ew Eu Hl Hk. split; rw ?fmap_app ?Ew ?Eu; cbn [fmap list_fmap snd option_list];
    rw ?app_nil_r //. move=> d'. split; [by move=> /Hl|naive_solver].
Qed.

Lemma device_lock_inj d d' : device_lock d = device_lock d' → d = d'.
Proof. by case: d; case: d'. Qed.

(** The parts of the invariant that tie a state to a log. *)
Definition logged (s : cpu K) (log : list (origin * msg)) (todo : list msg) (pr : option msg)
    (k : who) (tr : list msg) (busy : bool) : Prop :=
  shape k (code (running s)) pr tr busy ∧ interrupting k (interrupted s) tr todo
  ∧ displayed s log pr ∧ program_msgs program = own log ++ todo ∧ (enabled s = true → busy = false).

Lemma logged_atomic s log todo pr k tr busy : logged s log todo pr k tr busy → atomic s.
Proof. move=> ?. by exists log, todo, pr, busy, k, tr. Qed.

(** A step while no message is under way that touches neither the devices nor
    their locks. *)
Lemma logged_quiet (s s' : cpu K) log todo todo' k k' tr tr' busy busy' :
  logged s log todo None k tr busy →
  screen s' = screen s → serial s' = serial s →
  (∀ d, device_lock d ∈ locks s' → device_lock d ∈ locks s) →
  shape k' (code (running s')) None tr' busy' → interrupting k' (interrupted s') tr' todo' →
  todo' = todo → (enabled s' = true → busy' = false) → atomic s'.
Proof.
  move=> [_ [_ [Hdp [Hpm _]]]] Ew Eu Hl Hsh Hin Et Hon. subst todo'.
  exists log, todo, None, busy', k', tr'.
  do 2 (split; [done|]). split; [|done]. apply (displayed_same _ _ _ _ _ Hdp); try done.
  move=> d. split; [|naive_solver]. move=> /Hl. by destruct Hdp as [_ _ -> _].
Qed.

Lemma acquire_atomic f L S w u (b : K) d c sv st log todo k tr :
  logged (mkCpu f L S w u b (mkActivation (Acquire (device_lock d) :: c) sv) st) log todo None k tr true →
  shape k c (Some (d, [])) tr true →
  atomic (mkCpu f ({[device_lock d]} ∪ L) S w u b (mkActivation c sv) st).
Proof.
  move=> [_ [Hin [Hdp [Hpm Hon]]]] Hsh. exists log, todo, (Some (d, [])), true, k, tr.
  do 2 (split; [done|]). split; [|done].
  apply (displayed_same _ _ _ _ _ Hdp); try done; [by move=> d'; cbn; case_bool_decide|].
  move=> d'. destruct Hdp as [_ _ Hlk _]. cbn in *. rw elem_of_union elem_of_singleton Hlk. split.
  - move=> [/device_lock_inj ->|[? ?]]; [by eexists|done].
  - move=> [qs E]. left. congruence.
Qed.

Lemma release_atomic f L S w u (b : K) d qs c sv st log todo k tr :
  logged (mkCpu f L S w u b (mkActivation (Release (device_lock d) :: c) sv) st) log todo
    (Some (d, qs)) k ((d, qs) :: tr) true →
  shape k c None tr true →
  atomic (mkCpu f (L ∖ {[device_lock d]}) S w u b (mkActivation c sv) st).
Proof.
  move=> [_ [Hin [Hdp [Hpm Hon]]]] Hsh.
  destruct (interrupting_pop _ _ _ _ _ log Hin (dp_keys _ _ _ Hdp)) as (todo' & Hin' & E & Hk).
  exists (log ++ [(origin_of k, (d, qs))]), todo', None, true, k, tr. do 2 (split; [done|]).
  split; [|split; [by rw Hpm E|done]]. apply (displayed_log _ _ _ _ _ _ Hdp); try done.
  move=> d'. destruct Hdp as [_ _ Hlk _]. cbn in *.
  rw elem_of_difference elem_of_singleton Hlk. move=> [[qs' E'] Hne]. apply Hne. congruence.
Qed.

(** A piece of a message goes to the screen or to the serial port. *)
Lemma text_atomic (s s' : cpu K) log todo k tr d qs t :
  logged s log todo (Some (d, qs)) k tr true →
  (if bool_decide (d = Vga) then write_string t (screen s) = Done (screen s') ∧ serial s' = serial s
   else screen s' = screen s ∧ serial s' = serial s ++ t) →
  locks s' = locks s → enabled s' = enabled s → interrupted s' = interrupted s →
  shape k (code (running s')) (Some (d, qs ++ [t])) tr true → atomic s'.
Proof.
  move=> [_ [Hin [[Hd1 Hd2 Hd3 Hd4] [Hpm Hon]]]] Ht El Ee Ei Hsh.
  exists log, todo, (Some (d, qs ++ [t])), true, k, tr. rw Ee Ei. do 2 (split; [done|]). split; [|done].
  cbn [option_list] in *. split; cbn [option_list]; [| | |done].
  - rw pieces_of_snoc. case: d Hsh Hd1 Ht {Hd2 Hd3} => Hsh Hd1 [Ht _]; cbn; [|by rw app_nil_r Ht].
    by rw /print concat_app write_string_app -/(print _ w0) Hd1 bind_Done /= app_nil_r.
  - rw pieces_of_snoc. case: d Hsh Hd2 Ht {Hd1 Hd3} => Hsh Hd2 [_ ->]; cbn; rw Hd2; [by rw app_nil_r|].
    by rw concat_app /= app_nil_r app_assoc.
  - move=> d'. rw El Hd3. naive_solver.
Qed.

Lemma exec_atomic s s' : atomic s → exec s s' → atomic s'.
Proof.
  move=> Ha Hs. destruct Ha as (log & todo & pr & busy & k & tr & HA). have [Hsh [Hin [_ [_ Hon]]]] := HA.
  have {}HA : logged s log todo pr k tr busy := HA.
  destruct Hs; cbn [running interrupted enabled code] in Hsh, Hin, Hon.
  - apply shape_enter in Hsh as [Hsh ->]. by apply (logged_quiet _ _ _ _ todo _ k _ tr _ true HA).
  - apply shape_leave in Hsh as [Hsh ->]. by apply (logged_quiet _ _ _ _ todo _ k _ tr _ false HA).
  - apply shape_acquire in Hsh as [-> [(d & -> & Hsh & ->)|[Hl Hsh]]]; [by eapply acquire_atomic|].
    apply (logged_quiet _ _ _ _ todo _ k _ tr _ busy HA); try done. cbn. set_solver.
  - apply shape_release in Hsh as [(d & qs & tr' & -> & -> & -> & -> & Hsh)|(-> & Hl & Hsh)];
      [by eapply release_atomic|].
    apply (logged_quiet _ _ _ _ todo _ k _ tr _ busy HA); try done. cbn. set_solver.
  - apply shape_text in Hsh as (qs & -> & Hsh & ->). by eapply text_atomic.
  - apply shape_text in Hsh as (qs & -> & Hsh & ->). by eapply text_atomic.
  - destruct (shape_plain _ _ _ _ _ _ Hsh I) as (-> & -> & -> & Hsh'). inversion Hin; subst.
    destruct out as [ps|]; [|by apply (logged_quiet _ _ _ _ todo _ KeyHandler _ tr _ false HA)].
    apply (logged_quiet _ _ _ _ todo _ KeyHandler _ ((Vga, ps) :: tr) _ false HA); try done.
    + by apply (shape_add _ _ (Vga, ps)).
    + constructor; [|done]. constructor; [by eexists b, c, b', ps|done].
  - destruct (shape_plain _ _ _ _ _ _ Hsh I) as (-> & -> & -> & Hsh').
    by apply (logged_quiet _ _ _ _ todo _ KeyHandler _ tr _ false HA).
  - apply shape_trap in Hsh as (-> & -> & -> & todo' & -> & Hsh). inversion Hin; subst.
    apply (logged_quiet _ _ _ _ ([(Vga, breakpoint_text fr)] ++ todo') _ TrapHandler _
      [(Vga, breakpoint_text fr)] _ false HA); try done; [apply breakpoint_shape|by constructor].
  - apply shape_iret in Hsh as (-> & -> & -> & Hk). inversion Hin; subst; try done.
    + apply (logged_quiet _ _ _ _ todo _ Program _ todo _ false HA); try done. constructor.
    + apply (logged_quiet _ _ _ _ rest _ Program _ rest _ false HA); try done. constructor.
Qed.

Lemma timer_shape : shape KeyHandler timer_interrupt_handler None [] false.
Proof.
  apply (handler_shape [Acquire PICS_LOCK; Eoi (as_u8 Timer); Release PICS_LOCK]).
  by repeat constructor; case.
Qed.

Lemma keyboard_shape c : shape KeyHandler (keyboard_interrupt_handler c) None [] false.
Proof.
  apply (handler_shape [Acquire KEYBOARD_LOCK; Key c; Acquire PICS_LOCK; Eoi (as_u8 Keyboard);
    Release PICS_LOCK; Release KEYBOARD_LOCK]).
  by repeat constructor; case.
Qed.

Lemma deliver_atomic s s' : cpu_ok s → atomic s → deliver s s' → atomic s'.
Proof.
  move=> Hok Ha Hs. destruct Ha as (log & todo & pr & busy & k & tr & HA).
  have [Hsh [Hin [_ [_ Hon]]]] := HA. have {}HA : logged s log todo pr k tr busy := HA. have Hst : interrupted s = [].
  { destruct Hok as [_ _ [h [_ Hst]]]. destruct Hs; cbn in Hst |- *; by apply stack_ok_enabled in Hst as [_ ?]. }
  have Hpr : k = Program ∧ tr = todo ∧ busy = false.
  { rw Hst in Hin. inversion Hin; subst. do 2 (split; [done|]). destruct Hs; by apply Hon. }
  destruct Hpr as (-> & -> & ->). have Hpn : pr = None by inversion Hsh. subst pr.
  destruct Hs; cbn [interrupted running code enabled] in Hst, Hsh, Hin, Hon; subst st; destruct a as [c0 sv0];
    apply (logged_quiet _ _ _ _ todo _ KeyHandler _ [] _ false HA); try done; try by constructor.
  - apply timer_shape.
  - apply keyboard_shape.
Qed.

Lemma steps_atomic s s' : cpu_ok s → atomic s → rtc cpu_step s s' → atomic s'.
Proof.
  move=> + + Hs. elim: Hs => {s s'} [//|s s1 s' [Hs|Hs] _ IH] Ho Ha; apply IH.
  - by eapply exec_ok.
  - by eapply exec_atomic.
  - by eapply deliver_ok.
  - by eapply deliver_atomic.
Qed.
End atomic.

(** ** Theorem *)

Section theorem.
Context `{Profile} `{KeyboardDriver K}.

(** C17: Messages are atomic: in every state that can be reached with both
    devices unlocked, whatever interrupts came, the screen and the serial port
    hold whole messages only.  They are those of a prefix of the program, in
    its order and breakpoint reports included, with whole outputs of the
    keyboard driver between them; at the end of the program all its messages
    have been printed. *)
Theorem printing_atomic w sb u (b : K) program s :
  shows w sb → rtc cpu_step (boot_cpu w u b program) s →
  WRITER_LOCK ∉ locks s → SERIAL1_LOCK ∉ locks s →
  ∃ log todo,
    print (pieces_of Vga log.*2) w = Done (screen s)
    ∧ serial s = u ++ concat (pieces_of Uart log.*2)
    ∧ program_msgs program = own log ++ todo
    ∧ Forall (key_msg (K := K)) (by_key log)
    ∧ (finished s → todo = []).
Proof.
  move=> Hw Hr Hl1 Hl2. have Ho := boot_cpu_ok w sb u b program Hw.
  have Ha := steps_atomic w u program _ _ Ho (boot_atomic w u program b) Hr.
  destruct Ha as (log & todo & pr & busy & k & tr & Hsh & Hin & Hdp & Hpm & Hon).
  destruct Hdp as [Hd1 Hd2 Hd3 Hd4].
  have Hpr : pr = None.
  { case: pr Hsh Hd1 Hd2 Hd3 => [[d qs]|] // _ _ _ Hd3. have : device_lock d ∈ locks s by apply Hd3; eexists.
    by case: d {Hd3}. }
  subst pr. rw app_nil_r in Hd1 Hd2. exists log, todo. do 4 (split; [done|]).
  move=> [Hi Hc]. rw Hc in Hsh. apply shape_nil in Hsh as [-> ->]. by inversion Hin.
Qed.
End theorem.
