(* ===== verification/Tables.v ===== *)
(** * Descriptor tables and the initialisation of the kernel

    Models [src/src/gdt.rs], the interrupt descriptor table of
    [src/src/interrupts.rs] and [init] of [src/src/lib.rs]: which tables are
    built, in which order they are handed to the processor, and when interrupts
    are turned on.

    The types of the tables belong to another crate: they are parameters, with
    what the kernel relies on stated as laws.  The processor checks a selector
    against the table that is loaded when the selector is used. *)

From S2P Require Import Prelude Machine Str Slab Vga Interrupts.

(** ** Tables of the processor crate *)

(** Task state segments and global descriptor tables; a table has a fixed
    number of slots, of which a descriptor takes one or two. *)
Class Descriptors := {
  TaskStateSegment : Type;
  tss_new : TaskStateSegment;
  set_interrupt_stack : Z → Z → TaskStateSegment → TaskStateSegment;
  interrupt_stack : TaskStateSegment → Z → Z;
  Descriptor : Type;
  kernel_code_segment : Descriptor;
  tss_segment : TaskStateSegment → Descriptor;
  is_code : Descriptor → bool;
  as_tss : Descriptor → option TaskStateSegment;
  slots : Descriptor → nat;
  GlobalDescriptorTable : Type;
  SegmentSelector : Type;
  gdt_new : GlobalDescriptorTable;
  room : GlobalDescriptorTable → nat;
  add_entry : Descriptor → GlobalDescriptorTable → outcome (GlobalDescriptorTable * SegmentSelector);
  descriptor_at : GlobalDescriptorTable → SegmentSelector → option Descriptor;
}.

(** Slots hold what was stored in them; while there is room, adding an entry
    returns its selector and keeps the entries that are there. *)
Class DescriptorLaws `{Descriptors} := {
  interrupt_stack_set i a t : 0 <= i < 7 → interrupt_stack (set_interrupt_stack i a t) i = a;
  kernel_code_is_code : is_code kernel_code_segment = true;
  as_tss_segment t : as_tss (tss_segment t) = Some t;
  kernel_code_slots : slots kernel_code_segment = 1%nat;
  tss_slots t : slots (tss_segment t) = 2%nat;
  room_new : room gdt_new = 7%nat;
  add_entry_ok d g : (slots d <= room g)%nat → ∃ g' s, add_entry d g = Done (g', s)
    ∧ descriptor_at g' s = Some d ∧ room g' = (room g - slots d)%nat
    ∧ ∀ s' d', descriptor_at g s' = Some d' → descriptor_at g' s' = Some d';
}.

(** Interrupt descriptor tables: a gate per vector, with a handler and the
    index of the stack to switch to. *)
Class GateTables (Handler : Type) := {
  InterruptDescriptorTable : Type;
  idt_new : InterruptDescriptorTable;
  set_handler_fn : Z → Handler → InterruptDescriptorTable → InterruptDescriptorTable;
  set_stack_index : Z → Z → InterruptDescriptorTable → InterruptDescriptorTable;
  gate_at : InterruptDescriptorTable → Z → option (Handler * option Z);
}.

(** A gate that was not set yet gets the handler and no stack. *)
Class GateLaws (Handler : Type) `{GateTables Handler} := {
  gate_new v : gate_at idt_new v = None;
  gate_set v h t : gate_at t v = None → gate_at (set_handler_fn v h t) v = Some (h, None);
  gate_set_ne v v' h t : v ≠ v' → gate_at (set_handler_fn v h t) v' = gate_at t v';
  gate_stack v i t h s : gate_at t v = Some (h, s) → gate_at (set_stack_index v i t) v = Some (h, Some i);
  gate_stack_ne v v' i t : v ≠ v' → gate_at (set_stack_index v i t) v' = gate_at t v';
}.

(** ** The tables of the kernel *)

Definition DOUBLE_FAULT_IST_INDEX : Z := 0.
Definition STACK_SIZE : Z := 4096 * 5.

(** The vectors of the exceptions, fixed by the processor. *)
Definition breakpoint_vector : Z := 3.
Definition double_fault_vector : Z := 8.
Definition page_fault_vector : Z := 14.

(** The handlers that the table names. *)
Inductive handler :=
  | BreakpointHandler | DoubleFaultHandler | PageFaultHandler | TimerHandler | KeyboardHandler.

Section tables.
Context `{Profile} `{VirtAddr} `{Descriptors} `{GateTables handler}.

(** [TSS], where [STACK] starts at the address [stack]. *)
Definition TSS (stack : Z) : outcome TaskStateSegment :=
  stack_start ← virt_new stack;
  stack_end ← virt_add stack_start STACK_SIZE;
  Done (set_interrupt_stack DOUBLE_FAULT_IST_INDEX stack_end tss_new).

Record Selectors := mkSelectors { code_selector : SegmentSelector; tss_selector : SegmentSelector }.

Definition GDT (stack : Z) : outcome (GlobalDescriptorTable * Selectors) :=
  let gdt := gdt_new in
  r ← add_entry kernel_code_segment gdt;
  let '(gdt, code_selector) := r in
  tss ← TSS stack;
  r ← add_entry (tss_segment tss) gdt;
  let '(gdt, tss_selector) := r in
  Done (gdt, mkSelectors code_selector tss_selector).

Definition IDT : InterruptDescriptorTable :=
  let idt := idt_new in
  let idt := set_handler_fn breakpoint_vector BreakpointHandler idt in
  let idt := set_stack_index double_fault_vector DOUBLE_FAULT_IST_INDEX
               (set_handler_fn double_fault_vector DoubleFaultHandler idt) in
  let idt := set_handler_fn (as_usize Timer) TimerHandler idt in
  let idt := set_handler_fn (as_usize Keyboard) KeyboardHandler idt in
  set_handler_fn page_fault_vector PageFaultHandler idt.

(** ** Initialisation *)

(** What the kernel tells the processor and the interrupt controllers. *)
Inductive effect :=
  | LoadGdt (g : GlobalDescriptorTable)
  | SetCs (c : SegmentSelector)
  | LoadTss (c : SegmentSelector)
  | LoadIdt (t : InterruptDescriptorTable)
  | InitializePics (offset1 offset2 : Z)
  | Enable.

(** [gdt::init] *)
Definition gdt_init (stack : Z) : outcome (list effect) :=
  gdt ← GDT stack;
  Done [LoadGdt gdt.1; SetCs (code_selector gdt.2); LoadTss (tss_selector gdt.2)].

(** [interrupts::init_idt] *)
Definition init_idt : list effect := [LoadIdt IDT].

(** [init], as the sequence of its effects. *)
Definition init (stack : Z) : outcome (list effect) :=
  es ← gdt_init stack;
  Done (es ++ init_idt ++ [InitializePics PIC_1_OFFSET PIC_2_OFFSET; Enable]).

(** ** The processor *)

Record system := mkSystem {
  gdtr : option GlobalDescriptorTable;
  cs : option SegmentSelector;
  tr : option TaskStateSegment;
  idtr : option InterruptDescriptorTable;
  pics : option (Z * Z);
  flag : bool;
}.

(** The descriptor that a selector names now. *)
Definition selected (s : system) (c : SegmentSelector) : option Descriptor :=
  g ← gdtr s; descriptor_at g c.

(** A selector that does not name a descriptor of the right kind is a fault:
    [None]. *)
Definition apply_effect (e : effect) (s : system) : option system :=
  match e with
  | LoadGdt g => Some (mkSystem (Some g) (cs s) (tr s) (idtr s) (pics s) (flag s))
  | SetCs c =>
      d ← selected s c;
      if is_code d then Some (mkSystem (gdtr s) (Some c) (tr s) (idtr s) (pics s) (flag s)) else None
  | LoadTss c =>
      d ← selected s c;
      tss ← as_tss d;
      Some (mkSystem (gdtr s) (cs s) (Some tss) (idtr s) (pics s) (flag s))
  | LoadIdt t => Some (mkSystem (gdtr s) (cs s) (tr s) (Some t) (pics s) (flag s))
  | InitializePics o1 o2 => Some (mkSystem (gdtr s) (cs s) (tr s) (idtr s) (Some (o1, o2)) (flag s))
  | Enable => Some (mkSystem (gdtr s) (cs s) (tr s) (idtr s) (pics s) true)
  end.

Fixpoint apply_effects (es : list effect) (s : system) : option system :=
  match es with
  | [] => Some s
  | e :: es => s ← apply_effect e s; apply_effects es s
  end.

(** The handler of a vector and the stack it is given, if it has one of its
    own. *)
Definition dispatch (s : system) (v : Z) : option (handler * option Z) :=
  t ← idtr s;
  '(h, i) ← gate_at t v;
  match i with
  | None => Some (h, None)
  | Some i => tss ← tr s; Some (h, Some (interrupt_stack tss i))
  end.

(** The vector of an interrupt line of the chained controllers. *)
Definition line_vector (s : system) (line : Z) : option Z :=
  '(o1, o2) ← pics s;
  if line <? 8 then Some (o1 + line) else Some (o2 + (line - 8)).
End tables.

(** ** Correctness *)

Section correctness.
Context `{Profile} `{VirtAddr} `{!VirtAddrOk} `{DescriptorLaws} `{GateLaws handler}.

(** A gate that the kernel has not set. *)
Ltac unset_gate :=
  repeat first [rw gate_set_ne; [by vm_compute|] | rw gate_stack_ne; [by vm_compute|]];
  apply gate_new.

Lemma IDT_gates v : gate_at IDT v =
  if v =? page_fault_vector then Some (PageFaultHandler, None)
  else if v =? as_usize Keyboard then Some (KeyboardHandler, None)
  else if v =? as_usize Timer then Some (TimerHandler, None)
  else if v =? double_fault_vector then Some (DoubleFaultHandler, Some DOUBLE_FAULT_IST_INDEX)
  else if v =? breakpoint_vector then Some (BreakpointHandler, None)
  else None.
Proof.
  rw /IDT. case_test; [subst; apply gate_set; unset_gate|]. rw gate_set_ne; [congruence|].
  case_test; [subst; apply gate_set; unset_gate|]. rw gate_set_ne; [congruence|].
  case_test; [subst; apply gate_set; unset_gate|]. rw gate_set_ne; [congruence|].
  case_test; [subst; apply (gate_stack _ _ _ _ None), gate_set; unset_gate|].
  rw gate_stack_ne; [congruence|]. rw gate_set_ne; [congruence|].
  case_test; [subst; apply gate_set; unset_gate|]. rw gate_set_ne; [congruence|]. apply gate_new.
Qed.

(** The tables that [gdt::init] loads. *)
Lemma GDT_entries stack : 0 <= stack → stack + STACK_SIZE < 2 ^ 47 →
  ∃ g sel tss, GDT stack = Done (g, sel)
    ∧ descriptor_at g (code_selector sel) = Some kernel_code_segment
    ∧ descriptor_at g (tss_selector sel) = Some (tss_segment tss)
    ∧ interrupt_stack tss DOUBLE_FAULT_IST_INDEX = stack + STACK_SIZE.
Proof.
  move=> ??. have ? : 0 <= STACK_SIZE by [].
  destruct (add_entry_ok kernel_code_segment gdt_new) as (g1 & c & E1 & Hc & R1 & _).
  { rw kernel_code_slots room_new. lia. }
  set tss := set_interrupt_stack DOUBLE_FAULT_IST_INDEX (stack + STACK_SIZE) tss_new.
  destruct (add_entry_ok (tss_segment tss) g1) as (g2 & t & E2 & Ht & _ & Hk).
  { rw tss_slots R1 kernel_code_slots room_new. lia. }
  exists g2, (mkSelectors c t), tss. split_and!; [|by apply Hk|done|by apply interrupt_stack_set].
  rw /GDT E1 bind_Done /TSS virt_new_low; [lia|]. rw bind_Done /virt_add arith_ok; [lia|].
  rw bind_Done virt_new_low; [lia|]. by rw !bind_Done E2 bind_Done.
Qed.

(** What the processor does once it is interrupted. *)
Definition serves (stack : Z) (s : system) : Prop :=
  (∀ line v, 0 <= line < 16 → line_vector s line = Some v →
     dispatch s v = if line =? 0 then Some (TimerHandler, None)
                    else if line =? 1 then Some (KeyboardHandler, None) else None)
  ∧ dispatch s breakpoint_vector = Some (BreakpointHandler, None)
  ∧ dispatch s page_fault_vector = Some (PageFaultHandler, None)
  ∧ dispatch s double_fault_vector = Some (DoubleFaultHandler, Some (stack + STACK_SIZE)).

Lemma IDT_serves stack g c tss :
  interrupt_stack tss DOUBLE_FAULT_IST_INDEX = stack + STACK_SIZE →
  serves stack (mkSystem g c (Some tss) (Some IDT) (Some (PIC_1_OFFSET, PIC_2_OFFSET)) true).
Proof.
  move=> Hs. split_and!; rw /dispatch; cbn [idtr mbind option_bind].
  - move=> line v ?. rw /line_vector. cbn [pics mbind option_bind]. move=> Ev.
    have -> : v = 32 + line.
    { move: Ev. rw /PIC_2_OFFSET /PIC_1_OFFSET. case_test => -[<-]; lia. }
    rw IDT_gates /page_fault_vector /double_fault_vector /breakpoint_vector /as_usize /as_u8 /PIC_1_OFFSET.
    repeat case_test; done || lia.
  - by rw IDT_gates.
  - by rw IDT_gates.
  - rw IDT_gates -Hs. done.
Qed.

(** C23: The kernel is initialised in a safe order: wherever the fault stack
    lies in the lower half, [init] does not panic, none of the selectors it
    loads faults, interrupts stay off until the very last step, and then the
    two interrupt lines the kernel knows reach their handlers (the other lines
    of the controllers have none), the exceptions reach theirs, and a double
    fault runs on the top of its own stack. *)
Theorem init_safe stack s : 0 <= stack → stack + STACK_SIZE < 2 ^ 47 → flag s = false →
  ∃ es s', init stack = Done es ∧ apply_effects es s = Some s' ∧ flag s' = true ∧ serves stack s'
    ∧ ∀ n, (n < length es)%nat → ∃ si, apply_effects (take n es) s = Some si ∧ flag si = false.
Proof.
  move=> ?? Hf. destruct (GDT_entries stack) as (g & sel & tss & E & Hc & Ht & Hs); [done|done|].
  rw /init /gdt_init E !bind_Done. eexists _, _. split; [done|]. cbn [fst snd app init_idt].
  have A : ∀ es, apply_effects (LoadGdt g :: SetCs (code_selector sel) :: LoadTss (tss_selector sel) :: es) s
      = apply_effects es (mkSystem (Some g) (Some (code_selector sel)) (Some tss) (idtr s) (pics s) (flag s)).
  { move=> es. cbn. rw Hc. cbn. rw kernel_code_is_code. cbn. rw Ht. cbn. by rw as_tss_segment. }
  split; [by rw A|]. split; [done|]. split; [by apply IDT_serves|].
  move=> n Hn. destruct n as [|[|[|n]]]; [by eexists|by eexists| |].
  - cbn. rw Hc. cbn. rw kernel_code_is_code. by eexists.
  - cbn [take]. rw A. cbn [length] in Hn. destruct n as [|[|[|n]]]; [by eexists..|lia].
Qed.
End correctness.
