(* ===== verification/Kernel.v ===== *)
(** * The boot of the kernel

    Models [kernel_main] of [src/src/main.rs]: the tables of the processor are
    set up, the heap is mapped, the image is copied to the heap and mounted, and
    a shell session runs a fixed list of commands, each unwrapped.  Of the heap
    only the copy of the image is modelled here: the handle that sessions share
    and the strings and vectors of the commands are not. *)

From S2P Require Import Prelude Machine Str Volume DirEntry Names DirSpec Path Stability.
From S2P Require Import FileOps FileOpsSpec WriteSpec CreateSpec Vga Shell.
From S2P Require Import Alloc DList Slab SlabRep SlabSpec Memory Interrupts Tables.

(** ** Operations *)

(** [r.unwrap()] on the result of a call. *)
Definition unwrapped {S A} (call : method S A) (s : S) : outcome (S * A) :=
  r ← call s;
  match r.2 with
  | Ok a => Done (r.1, a)
  | Err _ => Panic UnwrapFailed
  end.

(** The commands of [kernel_main], in order. *)
Definition kernel_commands : list command :=
  [ Ls None; Cd (lit "test_dir"); Ls None; Cd (lit "../"); Ls None; Ls (Some (lit "test_dir"));
    Cat (lit "test_dir/test_dir_file"); MkDir [] (lit "file_t"); MkDir [] (lit "folder_t");
    Ls None; Cd (lit "test_dir") ].

Section operations.
Context `{Profile} `{UnicodeCase} `{VirtAddr} `{FrameAllocator A Frame} `{!Paging M A Page Frame E}.
Context `{!OffsetPageTables M} `{Descriptors} `{GateTables handler}.

(** One unwrapped command. *)
Definition run_unwrapped (fuel : nat) (c : command) (self : ShellSession) (w : World)
    : outcome (World * ShellSession) :=
  unwrapped (perform fuel c self) w.

Fixpoint run_all (fuel : nat) (cs : list command) (self : ShellSession) (w : World)
    : outcome (World * ShellSession) :=
  match cs with
  | [] => Done (w, self)
  | c :: cs =>
      r ← run_unwrapped fuel c self w;
      run_all fuel cs r.2 r.1
  end.

(** [Vec::from] of an array of bytes, on the heap: no request is made for an
    empty one, and a null pointer is a failed allocation. *)
Definition vec_from (bytes : list Z) (allocator : Locked SlabAllocator) : outcome (Locked SlabAllocator) :=
  if zlen bytes =? 0 then Done allocator
  else
    r ← alloc (mkLayout (zlen bytes) 1) allocator;
    match r.2 with
    | Some _ => Done r.1
    | None => Panic (Explicit "memory allocation failed")
    end.

(** What the boot finds: the addresses of the fault stack and of the active
    page table, the offset of the physical memory, the bytes of the image, the
    console and the frames of the memory map. *)
Record BootState := mkBoot {
  fault_stack : Z;
  cr3 : Z;
  physical_memory_offset : Z;
  raw_disk : list Z;
  boot_console : Writer;
  boot_frames : A;
}.

(** The effects of [init] on the processor and the state when [hlt_loop] is
    reached. *)
Definition kernel_main (fuel : nat) (k : BootState)
    : outcome (list effect * World * ShellSession * Locked SlabAllocator) :=
  c ← println (lit "Hello World!") (boot_console k);
  es ← init (fault_stack k);
  phys_mem_offset ← virt_new (physical_memory_offset k);
  mapper ← memory_init (cr3 k) phys_mem_offset;
  let frames := boot_frames k in
  r ← init_heap mapper frames ALLOCATOR;
  let '(_, _, allocator, heap) := r in
  _ ← match heap with Ok _ => Done tt | Err _ => Panic (Explicit "heap initialization failed") end;
  allocator ← vec_from (raw_disk k) allocator;
  fs ← new (raw_disk k);
  r ← unwrapped new_session (mkWorld (mkMutex false fs) c);
  r ← run_all fuel kernel_commands r.2 r.1;
  c ← println (lit "Did not crash!") (Shell.console r.1);
  Done (es, mkWorld (shared r.1) c, r.2, allocator).
End operations.

(** ** The script on the file system *)

Section script.
Context `{Profile} `{UnicodeCase}.

Definition listed (fs : Fat32FileSystem) (cluster : Z) : outcome str :=
  files ← list_directory_entries fs cluster;
  Done (ls_text files).

(** The entry that a path must name. *)
Definition named (fs : Fat32FileSystem) (path : str) (cwd : Z) : outcome FileInfo :=
  f ← parse_path fs path (Some cwd);
  unwrap f.

Definition entered (fs : Fat32FileSystem) (path : str) (cwd : Z) : outcome Z :=
  f ← named fs path cwd;
  if is_directory f then Done (start_cluster f) else Panic UnwrapFailed.

Definition made (name : str) (fs : Fat32FileSystem) : outcome Fat32FileSystem :=
  r ← mkdir [] name fs;
  match r.2 with Ok _ => Done r.1 | Err _ => Panic UnwrapFailed end.

(** What the boot is to do with the mounted file system, in terms of the file
    system alone: the file system it leaves, the directory it ends in and the
    text it prints. *)
Definition boot_script (fuel : nat) (fs : Fat32FileSystem) : outcome (Fat32FileSystem * Z * str) :=
  root_text ← listed fs (root_cluster fs);
  dir ← entered fs (lit "test_dir") (root_cluster fs);
  dir_text ← listed fs dir;
  up ← entered fs (lit "../") dir;
  up_text ← listed fs up;
  f ← named fs (lit "test_dir") up;
  again ← listed fs (start_cluster f);
  r ← read_file fuel fs (lit "test_dir/test_dir_file") None;
  let content := match r with Ok s => s | Err e => e end in
  fs1 ← made (lit "file_t") fs;
  fs2 ← made (lit "folder_t") fs1;
  last_text ← listed fs2 up;
  cwd ← entered fs2 (lit "test_dir") up;
  Done (fs2, cwd, root_text ++ dir_text ++ up_text ++ again ++ content ++ [10] ++ last_text).

(** Commands that must succeed, as their effects on the file system. *)
Fixpoint effects (fuel : nat) (cs : list command) (cwd : Z) (fs : Fat32FileSystem)
    : outcome (Fat32FileSystem * Z * str) :=
  match cs with
  | [] => Done (fs, cwd, [])
  | c :: cs =>
      e ← command_effect fuel c cwd fs;
      match e.1.2 with
      | Err _ => Panic UnwrapFailed
      | Ok cwd =>
          rest ← effects fuel cs cwd e.1.1;
          Done (rest.1, e.2 ++ rest.2)
      end
  end.

(** The steps of the script. *)
Lemma effects_ls fuel cs cwd fs :
  effects fuel (Ls None :: cs) cwd fs =
    (t ← listed fs cwd; rest ← effects fuel cs cwd fs; Done (rest.1, t ++ rest.2)).
Proof. cbn [effects command_effect]. rw /listed. by case: (list_directory_entries fs cwd). Qed.

Lemma effects_ls_path fuel p cs cwd fs :
  effects fuel (Ls (Some p) :: cs) cwd fs =
    (f ← named fs p cwd; t ← listed fs (start_cluster f);
     rest ← effects fuel cs cwd fs; Done (rest.1, t ++ rest.2)).
Proof.
  cbn [effects command_effect]. rw /named /listed. case: (parse_path fs p _) => [[f|]|q|] //.
  rw !bind_Done. by case: (list_directory_entries fs _).
Qed.

Lemma effects_cd fuel p cs cwd fs :
  effects fuel (Cd p :: cs) cwd fs = (d ← entered fs p cwd; effects fuel cs d fs).
Proof.
  cbn [effects command_effect]. rw /entered /named. case: (parse_path fs p _) => [[f|]|q|] //.
  rw !bind_Done. cbn [fst snd]. case: (is_directory f) => //. rw bind_Done.
  by case: (effects fuel cs _ fs) => [[? ?]|?|].
Qed.

Lemma effects_cat fuel p cs cwd fs :
  effects fuel (Cat p :: cs) cwd fs =
    (r ← read_file fuel fs p None; rest ← effects fuel cs cwd fs;
     Done (rest.1, (match r with Ok s => s | Err e => e end) ++ [10] ++ rest.2)).
Proof.
  cbn [effects command_effect]. case: (read_file fuel fs p None) => [r|q|] //. rw !bind_Done. cbn [fst snd].
  case: (effects fuel cs cwd fs) => [[? ?]|?|] //. by rw !bind_Done -app_assoc.
Qed.

Lemma effects_mkdir fuel name cs cwd fs :
  effects fuel (MkDir [] name :: cs) cwd fs = (fs' ← made name fs; effects fuel cs cwd fs').
Proof.
  cbn [effects command_effect]. rw /call_effect /made. case: (mkdir [] name fs) => [[fs' [u|e]]|q|] //.
  rw !bind_Done. cbn [fst snd]. by case: (effects fuel cs cwd fs') => [[? ?]|?|].
Qed.

(** The commands of the kernel are the script. *)
Lemma kernel_commands_script fuel fs :
  effects fuel kernel_commands (root_cluster fs) fs = boot_script fuel fs.
Proof.
  rw /kernel_commands /boot_script effects_ls. case: (listed fs _) => [t0|q|] //. rw !bind_Done effects_cd.
  case: (entered fs _ _) => [d|q|] //. rw !bind_Done effects_ls. case: (listed fs d) => [t1|q|] //.
  rw !bind_Done effects_cd. case: (entered fs _ d) => [u|q|] //. rw !bind_Done effects_ls.
  case: (listed fs u) => [t2|q|] //. rw !bind_Done effects_ls_path. case: (named fs _ u) => [f|q|] //.
  rw !bind_Done. case: (listed fs _) => [t3|q|] //. rw !bind_Done effects_cat.
  case: (read_file _ _ _ _) => [r|q|] //. rw !bind_Done !effects_mkdir.
  case: (made _ fs) => [fs1|q|] //. rw !bind_Done effects_mkdir. case: (made _ fs1) => [fs2|q|] //.
  rw !bind_Done effects_ls. case: (listed fs2 u) => [t4|q|] //. rw !bind_Done effects_cd.
  case: (entered fs2 _ u) => [cwd|q|] //. rw !bind_Done. cbn [effects fst snd]. by rw app_nil_r.
Qed.

(** *** The commands of a session *)

(** [run] does to the shared file system, the session and the console what [e]
    says. *)
Definition session_effect (c0 : Writer) (s : scrollback) (run : outcome (World * ShellSession))
    (e : outcome (Fat32FileSystem * Z * str)) : Prop :=
  match e with
  | Done (fs, cwd, text) => ∃ c,
      run = Done (mkWorld (mkMutex false fs) c, mkSession cwd)
      ∧ shows c (type_text (color_code c0) s text) ∧ color_code c = color_code c0
  | Panic p => run = Panic p
  | Diverge => run = Diverge
  end.

Lemma run_all_effect fuel cs cwd fs c0 s : shows c0 s →
  session_effect c0 s (run_all fuel cs (mkSession cwd) (mkWorld (mkMutex false fs) c0))
    (effects fuel cs cwd fs).
Proof.
  elim: cs cwd fs c0 s => [|c cs IH] cwd fs c0 s S; [by exists c0|]. cbn [run_all effects].
  pose proof (perform_effect fuel c (mkSession cwd) (mkWorld (mkMutex false fs) c0) s eq_refl S) as He.
  cbn [current_cluster shared inner] in He. rw /run_unwrapped /unwrapped.
  case: (command_effect fuel c cwd fs) He => [[[fs1 r] text]|p|] He; cbn [session_effect mbind outcome_bind fst snd].
  2,3: by rw He.
  destruct He as (c1 & -> & S1 & Ec). cbn [console] in S1, Ec. cbn [fst snd]. rw bind_Done. cbn [fst snd].
  case: r => [cwd1|e] //. rw bind_Done. cbn [fst snd]. pose proof (IH cwd1 fs1 c1 _ S1) as Hr.
  case: (effects fuel cs cwd1 fs1) Hr => [[[fs2 cwd2] text2]|p|] Hr //.
  destruct Hr as (c2 & E2 & S2 & Ec2). exists c2. rw Ec in S2 Ec2. by rw type_text_app.
Qed.
End script.

(** ** The image on the heap *)

Section image.
Context `{Profile} `{VirtAddr} `{!VirtAddrOk}.

(** Blocks above the sizes of the caches are whole pages. *)
Lemma slab_alloc_pages a l nx hi :
  page_alloc a = Some (mkPages nx hi) → MAX_SLAB_SIZE < size l → 0 <= nx → nx + size l + PAGE_SIZE < 2 ^ 47 →
  slab_alloc l a = Done
    (if nx + round_up (size l) PAGE_SIZE >? hi then (a, None)
     else (mkSlabAllocator (Some (mkPages (nx + round_up (size l) PAGE_SIZE) hi)) (node_caches a) (mem a), Some nx)).
Proof.
  move=> Ea Hs Hn Hb. have := round_up_bounds (size l) PAGE_SIZE ltac:(done). rw /round_up.
  rw /slab_alloc Z.gtb_ltb (proj2 (Z.ltb_lt _ _) Hs). rw /MAX_SLAB_SIZE in Hs. rw page_size_eq in Hb |- * => Hr.
  have -> : size l + (4096 - 1) = size l + 4096 - 1 by lia. have Er : size l + (4096 - 1) = size l + 4096 - 1 by lia.
  rw Er in Hr. rw arith_ok; [lia|]. rw bind_Done arith_ok; [lia|]. rw bind_Done Ea. cbn [unwrap].
  rw bind_Done alloc_pages_ok ?page_size_eq; [lia..|]. rw bind_Done. case: (_ >? _) => //. cbn [fst snd].
  rw -Ea. by case: a {Ea}.
Qed.

(** The copy of an image: it fits, or the allocation fails. *)
Lemma vec_from_pages bytes a hi nx : page_alloc a = Some (mkPages nx hi) →
  MAX_SLAB_SIZE < zlen bytes → 0 <= nx → nx + zlen bytes + PAGE_SIZE < 2 ^ 47 →
  vec_from bytes (Locked_new a) =
    if nx + round_up (zlen bytes) PAGE_SIZE >? hi then Panic (Explicit "memory allocation failed")
    else Done (Locked_new (mkSlabAllocator (Some (mkPages (nx + round_up (zlen bytes) PAGE_SIZE) hi))
                             (node_caches a) (mem a))).
Proof.
  move=> Ea Hs Hn Hb. have Hp : 0 < MAX_SLAB_SIZE by []. rw /vec_from. ztrue.
  pose proof (slab_alloc_pages a (mkLayout (zlen bytes) 1) nx hi Ea Hs Hn Hb) as E. cbn [size] in E.
  have El : alloc (mkLayout (zlen bytes) 1) (Locked_new a)
    = (r ← slab_alloc (mkLayout (zlen bytes) 1) a; Done (Locked_new r.1, r.2)).
  { rw /alloc /= /Locked_lock /with_lock /=. by case: (slab_alloc _ a) => [[? ?]|?|]. }
  rw El E. by case: (_ >? hi).
Qed.

(** The heap is whole pages. *)
Lemma image_fits z : round_up z PAGE_SIZE <= HEAP_SIZE ↔ z <= HEAP_SIZE.
Proof.
  have := round_up_bounds z PAGE_SIZE ltac:(done). rw /round_up page_size_eq.
  have -> : HEAP_SIZE = 10240 * 4096 by []. lia.
Qed.
End image.

(** ** The boot *)

Section boot.
Context `{Profile} `{UnicodeCase} `{VirtAddr} `{!VirtAddrOk}.
Context `{FrameAllocator A Frame} `{!FrameSupply A Frame} `{!Paging M A Page Frame E} `{!PagingSpec} `{!PageLaws}.
Context `{!OffsetPageTables M} `{DescriptorLaws} `{GateTables handler}.

(** What the boot relies on: addresses of the lower half, pages of the heap that
    are not mapped yet and frames for them, and an image above the sizes of the
    caches and below 32 TiB. *)
Record bootable (k : BootState) : Prop := {
  bt_stack : 0 <= fault_stack k ∧ fault_stack k + STACK_SIZE < 2 ^ 47;
  bt_table : 0 <= cr3 k ∧ 0 <= physical_memory_offset k ∧ physical_memory_offset k + cr3 k < 2 ^ 47;
  bt_heap : heap_ready (offset_page_table_new (physical_memory_offset k + cr3 k) (physical_memory_offset k))
              (boot_frames k);
  bt_image : MAX_SLAB_SIZE < zlen (raw_disk k) < 2 ^ 45;
}.

Lemma memory_init_ok k : bootable k →
  (off ← virt_new (physical_memory_offset k); memory_init (M := M) (cr3 k) off) =
  Done (offset_page_table_new (physical_memory_offset k + cr3 k) (physical_memory_offset k)).
Proof.
  move=> B. have ? := bt_table _ B. rw virt_new_low; [lia|]. rw bind_Done /memory_init /active_level_4_table.
  rw /virt_add arith_ok; [lia|]. rw bind_Done virt_new_low; [lia|]. done.
Qed.

(** The boot up to the copy of the image. *)
Lemma kernel_main_steps fuel k c : bootable k →
  println (lit "Hello World!") (boot_console k) = Done c →
  ∃ es a, init (fault_stack k) = Done es ∧ page_alloc a = Some (mkPages HEAP_START (HEAP_START + HEAP_SIZE))
    ∧ kernel_main (M := M) fuel k =
        (al ← vec_from (raw_disk k) (Locked_new a);
         fs ← new (raw_disk k);
         r ← run_all fuel kernel_commands (mkSession (root_cluster fs)) (mkWorld (mkMutex false fs) c);
         c ← println (lit "Did not crash!") (console r.1);
         Done (es, mkWorld (shared r.1) c, r.2, al)).
Proof.
  move=> B Ec. have Em := memory_init_ok k B. have [? ?] := bt_stack _ B.
  destruct (GDT_entries (fault_stack k)) as (g & sel & tss & Eg & _); [done|done|].
  destruct (init_heap_mapped _ _ (bt_heap _ B)) as (m' & fa' & a & Eh & _ & _ & Ha).
  eexists _, a. split; [by rw /init /gdt_init Eg !bind_Done|]. split; [done|].
  rw /kernel_main Ec bind_Done /init /gdt_init Eg !bind_Done -bind_assoc Em bind_Done. cbn zeta. rw Eh !bind_Done.
  done.
Qed.

(** C24: The boot on any machine with addresses of the lower half, frames enough
    for the heap and an image between 2 KiB and 32 TiB.  An image larger than
    the heap stops the boot with a failed allocation.  Any other is copied to
    the start of the heap, and then the kernel ends the way the script does on
    the mounted file system: it panics or runs for ever exactly when mounting or
    the script does, and otherwise it reaches [hlt_loop] with the tables of the
    processor handed over, both locks free, the file system and the session the
    script leaves, and on the console the greeting, the text of the script and
    [Did not crash!]. *)
Theorem kernel_main_boots fuel k s : bootable k → shows (boot_console k) s →
  (HEAP_SIZE < zlen (raw_disk k) →
     kernel_main (M := M) fuel k = Panic (Explicit "memory allocation failed"))
  ∧ (zlen (raw_disk k) <= HEAP_SIZE → ∃ es a,
       init (fault_stack k) = Done es
       ∧ page_alloc a = Some (mkPages (HEAP_START + round_up (zlen (raw_disk k)) PAGE_SIZE) (HEAP_START + HEAP_SIZE))
       ∧ match fs ← new (raw_disk k); boot_script fuel fs with
         | Done (fs', cwd, text) => ∃ c,
             kernel_main (M := M) fuel k = Done (es, mkWorld (mkMutex false fs') c, mkSession cwd, Locked_new a)
             ∧ shows c (type_text (color_code (boot_console k)) s
                          (lit "Hello World!" ++ [10] ++ text ++ lit "Did not crash!" ++ [10]))
         | Panic p => kernel_main (M := M) fuel k = Panic p
         | Diverge => kernel_main (M := M) fuel k = Diverge
         end).
Proof.
  move=> B S. destruct (write_string_types (concat [lit "Hello World!"; [10]]) _ _ S) as (c1 & E1 & S1 & C1).
  destruct (kernel_main_steps fuel k c1 B E1) as (es & a & Ei & Ea & ->). have [Hs Hb] := bt_image _ B.
  have Hlt : HEAP_START + 2 ^ 45 + PAGE_SIZE < 2 ^ 47 by [].
  rw (vec_from_pages _ a (HEAP_START + HEAP_SIZE) HEAP_START Ea Hs); [done|lia|].
  have Hfit := image_fits (zlen (raw_disk k)).
  split; move=> Hz; destruct (Z.gtb_spec (HEAP_START + round_up (zlen (raw_disk k)) PAGE_SIZE)
    (HEAP_START + HEAP_SIZE)) as [?|?]; [done|lia|lia|].
  set a1 := mkSlabAllocator _ _ _. exists es, a1. split; [done|]. split; [done|]. rw bind_Done.
  case: (new (raw_disk k)) => [fs|p|] //. rw !bind_Done.
  pose proof (run_all_effect fuel kernel_commands (root_cluster fs) fs c1 _ S1) as Hr.
  rw kernel_commands_script in Hr. case: (boot_script fuel fs) Hr => [[[fs' cwd] text]|p|] Hr; [|by rw Hr..].
  destruct Hr as (c2 & -> & S2 & C2). rw bind_Done. cbn [fst snd console shared].
  destruct (write_string_types (concat [lit "Did not crash!"; [10]]) _ _ S2) as (c3 & E3 & S3 & C3).
  exists c3. rw /println /print E3 bind_Done. split; [done|]. rw C2 C1 -!type_text_app in S3.
  exact S3.
Qed.
End boot.
