(* ===== verification/Harness.v ===== *)
(** * The test harness

    Models the custom test framework of [src/src/lib.rs]: [Testable::run],
    [test_runner], [test_panic_handler], [exit_qemu] and [test_kernel_main],
    and the tests of [src/src/vga_buffer.rs] and [src/src/interrupts.rs] that
    it runs.  The report goes to the serial
    port; the verdict is the value written to the exit port of the emulator.

    How the compiler prints a panic and how the emulator turns the value into
    an exit status are not code of the repository: the first is a parameter,
    the second is the behaviour the build file relies on. *)

From S2P Require Import Prelude Machine Str Slab Vga Interrupts Tables.

(** ** The harness *)

Inductive QemuExitCode := Success | Failed.

Definition exit_code_u32 (c : QemuExitCode) : Z :=
  match c with Success => 0x10 | Failed => 0x11 end.

(** [format!("{}", n)] for an unsigned [n] of at most [k] digits. *)
Fixpoint decimal (k : nat) (n : Z) : str :=
  match k with
  | O => []
  | S k => if n <? 10 then [48 + n] else decimal k (n / 10) ++ [48 + n mod 10]
  end.

(** What the outside sees: the text on the serial port and the values written
    to the exit port. *)
Record Report := mkReport { serial_text : str; exit_port : list Z }.

Definition serial_print (s : str) (r : Report) : Report :=
  mkReport (serial_text r ++ s) (exit_port r).

Definition serial_println (s : str) (r : Report) : Report := serial_print (s ++ [10]) r.

Definition exit_qemu (c : QemuExitCode) (r : Report) : Report :=
  mkReport (serial_text r) (exit_port r ++ [exit_code_u32 c]).

Section harness.
(** The state that the tests work on, and the text of a panic. *)
Context {S : Type} (show_panic : panic → str).

(** A test: its type name and what it does. *)
Record test := mkTest { type_name : str; body : S → outcome S }.

(** How a sequence of tests ended. *)
Inductive ending :=
  | Returned (s : S)
  | Panicked (p : panic)
  | Stuck.

(** [Testable::run]; when the test does not return, neither does this. *)
Definition run (t : test) (s : S) (r : Report) : Report * ending :=
  let r := serial_print (type_name t ++ lit "..." ++ [9]) r in
  match body t s with
  | Done s => (serial_println (lit "[ok]") r, Returned s)
  | Panic p => (r, Panicked p)
  | Diverge => (r, Stuck)
  end.

Definition test_panic_handler (p : panic) (r : Report) : Report :=
  let r := serial_println (lit "[failed]" ++ [10]) r in
  let r := serial_println (lit "Error: " ++ show_panic p ++ [10]) r in
  exit_qemu Failed r.

(** The loop of [test_runner]. *)
Fixpoint run_tests (tests : list test) (s : S) (r : Report) : Report * ending :=
  match tests with
  | [] => (r, Returned s)
  | t :: tests =>
      match run t s r with
      | (r, Returned s) => run_tests tests s r
      | stopped => stopped
      end
  end.

(** [test_runner]; a panic in a test ends in [test_panic_handler]. *)
Definition test_runner (tests : list test) (s : S) (r : Report) : Report :=
  let r := serial_println (lit "Running " ++ decimal 20 (zlen tests) ++ lit " tests") r in
  match run_tests tests s r with
  | (r, Returned _) => exit_qemu Success r
  | (r, Panicked p) => test_panic_handler p r
  | (r, Stuck) => r
  end.

(** ** Specification *)

(** The states after each of the tests, when all of them return. *)
Fixpoint all_pass (tests : list test) (s : S) : outcome S :=
  match tests with
  | [] => Done s
  | t :: tests => s ← body t s; all_pass tests s
  end.

Definition ok_line (t : test) : str := type_name t ++ lit "..." ++ 9 :: lit "[ok]" ++ [10].

Lemma run_tests_spec tests s r :
  match all_pass tests s with
  | Done s' =>
      run_tests tests s r = (mkReport (serial_text r ++ (tests ≫= ok_line)) (exit_port r), Returned s')
  | Panic p => ∃ done t rest s1, tests = done ++ t :: rest ∧ all_pass done s = Done s1 ∧ body t s1 = Panic p
      ∧ run_tests tests s r = (mkReport (serial_text r ++ (done ≫= ok_line)
          ++ type_name t ++ lit "..." ++ [9]) (exit_port r), Panicked p)
  | Diverge => ∃ out, run_tests tests s r = (mkReport out (exit_port r), Stuck)
  end.
Proof.
  elim: tests s r => [|t tests IH] s r; cbn [all_pass run_tests].
  { rw app_nil_r. by case: r. }
  rw /run. case E: (body t s) => [s1|p|]; [rw bind_Done| |by eexists].
  - set r1 := serial_println _ _. have {}IH := IH s1 r1.
    have E1 : serial_text r1 = serial_text r ++ ok_line t.
    { rw /r1 /ok_line. cbn [serial_text serial_println serial_print]. by rw -!app_assoc. }
    case Ea: (all_pass tests s1) IH => [s2|p|].
    + move=> ->. by rw E1 bind_cons app_assoc.
    + move=> [done [t' [rest [s2 [-> [Ed [Et ->]]]]]]]. exists (t :: done), t', rest, s2. cbn [all_pass].
      rw E bind_Done E1 bind_cons -!app_assoc. by split_and!.
    + done.
  - exists [], t, tests, s. by split_and!.
Qed.

(** The exit status of the emulator for a value written to its exit port. *)
Definition exit_status (r : Report) : option Z :=
  (λ v, Z.lor (Z.shiftl v 1) 1) <$> head (exit_port r).

Definition header (tests : list test) : str :=
  lit "Running " ++ decimal 20 (zlen tests) ++ lit " tests" ++ [10].

(** C39: The harness reports what the tests do: when all of them return it
    announces their number, prints a line for each and exits with status 33,
    the success code of the build file; when one panics it prints the lines of
    those before it, which returned, then the name of the one that panicked, the
    failure and the panic, and exits with status 35; it exits with 33 only if every test returned. *)
Theorem test_runner_reports tests s :
  let r := test_runner tests s (mkReport [] []) in
  (∀ s', all_pass tests s = Done s' →
     serial_text r = header tests ++ (tests ≫= ok_line) ∧ exit_status r = Some 33)
  ∧ (∀ p, all_pass tests s = Panic p →
       exit_status r = Some 35 ∧ ∃ done t rest s1, tests = done ++ t :: rest
         ∧ all_pass done s = Done s1 ∧ body t s1 = Panic p
         ∧ serial_text r = header tests ++ (done ≫= ok_line) ++ type_name t ++ lit "..." ++ [9]
             ++ lit "[failed]" ++ [10; 10] ++ lit "Error: " ++ show_panic p ++ [10; 10])
  ∧ (exit_status r = Some 33 ↔ ∃ s', all_pass tests s = Done s').
Proof.
  rw /test_runner. set r0 := serial_println _ _.
  have Eh : serial_text r0 = header tests by rw /r0 /header; cbn [serial_text serial_println serial_print app]; rw -!app_assoc.
  have := run_tests_spec tests s r0. case: (all_pass tests s) => [s'|p|].
  - move=> ->. cbn [exit_qemu serial_text exit_port]. rw Eh. split_and!; [done|done|].
    by split; [eexists|].
  - move=> [pre [t [rest [s1 [Et [Ed [Ep ->]]]]]]]. split_and!; [done| |].
    + move=> p' [<-]. split; [done|]. exists pre, t, rest, s1. do 3 (split; [done|]).
      cbn [test_panic_handler exit_qemu serial_println serial_print serial_text]. by rw Eh -!app_assoc.
    + split; [done|]. by move=> [].
  - move=> [out ->]. split_and!; [done|done|]. split; [done|]. by move=> [].
Qed.

(** A run without a panic, from an empty report. *)
Lemma runner_success tests s s' : all_pass tests s = Done s' →
  serial_text (test_runner tests s (mkReport [] [])) = header tests ++ (tests ≫= ok_line)
  ∧ exit_port (test_runner tests s (mkReport [] [])) = [0x10].
Proof.
  move=> Ha. rw /test_runner. set r0 := serial_println _ _.
  have := run_tests_spec tests s r0. rw Ha => ->. split; [|done].
  cbn [serial_text exit_qemu]. f_equal. rw /r0 /header. cbn [serial_text serial_println serial_print app]. by rw -!app_assoc.
Qed.
End harness.

(** ** The console tests *)

Section console_tests.
Context `{Profile}.

Definition test_println_simple : Writer → outcome Writer :=
  println (lit "test_println_simple output").

Fixpoint println_times (k : nat) (s : str) (w : Writer) : outcome Writer :=
  match k with
  | O => Done w
  | S k => w ← println s w; println_times k s w
  end.

Definition test_println_many : Writer → outcome Writer :=
  println_times 200 (lit "test_println_many output").

(** The loop over the characters of the string. *)
Fixpoint check_row (s : str) (i : Z) (w : Writer) : outcome unit :=
  match s with
  | [] => Done tt
  | c :: s =>
      screen_char ← cell_read (chars w) (BUFFER_HEIGHT - 2) i;
      if ascii_character screen_char =? c then check_row s (i + 1) w else Panic AssertionFailed
  end.

Definition test_println_output (w : Writer) : outcome Writer :=
  let s := lit "Some test string that fits on a single line" in
  w ← print [[10]; s; [10]] w;
  _ ← check_row s 0 w;
  Done w.

(** The tests of the console, in the order of the source. *)
Definition vga_tests : list test :=
  [ mkTest (lit "fat32_impl::vga_buffer::test_println_simple") test_println_simple;
    mkTest (lit "fat32_impl::vga_buffer::test_println_many") test_println_many;
    mkTest (lit "fat32_impl::vga_buffer::test_println_output") test_println_output ].

(** [int3]: the handler prints to the screen and the test goes on, as
    [breakpoint_returns] shows of the processor. *)
Definition test_breakpoint_exception (frame : list str) : Writer → outcome Writer :=
  print (screen_text (breakpoint_handler frame)).

(** All tests of the library; the compiler collects them in an order of its own. *)
Definition lib_tests (frame : list str) : list test :=
  mkTest (lit "fat32_impl::interrupts::test_breakpoint_exception") (test_breakpoint_exception frame) :: vga_tests.

Lemma println_times_shows k s w sb : shows w sb → ∃ w' sb', println_times k s w = Done w' ∧ shows w' sb'.
Proof.
  elim: k w sb => [|k IH] w sb Hw; [by exists w, sb|]. cbn [println_times].
  destruct (write_string_shows (concat [s; [10]]) w sb Hw) as (w1 & E & S1).
  rw /println /print E bind_Done. by eapply IH.
Qed.

Lemma check_row_ok s pre w color row :
  chars w !! 23%nat = Some row → row = ((λ b, mkScreenChar b color) <$> (pre ++ s)) ++ drop (length (pre ++ s)) row →
  check_row s (zlen pre) w = Done tt.
Proof.
  move=> Hr. elim: s pre => [|c s IH] pre E //. cbn [check_row].
  have Hc : row !! length pre = Some (mkScreenChar c color).
  { rw E lookup_app_l; [rw length_fmap length_app /=; lia|]. by rw list_lookup_fmap list_lookup_middle. }
  have ? := lookup_lt_Some _ _ _ Hc. have ? := zlen_nonneg pre.
  change (BUFFER_HEIGHT - 2) with 23. rw /cell_read (index_ok _ _ row); [lia|done|]. rw bind_Done (index_ok _ _ (mkScreenChar c color)).
  { lia. } { by rw to_nat_zlen. }
  rw bind_Done /= Z.eqb_refl. have := IH (pre ++ [c]). rw zlen_app zlen_cons zlen_nil -app_assoc.
  move=> {}IH. by apply IH.
Qed.

(** A test that returns on every console, and leaves one behind. *)
Definition passes (t : test) : Prop :=
  ∀ w sb, shows w sb → ∃ w' sb', body t w = Done w' ∧ shows w' sb'.

Lemma println_output_passes nm : passes (mkTest nm test_println_output).
Proof.
  move=> w sb Hw. set s := lit "Some test string that fits on a single line".
  destruct (println_row s w sb Hw) as (w' & E & Hr).
  { by repeat (constructor; [by split|]). } { done. }
  destruct (write_string_shows (concat [[10]; s; [10]]) w sb Hw) as (w1 & E1 & S1).
  rw /print E1 in E. injection E as <-. eexists w1, _. split; [|exact S1]. cbn [body].
  rw /test_println_output -/s /print E1 bind_Done (check_row_ok s [] w1 (color_code w) _ Hr) //.
Qed.

Lemma lib_tests_all frame : Forall passes (lib_tests frame).
Proof.
  repeat constructor.
  - move=> w sb Hw. cbn [body]. rw /test_breakpoint_exception /print.
    destruct (write_string_shows (concat (screen_text (breakpoint_handler frame))) w sb Hw) as (w1 & E1 & S1).
    by eexists w1, _.
  - move=> w sb Hw. cbn [body]. rw /test_println_simple /println /print.
    destruct (write_string_shows (concat [lit "test_println_simple output"; [10]]) w sb Hw) as (w1 & E1 & S1).
    by eexists w1, _.
  - move=> w sb Hw. exact (println_times_shows 200 _ w sb Hw).
  - apply println_output_passes.
Qed.

Lemma tests_return tests w sb : Forall passes tests → shows w sb → ∃ w', all_pass tests w = Done w'.
Proof.
  move=> Ht. elim: Ht w sb => [|t ts Ht _ IH] w sb Hw; [by exists w|]. cbn [all_pass].
  destruct (Ht w sb Hw) as (w1 & sb1 & -> & S1). rw bind_Done. exact (IH w1 sb1 S1).
Qed.
End console_tests.

(** ** The test kernel *)

Section test_kernel.
Context `{Profile} `{VirtAddr} `{Descriptors} `{GateTables handler}.

(** [test_kernel_main], until [hlt_loop]: what it tells the processor and the
    report of the tests. *)
Definition test_kernel_main {S} (show_panic : panic → str) (fault_stack : Z) (tests : list test) (s : S)
    : outcome (list effect * Report) :=
  es ← init fault_stack;
  Done (es, test_runner show_panic tests s (mkReport [] [])).
End test_kernel.

Section test_kernel_theorem.
Context `{Profile} `{VirtAddr} `{!VirtAddrOk} `{DescriptorLaws} `{GateLaws handler}.

(** C40: The library's own tests pass: started with any console and with its
    fault stack in the lower half, and with its four tests in any order, the test
    kernel sets up the processor, prints an [ok] line for each test to the serial
    port and exits the emulator with the success code, once. *)
Theorem lib_tests_pass show_panic fault_stack frame tests w sb :
  tests ≡ₚ lib_tests frame → 0 <= fault_stack → fault_stack + STACK_SIZE < 2 ^ 47 → shows w sb →
  ∃ es r, test_kernel_main show_panic fault_stack tests w = Done (es, r)
    ∧ init fault_stack = Done es
    ∧ serial_text r = header (lib_tests frame) ++ (tests ≫= ok_line)
    ∧ exit_port r = [0x10] ∧ exit_status r = Some 33.
Proof.
  move=> Hp ?? Hw. have Eh : header tests = header (lib_tests frame) by rw /header /zlen (Permutation_length Hp).
  destruct (GDT_entries fault_stack) as (g & sel & tss & Eg & _); [done|done|].
  have Ht : Forall passes tests by rw Hp; apply lib_tests_all.
  destruct (tests_return tests w sb Ht Hw) as [w' Ha].
  destruct (runner_success show_panic tests w w' Ha) as [Et Ex]. rw Eh in Et.
  rw /test_kernel_main. move: (test_runner _ _ _ _) Et Ex => r Et Ex.
  rw /init /gdt_init Eg !bind_Done. eexists _, r. split; [reflexivity|]. split; [reflexivity|].
  by rw /exit_status Ex.
Qed.
End test_kernel_theorem.
