(* ===== verification/Sample.v ===== *)
(** * A sample image

    A small FAT32 image with the layout of the repository's [test.img]: a root
    directory with the long-named file [test.txt] and the directory [test_dir],
    and a file in the latter.  The witnesses of the properties evaluate the
    model on it. *)

From S2P Require Import Prelude Machine Str Volume DirEntry Names DirSpec Path Stability.
From S2P Require Import FileOps FileOpsSpec WriteSpec CreateSpec Vga Shell.

(** Builds with overflow checks; no test name leaves ASCII. *)
#[export] Instance checked : Profile := true.
#[export] Instance ascii_only : UnicodeCase := λ c, [c].
#[export] Instance ascii_only_ok : UnicodeCaseOk.
Proof. move=> c ?. by constructor. Qed.

Lemma range_ind (P : Z → Prop) lo (k : nat) :
  Forall (λ i, P (lo + Z.of_nat i)) (seq 0 k) → ∀ d, lo <= d < lo + Z.of_nat k → P d.
Proof.
  rw Forall_forall => H d ?. have -> : d = lo + Z.of_nat (Z.to_nat (d - lo)) by lia.
  apply H, elem_of_seq. lia.
Qed.

Module Image.
Definition fill (k : nat) (l : list Z) : list Z := l ++ replicate (k - length l) 0.

(** 512-byte sectors, one sector per cluster, one reserved sector, one FAT. *)
Definition params : bpb :=
  mkBpb (replicate 11 0) 512 1 1 1 (replicate 19 0) 1 (replicate 4 0) 2.

Definition short (name : string) (attr cluster size : Z) : list Z :=
  lit name ++ [attr] ++ replicate 8 0 ++ u16_to_le (cluster / 65536) ++ replicate 4 0
  ++ u16_to_le (cluster mod 65536) ++ u32_to_le size.

Definition root_records : list record :=
  [ Long (lit "test.txt") (short "TEST    TXT" 0x20 3 5);
    Long (lit "test_dir") (short "TEST_DIR   " 0x10 4 0);
    Short (short "BIG     BIN" 0x20 6 600);
    Short (short "EMPTY      " 0x20 0 0) ].

Definition dir_records : list record :=
  [ Short (short ".          " 0x10 4 0);
    Short (short "..         " 0x10 0 0);
    Long (lit "test_dir_file") (short "TEST_D~1   " 0x20 5 5) ].

Definition cluster_of (rs : list record) : list Z := fill 512 (concat (rs ≫= layout)).

Definition fat : list Z :=
  fill 512 ([0x0FFFFFF8; 0x0FFFFFFF; 0x0FFFFFF8; 0x0FFFFFFF; 0x0FFFFFFF; 0x0FFFFFFF;
             7; 0x0FFFFFFF] ≫= u32_to_le).

Definition big : list Z := replicate 600 65.

(** Clusters 2 (root), 3 (test.txt), 4 (test_dir), 5 (test_dir_file), 6 and 7
    (BIG.BIN), and four free ones. *)
Definition disk : list Z :=
  fill 512 (boot_sector params) ++ fat ++ cluster_of root_records
  ++ fill 512 (lit "hello") ++ cluster_of dir_records ++ fill 512 (lit "world")
  ++ fill 1024 big ++ replicate 2048 0.

Definition fs : Fat32FileSystem := mounted params disk.

(** The number of data clusters. *)
Definition n : Z := 10.

Lemma fs_volume : volume fs n.
Proof. apply volumeb_sound. vm_compute. reflexivity. Qed.

(** The directories of the image. *)
Definition dirs : list Z := [2; 4].
Definition D : gset Z := list_to_set dirs.

Lemma fs_tree : tree fs n D.
Proof. apply treeb_sound. vm_compute. reflexivity. Qed.

Lemma fs_used d : d ∈ D → fat_get fs d ≠ 0.
Proof. rw elem_of_list_to_set !elem_of_cons => -[->|[->|/elem_of_nil //]]; vm_compute; done. Qed.

(** The root directory: six entries, then ten empty slots. *)
Definition zeros (k : nat) : list (list Z) := replicate k (replicate 32 0).

Lemma used_entryb e :
  (zlen e =? 32) && negb (byte_at e 0 =? 0) && negb (byte_at e 0 =? 0xE5)
    && negb (byte_at e 11 =? ATTR_LFN) = true → used_entry e.
Proof. rw !andb_true_iff !negb_true_iff /used_entry. lia. Qed.

Lemma root_ok : Forall record_ok root_records.
Proof.
  repeat constructor; try (apply used_entryb; vm_compute; reflexivity);
    vm_compute; repeat constructor; discriminate.
Qed.

Lemma root_directory : directory fs 2 root_records (zeros 10).
Proof. split; [vm_compute; reflexivity|]. split; [apply root_ok|done]. Qed.

(** The slot of a new entry. *)
Lemma root_place : free_place root_records (zeros 10) root_records (replicate 32 0) [] (zeros 9).
Proof. apply (place_end root_records (replicate 32 0) (zeros 9)); [by repeat constructor|done]. Qed.

Lemma fs_first_free : first_free fs 8.
Proof.
  split; [done|]. split; [vm_compute; reflexivity|].
  apply (range_ind (λ d, fat_get fs d ≠ 0) 2 6). by repeat (constructor; [vm_compute; discriminate|]).
Qed.

(** The first 11 bytes of the entry of a new file. *)
Definition new_name : str := lit "NOTES.TXT".
Definition new_n11 : list Z := lit "NOTES   TXT".

Lemma startableb n11 :
  (zlen n11 =? 11) && forallb (λ b, (0 <=? b) && (b <? 256)) n11
    && negb (byte_at n11 0 =? 0) && negb (byte_at n11 0 =? 0xE5) = true → startable n11.
Proof.
  rw !andb_true_iff !negb_true_iff forallb_forall => -[[[? Hb] ?] ?]. split; [lia|].
  split; [|lia]. apply Forall_forall => b /list_elem_of_In /Hb. lia.
Qed.

Lemma fs_creation :
  creation fs n [] new_name new_n11 2 8 root_records (zeros 10) root_records (replicate 32 0) [] (zeros 9).
Proof.
  split; [apply fs_volume|done|done|vm_compute; reflexivity| |apply fs_first_free|done
    |apply root_directory|apply root_place].
  apply startableb. vm_compute. reflexivity.
Qed.

Lemma fs_fresh :
  fresh_creation fs n D [] new_name new_n11 2 8 root_records (zeros 10)
    root_records (replicate 32 0) [] (zeros 9).
Proof.
  split; [apply fs_creation|apply fs_tree|apply fs_used| | |].
  - by apply elem_of_list_to_set; left.
  - vm_compute. reflexivity.
  - vm_compute. discriminate.
Qed.

(** The entries before the new one have other names. *)
Lemma fs_first_entry : Forall (λ x, sub 0 11 x ≠ new_n11) (root_records ≫= layout).
Proof. vm_compute. by repeat (constructor; [discriminate|]). Qed.

(** BIG.BIN, an 8.3 file of two clusters, can be written in place. *)
Definition big_entry : list Z := short "BIG     BIN" 0x20 6 600.

Lemma big_writable :
  writable fs n D (lit "/BIG.BIN") [] (lit "BIG.BIN") 2 (take 2 root_records) big_entry
    (drop 3 root_records) (zeros 10).
Proof.
  split; [apply fs_volume|apply fs_tree|vm_compute; reflexivity|by constructor|apply root_directory
    |vm_compute; reflexivity|vm_compute; reflexivity| |vm_compute; reflexivity
    |vm_compute; reflexivity|vm_compute; reflexivity|vm_compute; done|].
  - vm_compute. by repeat (constructor; [discriminate|]).
  - have -> : start_cluster (short_info big_entry) = 6 by vm_compute; reflexivity.
    rw elem_of_list_to_set /dirs !elem_of_cons elem_of_nil. lia.
Qed.

Lemma big_chain : fat_chain fs n 6 [6; 7].
Proof.
  apply chain_next; [done|vm_compute; reflexivity|]. apply chain_end; [vm_compute; done|].
  vm_compute. discriminate.
Qed.
End Image.

(** A blank screen with the cursor at the start of the bottom row. *)
Module Screen.
Definition blank_row : list ScreenChar := replicate 80 (mkScreenChar 32 14).
Definition writer : Writer := mkWriter 0 14 (replicate 25 blank_row).
Definition start : scrollback := mkScroll (replicate 24 blank_row) [].

Lemma writer_shows : shows writer start.
Proof. split; [done|by apply Forall_replicate|done|done|]. vm_compute. reflexivity. Qed.

(** A session at the root of the image. *)
Definition world : World := mkWorld (mkMutex false Image.fs) writer.
Definition session : ShellSession := mkSession 2.

Lemma session_fine : session_ok world session Image.n Image.D start.
Proof.
  split; [done|apply Image.fs_volume|apply Image.fs_tree| |apply writer_shows].
  by apply elem_of_list_to_set; left.
Qed.
End Screen.
