(* ===== verification/Witness.v ===== *)
(** * Witnesses

    Each property that has hypotheses is applied at a concrete input where they
    hold: the sample image, a blank screen and a session at its root. *)

From S2P Require Import Prelude Machine Str Volume DirEntry Names DirSpec Path Stability.
From S2P Require Import FileOps FileOpsSpec WriteSpec CreateSpec Vga Shell Sample.

(** ** The volume *)

Lemma new_formatted_witness : new Image.disk = Done Image.fs.
Proof.
  exact (new_formatted Image.params (drop 48 Image.disk)
    ltac:(split; vm_compute; repeat split; discriminate)).
Defined.

Lemma write_fat_entry_roundtrip_witness :
  ∃ fs', write_fat_entry 8 6 Image.fs = Done fs'
    ∧ read_fat_entry fs' 8 = Done (Z.land 6 0x0FFFFFFF)
    ∧ Z.land (fat_raw fs' 8) 0xF0000000 = Z.land (fat_raw Image.fs 8) 0xF0000000
    ∧ (∀ d, 0 <= d < Image.n + 2 → d ≠ 8 → read_fat_entry fs' d = read_fat_entry Image.fs d)
    ∧ (∀ d, 2 <= d < Image.n + 2 → read_cluster fs' d = read_cluster Image.fs d)
    ∧ volume fs' Image.n.
Proof. apply (write_fat_entry_roundtrip Image.fs Image.n 8 6); [apply Image.fs_volume|done]. Defined.

(** ** Directories and names *)

Lemma list_directory_entries_total_witness :
  ∃ l, list_directory_entries Image.fs 3 = Done l ∧ Forall FileInfo_typed l.
Proof. apply (list_directory_entries_total Image.fs Image.n 3); [apply Image.fs_volume|done]. Defined.

Lemma list_directory_entries_records_witness :
  list_directory_entries Image.fs 2 = Done
    [mkFileInfo (lit "test.txt") false 5 3; mkFileInfo (lit "test_dir") true 0 4;
     mkFileInfo (lit "BIG.BIN") false 600 6; mkFileInfo (lit "EMPTY") false 0 0].
Proof.
  exact (list_directory_entries_records Image.fs Image.n 2 Image.root_records (Image.zeros 10)
    Image.fs_volume ltac:(done) Image.root_directory).
Defined.

Lemma format_to_8_3_roundtrip_witness :
  ∃ n11, format_to_8_3 (sfn_text (lit "Notes") (lit "txt")) = Done (Ok n11)
    ∧ zlen n11 = 11
    ∧ short_name_to_string n11 = ascii_upper <$> sfn_text (lit "Notes") (lit "txt")
    ∧ (short_name_to_string n11 = sfn_text (lit "Notes") (lit "txt")
       ↔ no_lower (sfn_text (lit "Notes") (lit "txt"))).
Proof.
  apply (format_to_8_3_roundtrip (lit "Notes") (lit "txt")).
  split; [done|done|by repeat constructor|by repeat constructor].
Defined.

(** ** Paths and reading *)

Lemma parse_path_compose_witness :
  parse_path Image.fs (lit "test_dir" ++ slash :: lit "test_dir_file") None =
    (r ← parse_path Image.fs (lit "test_dir") None;
     match r with
     | Some f => if is_directory f
                 then parse_path Image.fs (lit "test_dir_file") (Some (start_cluster f))
                 else Done None
     | None => Done None
     end).
Proof.
  exact (parse_path_compose Image.fs (lit "test_dir") (lit "test_dir_file") None
    ltac:(done) ltac:(done) ltac:(done) eq_refl).
Defined.

Lemma parse_path_safe_witness :
  ∃ r, parse_path Image.fs (lit "../test_dir") (Some 4) = Done r
    ∧ ∀ f, r = Some f → is_directory f = true → start_cluster f ∈ Image.D.
Proof.
  apply (parse_path_safe Image.fs Image.n); [apply Image.fs_volume|apply Image.fs_tree|].
  move=> c [<-]. apply elem_of_list_to_set. right. left.
Defined.

Lemma read_file_spec_witness :
  read_file 10 Image.fs (lit "/BIG.BIN") None = Done (Ok Image.big).
Proof.
  pose proof (read_file_spec Image.fs Image.n (lit "/BIG.BIN") None
    (mkFileInfo (lit "BIG.BIN") false 600 6) [6; 7] Image.fs_volume
    ltac:(vm_compute; reflexivity) eq_refl Image.big_chain) as E.
  etransitivity; [exact E|]. vm_compute. reflexivity.
Defined.

Lemma read_file_cycle_witness :
  read_file 1000 (fat_put 7 6 Image.fs) (lit "/BIG.BIN") None = Diverge.
Proof.
  assert (volume (fat_put 7 6 Image.fs) Image.n) as V
    by (apply volume_fat_put; [apply Image.fs_volume|done]).
  apply (read_file_cycle _ Image.n (lit "/BIG.BIN") None (mkFileInfo (lit "BIG.BIN") false 600 6)
    [6] 7 [7; 6] 1000 V); [vm_compute; reflexivity|done| | |done].
  - apply path_cons; [done|vm_compute; reflexivity|]. apply path_nil.
  - apply path_cons; [done|vm_compute; reflexivity|]. apply path_cons; [done|vm_compute; reflexivity|].
    apply path_nil.
Defined.

Lemma read_file_empty_panics_witness :
  @read_file true 10 Image.fs (lit "/EMPTY") None = Panic ArithmeticOverflow.
Proof.
  apply (read_file_empty_panics Image.fs (lit "/EMPTY") None (mkFileInfo (lit "EMPTY") false 0 0) 9);
    [vm_compute; reflexivity|done|done].
Defined.

(** ** Mutating operations *)

Lemma steps_keep_volume_sample :
  ∃ fs', steps Image.fs [CreateFile [] Image.new_name; Mkdir [] (lit ".x"); WriteFile Image.new_name (lit "hi")] fs'
    ∧ volume fs' Image.n.
Proof.
  assert (∃ fs', steps Image.fs
    [CreateFile [] Image.new_name; Mkdir [] (lit ".x"); WriteFile Image.new_name (lit "hi")] fs')
    as [fs' Hs].
  { eexists. eapply steps_cons; [vm_compute; reflexivity|]. eapply steps_cons; [vm_compute; reflexivity|].
    eapply steps_cons; [vm_compute; reflexivity|]. apply steps_nil. }
  exists fs'. split; [exact Hs|].
  apply (steps_keep_volume _ _ _ Image.n Image.fs_volume) with (2 := Hs).
  repeat (apply Forall_cons; split); try apply Forall_nil_2; split;
    first [apply lit_bytes | apply Forall_nil_2].
Defined.

Lemma allocate_cluster_first_witness :
  ∃ fs', allocate_cluster Image.fs = Done (fs', Ok 8)
    ∧ fat_get fs' 8 = 0x0FFFFFFF
    ∧ (∀ d, 0 <= d < Image.n + 2 → d ≠ 8 → fat_get fs' d = fat_get Image.fs d)
    ∧ (∀ d, 2 <= d < Image.n + 2 → cluster_data fs' d = cluster_data Image.fs d)
    ∧ volume fs' Image.n.
Proof.
  apply (allocate_cluster_first Image.fs Image.n 8 Image.fs_volume Image.fs_first_free); done.
Defined.

(** A volume of 50 000 clusters, all of them taken. *)
Module Full.
Definition disk : list Z := replicate (Z.to_nat 25804800) 255.
Definition fs : Fat32FileSystem := mkFat32FileSystem disk 512 1 0 400 2.

Lemma zlen_disk : zlen disk = 25804800.
Proof. rw zlen_replicate Z2Nat.id //. Qed.

Lemma full_volume : volume fs 50000.
Proof. split; cbn [Volume.disk fs]; rw ?zlen_disk //. by apply Forall_replicate. Qed.

Lemma fat_taken d : 2 <= d < 50000 → fat_get fs d ≠ 0.
Proof.
  move=> ?. rw /fat_get /fat_raw. have -> : sub (fat_off fs d) 4 disk = replicate 4 255; [|done].
  rw /sub /disk drop_replicate take_replicate Nat.min_l //. rw /fat_off /=. lia.
Qed.
End Full.

Lemma allocate_cluster_full_witness :
  allocate_cluster Full.fs = Done (Full.fs, Err (lit "Disk full")).
Proof.
  apply (allocate_cluster_full Full.fs 50000 Full.full_volume ltac:(done) Full.fat_taken).
Defined.

Lemma create_file_adds_witness :
  ∃ fs', create_file [] Image.new_name Image.fs = Done (fs', Ok tt)
    ∧ list_directory_entries Image.fs 2 = Done ((Image.root_records ≫= infos) ++ ([] ≫= infos))
    ∧ list_directory_entries fs' 2 =
        Done ((Image.root_records ≫= infos)
              ++ mkFileInfo (short_name_to_string Image.new_n11) false 0 8 :: ([] ≫= infos))
    ∧ fat_get fs' 8 = 0x0FFFFFFF
    ∧ (∀ d, 0 <= d < Image.n + 2 → d ≠ 8 → fat_get fs' d = fat_get Image.fs d)
    ∧ (∀ d, 2 <= d < Image.n + 2 → d ≠ 2 → cluster_data fs' d = cluster_data Image.fs d).
Proof. exact (create_file_adds _ _ _ _ _ _ _ _ _ _ _ _ _ Image.fs_creation). Defined.

Lemma mkdir_adds_witness :
  ∃ fs', mkdir [] Image.new_name Image.fs = Done (fs', Ok tt)
    ∧ list_directory_entries fs' 2 =
        Done ((Image.root_records ≫= infos)
              ++ mkFileInfo (short_name_to_string Image.new_n11) true 0 8 :: ([] ≫= infos))
    ∧ list_directory_entries fs' 8 =
        Done [mkFileInfo (lit ".") true 0 8; mkFileInfo (lit "..") true 0 0]
    ∧ fat_get fs' 8 = 0x0FFFFFFF
    ∧ (∀ d, 0 <= d < Image.n + 2 → d ≠ 8 → fat_get fs' d = fat_get Image.fs d)
    ∧ (∀ d, 2 <= d < Image.n + 2 → d ≠ 2 → d ≠ 8 → cluster_data fs' d = cluster_data Image.fs d).
Proof.
  exact (mkdir_adds _ _ _ _ _ _ _ _ _ _ _ _ _ Image.fs_creation ltac:(vm_compute; discriminate)).
Defined.

Lemma write_file_spec_witness :
  ∃ fs', write_file (lit "/BIG.BIN") (lit "hello") Image.fs = Done (fs', Ok tt)
    ∧ cluster_data fs' 6 = lit "hello" ++ drop 5 (cluster_data Image.fs 6).
Proof.
  destruct (write_file_spec _ _ _ _ _ _ _ _ _ _ _ (lit "hello") Image.big_writable (lit_bytes _))
    as (fs' & E & Ec & _). exists fs'. split; [exact E|]. exact Ec.
Defined.

Lemma write_read_roundtrip_witness :
  ∃ fs', write_file (lit "/BIG.BIN") (lit "hello") Image.fs = Done (fs', Ok tt)
    ∧ read_file 10 fs' (lit "/BIG.BIN") None = Done (Ok (lit "hello")).
Proof.
  destruct (write_read_roundtrip _ _ _ _ _ _ _ _ _ _ _ (lit "hello") [6; 7] Image.big_writable
    (lit_bytes _) Image.big_chain ltac:(vm_compute; discriminate)) as (fs' & E & Er).
  exists fs'. split; [exact E|exact Er].
Defined.

Lemma create_file_paths_witness :
  ∃ fs', create_file [] Image.new_name Image.fs = Done (fs', Ok tt)
    ∧ tree fs' Image.n Image.D
    ∧ parse_path fs' (lit "/NOTES.TXT") None = Done (Some (mkFileInfo (lit "NOTES.TXT") false 0 8)).
Proof.
  destruct (create_file_paths _ _ _ _ _ _ _ _ _ _ _ _ _ _ Image.fs_fresh) as (fs' & E & T & _ & Hq).
  exists fs'. split; [exact E|]. split; [exact T|].
  apply (Hq (lit "/NOTES.TXT") []); [vm_compute; reflexivity|done|done|by constructor].
Defined.

Lemma mkdir_paths_witness :
  ∃ fs', mkdir [] Image.new_name Image.fs = Done (fs', Ok tt)
    ∧ tree fs' Image.n (Image.D ∪ {[8]})
    ∧ parse_path fs' (lit "/NOTES.TXT") None = Done (Some (mkFileInfo (lit "NOTES.TXT") true 0 8)).
Proof.
  destruct (mkdir_paths _ _ _ _ _ _ _ _ _ _ _ _ _ _ Image.fs_fresh) as (fs' & E & T & _ & Hq).
  exists fs'. split; [exact E|]. split; [exact T|].
  apply (Hq (lit "/NOTES.TXT") []); [vm_compute; reflexivity|done|done|by constructor].
Defined.

Lemma create_write_read_witness :
  ∃ fs' fs'', create_file [] Image.new_name Image.fs = Done (fs', Ok tt)
    ∧ write_file Image.new_name (lit "hello") fs' = Done (fs'', Ok tt)
    ∧ read_file 10 fs'' Image.new_name None = Done (Ok (lit "hello")).
Proof.
  exact (create_write_read _ _ _ _ _ _ _ _ _ _ _ _ _ _ Image.new_name [] (lit "hello") Image.fs_fresh
    ltac:(vm_compute; reflexivity) ltac:(vm_compute; reflexivity) (parent_root Image.fs [] eq_refl)
    Image.fs_first_entry (lit_bytes _) ltac:(vm_compute; discriminate)).
Defined.

(** The image with a root directory that has no free slot. *)
Module Crowded.
Definition fs : Fat32FileSystem :=
  data_put 2 0 (mjoin (replicate 16 Image.big_entry)) Image.fs.

Lemma crowded_volume : volume fs 10.
Proof. apply volumeb_sound. vm_compute. reflexivity. Qed.

Lemma crowded_first_free : first_free fs 8.
Proof.
  split; [done|]. split; [vm_compute; reflexivity|].
  apply (range_ind (λ d, fat_get fs d ≠ 0) 2 6). by repeat (constructor; [vm_compute; discriminate|]).
Qed.

Lemma fs_full : Forall (λ x, ¬ free_slot x) (chunks_exact 32 (cluster_data fs 2)).
Proof.
  have -> : chunks_exact 32 (cluster_data fs 2) = replicate 16 Image.big_entry
    by vm_compute; reflexivity.
  apply Forall_replicate. rw /free_slot. have -> : byte_at Image.big_entry 0 = 66 by []. lia.
Qed.
End Crowded.

Lemma create_file_no_space_leaks_witness :
  ∃ fs', create_file [] Image.new_name Crowded.fs = Done (fs', Err (lit "No space in parent directory"))
    ∧ only_reserved Crowded.fs fs' 10 8 ∧ cluster_data fs' 8 = cluster_data Crowded.fs 8.
Proof.
  apply (create_file_no_space_leaks Crowded.fs 10 [] Image.new_name Image.new_n11 2 8);
    [apply Crowded.crowded_volume|done|done|vm_compute; reflexivity|apply Crowded.crowded_first_free|done|done
    |apply Crowded.fs_full].
Defined.

Lemma mkdir_bad_name_leaks_witness :
  ∃ fs', mkdir [] (lit ".x") Image.fs = Done (fs', Err (lit "Invalid name"))
    ∧ only_reserved Image.fs fs' Image.n 8 ∧ cluster_data fs' 8 = dir_cluster Image.fs 8 2
    ∧ tree fs' Image.n Image.D.
Proof.
  destruct (mkdir_bad_name_leaks Image.fs Image.n Image.D [] (lit ".x") (lit "Invalid name") 2 8
    Image.fs_volume Image.fs_tree Image.fs_used (tree_root _ _ _ Image.fs_tree) ltac:(done)
    ltac:(vm_compute; reflexivity) Image.fs_first_free ltac:(done) ltac:(done)) as (fs' & E & H1 & H2 & H3 & _).
  exists fs'. split; [exact E|]. split; [exact H1|]. split; [exact H2|exact H3].
Defined.

(** The file with the long name: the data is there, the size is not. *)
Lemma write_file_long_name_witness :
  ∃ fs', write_file (lit "test_dir/test_dir_file") (lit "hello world") Image.fs
      = Done (fs', Err (lit "Entrée introuvable pour mise à jour"))
    ∧ parse_path fs' (lit "test_dir/test_dir_file") None = Done (Some (mkFileInfo (lit "test_dir_file") false 5 5)).
Proof.
  destruct (write_file_long_name Image.fs Image.n Image.D (lit "test_dir/test_dir_file") (lit "test_dir")
    (lit "test_dir_file") 4 (mkFileInfo (lit "test_dir_file") false 5 5) (lit "TEST_DIR   ") (lit "hello world")
    Image.fs_volume Image.fs_tree ltac:(vm_compute; reflexivity)
    ltac:(apply (parent_sub _ _ (mkFileInfo (lit "test_dir") true 0 4)); [vm_compute; discriminate|vm_compute; reflexivity|reflexivity])
    ltac:(vm_compute; reflexivity) ltac:(reflexivity) ltac:(split; [discriminate|reflexivity])
    ltac:(apply (bool_decide_unpack _); vm_compute; exact I) ltac:(apply lit_bytes)
    ltac:(vm_compute; reflexivity) ltac:(apply (bool_decide_unpack _); vm_compute; exact I))
    as (fs' & E & _ & _ & _ & Hp).
  exists fs'. split; [exact E|]. rewrite (Hp (lit "test_dir/test_dir_file") None); [discriminate|vm_compute; reflexivity].
Defined.

(** ** The console and the shell *)

Lemma write_string_scrolls_witness :
  ∃ w', write_string (lit "hello") Screen.writer = Done w'
    ∧ shows w' (type_text 14 Screen.start (lit "hello")).
Proof. exact (write_string_scrolls (lit "hello") Screen.writer Screen.start Screen.writer_shows). Defined.

Lemma cd_stays_in_tree_witness :
  ∃ r, cd Screen.session (lit "test_dir") Screen.world = Done (Screen.world, r)
    ∧ match r with
      | Ok self' => session_ok Screen.world self' Image.n Image.D Screen.start
      | Err e => e = lit "Entry not found" ∨ e = lit "Not a directory"
      end.
Proof. exact (cd_stays_in_tree _ _ _ _ _ (lit "test_dir") Screen.session_fine). Defined.

Lemma cd_compose_witness :
  cd Screen.session (lit "test_dir" ++ slash :: lit "..") Screen.world =
    cd (mkSession 4) (lit "..") Screen.world.
Proof.
  apply (cd_compose Screen.world Screen.session (mkSession 4)); done.
Defined.


Lemma ls_empty_file_panics_witness :
  @ls true Screen.session (Some (lit "EMPTY")) Screen.world = Panic ArithmeticOverflow.
Proof.
  apply (ls_empty_file_panics Screen.world Screen.session (lit "EMPTY") (mkFileInfo (lit "EMPTY") false 0 0));
    [done|vm_compute; reflexivity|done].
Defined.

Lemma touch_write_cat_witness :
  ∃ w1 w2 w3, touch Screen.session [] Image.new_name Screen.world = Done (w1, Ok tt)
    ∧ write Screen.session Image.new_name (lit "hello") w1 = Done (w2, Ok tt)
    ∧ cat 10 (mkSession 4) Image.new_name w2 = Done (w3, Ok tt)
    ∧ shows (console w3) (type_text 14 Screen.start (lit "hello" ++ [10])).
Proof.
  exact (touch_write_cat Screen.world Screen.session (mkSession 4) _ _ _ _ _ _ _ _ _ _ _ _ _ _
    Image.new_name [] (lit "hello") eq_refl Screen.writer_shows Image.fs_fresh
    ltac:(vm_compute; reflexivity) ltac:(vm_compute; reflexivity) (parent_root Image.fs [] eq_refl)
    Image.fs_first_entry (lit_bytes _) ltac:(done) ltac:(vm_compute; discriminate)).
Defined.
