(* ===== verification/WitnessFs.v ===== *)
(** * Witnesses for the refinement of the file system

    A small image that only holds plain entries: a file of two clusters and a
    directory with a file in it. *)

From S2P Require Import Prelude Machine Str Volume DirEntry Names DirSpec Path Stability.
From S2P Require Import FileOps FileOpsSpec WriteSpec CreateSpec FsModel FsAbs FsFrame FsRefine.
From S2P Require Import FsWrite FsSim FsCheck Vga Shell ShellSpec Sample.

Module Small.
Definition root_records : list record :=
  [ Short (Image.short "BIG     BIN" 0x20 3 600);
    Deleted (0xE5 :: drop 1 (Image.short "OLD     TXT" 0x20 0 0));
    Short (Image.short "SUB        " 0x10 5 0) ].

Definition sub_records : list record :=
  [ Short (Image.short ".          " 0x10 5 0);
    Short (Image.short "..         " 0x10 0 0);
    Short (Image.short "NOTE    TXT" 0x20 6 5) ].

Definition fat : list Z :=
  Image.fill 512 ([0x0FFFFFF8; 0x0FFFFFFF; 0x0FFFFFF8; 4; 0x0FFFFFFF; 0x0FFFFFFF; 0x0FFFFFFF]
    ≫= u32_to_le).

(** Clusters 2 (root), 3 and 4 (BIG.BIN), 5 (SUB), 6 (NOTE.TXT), and five free
    ones. *)
Definition disk : list Z :=
  Image.fill 512 (boot_sector Image.params) ++ fat ++ Image.cluster_of root_records
  ++ Image.fill 1024 (replicate 600 65) ++ Image.cluster_of sub_records
  ++ Image.fill 512 (lit "hello") ++ replicate 2560 0.

Definition fs : Fat32FileSystem := mounted Image.params disk.
Definition n : Z := 10.
Definition D : gset Z := list_to_set [2; 5].

Lemma fs_wf : well_formed fs n D.
Proof. apply well_formedb_sound. vm_compute. reflexivity. Qed.

(** NOTE.TXT, as [SUB] lists it. *)
Definition note : FileInfo := mkFileInfo (lit "NOTE.TXT") false 5 6.

(** The volume after [mkdir docs]. *)
Definition with_docs : Fat32FileSystem :=
  match run_op (Mkdir [] (lit "docs")) fs with Done (fs', _) => fs' | _ => fs end.

Lemma docs_new : new_name (abstract fs n D) [] (lit "docs").
Proof.
  move=> p d s [<-] /dirs_in [_ ->] E. injection E as <-. vm_compute. reflexivity.
Qed.
End Small.

Lemma fs_refines_witness :
  let os := [Mkdir [] (lit "docs"); CreateFile [] (lit "new.txt");
             WriteFile (lit "NEW.TXT") (lit "hi")] in
  ∃ fs' rs A', run_ops os Small.fs = Done (fs', rs)
    ∧ asteps (abstract Small.fs Small.n Small.D) os rs A'
    ∧ (∃ D', well_formed fs' Small.n D' ∧ A' = abstract fs' Small.n D')
    ∧ ∀ path cur, (∀ c, cur = Some c → c ∈ Small.D) →
        read_file (Z.to_nat Small.n) fs' path cur = Done (fetch A' path cur).
Proof.
  intros os. apply (fs_refines os Small.fs Small.n Small.D Small.fs_wf).
  apply respects_rooted; [|vm_compute; lia].
  repeat constructor; try discriminate; vm_compute; intros; discriminate.
Defined.



