(* ===== verification/WitnessAlloc.v ===== *)
(** * Witnesses of the allocator properties

    Small heaps on which a few requests are served. *)

From S2P Require Import Prelude Machine Str Alloc Bump LinkedList LinkedMem FixedBlock FixedMem DList Rings Slab.
From S2P Require Import SlabRep SlabSpec Sample.

(** ** Alignment *)

Lemma align_up_spec_witness :
  ∃ r, align_up 13 8 = Done r ∧ 13 <= r < 13 + 8 ∧ r mod 8 = 0
    ∧ ∀ m, 13 <= m → m mod 8 = 0 → r <= m.
Proof. exact (align_up_spec 13 8 ltac:(lia) ltac:(lia) ltac:(lia)). Defined.

(** ** Requests *)

(** A word, three words at 16, a page at 64. *)
Definition word : Layout := mkLayout 8 8.
Definition triple : Layout := mkLayout 24 16.
Definition page : Layout := mkLayout 4096 64.

Lemma word_ok : layout_ok word.
Proof. split; [by exists 3|done|done]. Qed.
Lemma triple_ok : layout_ok triple.
Proof. split; [by exists 4|done|done]. Qed.
Lemma page_ok : layout_ok page.
Proof. split; [by exists 6|done|done]. Qed.

Definition requests : list request := [Alloc word; Alloc triple; Free 0; Alloc page; Alloc triple].

Ltac serve_all :=
  eexists _, _; repeat (eapply serves_cons;
    [first [eapply serve_block; vm_compute; reflexivity
           | eapply (serve_free _ [] _ _ _ _ 0 eq_refl); vm_compute; reflexivity]|]);
  apply serves_nil.

(** ** Bump *)

Definition bump0 : BumpAllocator := mkBump 4096 (4096 + 8192) 4096 0.

Lemma bump_served : ∃ a live, serves bump0 [] requests a live.
Proof. serve_all. Qed.

Lemma bump_clients_witness :
  ∃ a live, serves bump0 [] requests a live
    ∧ Forall (block_ok 4096 (4096 + 8192)) live ∧ pairwise_apart (extent <$> live).
Proof.
  destruct bump_served as (a & live & Hs). exists a, live. split; [exact Hs|].
  destruct (bump_clients 4096 8192 bump0 requests a live ltac:(lia) ltac:(lia) ltac:(lia)
    ltac:(vm_compute; reflexivity)
    ltac:(repeat (constructor; [first [apply word_ok|apply triple_ok|apply page_ok|exact I]|]); constructor)
    Hs) as (H1 & H2 & _).
  split; [exact H1|exact H2].
Defined.

(** ** Linked list *)

Definition ll0 : LinkedListAllocator := mkLinkedList [mkNode 4096 8192].

Lemma ll_served : ∃ a live, serves ll0 [] requests a live.
Proof. serve_all. Qed.

Lemma ll_clients_served :
  ∃ a live, serves ll0 [] requests a live
    ∧ Forall (block_ok 4096 (4096 + 8192)) live ∧ pairwise_apart (extent <$> live).
Proof.
  destruct ll_served as (a & live & Hs). exists a, live. split; [exact Hs|].
  destruct (linked_list_clients 4096 8192 ll0 requests a live ltac:(lia) ltac:(done) ltac:(lia)
    ltac:(lia) ltac:(vm_compute; reflexivity)
    ltac:(repeat (constructor; [first [by split; [first [apply word_ok|apply triple_ok|apply page_ok]|]
                                      |exact I]|]); constructor)
    Hs) as (H1 & H2 & _).
  split; [exact H1|exact H2].
Defined.

Lemma ll0_inv : ll_inv 4096 12288 ll0 [].
Proof. split; repeat constructor; rw /inside /=; lia. Qed.

Lemma linked_list_first_fit_witness :
  ∃ pre n post, head_next ll0 = pre ++ n :: post ∧ ll_alloc triple ll0 =
    Done (mkLinkedList [mkNode 4128 8160], Some 4096).
Proof.
  destruct (linked_list_first_fit 4096 12288 ll0 [] triple ltac:(lia) ll0_inv triple_ok ltac:(done))
    as [[_ E]|(pre & n & post & E & _ & _ & E')].
  - vm_compute in E. discriminate.
  - exists pre, n, post. split; [exact E|]. vm_compute. reflexivity.
Defined.

(** The same requests on the list in memory; the client of the first block
    overwrites the node that was there. *)
Lemma overwritten_at {X} k p (x : X) live b m :
  b ∈ live → ¬ apart (p, k) (extent b) → overwritten k live m (<[p := x]> m).
Proof.
  move=> Hb Hp q y Hq Hl. case: (decide (q = p)) => [E|?]; [|by rw lookup_insert_ne].
  subst q. destruct Hp. by move: Hl => /Forall_forall; apply.
Qed.

Ltac use_request :=
  eapply uses_request;
    [first [eapply serve_block; vm_compute; reflexivity
           | eapply (serve_free _ [] _ _ _ _ 0 eq_refl); vm_compute; reflexivity]|].

Definition ml0 : MemList := mkMemList (mkFreeNode 0 (Some 4096)) {[4096 := mkFreeNode 8192 None]}.

Lemma ml_used : ∃ a live, uses mem_overwrite ml0 [] requests a live.
Proof.
  eexists _, _. use_request.
  eapply (uses_write _ _ _ (mkMemList _ (<[4096 := mkFreeNode 77 (Some 77)]> _))).
  { split; [reflexivity|]. eapply overwritten_at; [by left|]. rw /apart /NODE_SIZE /=. lia. }
  do 4 use_request. apply uses_nil.
Qed.

Lemma linked_mem_clients_witness :
  ∃ a live, uses mem_overwrite ml0 [] requests a live
    ∧ Forall (block_ok 4096 (4096 + 8192)) live ∧ pairwise_apart (extent <$> live).
Proof.
  destruct ml_used as (a & live & Hs). exists a, live. split; [exact Hs|].
  destruct (linked_mem_clients 4096 8192 ml0 requests a live ltac:(lia) ltac:(done) ltac:(lia)
    ltac:(lia) ltac:(vm_compute; reflexivity)
    ltac:(repeat (constructor; [first [by split; [first [apply word_ok|apply triple_ok|apply page_ok]|]
                                      |exact I]|]); constructor)
    Hs) as (H1 & H2 & _).
  split; [exact H1|exact H2].
Defined.

(** ** Fixed-size blocks over the linked list *)

Definition fixed0 : FixedSizeBlockAllocator LinkedListAllocator := mkFixed (replicate 9 []) ll0.

Lemma fixed_served : ∃ a live, serves fixed0 [] requests a live.
Proof. serve_all. Qed.

Lemma fixed_clients_served :
  ∃ a live, serves fixed0 [] requests a live
    ∧ Forall (block_ok 4096 12288) live ∧ pairwise_apart (extent <$> live).
Proof.
  destruct fixed_served as (a & live & Hs). exists a, live. split; [exact Hs|].
  pose (S := ll_spec 4096 12288 ltac:(lia)).
  assert (∀ bs, bs ∈ BLOCK_SIZES → ll_accepts (mkLayout bs bs)) as Hbs.
  { intros bs Hbs. destruct (block_sizes_pow bs Hbs) as [_ Hb].
    unfold ll_accepts, ll_align, isize_max, NODE_ALIGN. cbn [size align]. lia. }
  destruct (@fixed_block_clients _ _ ll_new ll_init 4096 12288 S ll0 8192 fixed0 requests a live ltac:(lia)
    Hbs ltac:(vm_compute; reflexivity) ll0_inv ltac:(vm_compute; reflexivity)
    ltac:(repeat (constructor; [first [by split; [first [apply word_ok|apply triple_ok|apply page_ok]|]
                                      |exact I]|]); constructor)
    Hs) as (H1 & H2 & _).
  split; [exact H1|exact H2].
Defined.

(** The links in memory, over the list in memory.  A block of a word is freed
    and taken again, and its client overwrites the link that was in it. *)
Definition fm_requests : list request := [Alloc word; Free 0; Alloc word; Alloc triple; Alloc page].

Definition fm0 : FixedMem MemList := mkFixedMem (replicate 9 None) ∅ ml0.

Lemma fm_used : ∃ a live, uses fm_overwrite fm0 [] fm_requests a live.
Proof.
  eexists _, _. do 3 use_request.
  eapply (uses_write _ _ _ (mkFixedMem _ (<[4096 := Some 77]> _) _)).
  { split; [reflexivity|]. split; [reflexivity|]. eapply overwritten_at; [by left|]. rw /apart /BLOCK_NODE /=. lia. }
  do 2 use_request. apply uses_nil.
Qed.

Lemma ml0_inv : mem_inv 4096 12288 ml0 [].
Proof.
  exists [mkNode 4096 8192]. split; [|exact ll0_inv]. split; [done|]. exists None. by split; [vm_compute|].
Qed.

Lemma fixed_mem_clients_witness :
  ∃ a live, uses fm_overwrite fm0 [] fm_requests a live
    ∧ Forall (block_ok 4096 12288) live ∧ pairwise_apart (extent <$> live).
Proof.
  destruct fm_used as (a & live & Hs). exists a, live. split; [exact Hs|].
  pose (S := mem_spec 4096 12288 ltac:(lia)).
  destruct (@fixed_mem_clients _ _ mem_new mem_init 4096 12288 S ml0 8192 fm0 fm_requests a live ltac:(lia)
    ltac:(vm_compute; reflexivity) ml0_inv ltac:(vm_compute; reflexivity)
    ltac:(repeat (constructor; [first [by split; [first [apply word_ok|apply triple_ok|apply page_ok]|]
                                      |exact I]|]); constructor)
    Hs) as (H1 & H2 & _).
  split; [exact H1|exact H2].
Defined.

Lemma fixed_block_reuse_witness :
  ∃ a', fixed_dealloc 4096 word fixed0 = Done a'
    ∧ fixed_alloc (mkLayout 5 4) a' = Done (fixed0, Some 4096).
Proof.
  exact (fixed_block_reuse fixed0 4096 word (mkLayout 5 4) 0 ltac:(done) ltac:(vm_compute; reflexivity)
    ltac:(vm_compute; reflexivity)).
Defined.

(** ** Slab lists *)

(** The sentinel 16, the node 32 and a node 48 outside of the list. *)
Definition ring : nodes :=
  {[16 := mkListNode 32 32; 32 := mkListNode 16 16; 48 := ListNode_new]}.

Lemma ring_dlist : dlist ring 16 [32].
Proof. split; [by apply (bool_decide_unpack _); vm_compute|by vm_compute]. Qed.


(** ** Slab *)

(** Two halves of a page, one given back, and a large block, in eight pages. *)
Definition half : Layout := mkLayout 2048 8.
Definition large : Layout := mkLayout 5000 16.

Lemma half_ok : layout_ok half.
Proof. split; [by exists 3|done|done]. Qed.
Lemma large_ok : layout_ok large.
Proof. split; [by exists 4|done|done]. Qed.
Lemma half_accepted : slab_accepts (4096 + 32768) half.
Proof. split; [by move=> _; vm_compute|by move=> /Z.lt_irrefl]. Qed.
Lemma large_accepted : slab_accepts (4096 + 32768) large.
Proof. split; [by move=> H; exfalso; apply H|done]. Qed.

(** A [VirtAddr::new] that accepts the lower half of the address space. *)
Definition low_virt : VirtAddr := λ a, if in_width 47 a then Done a else Panic (Explicit "not canonical").

#[export] Instance low_virt_ok : @VirtAddrOk low_virt.
Proof. move=> a Ha. rw /virt_new /low_virt /in_width. by ztrue. Qed.

#[local] Existing Instance low_virt.

Definition slab0 : SlabAllocator :=
  mkSlabAllocator (Some (mkPages 4096 (4096 + 32768))) (replicate 9 0) (mkMemory ∅ ∅ ∅ ∅).

Definition slab_requests : list request := [Alloc half; Alloc half; Free 0; Alloc large].

Lemma slab_served : ∃ a live, serves slab0 [] slab_requests a live.
Proof. serve_all. Qed.


(** A word, three words and a word again, all from the cache for words. *)
Lemma slab_irregular_overlap_witness :
  ∃ a1 a2 a3 p q r, slab_alloc word slab0 = Done (a1, Some p) ∧ slab_alloc (mkLayout 24 8) a1 = Done (a2, Some q)
    ∧ slab_alloc word a2 = Done (a3, Some r) ∧ overlap (q, 24) (r, 8).
Proof.
  apply (slab_irregular_overlap 4096 32768 slab0 word (mkLayout 24 8) ltac:(lia) ltac:(done) ltac:(done) ltac:(lia)
    ltac:(vm_compute; reflexivity) ltac:(apply (bool_decide_unpack _); vm_compute; exact I)
    ltac:(by exists 1) ltac:(done) ltac:(apply (bool_decide_unpack _); vm_compute; exact I) ltac:(vm_compute; reflexivity)).
Defined.
