(* ===== verification/WitnessKernel.v ===== *)
(** * Witnesses of the memory and boot properties

    A memory map of 256 MiB, page tables as a map, and the boot of the kernel on
    the sample image. *)

From S2P Require Import Prelude Machine Str Volume DirEntry Names DirSpec Path Stability.
From S2P Require Import FileOps FileOpsSpec WriteSpec CreateSpec Vga Shell.
From S2P Require Import Alloc DList Slab SlabRep SlabSpec Memory Heap Interrupts Atomic Tables Kernel Harness Sample WitnessAlloc.

(** ** Physical memory *)

(** Regions as start, end and whether they are usable; a frame is its address. *)
Definition region : Type := Z * Z * bool.

#[export] Instance sample_regions : MemoryRegions region := {
  RegionType := bool;
  Usable := true;
  region_type := snd;
  start_addr r := r.1.1;
  end_addr r := r.1.2;
}.

#[export] Instance sample_frames : PhysFrames Z := λ x, Done x.

Definition sample_map : list region :=
  [(0, 0x9f000, true); (0x9f000, 0x100000, false); (0x100000, 0x10000000, true)].

Lemma sample_map_ok : map_ok id sample_map.
Proof. by move=> x _. Qed.

Lemma sample_regions_disjoint : disjoint_regions sample_map.
Proof.
  split; [|by repeat (apply pairwise_apart_cons; split; [repeat (constructor; [rw /apart /=; lia|]); constructor|]); constructor].
  move=> r. rw /sample_map !elem_of_cons => -[->|[->|[->|/elem_of_nil //]]]; by vm_compute.
Qed.

(** A small part of it. *)
Definition small_map : list region := [(0, 0x3000, true); (0x3000, 0x5000, false); (0x5000, 0x8000, true)].

Lemma small_regions_disjoint : disjoint_regions small_map.
Proof.
  split; [|by repeat (apply pairwise_apart_cons; split; [repeat (constructor; [rw /apart /=; lia|]); constructor|]); constructor].
  move=> r. rw /small_map !elem_of_cons => -[->|[->|[->|/elem_of_nil //]]]; by vm_compute.
Qed.

Lemma frames_enumerate_witness :
  (∃ a, allocate_frame (mkBootInfo small_map (Z.of_nat 4)) = Done (a, usable_frames id small_map !! 4%nat)
     ∧ a = mkBootInfo small_map (Z.of_nat 4 + 1))
  ∧ usable_frames id small_map !! 4%nat = Some 0x6000.
Proof.
  split; [|vm_compute; reflexivity].
  exact (proj1 (frames_enumerate id small_map 4 small_regions_disjoint ltac:(intros x _; reflexivity) ltac:(lia))).
Defined.

(** ** Page tables *)

(** Pages by number; no frames are needed for tables. *)
#[export] Instance sample_paging `{FrameAllocator A Z} : Paging (gmap Z Z) A Z Z unit := {
  containing_page x := x / 4096;
  range_inclusive p q := seqZ p (q - p + 1);
  map_to page frame _ m fa := Done (<[page := frame]> m, fa, Ok tt);
  FrameAllocationFailed := tt;
}.

#[export] Instance sample_supply : FrameSupply (BootInfoFrameAllocator region) Z := boot_supply id.

#[export] Instance sample_paging_spec : PagingSpec (M := gmap Z Z) (A := BootInfoFrameAllocator region)
  (Page := Z) (Frame := Z) (E := unit).
Proof.
  refine {| translate m p := m !! p |}. move=> n page frame flags m fa _ [? [? ?]] _.
  eexists _, _, 0%nat. split; [done|]. split; [apply lookup_insert_eq|].
  split; [move=> q ?; by rw lookup_insert_ne|]. split; [lia|]. split; [done|].
  split; [done|]. split; [lia|done].
Defined.

(** Pages by number are pages of 4096 bytes. *)
#[export] Instance sample_page_laws `{FrameAllocator A Z} `{!FrameSupply A Z}
    `{!PagingSpec (M := gmap Z Z) (A := A) (Page := Z) (Frame := Z) (E := unit)} :
  PageLaws (M := gmap Z Z) (A := A) (Page := Z) (Frame := Z) (E := unit).
Proof.
  split; rw /containing_page /range_inclusive /=.
  - done.
  - move=> lo hi p ? ? ?. rw elem_of_seqZ. split.
    + move=> ?. exists (p * 4096). have E1 : p * 4096 / 4096 = p by apply Z.div_mul. rw E1. split; [lia|done].
    + move=> [a [? ->]]. lia.
  - move=> p q. apply NoDup_seqZ.
Qed.

#[local] Existing Instance low_virt.

Definition sample_pages : list Z := seqZ (HEAP_START / 4096) 10240.

Lemma sample_supply_eq : supply (frames_init sample_map) = usable_frames id sample_map.
Proof. by rw /supply /sample_supply /boot_supply /frames_init drop_0. Qed.

Lemma sample_supply_NoDup : NoDup (supply (frames_init sample_map)).
Proof. rw sample_supply_eq /usable_frames list_fmap_id. apply usable_addresses_NoDup, sample_regions_disjoint. Qed.

Lemma sample_supply_enough : (4 * length sample_pages <= length (supply (frames_init sample_map)))%nat.
Proof.
  rw sample_supply_eq /usable_frames length_fmap /usable_addresses /sample_map.
  rw filter_cons_True; [done|]. rw filter_cons_False; [done|]. rw filter_cons_True; [done|].
  rw filter_nil !bind_cons !length_app.
  have Hl : ∀ lo hi, length (step_by lo hi) = Z.to_nat ((hi - lo + 4095) / 4096)
    by move=> lo hi; rw length_fmap length_seqZ.
  rw !Hl /sample_pages length_seqZ /start_addr /end_addr /sample_regions. cbn [fst snd length].
  have -> : (0x9f000 - 0 + 4095) / 4096 = 159 by []. have -> : (0x10000000 - 0x100000 + 4095) / 4096 = 65280 by []. lia.
Qed.

Lemma sample_heap_ready : heap_ready (M := gmap Z Z) (E := unit) ∅ (frames_init sample_map).
Proof.
  split; [apply Forall_forall; intros p _; apply lookup_empty|exact sample_supply_NoDup| |exact sample_supply_enough].
  split; [done|split; [vm_compute; reflexivity|apply sample_map_ok]].
Qed.

(** The last byte of the heap is mapped. *)
Lemma init_heap_maps_witness :
  ∃ m' fa' a', init_heap (∅ : gmap Z Z) (frames_init sample_map) ALLOCATOR = Done (m', fa', Locked_new a', Ok tt)
    ∧ page_alloc a' = Some (mkPages HEAP_START (HEAP_START + HEAP_SIZE))
    ∧ is_Some (m' !! ((HEAP_START + HEAP_SIZE - 1) / 4096)).
Proof.
  destruct (init_heap_maps (∅ : gmap Z Z) (frames_init sample_map) sample_heap_ready)
    as (m' & fa' & a' & E & Hm & _ & _ & Ha).
  exists m', fa', a'. split; [exact E|]. split; [exact Ha|].
  destruct (Hm (HEAP_START + HEAP_SIZE - 1) ltac:(split; vm_compute; congruence)) as (f & Ef & _).
  exists f. exact Ef.
Defined.

(** ** Processor tables *)

(** Segments: stacks by index, descriptors, and tables of eight slots, the
    first unused. *)
Inductive segment := KernelCode | TaskState (stacks : gmap Z Z).

Definition entries (d : segment) : list (option segment) :=
  match d with KernelCode => [Some d] | TaskState _ => [Some d; None] end.

#[export] Instance sample_descriptors : Descriptors := {
  TaskStateSegment := gmap Z Z;
  tss_new := ∅;
  set_interrupt_stack i a t := <[i := a]> t;
  interrupt_stack t i := default 0 (t !! i);
  Descriptor := segment;
  kernel_code_segment := KernelCode;
  tss_segment := TaskState;
  is_code d := if d is KernelCode then true else false;
  as_tss d := if d is TaskState t then Some t else None;
  slots d := length (entries d);
  GlobalDescriptorTable := list (option segment);
  SegmentSelector := nat;
  gdt_new := [];
  room g := (7 - length g)%nat;
  add_entry d g :=
    if (length g + length (entries d) <=? 7)%nat then Done (g ++ entries d, length g)
    else Panic (Explicit "GDT full");
  descriptor_at g s := mjoin (g !! s);
}.

#[export] Instance sample_descriptor_laws : DescriptorLaws.
Proof.
  split; [|done..|].
  - move=> i a t _. rw /interrupt_stack /=. by rw lookup_insert_eq.
  - move=> d g. rw /room /slots /add_entry /=. have Hm : head (entries d) = Some (Some d) by case: d.
    have ? : (1 <= length (entries d))%nat by case: d {Hm} => *; cbn; lia.
    move=> Hl. have -> : (length g + length (entries d) <=? 7)%nat = true by apply Nat.leb_le; lia.
    eexists _, _. split; [done|]. split; [|split].
    + rw /descriptor_at /= lookup_app_r // Nat.sub_diag -head_lookup. by rw Hm.
    + rw length_app. lia.
    + move=> s' d'. rw /descriptor_at /=. case E: (g !! s') => [o|] //= Eo. by rw (lookup_app_l_Some _ _ _ _ E).
Qed.

#[export] Instance sample_gates : GateTables handler := {
  InterruptDescriptorTable := gmap Z (handler * option Z);
  idt_new := ∅;
  set_handler_fn v h t := <[v := (h, None)]> t;
  set_stack_index v i t := alter (λ g, (g.1, Some i)) v t;
  gate_at t v := t !! v;
}.

#[export] Instance sample_gate_laws : GateLaws handler.
Proof.
  split; rw /gate_at /set_handler_fn /set_stack_index /=.
  - move=> v. apply lookup_empty.
  - move=> v h t _. apply lookup_insert_eq.
  - move=> v v' h t ?. by apply lookup_insert_ne.
  - move=> v i t h s E. by rw lookup_alter_eq E.
  - move=> v v' i t ?. by apply lookup_alter_ne.
Qed.

Lemma init_safe_witness :
  ∃ es s, init 0x200000 = Done es ∧ apply_effects es (mkSystem None None None None None false) = Some s
    ∧ flag s = true ∧ dispatch s double_fault_vector = Some (DoubleFaultHandler, Some 0x205000).
Proof.
  destruct (init_safe 0x200000 (mkSystem None None None None None false) ltac:(done) ltac:(done) ltac:(done))
    as (es & s & E & Ea & Hf & (_ & _ & _ & Hd) & _).
  exists es, s. split; [exact E|]. split; [exact Ea|]. split; [exact Hf|exact Hd].
Defined.

(** ** The heap *)

(** A hundred thousand frames, numbered from zero on. *)
#[export] Instance counting : FrameAllocator Z Z := λ n,
  if n <? 100000 then Done (n + 1, Some (4096 * n)) else Done (n, None).

#[export, program] Instance counting_supply : FrameSupply Z Z := {
  supply n := (λ i, 4096 * i) <$> seqZ n (100000 - n);
  ready k n := 0 <= n;
}.
Next Obligation.
  cbn. move=> k n ?. rw /allocate_frame /counting. case_test.
  - eexists. split; [by rw seqZ_cons; [lia|]|]. rw (seqZ_cons n); [lia|]. cbn [fmap list_fmap tail].
    by split; [do 2 f_equal; lia|lia].
  - eexists. rw (seqZ_nil n); [lia|]. split; [done|]. by rw seqZ_nil; [lia|].
Qed.

#[export] Instance counting_paging_spec : PagingSpec (M := gmap Z Z) (A := Z) (Page := Z) (Frame := Z) (E := unit).
Proof.
  refine {| translate m p := m !! p |}. move=> n page frame flags m fa _ ? _.
  eexists _, _, 0%nat. split; [done|]. split; [apply lookup_insert_eq|].
  split; [move=> q ?; by rw lookup_insert_ne|]. by split; [lia|].
Defined.

Lemma counting_heap_pages :
  heap_pages (A := Z) (M := gmap Z Z) (Frame := Z) (E := unit) = Done sample_pages.
Proof. rw heap_pages_ok /range_inclusive /sample_paging /sample_pages. do 2 f_equal. Qed.

Lemma counting_NoDup : NoDup (supply (A := Z) (Frame := Z) 0).
Proof. apply NoDup_fmap_2_strong; [|apply NoDup_seqZ]. move=> x y _ _. lia. Qed.

Lemma counting_enough : (4 * length sample_pages <= length (supply (A := Z) (Frame := Z) 0%Z))%nat.
Proof.
  change (supply _) with ((λ i, 4096 * i) <$> seqZ 0 (100000 - 0)).
  rw length_fmap /sample_pages !length_seqZ. lia.
Qed.

(** The state after [init_heap], and requests that it serves. *)
Definition heap0 : SlabAllocator :=
  mkSlabAllocator (Some (mkPages HEAP_START (HEAP_START + HEAP_SIZE))) (replicate 9 0) (mkMemory ∅ ∅ ∅ ∅).

Lemma heap_started : ∃ m' fa',
  init_heap (∅ : gmap Z Z) 0 ALLOCATOR = Done (m', fa', Locked_new heap0, Ok (E := unit) tt).
Proof.
  destruct (init_heap_ok sample_pages ∅ 0 ALLOCATOR counting_heap_pages
    ltac:(apply NoDup_seqZ) ltac:(apply Forall_forall; intros p _; apply lookup_empty)
    counting_NoDup ltac:(done) counting_enough eq_refl) as (m' & fa' & a & E & _ & _ & _ & Ea & _).
  exists m', fa'. rw E. vm_compute in Ea. injection Ea as <-. reflexivity.
Qed.

Lemma half_fits : slab_accepts (HEAP_START + HEAP_SIZE) half.
Proof. split; [by move=> _; vm_compute|by move=> /Z.lt_irrefl]. Qed.
Lemma large_fits : slab_accepts (HEAP_START + HEAP_SIZE) large.
Proof. split; [by move=> H; exfalso; apply H|done]. Qed.

Lemma heap_served : ∃ l live, Alloc.serves (Locked_new heap0) [] slab_requests l live.
Proof. serve_all. Qed.

Lemma heap_is_ready : heap_ready (M := gmap Z Z) (A := Z) (E := unit) ∅ 0.
Proof.
  split; [apply Forall_forall; intros p _; apply lookup_empty|apply counting_NoDup|done|].
  exact counting_enough.
Qed.

Lemma heap_physical_witness :
  ∃ m' fa' l live, init_heap (∅ : gmap Z Z) 0 ALLOCATOR = Done (m', fa', Locked_new heap0, Ok (E := unit) tt)
    ∧ Alloc.serves (Locked_new heap0) [] slab_requests l live
    ∧ ∀ i j b c x y, live !! i = Some b → live !! j = Some c → i ≠ j →
        covers b x → covers c y → physical m' x ≠ physical m' y.
Proof.
  destruct (heap_physical (∅ : gmap Z Z) 0 heap_is_ready) as (m' & fa' & l0 & E & Hs).
  destruct heap_started as (m1 & fa1 & E1). rw E1 in E. injection E as <- <- <-.
  destruct heap_served as (l & live & Hv). exists m1, fa1, l, live. split; [exact E1|]. split; [exact Hv|].
  apply (proj2 (proj2 (Hs slab_requests l live
    ltac:(repeat (constructor; [first [by split; [apply half_ok|apply half_fits]
                                      |by split; [apply large_ok|apply large_fits]|exact I]|]); constructor)
    Hv))).
Defined.

(** ** The boot *)

(** The page tables of the bootloader map nothing of the heap. *)
#[export] Instance sample_tables : OffsetPageTables (gmap Z Z) := λ _ _, ∅.

Definition machine : BootState :=
  mkBoot 0x200000 0x1000 0x18000000000 Image.disk Screen.writer 0.

Lemma machine_bootable : bootable (M := gmap Z Z) (E := unit) machine.
Proof. split; [done|done|exact heap_is_ready|done]. Qed.

(** The script runs to its end, in the directory [test_dir]. *)
Definition ends_in (n : Z) (o : outcome (Fat32FileSystem * Z * str)) : bool :=
  match o with Done (_, cwd, _) => cwd =? n | _ => false end.

Lemma script_ended : ends_in 4 (fs ← new (raw_disk machine); boot_script 10 fs) = true.
Proof. vm_compute. reflexivity. Qed.

(** The image takes two pages of the heap. *)
Lemma image_pages : round_up (zlen (raw_disk machine)) PAGE_SIZE = 2 * 4096.
Proof. vm_compute. reflexivity. Qed.

Lemma image_small : zlen (raw_disk machine) <= HEAP_SIZE.
Proof. vm_compute. discriminate. Qed.

Lemma kernel_main_boots_witness :
  ∃ es w al, kernel_main (M := gmap Z Z) (E := unit) 10 machine = Done (es, w, mkSession 4, al)
    ∧ held (shared w) = false
    ∧ page_alloc (inner (mutex al)) = Some (mkPages (HEAP_START + 2 * 4096) (HEAP_START + HEAP_SIZE)).
Proof.
  destruct (proj2 (kernel_main_boots (M := gmap Z Z) (E := unit) 10 machine Screen.start machine_bootable
    Screen.writer_shows) image_small) as (es & a & _ & Ha & Hk). rewrite image_pages in Ha.
  pose proof script_ended as He. revert He Hk.
  generalize (fs ← new (raw_disk machine); boot_script 10 fs) as o.
  intros [[[fs' cwd] text]|p|] He; [|discriminate He|discriminate He].
  apply Z.eqb_eq in He as ->. intros (c & Ek & _). eexists es, _, _. split; [exact Ek|].
  split; [reflexivity|]. exact Ha.
Defined.

(** ** Interrupts *)

(** A keyboard that prints scan codes as they are. *)
#[export] Instance echo : KeyboardDriver unit := λ b c, (b, Some [[c]]).

Definition program : list action :=
  [Print Vga [lit "hello"]; Breakpoint [lit "frame"]; Print Uart [lit "world"; [10]]].

(** A key is pressed when the program has printed nothing yet. *)
Definition interrupted_cpu : cpu unit :=
  mkCpu false ∅ {[as_u8 Keyboard]} Screen.writer [] tt (mkActivation (keyboard_interrupt_handler 65) false)
    [(true, mkActivation (program ≫= action_code) false)].

Lemma interrupted_reached : rtc cpu_step (boot_cpu Screen.writer [] tt program) interrupted_cpu.
Proof. apply rtc_once. right. exact (deliver_keyboard ∅ ∅ _ _ _ _ _ 65 ltac:(set_solver)). Qed.

Lemma printing_never_deadlocks_witness :
  ∃ s', rtc cpu_step interrupted_cpu s' ∧ finished s' ∧ locks s' = ∅ ∧ enabled s' = true.
Proof.
  apply (printing_never_deadlocks Screen.writer Screen.start [] tt program interrupted_cpu
    Screen.writer_shows interrupted_reached).
Defined.

(** A page fault in the program, outside of its critical sections. *)
Lemma page_fault_reports_witness :
  ∃ s', rtc exec (raise (page_fault_handler [lit "0xdead"] [lit "0"] [lit "frame"])
                    (boot_cpu Screen.writer [] tt program)) s' ∧ halted s'.
Proof.
  destruct (proj1 (page_fault_reports (boot_cpu Screen.writer [] tt program) Screen.start
    [lit "0xdead"] [lit "0"] [lit "frame"] Screen.writer_shows) ltac:(set_solver)) as (s' & Hr & Hh & _).
  exists s'. split; [exact Hr|exact Hh].
Defined.

(** ** The test harness *)

Lemma lib_tests_pass_witness :
  ∃ es r, test_kernel_main (λ _, []) 0x200000 (reverse (lib_tests [lit "frame"])) Screen.writer = Done (es, r)
    ∧ exit_status r = Some 33.
Proof.
  destruct (lib_tests_pass (λ _, []) 0x200000 [lit "frame"] (reverse (lib_tests [lit "frame"])) Screen.writer
    Screen.start ltac:(apply reverse_Permutation) ltac:(lia) ltac:(done) Screen.writer_shows)
    as (es & r & E & _ & _ & _ & Hx).
  exists es, r. split; [exact E|exact Hx].
Defined.

(** The state above, where the program has printed nothing. *)
Lemma printing_atomic_witness :
  ∃ log todo, print (pieces_of Vga log.*2) Screen.writer = Done (screen interrupted_cpu)
    ∧ program_msgs program = own log ++ todo.
Proof.
  destruct (printing_atomic Screen.writer Screen.start [] tt program interrupted_cpu
    Screen.writer_shows interrupted_reached ltac:(set_solver) ltac:(set_solver)) as (log & todo & E & _ & Ep & _).
  exists log, todo. split; [exact E|exact Ep].
Defined.
